(* ===== verification/_CoqProject ===== *)
-Q . S2P
Prelude.v
RustStr.v
Float64.v
FloatText.v
Breaker.v
IpAddr.v
RateLimit.v
Platform.v
Base64.v
Session.v
Redis.v
Config.v
Json.v
X402.v
Sui.v
Facilitator.v
Stores.v
World.v
Auth.v
ExtProc.v
FacilitatorApi.v
Main.v
Program.v
Handlers.v
Schedule.v
Concurrent.v
Metrics.v
Gateway.v
Typing.v
Spending.v
Revenue.v
Allowance.v
Fleet.v
Boot.v
Progress.v
Outage.v
PayClient.v
Pay.v
Demo.v
EndToEnd.v
Testing.v
TestsStores.v
TestsConfig.v
TestsWire.v
TestsGateway.v
TestsClient.v
