(* ===== verification/Prelude.v ===== *)
(** * A verification of sui-x402-verifier

    The program is a payment gateway's policy engine.  Envoy asks it, for each
    HTTP request, whether to let the request through: it may carry the token
    of a paid session, it may carry a payment (an x402 payload: a signed Sui
    transaction in a base64(JSON) header), or neither, in which case a free
    allowance per client address applies.  Payments are verified against, and
    settled on, a Sui fullnode, at most once each; a settled payment buys a
    session with a quota and a deadline.

    ** The parts, and where they are

    Foundations, with nothing of the program in them:
    - [Prelude] (this file): [result], the state monad [M] with its notations
      ([<--], [<-!], [<-?]), machine arithmetic ([sat_add], [u64_mul],
      [wrap_i128]), [keeps] (what a handler leaves alone), hint databases
      [x402] and [x402_simpl], the tactics [branch] and [step];
    - [RustStr], [Float64], [FloatText], [IpAddr]: the standard library the
      code uses, strings as UTF-8 bytes, [f64] as correctly rounded rationals
      and as read from text, addresses;
    - [Platform]: hex, base64, SHA-256 and HMAC as a class [Codecs] with their
      laws [CodecLaws]; [Base64] is an instance with RFC 4648's base64; [Json]:
      serde_json as a class, serde's conventions for derived types as
      definitions.

    The program, one file per component:
    - [Breaker] is src/breaker.rs: a [Window] per policy, [state_at],
      [record_at]; [Spec] is the abstract breaker;
    - [RateLimit] is the in-memory half of src/ratelimit.rs: [check_at],
      [check_entry] (what it does under the entry's lock), [cleanup_idle_at];
    - [Session] is the in-memory half of src/session.rs: [mint], [verify],
      [create_session_at], [consume_at], [claim_payment_at],
      [release_payment], [cleanup_expired_at], and [spend_one] both as its
      effect and, in [Spend], as interleaved compare-exchange steps;
    - [Redis] is the other half of both files: the Lua scripts
      [CLAIM_SCRIPT], [SPEND_SCRIPT], [CHECK_SCRIPT] and the code around them;
    - [Stores] is the enums [SessionStore] and [RateLimiter], and the
      interface the handlers are verified against: [SessionBackend] and
      [RateBackend] (operations), [SingleUse] and [RateAnswers] (promises),
      with instances for memory, Redis and the enums;
    - [Config] is src/config.rs: [validate], [with_env], [policy_for],
      [hmac_key]; [runnable] is what validation means;
    - [X402] and [Facilitator] are src/x402.rs: the wire types and their
      readers and writers, [payment_id], errors with codes and texts;
      [check_terms], [verify], [settle];
    - [Sui] is src/sui.rs: the four verification steps, the liveness of
      pinned inputs, execution.  Each remote call is logged in [calls];
    - [World] is [AppState] of src/auth.rs, the clock of src/util.rs and the
      counters of src/metrics.rs.  Clock and random bytes are sequences of
      readings, so a theorem says which monotonicity it needs;
    - [Auth] is src/auth.rs: [decide] in its numbered stages ([try_session],
      [claim_stage], [deferred_stage], [immediate_stage], [free_stage]),
      [decision_to_response], [check] (the ext_authz callout);
    - [ExtProc] is src/ext_proc.rs: [handle_request_headers],
      [handle_response_headers], [process] (a stream of messages);
    - [FacilitatorApi] is src/facilitator_api.rs: [api_verify], [api_settle],
      [api_supported], [policies_view];
    - [Main] is src/main.rs as far as it decides something: [startup],
      [build_stores], [gateway_main] (what is listened on), [sweep];
    - [Program] and [Handlers] are the handlers once more, each as the [Prog]
      of operations it performs on the stores, the breaker, the chain and the
      clock ([decide_prog], [check_prog], [message_prog], [api_settle_prog],
      [sweep_prog]), with the theorems that performing one without interruption
      is the handler above ([decide_prog_runs], [check_prog_runs],
      [message_prog_runs], [api_verify_prog_runs], [api_settle_prog_runs],
      [sweep_prog_runs]);
    - [Schedule] is what [main] then serves: any number of streams, callouts,
      requests to the facilitator's interface and sweeps, one operation of one
      of them at a time ([advance]), in any order, any of them dropped between
      two operations ([Drop]); [play] runs a schedule and records its events.
      [Rule] is the proof rule for invariants of every schedule, over a
      [Discipline] of ghosts that the handlers keep ([wp]);
    - [Gateway] serves whole handlers: an [Event] is a message on one of the
      open streams, a callout, a request or a tick of the sweep; [act] is one
      event on the shared state, [serve] a sequence of them, and
      [serve_is_a_schedule];
    - [Metrics] is src/metrics.rs: what is described, the buckets, and the
      labels of each metric with their closed sets of values;
    - [Fleet] is the service scaled out, the [StoreBackend] of src/config.rs:
      replicas with a breaker and handlers of their own, on shared stores
      ([shared_stores]) or each on its own ([private_stores]), restarted at any
      moment; [fleet_keeps] turns an invariant of [Schedule] into one of fleets;
    - [Boot] is where [startup] meets the schedules: [booted], [booted_fleet];
    - [PayClient] is src/payclient.rs: [check] and [build_payment] (which
      funding path), [gasless_calls] and [coin_object_calls] (what is built),
      [load_key], [send] (one HTTP attempt, and what is read of the answer),
      [build_payment_header]; the module [wire] holds the client's mirrors of
      the wire types;
    - [Pay] is src/bin/x402-pay.rs, [Demo] is src/bin/x402-demo.rs: their
      handlers, and for the demo its spend controls as a step relation [run]
      over the stages of any number of visits.

    Eight files have only theorems across components.  Over every schedule:
    [Concurrent] (who owns a payment; its ledger), [Revenue] (what is served on
    sessions against what was paid; the class [Metered]), [Allowance] (what is
    let in on the free tier; the class [Counted]), [Spending] (what one session
    buys; the class [Spendable]), [Typing] (the types the state keeps) and
    [Progress] (every handler ends within a budget of operations).  Both
    backends are instances of the three classes; the store of [Typing] is the
    in-memory one.  Over sequences of phases: [Outage] (the breaker over
    time).  Across the wire: [EndToEnd] (the client's readers against the gateway's
    writers and the other way round; its module [Live] runs the payer against
    the gateway).

    [Testing] and [TestsStores], [TestsConfig], [TestsWire], [TestsGateway],
    [TestsClient] replay the program's own unit tests against the definitions:
    one boolean per test, under the test's name, in a module per source file,
    all of them evaluated to [true] ([breaker_tests_pass], [session_tests_pass],
    [config_tests_pass] and so on).  They are how the definitions were checked
    against the code's own expectations.  Left out are the tests of what is not
    modelled: unknown or missing YAML fields, files of the repository, the two
    races of threads (for which see [Spend]).

    They interact as in the code.  [decide] consumes sessions, claims
    payments and checks the limiter through [World]'s lifted operations, and
    verifies or settles through [Facilitator], which calls [Sui].  The ext_proc
    filter calls [decide] in its request phase, keeps the verified payment in
    its [StreamState] and settles it in its response phase, feeding the
    breaker.  The HTTP interface shares the stores and the facilitator.

    ** What is shown

    Money: a payment buys at most one delivered response, request let through
    or settlement by request, and is settled at most once, however the
    operations of streams, callouts, requests to [/settle] and sweeps interleave
    ([one_payment_buys_once_interleaved]; for whole handlers
    [one_payment_buys_once], for requests alone
    [one_payment_serves_one_request]); every session sold has a settlement of
    its own before it, and what is served on sessions is covered by what was
    broadcast ([nothing_is_served_on_credit]); all of this from startup on
    ([a_started_gateway_is_safe]); and so for replicas that share their stores,
    restarts included ([one_payment_buys_once_across_replicas],
    [a_started_fleet_is_safe]); a verified payment is signed, executes
    in simulation, is not stale and credits exactly the price
    ([verified_payment_is_backed], [credit_is_exact]); nothing is broadcast
    unverified ([broadcast_only_after_verification]), nor on other terms than
    the advertised ones ([only_the_advertised_terms]), nor, through ext_proc,
    without a delivered response ([stream_charges_only_for_delivery],
    [failed_upstream_is_never_charged]); sessions follow settlements
    ([session_only_after_settlement], [paid_tier_is_earned]); a settlement on
    the chain always has a replay key ([settled_payment_has_a_replay_key],
    [payment_identity], [api_settle_refuses_a_held_payment]).

    State: sessions are never oversold, in sequence or concurrently
    ([quota_never_oversold], [concurrent_spending_never_exceeds_quota]);
    tokens are authentic and round trip ([accepted_means_authentic],
    [issued_token_is_accepted], [signed_fields_cannot_shift]); claims are
    single use ([claim_is_single_use]); sweeps are invisible
    ([cleanup_never_revokes_a_session], [cleanup_never_changes_an_answer]); the
    limiter admits no more than its limit, for one key
    ([admissions_within_the_limit], [shared_counter_iff]) and in the whole
    service, whatever else it does in the window ([free_allowance_holds]); both
    hold of a fleet ([no_session_is_oversold_across_replicas],
    [free_allowance_holds_across_replicas]), as long as the stores are shared
    ([memory_replicas_multiply_the_allowance],
    [memory_sessions_are_replica_affine], [memory_replicas_take_a_payment_twice]); the Redis backends refine the in-memory ones and
    fail closed ([redis_consume_refines_memory],
    [redis_check_refines_memory], [redis_claim_refines_memory],
    [redis_outage_fails_closed]).

    With the stores in memory, the whole state keeps its types under every
    schedule ([state_stays_well_typed]); every handler ends after at most ten operations
    of its own and one trip to the chain, whatever the others do
    ([handlers_are_wait_free]); what is emitted is described, and its labels come
    from closed sets ([metrics_stay_described_and_bounded],
    [names_follow_the_conventions]).

    The breaker opens only at the documented failure rate, and then exactly
    after enough failures in a row ([breaker_opens_within_the_documented_rate]),
    lets one probe through ([one_probe_until_an_outcome]), hears of every
    settlement ([settlements_feed_the_breaker]; a paying stream is one attempt of
    [Outage], [paying_stream_is_an_attempt], any other a silent one,
    [other_streams_are_silent_attempts]), serves again within a cooldown
    of the chain's recovery unless a silent request is given the probe
    ([outage_ends_within_the_cooldown], [a_silent_probe_refuses_for_ever]), refuses payments before touching them
    ([open_breaker_refuses_untouched]) and leaves the free tier alone
    ([free_requests_ignore_the_breaker]).

    Configuration and answers: validation accepts exactly the configurations
    that can be served ([validate_accepts_exactly_the_runnable]), and with one
    every request gets usable terms and a decision
    ([every_request_gets_valid_terms], [validated_gateway_always_decides],
    [startup_is_sound], [only_the_filters_port_is_essential]); policies are resolved by precedence, not file order
    ([policy_precedence], [route_order_is_irrelevant]); a payment attempt is
    answered as one and a refusal carries its challenge
    ([payment_attempts_never_fall_to_the_free_tier],
    [denials_carry_the_challenge]); headers round trip
    ([payment_header_roundtrip], [grpc_message_roundtrip]).

    Client side: the first usable funding path is taken and its failure is
    final ([first_usable_path_pays]), the coin picked is the first that
    suffices ([picked_coin_is_the_first_sufficient]), a gasless payment pins
    nothing and any other the coins picked to split and to pay for gas
    ([built_payment_pins]); the command line pays once, when
    challenged, for the first offer ([payer_pays_once_when_challenged]), and so
    does a visit to the demo, within its budget and hourly limit
    ([demo_visit_pays_once_when_challenged], [demo_spending_is_bounded]); its
    previews cut between characters ([preview_cuts_between_characters]), its
    table lists the wallets for sale ([payees_are_the_wallets_for_sale]) and
    its proxy keeps the payment headers ([proxied_headers_survive]).

    Both sides: a header the client builds for a challenge of the gateway is
    refused by nothing but the chain
    ([only_the_chain_refuses_an_honest_payment]); meters and timings are read
    as they were written ([meter_roundtrip], [server_timing_roundtrip]).

    Some theorems are about what the code does where its comments or
    documents promise otherwise: [a_sweep_can_reopen_a_claim],
    [a_shorter_lifetime_reopens_a_memory_claim],
    [path_priced_sessions_are_not_scoped], [free_request_takes_the_probe],
    [free_requests_keep_a_forged_payer],
    [placeholder_key_in_capitals_is_accepted],
    [price_above_i128_cannot_be_paid],
    [stub_accepts_a_payment_without_a_key],
    [half_the_settlements_failing_never_opens],
    [documented_rate_leaves_it_closed], [a_silent_probe_refuses_for_ever],
    [api_settle_releases_on_any_failure],
    [sui_payment_splits_its_own_gas_coin], [late_request_resets_the_hour] and,
    for the tier the client never sees, [a_payer_buys_and_uses_a_session].

    ** Bounds, termination, conventions

    There is no fuel: the only loops of the program that are not structural
    are the compare-exchange loop of [spend_one], a step relation, and the
    stream, a recursion on its messages.  Widths are kept where they can be
    felt: [u64] counters wrap or saturate as the code says, [i128] sums wrap
    (a release build), [f64] is rounded to 53 bits.  A panic (the limiter's
    assertion) is [None].  Handlers are sequential programs over the world
    ([Auth], [ExtProc], [FacilitatorApi]) and, equally, trees of operations that
    others may come between ([Handlers], [Schedule]).  What is atomic is what the
    code makes so: the entry locks of the maps and the Lua scripts make one
    operation on a store a single step, with the clock reading it takes; the
    compare-exchange loop is interleaved in [Spend]; the mutex of the demo's
    budget in [Demo].  A verification or settlement is one step on the chain's
    side, with its several calls in it.  Environment and configuration are
    arguments.  The order in which a [HashMap] is walked is the order of
    [map_to_list], which no theorem relies on.

    ** What is not modelled

    Logging, the Prometheus exporter, gRPC and HTTP serving, routing, argument
    parsing, shutdown and the YAML text of the configuration are input and
    output or the libraries'.  The fullnode, Redis, BCS, signatures and the codecs are
    parameters: nothing is assumed of the fullnode, documented behaviour of
    the others (JSON nested less than 128 levels deep is read back, Redis counts
    up to [i64_max] and refuses an invalid expiry), and each class has an instance for the witnesses.  The Sui
    SDK, HTTP and the wallet's random source are parameters of the client side
    ([ClientSdk], [ClientEnv]), with documented behaviour of the SDK as
    [ClientSdkLaws].  One [http_send] is one request: that reqwest follows
    redirects, and refuses a header value with control characters before it
    sends, is not modelled.  Of x402-pay the lines printed before a failure are left
    out; of x402-demo the router, and the JSON text of its answers.  What a
    Redis server keeps is bounded by its own rules: [Typing]
    speaks of the in-memory stores only.  The clocks of the replicas and of Redis are one clock; the two
    connections of a process to Redis are two databases, since their keys have
    different prefixes.  The calls inside one
    verification are not interleaved with other handlers: nothing of the
    program's state is read or changed between them. *)

From stdpp Require Export base tactics list gmap strings.
From Stdlib Require Export ZArith Lia.
From stdpp Require Import options.

#[global] Open Scope Z_scope.

(** ** Fallible code: Rust's [Result] *)

Inductive result (A E : Type) : Type :=
| Ok (a : A)
| Err (e : E).
Arguments Ok {A E} a.
Arguments Err {A E} e.

Declare Scope x402_scope.
Delimit Scope x402_scope with x402.
#[global] Open Scope x402_scope.

(** The [?] operator: leave with the error, go on with the value. *)
Notation "x <-? c ;; k" :=
  (match c with Ok x => k | Err e => Err e end)
  (at level 100, c at next level, right associativity) : x402_scope.

Definition is_ok {A E} (r : result A E) : bool :=
  match r with Ok _ => true | Err _ => false end.

Definition result_ok {A E} (r : result A E) : option A :=
  match r with Ok a => Some a | Err _ => None end.

Definition map_err {A E F} (f : E → F) (r : result A E) : result A F :=
  match r with Ok a => Ok a | Err e => Err (f e) end.

Definition ok_or {A E} (e : E) (o : option A) : result A E :=
  match o with Some a => Ok a | None => Err e end.

#[export] Instance result_eq_dec {A E} `{EqDecision A, EqDecision E} :
  EqDecision (result A E).
Proof. solve_decision. Defined.

(** ** Handlers: explicit state passing

    A handler of the program reads and changes a world of type [W]; the
    notation is the one of the code's sequencing. *)

Definition M (W A : Type) : Type := W → A * W.

Definition ret {W A} (a : A) : M W A := λ w, (a, w).
Definition bind {W A B} (c : M W A) (k : A → M W B) : M W B :=
  λ w, let '(a, w') := c w in k a w'.

Notation "x <-- c ;;; k" := (bind c (λ x, k))
  (at level 100, c at next level, right associativity) : x402_scope.
Notation "c ;;; k" := (bind c (λ _, k))
  (at level 100, right associativity) : x402_scope.

(** The [?] operator inside a handler: [Err] leaves it. *)
Definition bind_ok {W A B E} (c : M W (result A E)) (k : A → M W (result B E)) : M W (result B E) :=
  bind c (λ r, match r with Ok a => k a | Err e => ret (Err e) end).

Notation "x <-! c ;;; k" := (bind_ok c (λ x, k))
  (at level 100, c at next level, right associativity) : x402_scope.

(** What was [Ok] at the end was [Ok] at every step. *)
Lemma bind_ok_inv {W A B E} (c : M W (result A E)) (k : A → M W (result B E)) w b w' :
  bind_ok c k w = (Ok b, w') → ∃ a w1, c w = (Ok a, w1) ∧ k a w1 = (Ok b, w').
Proof. unfold bind_ok, bind, ret. destruct (c w) as [[a|e] w1]; [by eauto|congruence]. Qed.

Lemma bind_ret_l {W A B} (a : A) (k : A → M W B) w : bind (ret a) k w = k a w.
Proof. reflexivity. Qed.

Lemma bind_ret_r {W A} (c : M W A) w : bind c ret w = c w.
Proof. unfold bind, ret. by destruct (c w). Qed.

Lemma bind_assoc {W A B C} (c : M W A) (f : A → M W B) (g : B → M W C) w :
  bind (bind c f) g w = bind c (λ a, bind (f a) g) w.
Proof. unfold bind. by destruct (c w). Qed.

Lemma bind_eq {W A B} (c : M W A) (k : A → M W B) w a w' :
  c w = (a, w') → bind c k w = k a w'.
Proof. unfold bind. by intros ->. Qed.

(** [keeps R c]: whatever [c] does to a world, the worlds before and after
    are related by [R].  The frame rule of the development: a preorder kept by
    the parts is kept by their composition. *)
Definition keeps {W A} (R : W → W → Prop) (c : M W A) : Prop :=
  ∀ w, R w (c w).2.

Lemma keeps_ret {W A} (R : W → W → Prop) `{!Reflexive R} (a : A) :
  keeps R (ret a).
Proof. intros w. simpl. reflexivity. Qed.

Lemma keeps_bind {W A B} (R : W → W → Prop) `{!Transitive R}
    (c : M W A) (k : A → M W B) :
  keeps R c → (∀ a, keeps R (k a)) → keeps R (bind c k).
Proof.
  intros Hc Hk w. unfold bind.
  specialize (Hc w). destruct (c w) as [a w'] eqn:E. simpl in *.
  etransitivity; [exact Hc | apply Hk].
Qed.

(** ** Machine integers

    A [u64] is an integer in [0, 2^64).  The release profile has no overflow
    checks, so [+], [-] and [*] wrap; the [saturating_] operations clamp. *)

Definition u64_max : Z := 2 ^ 64 - 1.
Definition u128_max : Z := 2 ^ 128 - 1.
Definition i128_max : Z := 2 ^ 127 - 1.
Definition i128_min : Z := - 2 ^ 127.

Definition is_u64 (z : Z) : Prop := 0 ≤ z ≤ u64_max.

Definition wrap64 (z : Z) : Z := z mod 2 ^ 64.
Definition u64_add (a b : Z) : Z := wrap64 (a + b).
Definition u64_sub (a b : Z) : Z := wrap64 (a - b).
Definition u64_mul (a b : Z) : Z := wrap64 (a * b).
Definition sat_add (a b : Z) : Z := Z.min u64_max (a + b).
Definition sat_sub (a b : Z) : Z := Z.max 0 (a - b).
Definition sat_mul (a b : Z) : Z := Z.min u64_max (a * b).

(** [i128] wraps into the signed range. *)
Definition wrap_i128 (z : Z) : Z := (z + 2 ^ 127) mod 2 ^ 128 - 2 ^ 127.

Create HintDb x402 discriminated.
Create Rewrite HintDb x402_simpl.

Lemma wrap64_small z : is_u64 z → wrap64 z = z.
Proof. unfold is_u64, u64_max, wrap64. intros. apply Z.mod_small. lia. Qed.

Lemma u64_sub_small a b : is_u64 a → 0 ≤ b ≤ a → u64_sub a b = a - b.
Proof.
  unfold u64_sub. intros Ha Hb. apply wrap64_small.
  unfold is_u64 in *. lia.
Qed.

Lemma u64_add_small a b : 0 ≤ a → 0 ≤ b → a + b ≤ u64_max → u64_add a b = a + b.
Proof. unfold u64_add. intros. apply wrap64_small. unfold is_u64. lia. Qed.

Lemma u64_mul_small a b : 0 ≤ a → 0 ≤ b → a * b ≤ u64_max → u64_mul a b = a * b.
Proof. unfold u64_mul. intros. apply wrap64_small. unfold is_u64. nia. Qed.

Lemma wrap64_range z : is_u64 (wrap64 z).
Proof.
  unfold is_u64, wrap64, u64_max.
  pose proof (Z.mod_pos_bound z (2 ^ 64)). lia.
Qed.

Lemma wrap_i128_small z : i128_min ≤ z ≤ i128_max → wrap_i128 z = z.
Proof.
  unfold i128_min, i128_max, wrap_i128. intros.
  rewrite Z.mod_small; lia.
Qed.

Lemma sat_sub_le a b : a ≤ b → sat_sub a b = 0.
Proof. unfold sat_sub. lia. Qed.

Lemma sat_sub_ge a b : b ≤ a → sat_sub a b = a - b.
Proof. unfold sat_sub. lia. Qed.

#[export] Hint Resolve wrap64_range : x402.
#[export] Hint Rewrite @bind_ret_l : x402_simpl.

(** ** Lists and options *)

(** [max_by_key]: the last of the elements with the largest key. *)
Definition max_by_key {A} (key : A → nat) (l : list A) : option A :=
  fold_left (λ best x,
    match best with
    | None => Some x
    | Some b => if (key b <=? key x)%nat then Some x else Some b
    end) l None.

Lemma max_by_key_snoc {A} (key : A → nat) l x :
  max_by_key key (l ++ [x]) =
  match max_by_key key l with
  | None => Some x
  | Some b => if (key b <=? key x)%nat then Some x else Some b
  end.
Proof. unfold max_by_key. by rewrite fold_left_app. Qed.

Lemma max_by_key_None {A} (key : A → nat) l :
  max_by_key key l = None ↔ l = [].
Proof.
  destruct l as [|x l _] using rev_ind; [done|].
  rewrite max_by_key_snoc. split; [|by destruct l].
  destruct (max_by_key key l); [case_match|]; discriminate.
Qed.

Lemma max_by_key_elem {A} (key : A → nat) l x :
  max_by_key key l = Some x → x ∈ l.
Proof.
  revert x. induction l as [|y l IH] using rev_ind; intros x; [done|].
  rewrite max_by_key_snoc. rewrite elem_of_app, list_elem_of_singleton.
  destruct (max_by_key key l) as [b|]; [case_match|]; intros; simplify_eq; auto.
Qed.

Lemma max_by_key_max {A} (key : A → nat) l x y :
  max_by_key key l = Some x → y ∈ l → (key y ≤ key x)%nat.
Proof.
  revert x. induction l as [|z l IH] using rev_ind; intros x; [done|].
  rewrite max_by_key_snoc. rewrite elem_of_app, list_elem_of_singleton.
  destruct (max_by_key key l) as [b|] eqn:Eb.
  - destruct (key b <=? key z)%nat eqn:Ele; intros [= <-] [Hy | ->].
    + apply Nat.leb_le in Ele. specialize (IH b eq_refl Hy). lia.
    + lia.
    + by apply IH.
    + apply Nat.leb_gt in Ele. lia.
  - apply max_by_key_None in Eb as ->. intros [= <-] [Hy | ->]; [|lia].
    by apply elem_of_nil in Hy.
Qed.

Definition is_some_b {A} (o : option A) : bool :=
  match o with Some _ => true | None => false end.

Definition or_else {A} (o : option A) (p : option A) : option A :=
  match o with Some _ => o | None => p end.

Definition unwrap_or {A} (o : option A) (d : A) : A :=
  match o with Some a => a | None => d end.

(** ** Tactics *)

(** Follow the branches of a handler: split every [match] and [if] that the
    hypotheses depend on and drop the impossible branches. *)
Ltac branch :=
  repeat (simplify_eq/=; try case_match; simplify_eq/=; try done).

(** Run a handler whose first step is already known. *)
Ltac step E := erewrite bind_eq; [| exact E].
