(* ===== verification/RustStr.v ===== *)
(** * Strings of the standard library

    The operations of Rust's [str] and integer parsing the program uses.  A
    [&str] is the list of its UTF-8 bytes, which is what a [string] is here:
    [len] counts bytes and every function below works on bytes. *)

From Stdlib Require Import Ascii DecimalString DecimalN.
From Stdlib Require String.
From S2P Require Import Prelude.
From stdpp Require Import options.

#[global] Arguments String.append !_ _ : simpl nomatch.

Definition byte_of (c : ascii) : Z := Z.of_N (N_of_ascii c).

(** [str::len]. *)
Definition slen (s : string) : nat := String.length s.
Definition is_empty (s : string) : bool :=
  match s with EmptyString => true | _ => false end.

Fixpoint schars (s : string) : list ascii :=
  match s with EmptyString => [] | String c s' => c :: schars s' end.
Fixpoint of_chars (l : list ascii) : string :=
  match l with [] => EmptyString | c :: l' => String c (of_chars l') end.
Definition srev (s : string) : string := of_chars (rev_append (schars s) []).

(** [str::starts_with], [str::strip_prefix]. *)
Definition starts_with (p s : string) : bool := String.prefix p s.

Fixpoint strip_prefix (p s : string) : option string :=
  match p, s with
  | EmptyString, _ => Some s
  | String a p', String b s' => if decide (a = b) then strip_prefix p' s' else None
  | String _ _, EmptyString => None
  end.

(** ** [char::is_whitespace] and [str::trim]

    White space is the Unicode property White_Space, by its UTF-8 encodings
    of one, two and three bytes. *)
Definition ws1 (a : ascii) : bool :=
  let x := byte_of a in ((9 <=? x) && (x <=? 13)) || (x =? 32).
Definition ws2 (a b : ascii) : bool :=
  (byte_of a =? 0xC2) && ((byte_of b =? 0x85) || (byte_of b =? 0xA0)).
Definition ws3 (a b c : ascii) : bool :=
  let y := byte_of b in
  let z := byte_of c in
  ((byte_of a =? 0xE1) && (y =? 0x9A) && (z =? 0x80))
  || ((byte_of a =? 0xE2) && (y =? 0x80)
        && (((0x80 <=? z) && (z <=? 0x8A)) || (z =? 0xA8) || (z =? 0xA9) || (z =? 0xAF)))
  || ((byte_of a =? 0xE2) && (y =? 0x81) && (z =? 0x9F))
  || ((byte_of a =? 0xE3) && (y =? 0x80) && (z =? 0x80)).

Fixpoint trim_start (s : string) : string :=
  match s with
  | EmptyString => EmptyString
  | String a s1 =>
      if ws1 a then trim_start s1 else
      match s1 with
      | EmptyString => s
      | String b s2 =>
          if ws2 a b then trim_start s2 else
          match s2 with
          | EmptyString => s
          | String c s3 => if ws3 a b c then trim_start s3 else s
          end
      end
  end.

(** On the reversed bytes: the last byte of a character comes first. *)
Fixpoint trim_start_rev (s : string) : string :=
  match s with
  | EmptyString => EmptyString
  | String a s1 =>
      if ws1 a then trim_start_rev s1 else
      match s1 with
      | EmptyString => s
      | String b s2 =>
          if ws2 b a then trim_start_rev s2 else
          match s2 with
          | EmptyString => s
          | String c s3 => if ws3 c b a then trim_start_rev s3 else s
          end
      end
  end.

Definition trim_end (s : string) : string := srev (trim_start_rev (srev s)).
Definition trim (s : string) : string := trim_end (trim_start s).

(** ** Splitting *)

Definition cons_head (c : ascii) (l : list string) : list string :=
  match l with [] => [String c EmptyString] | x :: l' => String c x :: l' end.

(** [str::split(c)]: never empty, one more part than separators. *)
Fixpoint split_on (sep : ascii) (s : string) : list string :=
  match s with
  | EmptyString => [EmptyString]
  | String c s' =>
      if decide (c = sep) then EmptyString :: split_on sep s'
      else cons_head c (split_on sep s')
  end.

Fixpoint has_char (c : ascii) (s : string) : bool :=
  match s with
  | EmptyString => false
  | String a s' => bool_decide (a = c) || has_char c s'
  end.

(** First occurrence of the pattern: what is before it and what is after. *)
Fixpoint split_once_str (pat s : string) : option (string * string) :=
  match strip_prefix pat s with
  | Some rest => Some (EmptyString, rest)
  | None =>
      match s with
      | EmptyString => None
      | String c s' =>
          match split_once_str pat s' with
          | Some (a, b) => Some (String c a, b)
          | None => None
          end
      end
  end.

(** [s.split(pat).nth(1)], for a non-empty pattern. *)
Definition split_nth1 (pat s : string) : option string :=
  match split_once_str pat s with
  | None => None
  | Some (_, rest) =>
      match split_once_str pat rest with
      | Some (seg, _) => Some seg
      | None => Some rest
      end
  end.

Definition split_once_char (c : ascii) (s : string) : option (string * string) :=
  split_once_str (String c EmptyString) s.

(** [str::rsplit_once(c)]. *)
Definition rsplit_once (c : ascii) (s : string) : option (string * string) :=
  match split_once_char c (srev s) with
  | Some (after, before) => Some (srev before, srev after)
  | None => None
  end.

(** [str::trim_start_matches(c)] and [str::trim_end_matches(c)]. *)
Fixpoint trim_start_matches (c : ascii) (s : string) : string :=
  match s with
  | EmptyString => EmptyString
  | String a s' => if decide (a = c) then trim_start_matches c s' else s
  end.
Definition trim_end_matches (c : ascii) (s : string) : string :=
  srev (trim_start_matches c (srev s)).

(** ** ASCII case *)

Definition ascii_lower (c : ascii) : ascii :=
  let n := N_of_ascii c in
  if ((65 <=? n) && (n <=? 90))%N then ascii_of_N (n + 32) else c.
Definition ascii_upper (c : ascii) : ascii :=
  let n := N_of_ascii c in
  if ((97 <=? n) && (n <=? 122))%N then ascii_of_N (n - 32) else c.
Fixpoint smap (f : ascii → ascii) (s : string) : string :=
  match s with EmptyString => EmptyString | String c s' => String (f c) (smap f s') end.
Definition to_ascii_lowercase : string → string := smap ascii_lower.
Definition to_ascii_uppercase : string → string := smap ascii_upper.
Definition eq_ignore_ascii_case (a b : string) : bool :=
  bool_decide (to_ascii_lowercase a = to_ascii_lowercase b).
Fixpoint sall (f : ascii → bool) (s : string) : bool :=
  match s with EmptyString => true | String c s' => f c && sall f s' end.
Definition is_ascii : string → bool := sall (λ c, byte_of c <? 128).
Definition is_ascii_hexdigit (c : ascii) : bool :=
  let x := byte_of c in
  ((48 <=? x) && (x <=? 57)) || ((65 <=? x) && (x <=? 70)) || ((97 <=? x) && (x <=? 102)).
Definition replace_char (a b : ascii) : string → string :=
  smap (λ c, if decide (c = a) then b else c).

(** ** Decimal integers *)

(** [u64::to_string] and the other unsigned widths. *)
Definition u_to_string (z : Z) : string := NilEmpty.string_of_uint (N.to_uint (Z.to_N z)).

(** [{:?}] of a [&str]: quotes, with the escapes of [char::escape_debug].
    Characters outside ASCII stand for themselves, which is what it does with
    those its Unicode tables call printable. *)
Definition hex_char (d : Z) : ascii := ascii_of_N (Z.to_N (if d <? 10 then 48 + d else 87 + d)).
Definition escape_debug (c : ascii) : string :=
  let b := byte_of c in
  if b =? 0 then "\0" else if b =? 9 then "\t" else if b =? 10 then "\n"
  else if b =? 13 then "\r"
  else if (b =? 34) || (b =? 92) then String "\" (String c "")
  else if (b <? 32) || (b =? 127) then
    "\u{" +:+ (if b <? 16 then "" else String (hex_char (b / 16)) "") +:+
    String (hex_char (b mod 16)) "}"
  else String c "".
Definition debug_str (s : string) : string :=
  String "034" (List.fold_right (λ c t, escape_debug c +:+ t) (String "034" "") (schars s)).

(** [i128::to_string]. *)
Definition i_to_string (z : Z) : string :=
  if z <? 0 then String "-" (u_to_string (- z)) else u_to_string z.

(** One or more decimal digits. *)
Definition parse_digits (s : string) : option Z :=
  if is_empty s then None
  else (λ d, Z.of_N (N.of_uint d)) <$> NilEmpty.uint_of_string s.

(** [s.parse::<u{16,32,64,128}>()]: an optional [+], digits, no overflow. *)
Definition parse_uint (max : Z) (s : string) : option Z :=
  let digits := match s with String "+" s' => s' | _ => s end in
  match parse_digits digits with
  | Some z => if z <=? max then Some z else None
  | None => None
  end.
Definition parse_u16 : string → option Z := parse_uint (2 ^ 16 - 1).
Definition parse_u64 : string → option Z := parse_uint u64_max.
Definition parse_u128 : string → option Z := parse_uint u128_max.

(** [s.parse::<i128>()]: an optional sign. *)
Definition parse_i128 (s : string) : option Z :=
  match s with
  | String "-" s' =>
      match parse_digits s' with
      | Some z => if i128_min <=? - z then Some (- z) else None
      | None => None
      end
  | _ => parse_uint i128_max s
  end.

(** ** Laws *)

Lemma append_nil_r s : s +:+ "" = s.
Proof. induction s as [|c s IH]; [done|]. simpl. by rewrite IH. Qed.

Lemma append_assoc a b c : (a +:+ b) +:+ c = a +:+ b +:+ c.
Proof. induction a as [|x a IH]; [done|]. simpl. by rewrite IH. Qed.

Lemma append_inj_l a b c : a +:+ b = a +:+ c → b = c.
Proof. induction a as [|x a IH]; simpl; [done|]. intros [=]. auto. Qed.

Lemma has_char_app c a b : has_char c (a +:+ b) = has_char c a || has_char c b.
Proof. induction a as [|x a IH]; [done|]. simpl. by rewrite IH, orb_assoc. Qed.

Lemma split_on_nonempty sep s : split_on sep s ≠ [].
Proof.
  destruct s as [|c s]; simpl; [done|]. case_decide; [done|].
  unfold cons_head. by destruct (split_on sep s).
Qed.

(** A separator the last part does not hold tells where it starts. *)
Lemma last_sep_inj c p q a b :
  has_char c a = false → has_char c b = false →
  p +:+ String c a = q +:+ String c b → p = q ∧ a = b.
Proof.
  intros Ha Hb. revert q. induction p as [|d p IH]; intros [|e q]; cbn [String.append].
  - by intros [= ->].
  - intros [= <- E]. rewrite E, has_char_app in Ha. cbn [has_char] in Ha.
    by rewrite bool_decide_eq_true_2, orb_true_r in Ha.
  - intros [= -> E]. rewrite <- E, has_char_app in Hb. cbn [has_char] in Hb.
    by rewrite bool_decide_eq_true_2, orb_true_r in Hb.
  - intros [= -> E]. apply IH in E as [-> ->]. done.
Qed.

Lemma split_on_none sep s : has_char sep s = false → split_on sep s = [s].
Proof.
  induction s as [|c s IH]; simpl; [done|]. rewrite orb_false_iff.
  rewrite bool_decide_eq_false. intros [Hne Hs].
  rewrite decide_False by done. by rewrite IH.
Qed.

Lemma split_on_app sep a b :
  has_char sep a = false →
  split_on sep (a +:+ String sep b) = a :: split_on sep b.
Proof.
  induction a as [|c a IH]; simpl; intros Ha.
  - by rewrite decide_True.
  - apply orb_false_iff in Ha as [Hne Ha]. rewrite bool_decide_eq_false in Hne.
    rewrite decide_False by done. by rewrite IH.
Qed.

Lemma strip_prefix_app p s : strip_prefix p (p +:+ s) = Some s.
Proof.
  induction p as [|c p IH]; [done|]. simpl. by rewrite decide_True.
Qed.

Lemma strip_prefix_Some p s r : strip_prefix p s = Some r ↔ s = p +:+ r.
Proof.
  split; [|intros ->; apply strip_prefix_app].
  revert s. induction p as [|c p IH]; intros [|d s]; simpl; try congruence.
  case_decide; [|done]. intros H1. subst d. f_equal. by apply IH.
Qed.

Lemma starts_with_app p s : starts_with p (p +:+ s) = true.
Proof.
  unfold starts_with. induction p as [|c p IH]; [by destruct s|].
  simpl. destruct (Ascii.ascii_dec c c); [done|congruence].
Qed.

Lemma starts_with_iff p s : starts_with p s = true ↔ ∃ r, s = p +:+ r.
Proof.
  unfold starts_with. split; [|intros [r ->]; apply starts_with_app].
  revert s. induction p as [|c p IH]; intros [|d s]; simpl; try done; eauto.
  destruct (Ascii.ascii_dec c d) as [->|]; [|done].
  intros H. destruct (IH s H) as [r ->]. by exists r.
Qed.

Lemma slen_app a b : slen (a +:+ b) = (slen a + slen b)%nat.
Proof. unfold slen. induction a as [|c a IH]; simpl; [done|]. by rewrite IH. Qed.

Lemma of_to_chars s : of_chars (schars s) = s.
Proof. induction s as [|c s IH]; [done|]. simpl. by rewrite IH. Qed.

Lemma to_of_chars l : schars (of_chars l) = l.
Proof. induction l as [|c l IH]; [done|]. simpl. by rewrite IH. Qed.

Lemma srev_eq s : srev s = of_chars (rev (schars s)).
Proof. unfold srev. by rewrite <- rev_alt. Qed.

Lemma srev_involutive s : srev (srev s) = s.
Proof. by rewrite !srev_eq, to_of_chars, rev_involutive, of_to_chars. Qed.

(** A string whose first and last byte are ASCII and not white space is its
    own trim. *)
Definition first_byte_solid (s : string) : bool :=
  match s with
  | EmptyString => true
  | String a _ => negb (ws1 a) && (byte_of a <? 128)
  end.

Lemma trim_start_solid s : first_byte_solid s = true → trim_start s = s.
Proof.
  destruct s as [|a [|b [|c s]]]; simpl; [done|..];
    rewrite andb_true_iff, negb_true_iff; intros [Hw Hb];
    rewrite Hw; try done; apply Z.ltb_lt in Hb;
    unfold ws2, ws3; rewrite ?(proj2 (Z.eqb_neq (byte_of a) _)) by lia; done.
Qed.

Lemma trim_start_rev_solid s : first_byte_solid s = true → trim_start_rev s = s.
Proof.
  destruct s as [|a [|b [|c s]]]; simpl; [done|..];
    rewrite andb_true_iff, negb_true_iff; intros [Hw Hb];
    rewrite Hw; try done; apply Z.ltb_lt in Hb; unfold ws2, ws3.
  all: rewrite ?(proj2 (Z.eqb_neq (byte_of a) _)) by lia.
  all: rewrite ?(proj2 (Z.leb_gt 128 (byte_of a))) by lia.
  all: rewrite ?andb_false_r, ?orb_false_r; simpl; try done.
  all: rewrite ?andb_false_r, ?orb_false_r; simpl; try done.
Qed.

Lemma trim_solid s :
  first_byte_solid s = true → first_byte_solid (srev s) = true → trim s = s.
Proof.
  intros H1 H2. unfold trim, trim_end.
  rewrite (trim_start_solid s H1), (trim_start_rev_solid _ H2).
  apply srev_involutive.
Qed.

(** Printing an integer and reading it back. *)
Lemma u_to_string_nonempty z : is_empty (u_to_string z) = false.
Proof.
  unfold u_to_string.
  assert (H : N.to_uint (Z.to_N z) ≠ Decimal.Nil).
  { intros H. assert (N.of_uint (N.to_uint (Z.to_N z)) = 0%N) as H0 by by rewrite H.
    rewrite DecimalN.Unsigned.of_to in H0. rewrite H0 in H. discriminate. }
  by destruct (N.to_uint (Z.to_N z)).
Qed.

Lemma parse_digits_print z : 0 ≤ z → parse_digits (u_to_string z) = Some z.
Proof.
  intros Hz. unfold parse_digits. rewrite u_to_string_nonempty.
  unfold u_to_string. rewrite NilEmpty.usu. simpl.
  rewrite DecimalN.Unsigned.of_to. by rewrite Z2N.id.
Qed.

Lemma u_to_string_digits z c : has_char c (u_to_string z) = true → is_ascii_hexdigit c = true.
Proof.
  unfold u_to_string. generalize (N.to_uint (Z.to_N z)). intros d.
  induction d as [|d IH|d IH|d IH|d IH|d IH|d IH|d IH|d IH|d IH|d IH]; simpl; [done|..];
    rewrite orb_true_iff, bool_decide_eq_true; intros [<-|H]; auto.
Qed.

Lemma u_to_string_no c z : is_ascii_hexdigit c = false → has_char c (u_to_string z) = false.
Proof.
  intros Hc. destruct (has_char c (u_to_string z)) eqn:E; [|done].
  apply u_to_string_digits in E. congruence.
Qed.

Lemma parse_uint_print max z : 0 ≤ z ≤ max → parse_uint max (u_to_string z) = Some z.
Proof.
  intros Hz. unfold parse_uint.
  replace (match u_to_string z with String "+" s' => s' | _ => u_to_string z end)
    with (u_to_string z).
  - rewrite parse_digits_print by lia. by rewrite (proj2 (Z.leb_le _ _)) by lia.
  - pose proof (u_to_string_no "+" z eq_refl) as H.
    destruct (u_to_string z) as [|[[] [] [] [] [] [] [] []] s]; simpl in *; done.
Qed.

Lemma parse_i128_print z :
  0 ≤ z → parse_i128 (u_to_string z) = if z <=? i128_max then Some z else None.
Proof.
  intros Hz.
  assert (parse_i128 (u_to_string z) = parse_digits (u_to_string z) ≫=
            λ z, if z <=? i128_max then Some z else None) as ->;
    [|by rewrite parse_digits_print].
  pose proof (u_to_string_no "+" z eq_refl) as Hp. pose proof (u_to_string_no "-" z eq_refl) as Hm.
  unfold parse_i128, parse_uint.
  destruct (u_to_string z) as [|[[] [] [] [] [] [] [] []] s]; simpl in *; done.
Qed.

Lemma parse_uint_range max s z : parse_uint max s = Some z → 0 ≤ z ≤ max.
Proof.
  unfold parse_uint. set (d := match s with String "+" s' => s' | _ => s end).
  destruct (parse_digits d) as [n|] eqn:E; [|done].
  destruct (Z.leb_spec n max); intros [= <-]. split; [|done].
  unfold parse_digits in E. destruct (is_empty d); [done|].
  destruct (NilEmpty.uint_of_string d); simplify_eq/=. lia.
Qed.

Lemma u_to_string_inj a b : 0 ≤ a → 0 ≤ b → u_to_string a = u_to_string b → a = b.
Proof.
  intros Ha Hb H. apply (f_equal parse_digits) in H.
  rewrite !parse_digits_print in H by done. congruence.
Qed.

#[export] Hint Rewrite append_nil_r slen_app to_of_chars of_to_chars srev_involutive : x402_simpl.
