(* ===== verification/Float64.v ===== *)
(** * Binary64 arithmetic

    The rate limiter and the circuit breaker compute in [f64].  All the values
    they meet are finite, non-negative and far from the subnormal range (the
    smallest is [1/2^64], the largest below [2^129]), so an IEEE 754 binary64
    operation is the exact rational result rounded to 53 significant bits,
    ties to even.  That rounding is [rnd]; an [f64] is the rational it stands
    for. *)

From Stdlib Require Import QArith Qround Qpower Lqa.
From S2P Require Import Prelude.
From stdpp Require Import options.

#[local] Open Scope Q_scope.
#[local] Open Scope Z_scope.

Definition F64 : Type := Q.

(** [2^e] for any integer [e]. *)
Definition pow2 (e : Z) : Q := Qpower (2 # 1) e.

(** Floor of the binary logarithm of a positive rational. *)
Definition ilog2 (q : Q) : Z :=
  let e := Z.log2 (Qnum q) - Z.log2 (Zpos (Qden q)) in
  if Qle_bool (pow2 e) q then e else e - 1.

Definition round_half_even (q : Q) : Z :=
  let f := Qfloor q in
  match Qcompare (q - inject_Z f)%Q (1 # 2) with
  | Lt => f
  | Gt => f + 1
  | Eq => if Z.even f then f else f + 1
  end.

Definition rnd (q : Q) : F64 :=
  if Qle_bool q 0 then 0%Q
  else let e := ilog2 q - 52 in
       (inject_Z (round_half_even (q * pow2 (- e))) * pow2 e)%Q.

Definition f64_of_Z (z : Z) : F64 := rnd (inject_Z z).   (* [z as f64] *)
Definition f64_add (x y : F64) : F64 := rnd (x + y)%Q.
Definition f64_mul (x y : F64) : F64 := rnd (x * y)%Q.
Definition f64_div (x y : F64) : F64 := rnd (x / y)%Q.
Definition f64_ge (x y : F64) : bool := Qle_bool y x.
Definition f64_ceil (x : F64) : Z := Qceiling x.

(** [x as u64] for a non-negative [x] without fraction: saturating. *)
Definition f64_as_u64 (z : Z) : Z := Z.min u64_max (Z.max 0 z).

(** ** Powers of two *)

Lemma pow2_pos e : (0 < pow2 e)%Q.
Proof. apply Qpower_0_lt. reflexivity. Qed.

Lemma pow2_add a b : (pow2 (a + b) == pow2 a * pow2 b)%Q.
Proof. apply Qpower_plus. discriminate. Qed.

Lemma pow2_opp a : (pow2 a * pow2 (- a) == 1)%Q.
Proof. rewrite <- pow2_add, Z.add_opp_diag_r. reflexivity. Qed.

Lemma pow2_nonneg e : 0 ≤ e → (pow2 e == inject_Z (2 ^ e))%Q.
Proof.
  intros He. unfold pow2. by rewrite Zpower_Qpower.
Qed.

Lemma pow2_le a b : a ≤ b → (pow2 a <= pow2 b)%Q.
Proof.
  intros H. replace b with (a + (b - a)) by lia. rewrite pow2_add.
  rewrite (pow2_nonneg (b - a)) by lia.
  assert (1 <= inject_Z (2 ^ (b - a)))%Q as H1.
  { change 1%Q with (inject_Z 1). rewrite <- Zle_Qle.
    pose proof (Z.pow_pos_nonneg 2 (b - a)). lia. }
  pose proof (pow2_pos a). nra.
Qed.

Lemma pow2_lt_inv a b : (pow2 a < pow2 b)%Q → a < b.
Proof.
  intros H. destruct (Z.lt_ge_cases a b) as [|Hge]; [done|].
  apply pow2_le in Hge. lra.
Qed.

(** ** The binary logarithm *)

Lemma Q_num_den (q : Q) : (q * inject_Z (Zpos (Qden q)) == inject_Z (Qnum q))%Q.
Proof. destruct q as [n d]. unfold Qeq, inject_Z. simpl. lia. Qed.

Lemma ilog2_spec q : (0 < q)%Q →
  (pow2 (ilog2 q) <= q)%Q ∧ (q < pow2 (ilog2 q + 1))%Q.
Proof.
  intros Hq. unfold ilog2.
  set (n := Qnum q). set (d := Zpos (Qden q)).
  assert (0 < n) as Hn. { destruct q as [a b]. unfold Qlt in Hq. simpl in *. lia. }
  pose proof (Z.log2_spec n Hn) as [Hn1 Hn2].
  pose proof (Z.log2_spec d ltac:(lia)) as [Hd1 Hd2].
  pose proof (Z.log2_nonneg n) as Ln. pose proof (Z.log2_nonneg d) as Ld.
  set (ln := Z.log2 n) in *. set (ld := Z.log2 d) in *.
  assert (inject_Z d > 0)%Q as Hd0.
  { change 0%Q with (inject_Z 0). rewrite <- Zlt_Qlt. lia. }
  pose proof (Q_num_den q) as Hnd. fold n d in Hnd.
  (* 2^(ln-ld-1) < q < 2^(ln-ld+1) *)
  rewrite Zle_Qle in Hn1, Hd1. rewrite Zlt_Qlt in Hn2, Hd2.
  rewrite <- pow2_nonneg in Hn1, Hd1, Hn2, Hd2 by lia.
  assert (q < pow2 (ln - ld + 1))%Q as Hup.
  { apply (Qmult_lt_r _ _ (inject_Z d)); [done|]. rewrite Hnd.
    eapply Qlt_le_trans; [exact Hn2|].
    replace (Z.succ ln) with (ln - ld + 1 + ld) by lia. rewrite pow2_add.
    pose proof (pow2_pos (ln - ld + 1)). nra. }
  assert (pow2 (ln - ld - 1) < q)%Q as Hlo.
  { apply (Qmult_lt_r _ _ (inject_Z d)); [done|]. rewrite Hnd.
    eapply Qlt_le_trans; [|exact Hn1].
    replace ln with (ln - ld - 1 + Z.succ ld) at 2 by lia. rewrite pow2_add.
    pose proof (pow2_pos (ln - ld - 1)). nra. }
  destruct (Qle_bool (pow2 (ln - ld)) q) eqn:E.
  - apply Qle_bool_iff in E. done.
  - assert (¬ (pow2 (ln - ld) <= q)%Q) as E'
      by (rewrite <- Qle_bool_iff; congruence).
    split; [lra|]. replace (ln - ld - 1 + 1) with (ln - ld) by lia. lra.
Qed.

Lemma ilog2_unique q e : (pow2 e <= q)%Q → (q < pow2 (e + 1))%Q → ilog2 q = e.
Proof.
  intros H1 H2. pose proof (pow2_pos e).
  destruct (ilog2_spec q ltac:(lra)) as [H3 H4].
  assert (e < ilog2 q + 1) by (apply pow2_lt_inv; lra).
  assert (ilog2 q < e + 1) by (apply pow2_lt_inv; lra). lia.
Qed.

Lemma ilog2_mono x y : (0 < x)%Q → (x <= y)%Q → ilog2 x ≤ ilog2 y.
Proof.
  intros Hx Hxy.
  destruct (ilog2_spec x Hx) as [H1 _].
  destruct (ilog2_spec y ltac:(lra)) as [_ H2].
  assert (ilog2 x < ilog2 y + 1) by (apply pow2_lt_inv; lra). lia.
Qed.

(** ** Rounding to an integer *)

Lemma Qfloor_spec q : (inject_Z (Qfloor q) <= q)%Q ∧ (q < inject_Z (Qfloor q + 1))%Q.
Proof. split; [apply Qfloor_le | apply Qlt_floor]. Qed.

Lemma round_half_even_bounds q :
  Qfloor q ≤ round_half_even q ≤ Qfloor q + 1.
Proof. unfold round_half_even. repeat case_match; lia. Qed.

Lemma round_half_even_Z (q : Q) z : (q == inject_Z z)%Q → round_half_even q = z.
Proof.
  intros Hq. unfold round_half_even.
  assert (Qfloor q = z) as ->. { rewrite (Qfloor_comp _ _ Hq). apply Qfloor_Z. }
  assert (q - inject_Z z == 0)%Q as H0 by (rewrite Hq; ring).
  rewrite (Qcompare_comp _ _ H0 _ _ (Qeq_refl (1 # 2))). reflexivity.
Qed.

Lemma round_half_even_mono x y : (x <= y)%Q → round_half_even x ≤ round_half_even y.
Proof.
  intros Hxy. pose proof (Qfloor_resp_le _ _ Hxy) as Hf.
  pose proof (round_half_even_bounds x). pose proof (round_half_even_bounds y).
  destruct (Z.eq_dec (Qfloor x) (Qfloor y)) as [Heq|]; [|lia].
  unfold round_half_even. rewrite Heq.
  destruct (Qcompare_spec (x - inject_Z (Qfloor y)) (1 # 2));
    destruct (Qcompare_spec (y - inject_Z (Qfloor y)) (1 # 2));
    repeat case_match; try lia; exfalso; lra.
Qed.

Lemma round_ge_Z z q : (inject_Z z <= q)%Q → z ≤ round_half_even q.
Proof.
  intros H. rewrite <- (round_half_even_Z (inject_Z z) z) by reflexivity.
  by apply round_half_even_mono.
Qed.

Lemma round_le_Z z q : (q <= inject_Z z)%Q → round_half_even q ≤ z.
Proof.
  intros H. rewrite <- (round_half_even_Z (inject_Z z) z) by reflexivity.
  by apply round_half_even_mono.
Qed.

(** ** Rounding to 53 bits *)

Lemma Qle_bool_false x y : Qle_bool x y = false ↔ (y < x)%Q.
Proof.
  rewrite <- not_true_iff_false, Qle_bool_iff. split; intros; lra.
Qed.

Lemma scaled_bounds q : (0 < q)%Q →
  (inject_Z (2 ^ 52) <= q * pow2 (- (ilog2 q - 52)))%Q ∧
  (q * pow2 (- (ilog2 q - 52)) < inject_Z (2 ^ 53))%Q.
Proof.
  intros Hq. destruct (ilog2_spec q Hq) as [H1 H2].
  set (e := ilog2 q) in *.
  rewrite <- !(pow2_nonneg) by lia.
  replace 52 with (e + - (e - 52)) at 1 by lia.
  replace 53 with (e + 1 + - (e - 52)) by lia.
  rewrite (pow2_add e), (pow2_add (e + 1)). pose proof (pow2_pos (- (e - 52))).
  split; [apply Qmult_le_compat_r; lra | apply Qmult_lt_compat_r; lra].
Qed.

Lemma rnd_pos_eq q : (0 < q)%Q →
  rnd q = (inject_Z (round_half_even (q * pow2 (- (ilog2 q - 52)))) * pow2 (ilog2 q - 52))%Q.
Proof.
  intros Hq. unfold rnd. rewrite (proj2 (Qle_bool_false q 0)) by done. reflexivity.
Qed.

Lemma rnd_bounds q : (0 < q)%Q →
  (pow2 (ilog2 q) <= rnd q)%Q ∧ (rnd q <= pow2 (ilog2 q + 1))%Q.
Proof.
  intros Hq. rewrite rnd_pos_eq by done.
  destruct (scaled_bounds q Hq) as [H1 H2].
  set (e := ilog2 q) in *. set (s := (q * pow2 (- (e - 52)))%Q) in *.
  pose proof (round_ge_Z _ _ H1) as R1.
  pose proof (round_le_Z _ _ (Qlt_le_weak _ _ H2)) as R2.
  rewrite Zle_Qle in R1, R2. rewrite <- pow2_nonneg in R1, R2 by lia.
  assert (pow2 e == pow2 52 * pow2 (e - 52))%Q as E1
    by (rewrite <- pow2_add; f_equiv; lia).
  assert (pow2 (e + 1) == pow2 53 * pow2 (e - 52))%Q as E2
    by (rewrite <- pow2_add; f_equiv; lia).
  rewrite E1, E2. pose proof (pow2_pos (e - 52)). split; nra.
Qed.

Lemma rnd_nonneg q : (0 <= rnd q)%Q.
Proof.
  destruct (Qlt_le_dec 0 q) as [Hq|Hq].
  - pose proof (rnd_bounds q Hq). pose proof (pow2_pos (ilog2 q)). lra.
  - unfold rnd. rewrite (proj2 (Qle_bool_iff q 0)) by done. lra.
Qed.

(** Rounding is monotone. *)
Lemma rnd_mono x y : (x <= y)%Q → (rnd x <= rnd y)%Q.
Proof.
  intros Hxy. destruct (Qlt_le_dec 0 x) as [Hx|Hx].
  - assert (0 < y)%Q as Hy by lra.
    pose proof (ilog2_mono x y Hx Hxy) as Hl.
    destruct (Z.eq_dec (ilog2 x) (ilog2 y)) as [E|NE].
    + rewrite !rnd_pos_eq by done. rewrite E.
      pose proof (pow2_pos (ilog2 y - 52)). pose proof (pow2_pos (- (ilog2 y - 52))).
      assert (x * pow2 (- (ilog2 y - 52)) <= y * pow2 (- (ilog2 y - 52)))%Q as Hs by nra.
      apply round_half_even_mono in Hs. rewrite Zle_Qle in Hs. nra.
    + pose proof (rnd_bounds x Hx) as [_ H1].
      pose proof (rnd_bounds y Hy) as [H2 _].
      pose proof (pow2_le (ilog2 x + 1) (ilog2 y) ltac:(lia)). lra.
  - assert (rnd x = 0%Q) as ->.
    { unfold rnd. by rewrite (proj2 (Qle_bool_iff x 0)). }
    apply rnd_nonneg.
Qed.

(** A number with 53 significant bits is its own rounding. *)
Lemma rnd_exact m e q :
  0 < m ≤ 2 ^ 53 → (q == inject_Z m * pow2 e)%Q → (rnd q == q)%Q.
Proof.
  intros Hm Hq.
  assert (0 < inject_Z m)%Q as Hm0.
  { change 0%Q with (inject_Z 0). rewrite <- Zlt_Qlt. lia. }
  pose proof (pow2_pos e) as He.
  assert (0 < q)%Q as Hq0 by (rewrite Hq; nra).
  rewrite rnd_pos_eq by done.
  set (l := ilog2 q).
  (* the scaled value is the integer m * 2^(e - l + 52), or 2^52 *)
  assert (∃ k, (q * pow2 (- (l - 52)) == inject_Z k)%Q) as [k Hk].
  { destruct (Z.le_gt_cases 0 (e - l + 52)) as [Hge|Hlt].
    - exists (m * 2 ^ (e - l + 52)). rewrite inject_Z_mult, <- pow2_nonneg by done.
      rewrite Hq, <- Qmult_assoc, <- pow2_add. do 2 f_equiv. lia.
    - assert (m = 2 ^ 53 ∧ l = e + 53) as [-> Hl].
      { destruct (ilog2_spec q Hq0) as [H1 _]. fold l in H1.
        assert (q <= pow2 (e + 53))%Q as Hle.
        { rewrite Hq, Z.add_comm, pow2_add, (pow2_nonneg 53) by lia.
          destruct Hm as [_ Hm]. rewrite Zle_Qle in Hm. nra. }
        destruct (Z.eq_dec m (2 ^ 53)) as [->|Hne].
        { split; [done|]. apply ilog2_unique.
          - rewrite Hq, Z.add_comm, pow2_add, (pow2_nonneg 53) by lia. lra.
          - eapply Qle_lt_trans; [exact Hle|].
            rewrite (pow2_add (e + 53) 1). pose proof (pow2_pos (e + 53)).
            change (pow2 1) with (2 # 1)%Q. lra. }
        assert (q < pow2 (e + 53))%Q as Hlt2.
        { rewrite Hq, Z.add_comm, pow2_add, (pow2_nonneg 53) by lia.
          assert (m < 2 ^ 53) as Hm' by lia. rewrite Zlt_Qlt in Hm'. nra. }
        assert (l < e + 53) by (apply pow2_lt_inv; lra). lia. }
      exists (2 ^ 52). rewrite <- pow2_nonneg by lia.
      rewrite Hq, <- (pow2_nonneg 53), <- !pow2_add by lia. f_equiv. lia. }
  rewrite (round_half_even_Z _ _ Hk), <- Hk, <- Qmult_assoc, <- pow2_add.
  rewrite Z.add_opp_diag_l. apply Qmult_1_r.
Qed.

Lemma rnd_zero q : (q <= 0)%Q → rnd q = 0%Q.
Proof. intros. unfold rnd. by rewrite (proj2 (Qle_bool_iff q 0)). Qed.

Lemma rnd_idem q : (rnd (rnd q) == rnd q)%Q.
Proof.
  destruct (Qlt_le_dec 0 q) as [Hq|Hq].
  - destruct (scaled_bounds q Hq) as [H1 H2].
    apply (rnd_exact (round_half_even (q * pow2 (- (ilog2 q - 52)))) (ilog2 q - 52)).
    + pose proof (round_ge_Z _ _ H1). pose proof (round_le_Z _ _ (Qlt_le_weak _ _ H2)). lia.
    + by rewrite rnd_pos_eq.
  - rewrite (rnd_zero q Hq). reflexivity.
Qed.

(** Integers up to [2^53] convert exactly. *)
Lemma f64_of_Z_exact z : 0 ≤ z ≤ 2 ^ 53 → (f64_of_Z z == inject_Z z)%Q.
Proof.
  intros Hz. unfold f64_of_Z. destruct (Z.eq_dec z 0) as [->|]; [reflexivity|].
  apply (rnd_exact z 0); [lia|]. change (pow2 0) with 1%Q. by rewrite Qmult_1_r.
Qed.

Lemma f64_of_Z_mono a b : a ≤ b → (f64_of_Z a <= f64_of_Z b)%Q.
Proof. intros H. apply rnd_mono. by rewrite <- Zle_Qle. Qed.

Lemma f64_of_Z_nonneg z : (0 <= f64_of_Z z)%Q.
Proof. apply rnd_nonneg. Qed.

(** Adding a non-negative number to a converted integer does not go below it. *)
Lemma f64_add_of_Z_ge z y : (0 <= y)%Q → (f64_of_Z z <= f64_add (f64_of_Z z) y)%Q.
Proof.
  intros Hy. unfold f64_add. rewrite <- (rnd_idem (inject_Z z)) at 1.
  apply rnd_mono. unfold f64_of_Z. lra.
Qed.

Lemma f64_mul_nonneg x y : (0 <= f64_mul x y)%Q.
Proof. apply rnd_nonneg. Qed.

Lemma f64_ge_iff x y : f64_ge x y = true ↔ (y <= x)%Q.
Proof. apply Qle_bool_iff. Qed.

Lemma f64_ge_false x y : f64_ge x y = false ↔ (x < y)%Q.
Proof. apply Qle_bool_false. Qed.

#[export] Hint Resolve rnd_nonneg f64_of_Z_nonneg f64_mul_nonneg : x402.

(** The rounding agrees with the standard library's executable binary64:
    [7.0 / 60.0] and its product with [41.0]. *)
From Stdlib Require Import SpecFloat.

Definition spec_f64 (z : Z) : spec_float := binary_normalize 53 1024 z 0 false.
Definition spec_value (f : spec_float) : Q :=
  match f with
  | S754_finite false m e => (inject_Z (Zpos m) * pow2 e)%Q
  | _ => 0%Q
  end.

Example rnd_agrees_with_SpecFloat :
  let q := SFdiv 53 1024 (spec_f64 7) (spec_f64 60) in
  (spec_value q == f64_div (f64_of_Z 7) (f64_of_Z 60))%Q ∧
  (spec_value (SFmul 53 1024 q (spec_f64 41))
     == f64_mul (f64_div (f64_of_Z 7) (f64_of_Z 60)) (f64_of_Z 41))%Q ∧
  (spec_value (spec_f64 (2 ^ 53 + 1)) == f64_of_Z (2 ^ 53 + 1))%Q.
Proof. vm_compute. auto. Qed.
