(* ===== verification/FloatText.v ===== *)
(** * Reading an [f64] from text ([str::parse::<f64>])

    The payment client reads phase timings out of headers.  A parsed float is
    the standard library's executable binary64 ([SpecFloat]): the decimal the
    text denotes, rounded once, ties to even.  The grammar is the one the
    documentation of [f64::from_str] gives. *)

From Stdlib Require Import Ascii SpecFloat DecimalString DecimalPos.
From Stdlib Require Import DecimalFacts.
From S2P Require Import Prelude RustStr.
From stdpp Require Import options.
#[local] Open Scope Z_scope.

Abbreviation f64 := spec_float.

Definition is_ascii_digit (c : ascii) : bool :=
  let x := byte_of c in (48 <=? x) && (x <=? 57).

(** The longest prefix of bytes that satisfy [f], and the rest. *)
Fixpoint span (f : ascii → bool) (s : string) : string * string :=
  match s with
  | EmptyString => (EmptyString, EmptyString)
  | String c s' =>
      if f c then let '(a, b) := span f s' in (String c a, b) else (EmptyString, s)
  end.

(** [(-1)^neg * m * 10^e], correctly rounded. *)
Definition f64_of_decimal (neg : bool) (m e : Z) : f64 :=
  match m with
  | Z.pos p =>
      if 0 <=? e then binary_normalize 53 1024 (cond_Zopp neg (m * 10 ^ e)) 0 neg
      else let '(q, x, l) := SFdiv_core_binary 53 1024 m 0 (10 ^ (- e)) 0 in
           binary_round_aux 53 1024 neg q x l
  | _ => S754_zero neg
  end.

(** A sign, taken off. *)
Definition take_sign (s : string) : bool * string :=
  match s with
  | String "-" r => (true, r)
  | String "+" r => (false, r)
  | _ => (false, s)
  end.

(** What may follow the digits: nothing, or an exponent. *)
Definition parse_exponent (s : string) : option Z :=
  match s with
  | EmptyString => Some 0
  | String c r =>
      if bool_decide (ascii_lower c = "e"%char) then
        let '(neg, digits) := take_sign r in
        (λ z : Z, if neg then - z else z) <$> parse_digits digits
      else None
  end.

Definition parse_number (neg : bool) (s : string) : option f64 :=
  let '(whole, rest) := span is_ascii_digit s in
  let '(frac, rest) :=
    match rest with String "." r => span is_ascii_digit r | _ => (EmptyString, rest) end in
  match parse_digits (whole +:+ frac), parse_exponent rest with
  | Some m, Some e => Some (f64_of_decimal neg m (e - Z.of_nat (slen frac)))
  | _, _ => None
  end.

Definition parse_f64 (s : string) : option f64 :=
  let '(neg, r) := take_sign s in
  match parse_number neg r with
  | Some x => Some x
  | None =>
      if eq_ignore_ascii_case r "inf" || eq_ignore_ascii_case r "infinity"
      then Some (S754_infinity neg)
      else if eq_ignore_ascii_case r "nan" then Some S754_nan
      else None
  end.

(** ** Text with one decimal *)

(** [{:.1}] of a number of tenths, as the gateway prints a duration. *)
Definition tenths_text (t : Z) : string := u_to_string (t / 10) +:+ "." +:+ u_to_string (t mod 10).

Lemma span_app f a c b :
  sall f a = true → f c = false → span f (a +:+ String c b) = (a, String c b).
Proof.
  intros Ha Hc. induction a as [|x a IH]; cbn [String.append span] in *; [by rewrite Hc|].
  cbn [sall] in Ha. apply andb_true_iff in Ha as [-> Ha]. by rewrite IH.
Qed.

Lemma span_all f a : sall f a = true → span f a = (a, EmptyString).
Proof.
  induction a as [|x a IH]; cbn [span sall]; [done|].
  intros [-> Ha]%andb_true_iff. by rewrite IH.
Qed.

Lemma u_to_string_all_digits z : sall is_ascii_digit (u_to_string z) = true.
Proof.
  unfold u_to_string. generalize (N.to_uint (Z.to_N z)). intros d. by induction d.
Qed.

(** Decimal text is read by Horner's rule. *)
Lemma parse_digits_snoc a z (k : Z) :
  parse_digits a = Some z → 0 ≤ k < 10 → parse_digits (a +:+ u_to_string k) = Some (10 * z + k).
Proof.
  intros Ha Hk. unfold parse_digits in *. destruct (is_empty a) eqn:Ea; [done|].
  assert (is_empty (a +:+ u_to_string k) = false) as -> by (by destruct a).
  destruct (NilEmpty.uint_of_string a) as [d|] eqn:Ed; [|done].
  injection Ha as <-.
  set (one := match k with
              | 0 => Decimal.D0 | 1 => Decimal.D1 | 2 => Decimal.D2 | 3 => Decimal.D3
              | 4 => Decimal.D4 | 5 => Decimal.D5 | 6 => Decimal.D6 | 7 => Decimal.D7
              | 8 => Decimal.D8 | _ => Decimal.D9 end).
  assert (NilEmpty.uint_of_string (a +:+ u_to_string k) = Some (Decimal.app d (one Decimal.Nil))) as ->.
  { clear Ea. revert d Ed. induction a as [|c a IH]; intros d Ed.
    - injection Ed as <-.
      assert (k = 0 ∨ k = 1 ∨ k = 2 ∨ k = 3 ∨ k = 4 ∨ k = 5 ∨ k = 6 ∨ k = 7 ∨ k = 8 ∨ k = 9)
        as Hc by lia.
      by destruct_or! Hc; subst k.
    - cbn [NilEmpty.uint_of_string String.append] in *.
      destruct (NilEmpty.uint_of_string a) as [d'|]; [|by destruct c as [[] [] [] [] [] [] [] []]].
      rewrite (IH d' eq_refl).
      destruct c as [[] [] [] [] [] [] [] []]; try discriminate Ed; injection Ed as <-;
        cbn -[Decimal.app]; f_equal; apply to_list_inj; rewrite !app_spec; cbn [to_list List.app]; by rewrite app_spec. }
  cbn. f_equal. unfold N.of_uint. rewrite !DecimalPos.Unsigned.of_uint_alt.
  assert (k = 0 ∨ k = 1 ∨ k = 2 ∨ k = 3 ∨ k = 4 ∨ k = 5 ∨ k = 6 ∨ k = 7 ∨ k = 8 ∨ k = 9)
    as Hc by lia.
  assert (Decimal.rev (Decimal.app d (one Decimal.Nil)) = one (Decimal.rev d)) as ->.
  { destruct_or! Hc; subst k; apply to_list_inj; unfold one;
      by rewrite rev_spec, app_spec, rev_app_distr; cbn [to_list List.app List.rev]; rewrite rev_spec. }
  destruct_or! Hc; subst k; cbn [one DecimalPos.Unsigned.of_lu]; lia.
Qed.

(** Reading a printed duration gives the tenths it was printed from. *)
Lemma parse_f64_tenths t : 0 ≤ t → parse_f64 (tenths_text t) = Some (f64_of_decimal false t (-1)).
Proof.
  intros Ht. pose proof (Z.mod_pos_bound t 10 eq_refl) as Hm.
  pose proof (Z.div_pos t 10 Ht eq_refl) as Hd.
  unfold parse_f64, tenths_text.
  set (a := u_to_string (t / 10)). set (b := u_to_string (t mod 10)).
  assert (take_sign (a +:+ "." +:+ b) = (false, a +:+ "." +:+ b)) as ->.
  { pose proof (u_to_string_all_digits (t / 10)) as Ha. pose proof (u_to_string_nonempty (t / 10)).
    subst a. destruct (u_to_string (t / 10)) as [|c r]; [done|].
    by destruct c as [[] [] [] [] [] [] [] []]. }
  unfold parse_number. cbn [String.append].
  rewrite (span_app is_ascii_digit a "." b) by (done || apply u_to_string_all_digits).
  rewrite (span_all is_ascii_digit b) by apply u_to_string_all_digits.
  subst a b. rewrite (parse_digits_snoc _ (t / 10)) by (done || by apply parse_digits_print).
  cbn [parse_exponent].
  assert (slen (u_to_string (t mod 10)) = 1%nat) as ->.
  { assert (t mod 10 = 0 ∨ t mod 10 = 1 ∨ t mod 10 = 2 ∨ t mod 10 = 3 ∨ t mod 10 = 4 ∨ t mod 10 = 5 ∨
      t mod 10 = 6 ∨ t mod 10 = 7 ∨ t mod 10 = 8 ∨ t mod 10 = 9) as Hc by lia.
    by destruct_or! Hc; rewrite Hc. }
  do 2 f_equal. pose proof (Z.div_mod t 10). lia.
Qed.

(** The standard library's documentation, on examples. *)
Example parse_f64_examples :
  parse_f64 "412.5" = Some (S754_finite false 7256776743321600 (-44)) ∧
  parse_f64 "7" = parse_f64 "+7.0e0" ∧ parse_f64 ".5" = parse_f64 "5e-1" ∧
  parse_f64 "5." = parse_f64 "5" ∧ parse_f64 "" = None ∧ parse_f64 "." = None ∧
  parse_f64 "1e" = None ∧ parse_f64 " 1" = None ∧ parse_f64 "-0" = Some (S754_zero true) ∧
  parse_f64 "-Infinity" = Some (S754_infinity true) ∧ parse_f64 "1e400" = Some (S754_infinity false) ∧
  parse_f64 "NaN" = Some S754_nan ∧
  parse_f64 "0.1" = Some (S754_finite false 7205759403792794 (-56)).
Proof. vm_compute. repeat split. Qed.
