(* ===== verification/Breaker.v ===== *)
(** * The settlement circuit breaker ([src/breaker.rs])

    One [Window] per policy, created on first use.  [state_at] answers what a
    policy allows and claims the half-open probe, [record_at] feeds it a
    settlement outcome; the clock is an argument as in the code.  The
    component's contract is [Spec]: the breaker counts the failures since the
    last success. *)

From Stdlib Require Import QArith Lqa.
From S2P Require Import Prelude Float64.
From stdpp Require Import options.
#[local] Open Scope Z_scope.

Definition WINDOW : nat := 20.
Definition MIN_SAMPLES : nat := 5.
#[global] Arguments WINDOW : simpl never.
#[global] Arguments MIN_SAMPLES : simpl never.
Definition FAILURE_THRESHOLD : F64 := (1 # 2)%Q.
Definition COOLDOWN_SECS : Z := 30.

Inductive BreakerState := Closed | Open | HalfOpen.

#[export] Instance BreakerState_eq_dec : EqDecision BreakerState.
Proof. solve_decision. Defined.

Definition accepts_payment (s : BreakerState) : bool :=
  match s with Closed | HalfOpen => true | Open => false end.

Definition as_str (s : BreakerState) : string :=
  match s with Closed => "closed" | Open => "open" | HalfOpen => "half_open" end.

Record Window := mkWindow {
  outcomes : list bool;
  opened_at : option Z;
  probing : bool
}.

Definition Window_default : Window :=
  {| outcomes := []; opened_at := None; probing := false |}.

(** [SettlementBreaker { policies: DashMap<String, Window> }]. *)
Abbreviation SettlementBreaker := (gmap string Window).

Definition new : SettlementBreaker := ∅.

(** [entry(policy).or_default()]. *)
Definition window (b : SettlementBreaker) (policy : string) : Window :=
  unwrap_or (b !! policy) Window_default.

(** What [state_at] does to the entry it locked. *)
Definition state_window (w : Window) (now : Z) : BreakerState * Window :=
  match w.(opened_at) with
  | None => (Closed, w)
  | Some opened =>
      if sat_sub now opened <? COOLDOWN_SECS then (Open, w)
      else if w.(probing) then (Open, w)
      else (HalfOpen, {| outcomes := w.(outcomes); opened_at := w.(opened_at);
                         probing := true |})
  end.

Definition state_at (policy : string) (now : Z) (b : SettlementBreaker) :
  BreakerState * SettlementBreaker :=
  let '(s, w) := state_window (window b policy) now in (s, <[policy := w]> b).

(** [while outcomes.len() > WINDOW { outcomes.pop_front(); }] *)
Fixpoint pop_excess (l : list bool) : list bool :=
  match l with
  | [] => []
  | _ :: l' => if (WINDOW <? length l)%nat then pop_excess l' else l
  end.

(** [failures as f64 / total as f64 >= FAILURE_THRESHOLD]. *)
Definition over_threshold (l : list bool) : bool :=
  let total := length l in
  let failures := length (filter (λ f, f = true) l) in
  (MIN_SAMPLES <=? total)%nat
  && f64_ge (f64_div (f64_of_Z (Z.of_nat failures)) (f64_of_Z (Z.of_nat total)))
            FAILURE_THRESHOLD.

Definition record_window (w : Window) (failed : bool) (now : Z) : Window :=
  if negb failed then
    {| outcomes := []; opened_at := None; probing := false |}
  else
    let out := pop_excess (w.(outcomes) ++ [true]) in
    match w.(opened_at) with
    | Some _ => {| outcomes := out; opened_at := Some now; probing := false |}
    | None =>
        {| outcomes := out;
           opened_at := if over_threshold out then Some now else None;
           probing := false |}
    end.

Definition record_at (policy : string) (failed : bool) (now : Z)
    (b : SettlementBreaker) : SettlementBreaker :=
  <[policy := record_window (window b policy) failed now]> b.

Definition record_success (policy : string) (now : Z) := record_at policy false now.
Definition record_failure (policy : string) (now : Z) := record_at policy true now.

(** ** Histories *)

(** One use of a policy's entry; the entry's lock makes each atomic. *)
Inductive Event :=
| Query (now : Z)
| Outcome (failed : bool) (now : Z).

Definition apply_event (w : Window) (e : Event) : Window :=
  match e with
  | Query now => (state_window w now).2
  | Outcome failed now => record_window w failed now
  end.

Definition run (w : Window) (h : list Event) : Window := fold_left apply_event h w.

(** ** The contract: consecutive failures *)

Module Spec.
Record t := mk { failures : nat; last : Z }.
Definition init : t := {| failures := 0; last := 0 |}.
Definition apply (s : t) (e : Event) : t :=
  match e with
  | Query _ => s
  | Outcome true now => {| failures := S s.(failures); last := now |}
  | Outcome false now => init
  end.
Definition run (h : list Event) : t := fold_left apply h init.
Definition open (s : t) : bool := (MIN_SAMPLES <=? s.(failures))%nat.
End Spec.

(** The window stands for the abstract state. *)
Definition implements (w : Window) (s : Spec.t) : Prop :=
  w.(outcomes) = replicate (Nat.min WINDOW s.(Spec.failures)) true ∧
  w.(opened_at) = (if Spec.open s then Some s.(Spec.last) else None) ∧
  (w.(probing) = true → Spec.open s = true).

(** ** The documented rule (docs/settlement-failure.md) *)

(** The outcomes a policy has reported, the latest last. *)
Definition reported (h : list Event) : list bool :=
  omap (λ e, match e with Outcome failed _ => Some failed | Query _ => None end) h.

(** A failure rate of one half over at least five of the latest outcomes. *)
Definition documented_rate (l : list bool) : Prop :=
  ∃ old samples, l = old ++ samples ∧ (MIN_SAMPLES ≤ length samples ≤ WINDOW)%nat ∧
    (length samples ≤ 2 * length (filter (λ f, f = true) samples))%nat.

(** ** Lemmas *)

Lemma window_insert_eq b p w : window (<[p := w]> b) p = w.
Proof. unfold window. by rewrite lookup_insert_eq. Qed.

Lemma window_insert_ne b p q w : p ≠ q → window (<[p := w]> b) q = window b q.
Proof. intros. unfold window. by rewrite lookup_insert_ne. Qed.

Lemma state_at_fst p now b : (state_at p now b).1 = (state_window (window b p) now).1.
Proof. unfold state_at. by destruct (state_window _ _). Qed.

Lemma state_at_snd p now b :
  (state_at p now b).2 = <[p := (state_window (window b p) now).2]> b.
Proof. unfold state_at. by destruct (state_window _ _). Qed.

Lemma pop_excess_replicate n :
  (n ≤ S WINDOW)%nat → pop_excess (replicate n true) = replicate (Nat.min WINDOW n) true.
Proof.
  intros Hn. destruct (decide (n = S WINDOW)) as [->|Hne]; [reflexivity|].
  rewrite Nat.min_r by lia. destruct n as [|n]; [reflexivity|].
  cbn [replicate pop_excess]. change (true :: replicate n true) with (replicate (S n) true).
  rewrite length_replicate. by rewrite (proj2 (Nat.ltb_ge _ _)) by lia.
Qed.

Lemma filter_true_replicate n : filter (λ f, f = true) (replicate n true) = replicate n true.
Proof.
  induction n as [|n IH]; [done|]. cbn [replicate].
  rewrite filter_cons_True by done. by rewrite IH.
Qed.

Lemma ratio_one n : (0 < n ≤ 2 ^ 53) → (f64_div (f64_of_Z n) (f64_of_Z n) == 1)%Q.
Proof.
  intros Hn. unfold f64_div. assert (0 < f64_of_Z n)%Q as H0.
  { rewrite f64_of_Z_exact by lia. change 0%Q with (inject_Z 0). rewrite <- Zlt_Qlt. lia. }
  assert (f64_of_Z n / f64_of_Z n == 1)%Q as H1 by (field; lra).
  assert (rnd 1 == 1)%Q as H2 by (apply (f64_of_Z_exact 1); lia).
  assert (Hle : (rnd (f64_of_Z n / f64_of_Z n) <= rnd 1)%Q) by (apply rnd_mono; lra).
  assert (Hge : (rnd 1 <= rnd (f64_of_Z n / f64_of_Z n))%Q) by (apply rnd_mono; lra).
  lra.
Qed.

(** The outcomes kept are all failures, so their failure rate is one: only the
    number of samples decides. *)
Lemma over_threshold_replicate n :
  (n ≤ WINDOW)%nat → over_threshold (replicate n true) = (MIN_SAMPLES <=? n)%nat.
Proof.
  intros Hn. unfold over_threshold.
  rewrite filter_true_replicate, !length_replicate.
  destruct (Nat.leb_spec MIN_SAMPLES n) as [Hm|]; [|done].
  simpl. apply f64_ge_iff. unfold WINDOW, MIN_SAMPLES in *.
  rewrite ratio_one by lia. unfold FAILURE_THRESHOLD. lra.
Qed.

Lemma replicate_snoc {A} n (x : A) : replicate n x ++ [x] = replicate (S n) x.
Proof. by rewrite replicate_S_end. Qed.

Lemma implements_init : implements Window_default Spec.init.
Proof. repeat split. done. Qed.

Lemma implements_query w s now :
  implements w s → implements (state_window w now).2 s.
Proof.
  intros H. pose proof H as (Ho & Hop & Hp). unfold state_window.
  destruct (opened_at w) as [o|] eqn:E; [|exact H].
  destruct (_ <? _); [exact H|]. destruct (probing w) eqn:Ep; [exact H|].
  split_and!; simpl; [done|congruence|].
  destruct (Spec.open s); congruence.
Qed.

Lemma implements_record w s failed now :
  implements w s → implements (record_window w failed now) (Spec.apply s (Outcome failed now)).
Proof.
  intros (Ho & Hop & Hp). destruct failed; simpl; [|by split_and!].
  unfold record_window; simpl.
  assert (pop_excess (outcomes w ++ [true]) = replicate (Nat.min WINDOW (S (Spec.failures s))) true) as Hout.
  { rewrite Ho, replicate_snoc, pop_excess_replicate by lia. f_equal. lia. }
  rewrite Hout, Hop. unfold Spec.open.
  destruct (Nat.leb_spec MIN_SAMPLES (Spec.failures s)) as [Hm|Hm]; cbn [outcomes opened_at probing].
  - split_and!; [reflexivity| |done].
    unfold Spec.open; cbn [Spec.failures Spec.last opened_at]. by rewrite (proj2 (Nat.leb_le _ _)) by (unfold MIN_SAMPLES in *; lia).
  - split_and!; [reflexivity| |done].
    unfold Spec.open; cbn [Spec.failures Spec.last opened_at].
    rewrite over_threshold_replicate by lia.
    replace (MIN_SAMPLES <=? _ `min` _)%nat with (MIN_SAMPLES <=? S (Spec.failures s))%nat; [done|].
    apply eq_true_iff_eq. rewrite !Nat.leb_le. unfold WINDOW, MIN_SAMPLES. lia.
Qed.

Lemma implements_event w s e :
  implements w s → implements (apply_event w e) (Spec.apply s e).
Proof.
  destruct e; [apply implements_query | apply implements_record].
Qed.

Lemma implements_run h w s :
  implements w s → implements (run w h) (fold_left Spec.apply h s).
Proof.
  revert w s. induction h as [|e h IH]; intros w s H; [done|].
  apply IH. by apply implements_event.
Qed.

Lemma reported_snoc h e :
  reported (h ++ [e]) = reported h ++ (match e with Outcome failed _ => [failed] | Query _ => [] end).
Proof. unfold reported. rewrite omap_app. by destruct e. Qed.

Lemma spec_run_snoc h e : Spec.run (h ++ [e]) = Spec.apply (Spec.run h) e.
Proof. unfold Spec.run. by rewrite fold_left_app. Qed.

(** The abstract count is the length of the streak of failures at the end. *)
Lemma failing_streak h n :
  (n ≤ Spec.failures (Spec.run h))%nat ↔ ∃ old, reported h = old ++ replicate n true.
Proof.
  revert n. induction h as [|e h IH] using rev_ind; intros n.
  { cbn. split; [intros Hn; assert (n = 0%nat) as -> by lia; by exists []|].
    intros [old Ho]. symmetry in Ho. apply app_nil in Ho as [_ Ho]. by destruct n. }
  rewrite spec_run_snoc, reported_snoc. destruct e as [now|failed now]; cbn [Spec.apply].
  { by rewrite app_nil_r. }
  destruct n as [|n].
  { split; [|lia]. intros _. eexists. cbn [replicate]. by rewrite app_nil_r. }
  rewrite <- replicate_snoc. setoid_rewrite (assoc_L (++)).
  destruct failed; cbn [Spec.failures Spec.init].
  - rewrite <- Nat.succ_le_mono, IH. split.
    + intros [old ->]. by exists old.
    + intros [old [Ho _]%app_inj_tail]. by exists old.
  - split; [lia|]. intros [old [_ [=]]%app_inj_tail].
Qed.

(** A claimed probe: the policy answers [Open] and nothing but an outcome
    changes its window. *)
Lemma stuck_query w now :
  probing w = true → is_Some (opened_at w) → state_window w now = (Open, w).
Proof.
  intros Hp [t Ht]. unfold state_window. rewrite Ht, Hp. by case_match.
Qed.

Lemma stuck_open w now :
  probing w = true → is_Some (opened_at w) → (state_window w now).1 = Open.
Proof. intros. by rewrite stuck_query. Qed.

Lemma stuck_run w later :
  probing w = true → is_Some (opened_at w) → run w (Query <$> later) = w.
Proof.
  intros Hp Ho. induction later as [|n later IH]; [done|].
  unfold run in *. cbn [fmap list_fmap fold_left apply_event].
  by rewrite stuck_query.
Qed.

Lemma probe_claimed w opened now :
  opened_at w = Some opened → probing w = false → COOLDOWN_SECS ≤ now - opened →
  state_window w now =
    (HalfOpen, {| outcomes := outcomes w; opened_at := Some opened; probing := true |}).
Proof.
  intros Ho Hp Hc. unfold state_window. rewrite Ho, Hp.
  rewrite sat_sub_ge by (unfold COOLDOWN_SECS in *; lia).
  by rewrite (proj2 (Z.ltb_ge _ _)) by done.
Qed.

(** ** Properties *)

(** C30: When the breaker opens, against the documented rule.  The docs have it
    open past a failure rate of one half over at least five samples, and close
    on a single success.  After any history of queries and outcomes of a policy:
    it is open only when some five to twenty of its latest outcomes fail at that
    rate, as documented; and because a success also clears the samples (the
    comment in [record_at]) it opens on fewer occasions than the documented rate
    alone: exactly when the latest [MIN_SAMPLES] outcomes or more all failed.
    It remembers just those failures, at most [WINDOW] of them, and the time of the
    last starts the cooldown.  (The gap: [documented_rate_leaves_it_closed],
    [half_the_settlements_failing_never_opens].) *)
Theorem breaker_opens_within_the_documented_rate (h : list Event) :
  let w := run Window_default h in
  (is_Some (opened_at w) → documented_rate (reported h)) ∧
  (is_Some (opened_at w) ↔ ∃ old, reported h = old ++ replicate MIN_SAMPLES true) ∧
  implements w (Spec.run h).
Proof.
  intros w. pose proof (implements_run h _ _ implements_init) as Himp. fold w in Himp.
  assert (is_Some (opened_at w) ↔ ∃ old, reported h = old ++ replicate MIN_SAMPLES true) as Hopen.
  { destruct Himp as (_ & -> & _). unfold Spec.open. rewrite <- failing_streak.
    fold (Spec.run h). by destruct (Nat.leb_spec MIN_SAMPLES (Spec.failures (Spec.run h))) as [Hm|Hm];
      split; (by eexists) || (intros [? [=]]) || (intros; lia) || (intros _; lia). }
  split; [|by split]. intros [old Hr]%Hopen. exists old, (replicate MIN_SAMPLES true).
  split; [done|]. rewrite filter_true_replicate, !length_replicate. unfold MIN_SAMPLES, WINDOW. lia.
Qed.

(** The documented rate can be reached without the breaker opening: six of the
    latest seven settlements failed, and the policy is closed. *)
Theorem documented_rate_leaves_it_closed :
  let h := (λ failed, Outcome failed 1700000000) <$> [true; true; true; false; true; true; true] in
  documented_rate (reported h) ∧ opened_at (run Window_default h) = None.
Proof.
  split; [|vm_compute; reflexivity].
  exists [], [true; true; true; false; true; true; true]. split; [reflexivity|].
  vm_compute. lia.
Qed.

(** A success closes a policy whatever happened before, and the breaker
    then accepts payments without waiting. *)
Theorem success_closes_immediately (p : string) (t now : Z) (b : SettlementBreaker) :
  (state_at p now (record_success p t b)).1 = Closed.
Proof. unfold state_at, record_success, record_at. by rewrite window_insert_eq. Qed.

(** One policy's queries and outcomes do not touch another's state. *)
Theorem policies_isolated (p q : string) (failed : bool) (t now : Z)
    (b : SettlementBreaker) (Hne : p ≠ q) :
  (state_at q now (record_at p failed t b)).1 = (state_at q now b).1 ∧
  (state_at q now (state_at p t b).2).1 = (state_at q now b).1.
Proof.
  rewrite !state_at_fst, !state_at_snd. unfold record_at.
  by rewrite !window_insert_ne by done.
Qed.

Definition after_outcomes (l : list bool) (b : SettlementBreaker) (p : string) (t : Z) :=
  fold_left (λ b f, record_at p f t b) l b.

Lemma policies_isolated_witness :
  "grpc" ≠ "graphql" ∧
  (state_at "graphql" 1700000000
     (record_at "grpc" true 1700000000
        (after_outcomes (replicate 5 true) new "grpc" 1700000000))).1
  = (state_at "graphql" 1700000000
        (after_outcomes (replicate 5 true) new "grpc" 1700000000)).1.
Proof.
  assert (H : "grpc" ≠ "graphql") by discriminate. split; [exact H|].
  exact (proj1 (policies_isolated "grpc" "graphql" true 1700000000 1700000000
    (after_outcomes (replicate 5 true) new "grpc" 1700000000) H)).
Defined.

(** One probe.  Once the cooldown of an open policy has passed, exactly one
    query gets the probe: the first is answered [HalfOpen] and every later one
    [Open], at whatever times they come, until an outcome is recorded. *)
Theorem one_probe_until_an_outcome (w : Window) (opened now : Z) (later : list Z)
    (Hopen : opened_at w = Some opened) (Hfree : probing w = false)
    (Hcool : COOLDOWN_SECS ≤ now - opened) :
  (state_window w now).1 = HalfOpen ∧
  ∀ t, (state_window (run (state_window w now).2 (Query <$> later)) t).1 = Open.
Proof.
  rewrite (probe_claimed w opened now) by done. simpl. split; [done|]. intros t.
  rewrite stuck_run; [|done|by eexists].
  apply stuck_open; [done | by eexists].
Qed.

Lemma one_probe_until_an_outcome_witness :
  let w := run Window_default (replicate 5 (Outcome true 1700000000)) in
  opened_at w = Some 1700000000 ∧
  (state_window (run (state_window w 1700000030).2 (Query <$> [1700000040; 1800000000])) 1900000000).1 = Open.
Proof.
  cbv zeta. split; [vm_compute; reflexivity|].
  refine (proj2 (one_probe_until_an_outcome _ 1700000000 1700000030 _ _ _ _) _);
    vm_compute; congruence.
Defined.

(** The cooldown.  An open policy refuses for [COOLDOWN_SECS] after the last
    failure, counted from a failed probe when there was one. *)
Theorem cooldown_restarts_at_failure (w : Window) (t now : Z)
    (Hopen : is_Some (opened_at w)) (Hnow : t ≤ now < t + COOLDOWN_SECS) :
  (state_window (record_window w true t) now).1 = Open ∧
  (state_window (record_window w true t) (t + COOLDOWN_SECS)).1 = HalfOpen.
Proof.
  destruct Hopen as [o Ho]. unfold record_window, state_window. simpl. rewrite Ho. simpl.
  rewrite !sat_sub_ge by (unfold COOLDOWN_SECS in *; lia).
  rewrite (proj2 (Z.ltb_lt _ _)) by lia.
  rewrite (proj2 (Z.ltb_ge (t + COOLDOWN_SECS - t) _)) by lia. done.
Qed.

Lemma cooldown_restarts_at_failure_witness :
  let w := run Window_default (replicate 5 (Outcome true 1700000000)) in
  is_Some (opened_at w) ∧
  (state_window (record_window w true 1700000030) 1700000031).1 = Open.
Proof.
  cbv zeta. assert (is_Some (opened_at (run Window_default (replicate 5 (Outcome true 1700000000))))) as H
    by (exists 1700000000; vm_compute; reflexivity).
  split; [exact H|].
  refine (proj1 (cooldown_restarts_at_failure _ 1700000030 1700000031 H _)).
  vm_compute; split; congruence.
Defined.

(** The failure rate never matters.  Settlements that fail every second
    time, a 50% failure rate over any number of samples, never open a policy,
    although the module means to open "past a failure rate". *)
Theorem half_the_settlements_failing_never_opens (n : nat) (t : Z) :
  opened_at (run Window_default
    (concat (replicate n [Outcome true t; Outcome false t]))) = None ∧
  opened_at (run Window_default
    (concat (replicate n [Outcome true t; Outcome false t]) ++ [Outcome true t])) = None.
Proof.
  assert (run Window_default (concat (replicate n [Outcome true t; Outcome false t])) = Window_default) as H.
  { induction n as [|n IH]; [done|]. exact IH. }
  unfold run in *. rewrite fold_left_app, H. split; vm_compute; reflexivity.
Qed.
