(* ===== verification/IpAddr.v ===== *)
(** * IP addresses

    [std::net::IpAddr] with its [Display] and [FromStr], which the rate
    limiter's keys and the peer address of a request go through. *)

From Stdlib Require Import Ascii HexadecimalString HexadecimalN.
From S2P Require Import Prelude RustStr.
From stdpp Require Import options.

Inductive IpAddr :=
| V4 (a b c d : Z)
| V6 (s0 s1 s2 s3 s4 s5 s6 s7 : Z).

#[export] Instance IpAddr_eq_dec : EqDecision IpAddr.
Proof. solve_decision. Defined.
#[export] Instance IpAddr_countable : Countable IpAddr.
Proof.
  apply (inj_countable'
    (λ ip, match ip with
           | V4 a b c d => inl (a, b, c, d)
           | V6 s0 s1 s2 s3 s4 s5 s6 s7 => inr (s0, s1, s2, s3, (s4, s5, s6, s7))
           end)
    (λ x, match x with
          | inl (a, b, c, d) => V4 a b c d
          | inr (s0, s1, s2, s3, (s4, s5, s6, s7)) => V6 s0 s1 s2 s3 s4 s5 s6 s7
          end)). by intros [].
Defined.

Definition is_u8 (z : Z) : Prop := 0 ≤ z < 2 ^ 8.
Definition is_u16 (z : Z) : Prop := 0 ≤ z < 2 ^ 16.

Definition wf_ip (ip : IpAddr) : Prop :=
  match ip with
  | V4 a b c d => Forall is_u8 [a; b; c; d]
  | V6 s0 s1 s2 s3 s4 s5 s6 s7 => Forall is_u16 [s0; s1; s2; s3; s4; s5; s6; s7]
  end.

(** ** Display *)

Fixpoint join (sep : string) (l : list string) : string :=
  match l with
  | [] => ""
  | [x] => x
  | x :: l' => x +:+ sep +:+ join sep l'
  end.

(** [{:x}]. *)
Definition u_to_hex (z : Z) : string := NilEmpty.string_of_uint (N.to_hex_uint (Z.to_N z)).

Definition ipv4_to_string (a b c d : Z) : string :=
  join "." (u_to_string <$> [a; b; c; d]).

(** The longest run of zero segments, the first of that length: (start, len). *)
Fixpoint zero_span (i : nat) (cur longest : nat * nat) (l : list Z) : nat * nat :=
  match l with
  | [] => longest
  | s :: l' =>
      if s =? 0 then
        let start := if (cur.2 =? 0)%nat then i else cur.1 in
        let cur := (start, S cur.2) in
        zero_span (S i) cur (if (longest.2 <? cur.2)%nat then cur else longest) l'
      else zero_span (S i) (O, O) longest l'
  end.

Definition to_ipv4_mapped (l : list Z) : option (Z * Z) :=
  match l with
  | [0; 0; 0; 0; 0; 65535; g; h] => Some (g, h)
  | _ => None
  end.

(** The longest run of at least two zero segments is elided. *)
Definition elide_zeros (l : list Z) : string :=
  let '(start, len) := zero_span O (O, O) (O, O) l in
  if (1 <? len)%nat then
    join ":" (u_to_hex <$> take start l) +:+ "::" +:+
    join ":" (u_to_hex <$> drop (start + len) l)
  else join ":" (u_to_hex <$> l).

Definition ipv6_to_string (l : list Z) : string :=
  match to_ipv4_mapped l with
  | Some (g, h) =>
      "::ffff:" +:+ ipv4_to_string (g / 256) (g mod 256) (h / 256) (h mod 256)
  | None => elide_zeros l
  end.

Definition ip_to_string (ip : IpAddr) : string :=
  match ip with
  | V4 a b c d => ipv4_to_string a b c d
  | V6 s0 s1 s2 s3 s4 s5 s6 s7 => ipv6_to_string [s0; s1; s2; s3; s4; s5; s6; s7]
  end.

(** ** FromStr *)

(** An octet: one to three digits, no leading zero, at most 255. *)
Definition parse_octet (s : string) : option Z :=
  match s with
  | String "0" (String _ _) => None
  | _ => if (slen s <=? 3)%nat then
           match parse_digits s with
           | Some z => if z <=? 255 then Some z else None
           | None => None
           end
         else None
  end.

Definition parse_ipv4 (s : string) : option (Z * Z * Z * Z) :=
  match split_on "." s with
  | [a; b; c; d] =>
      match parse_octet a, parse_octet b, parse_octet c, parse_octet d with
      | Some a, Some b, Some c, Some d => Some (a, b, c, d)
      | _, _, _, _ => None
      end
  | _ => None
  end.

(** A group: one to four hexadecimal digits. *)
Definition parse_group (s : string) : option Z :=
  if is_empty s || (4 <? slen s)%nat then None
  else (λ d, Z.of_N (N.of_hex_uint d)) <$> NilEmpty.uint_of_string s.

(** A colon-separated list of groups; the last may be a dotted quad, which
    fills two. *)
Fixpoint parse_groups (l : list string) : option (list Z) :=
  match l with
  | [] => Some []
  | x :: l' =>
      match parse_group x with
      | Some g => match parse_groups l' with Some gs => Some (g :: gs) | None => None end
      | None =>
          match l', parse_ipv4 x with
          | [], Some (a, b, c, d) => Some [256 * a + b; 256 * c + d]
          | _, _ => None
          end
      end
  end.
Definition parse_side (s : string) : option (list Z) :=
  if is_empty s then Some [] else parse_groups (split_on ":" s).

Definition v6_of_list (l : list Z) : option IpAddr :=
  match l with
  | [a; b; c; d; e; f; g; h] => Some (V6 a b c d e f g h)
  | _ => None
  end.

(** With [::] the elided groups are zero and there is at least one. *)
Definition parse_ipv6 (s : string) : option IpAddr :=
  match split_once_str "::" s with
  | Some (l, r) =>
      match parse_side l, parse_side r with
      | Some gl, Some gr =>
          if has_char "." l then None
          else if (length gl + length gr <=? 7)%nat
          then v6_of_list (gl ++ replicate (8 - length gl - length gr) 0 ++ gr)
          else None
      | _, _ => None
      end
  | None => match parse_side s with Some g => v6_of_list g | None => None end
  end.

(** [s.parse::<IpAddr>()]. *)
Definition parse_ip (s : string) : option IpAddr :=
  match parse_ipv4 s with
  | Some (a, b, c, d) => Some (V4 a b c d)
  | None => parse_ipv6 s
  end.

Example parse_ip_ex :
  parse_ip "127.0.0.1" = Some (V4 127 0 0 1) ∧
  parse_ip "2001:db8:1:2::9999" = Some (V6 0x2001 0xdb8 1 2 0 0 0 0x9999) ∧
  parse_ip "::ffff:10.0.0.1" = Some (V6 0 0 0 0 0 65535 0x0a00 1) ∧
  parse_ip "01.2.3.4" = None ∧ parse_ip "1.2.3.4:80" = None ∧
  ip_to_string (V6 0x2001 0xdb8 1 2 0 0 0 0) = "2001:db8:1:2::".
Proof. vm_compute. repeat split. Qed.

(** ** Printing is injective where the limiter prints *)

Lemma u_to_hex_nonempty z : is_empty (u_to_hex z) = false.
Proof.
  unfold u_to_hex.
  assert (H : N.to_hex_uint (Z.to_N z) ≠ Hexadecimal.Nil).
  { intros H. assert (N.of_hex_uint (N.to_hex_uint (Z.to_N z)) = 0%N) as H0 by by rewrite H.
    rewrite HexadecimalN.Unsigned.of_to in H0. rewrite H0 in H. discriminate. }
  by destruct (N.to_hex_uint (Z.to_N z)).
Qed.

Lemma u_to_hex_inj a b : 0 ≤ a → 0 ≤ b → u_to_hex a = u_to_hex b → a = b.
Proof.
  unfold u_to_hex. intros Ha Hb H. apply (f_equal NilEmpty.uint_of_string) in H.
  rewrite !NilEmpty.usu in H. injection H as H.
  apply (f_equal N.of_hex_uint) in H. rewrite !HexadecimalN.Unsigned.of_to in H.
  by apply Z2N.inj.
Qed.

Lemma u_to_hex_digits z c : has_char c (u_to_hex z) = true → is_ascii_hexdigit c = true.
Proof.
  unfold u_to_hex. generalize (N.to_hex_uint (Z.to_N z)). intros d.
  induction d; simpl; [done|..];
    rewrite orb_true_iff, bool_decide_eq_true; intros [<-|H]; auto.
Qed.

Lemma u_to_hex_no c z : is_ascii_hexdigit c = false → has_char c (u_to_hex z) = false.
Proof.
  intros Hc. destruct (has_char c (u_to_hex z)) eqn:E; [|done].
  apply u_to_hex_digits in E. congruence.
Qed.

(** Splitting a joined list gives the parts back. *)
Lemma split_on_join_app c l rest :
  l ≠ [] → Forall (λ s, has_char c s = false) l →
  split_on c (join (String c "") l +:+ String c rest) = l ++ split_on c rest.
Proof.
  intros Hne Hl. induction Hl as [|x l Hx Hl IH]; [done|].
  destruct l as [|y l].
  - simpl. by apply split_on_app.
  - cbn [join]. rewrite !append_assoc. cbn [String.append].
    rewrite split_on_app by done. cbn [app]. f_equal. apply IH. done.
Qed.

Lemma split_on_join c l :
  l ≠ [] → Forall (λ s, has_char c s = false) l →
  split_on c (join (String c "") l) = l.
Proof.
  intros Hne Hl. induction Hl as [|x l Hx Hl IH]; [done|].
  destruct l as [|y l].
  - simpl. by apply split_on_none.
  - cbn [join]. cbn [String.append].
    rewrite split_on_app by done. f_equal. apply IH. done.
Qed.

Lemma has_char_join c sep l :
  has_char c sep = false → Forall (λ s, has_char c s = false) l →
  has_char c (join sep l) = false.
Proof.
  intros Hs Hl. induction Hl as [|x l Hx Hl IH]; [done|].
  destruct l as [|y l]; [done|]. cbn [join]. by rewrite !has_char_app, Hx, Hs.
Qed.

Lemma ipv4_inj a b c d a' b' c' d' :
  Forall is_u8 [a; b; c; d] → Forall is_u8 [a'; b'; c'; d'] →
  ipv4_to_string a b c d = ipv4_to_string a' b' c' d' →
  V4 a b c d = V4 a' b' c' d'.
Proof.
  unfold ipv4_to_string. intros H H' E. apply (f_equal (split_on ".")) in E.
  rewrite !split_on_join in E;
    try (apply Forall_fmap, Forall_true; intros; by apply u_to_string_no); try done.
  rewrite !Forall_cons in *. unfold is_u8 in *.
  cbn [fmap list_fmap] in E. injection E as Ea Eb Ec Ed.
  apply u_to_string_inj in Ea, Eb, Ec, Ed; try lia. congruence.
Qed.

Definition print_groups (l : list Z) : string := join ":" (u_to_hex <$> l) +:+ "::".

Lemma print_groups_inj l l' :
  Forall is_u16 l → Forall is_u16 l' → print_groups l = print_groups l' → l = l'.
Proof.
  unfold print_groups. intros H H' E. apply (f_equal (split_on ":")) in E.
  assert (∀ k, k ≠ [] → split_on ":" (join ":" (u_to_hex <$> k) +:+ "::") = (u_to_hex <$> k) ++ [""; ""]) as Hs.
  { intros k Hk. apply split_on_join_app; [by destruct k|].
    apply Forall_fmap, Forall_true. intros. by apply u_to_hex_no. }
  assert (∀ k : list Z, k ≠ [] → [""; ""; ""] ≠ (u_to_hex <$> k) ++ [""; ""]) as Hd.
  { intros [|x k] Hk; [done|]. pose proof (u_to_hex_nonempty x) as Hx.
    cbn [fmap list_fmap app]. intros [= Hx' _]. by rewrite <- Hx' in Hx. }
  destruct (decide (l = [])) as [->|Hl], (decide (l' = [])) as [->|Hl'].
  - done.
  - rewrite (Hs l') in E by done. by apply Hd in E.
  - rewrite (Hs l) in E by done. symmetry in E. by apply Hd in E.
  - rewrite !Hs in E by done. apply app_inv_tail in E.
    revert l' H' Hl' E. clear Hl. induction H as [|x l Hx Hl IH]; intros l' H' Hl' E.
    + by destruct l'.
    + destruct H' as [|y l' Hy Hl'']; [done|]. cbn [fmap list_fmap] in E.
      injection E as E1 E2. unfold is_u16 in *. apply u_to_hex_inj in E1; [|lia..].
      f_equal; [done|]. destruct (decide (l' = [])) as [->|]; [by destruct l|]. by apply IH.
Qed.

(** The groups that remain in front of [::] in a /64 prefix. *)
Fixpoint strip_zeros (l : list Z) : list Z :=
  match l with
  | [] => []
  | x :: l' => match strip_zeros l' with
               | [] => if x =? 0 then [] else [x]
               | r => x :: r
               end
  end.

Lemma zero_span_cons i cur longest s l :
  zero_span i cur longest (s :: l) =
  if s =? 0 then
    let cur := (if (cur.2 =? 0)%nat then i else cur.1, S cur.2) in
    zero_span (S i) cur (if (longest.2 <? cur.2)%nat then cur else longest) l
  else zero_span (S i) (O, O) longest l.
Proof. reflexivity. Qed.

Lemma ipv6_prefix_to_string a b c d :
  ipv6_to_string [a; b; c; d; 0; 0; 0; 0] = print_groups (strip_zeros [a; b; c; d]).
Proof.
  unfold ipv6_to_string, print_groups.
  assert (to_ipv4_mapped [a; b; c; d; 0; 0; 0; 0] = None) as -> by by destruct a, b, c, d.
  unfold elide_zeros.
  destruct (Z.eqb_spec a 0) as [->|Ha%Z.eqb_neq], (Z.eqb_spec b 0) as [->|Hb%Z.eqb_neq],
    (Z.eqb_spec c 0) as [->|Hc%Z.eqb_neq], (Z.eqb_spec d 0) as [->|Hd%Z.eqb_neq];
    repeat (rewrite zero_span_cons; rewrite ?Ha, ?Hb, ?Hc, ?Hd;
            cbn [Z.eqb fst snd Nat.eqb Nat.ltb Nat.leb]);
    cbn [strip_zeros]; rewrite ?Ha, ?Hb, ?Hc, ?Hd;
    cbn [zero_span Z.eqb Nat.ltb Nat.leb take drop Nat.add fmap list_fmap join];
    by rewrite ?append_nil_r.
Qed.

Lemma strip_zeros_pad l n : length l = n →
  l = strip_zeros l ++ replicate (n - length (strip_zeros l)) 0.
Proof.
  revert n. induction l as [|x l IH]; intros n <-; [done|].
  specialize (IH (length l) eq_refl). cbn [strip_zeros length].
  destruct (strip_zeros l) as [|y r].
  - cbn [app length] in IH. rewrite Nat.sub_0_r in IH.
    destruct (Z.eqb_spec x 0) as [->|]; cbn [app length]; rewrite ?Nat.sub_0_r; cbn [replicate];
      [by rewrite IH at 1|]. rewrite IH at 1. f_equal. f_equal. lia.
  - cbn [app length Nat.sub]. rewrite IH at 1. done.
Qed.

Lemma strip_zeros_Forall P l : Forall P l → Forall P (strip_zeros l).
Proof.
  induction 1 as [|x l Hx Hl IH]; [constructor|]. cbn [strip_zeros].
  destruct (strip_zeros l); [case_match|]; auto.
Qed.

Lemma ipv6_prefix_inj a b c d a' b' c' d' :
  Forall is_u16 [a; b; c; d] → Forall is_u16 [a'; b'; c'; d'] →
  ipv6_to_string [a; b; c; d; 0; 0; 0; 0] = ipv6_to_string [a'; b'; c'; d'; 0; 0; 0; 0] →
  [a; b; c; d] = [a'; b'; c'; d'].
Proof.
  intros H H' E. rewrite !ipv6_prefix_to_string in E.
  apply print_groups_inj in E; [|by apply strip_zeros_Forall..].
  rewrite (strip_zeros_pad [a; b; c; d] 4), (strip_zeros_pad [a'; b'; c'; d'] 4) by done.
  by rewrite E.
Qed.
