(* ===== verification/RateLimit.v ===== *)
(** * The free tier's rate limiter ([src/ratelimit.rs])

    [MemoryRateLimiter]: a sliding-window counter per (policy, client) key.
    [check_entry] is what [check_at] does to the entry it locked; the rest is
    the map around it. *)

From Stdlib Require Import Ascii QArith Lqa.
From S2P Require Import Prelude RustStr Float64 IpAddr.
From stdpp Require Import options.
#[local] Open Scope Z_scope.

Record Allowance := mkAllowance {
  allowed : bool;
  remaining : Z;
  limit : Z;
  reset_secs : Z
}.

(** IPv4 is metered per address, IPv6 per /64. *)
Definition bucket (ip : IpAddr) : IpAddr :=
  match ip with
  | V4 _ _ _ _ => ip
  | V6 s0 s1 s2 s3 _ _ _ _ => V6 s0 s1 s2 s3 0 0 0 0
  end.

Record Window := mkWindow {
  start : Z;
  current : Z;
  previous : Z;
  window_secs : Z
}.

#[export] Instance Window_eq_dec : EqDecision Window.
Proof. solve_decision. Defined.

Definition key_for (policy : string) (ip : IpAddr) : string :=
  policy +:+ "|" +:+ ip_to_string (bucket ip).

Definition remaining_after (limit : Z) (estimated : F64) : Z :=
  let used := f64_as_u64 (Z.max (f64_ceil estimated) 0) in
  sat_sub limit used.

Abbreviation MemoryRateLimiter := (gmap string Window).

Definition new : MemoryRateLimiter := ∅.
Definition len (rl : MemoryRateLimiter) : nat := size rl.
Definition rl_is_empty (rl : MemoryRateLimiter) : bool := (len rl =? 0)%nat.

Definition window_start_of (now w : Z) : Z := now - now mod w.

(** [or_insert(Window { .. })] *)
Definition fresh_window (window_start w : Z) : Window :=
  {| start := window_start; current := 0; previous := 0; window_secs := w |}.

(** The rollover: one window on, today's count becomes yesterday's; further
    on, both are stale. *)
Definition roll (e : Window) (window_start w : Z) : Window :=
  if e.(start) <? window_start then
    {| start := window_start;
       current := 0;
       previous := if u64_sub window_start e.(start) =? w then e.(current) else 0;
       window_secs := w |}
  else {| start := e.(start); current := e.(current); previous := e.(previous);
          window_secs := w |}.

(** [entry.current as f64 + entry.previous as f64 * carry_fraction]. *)
Definition carry_fraction (w elapsed : Z) : F64 :=
  f64_div (f64_of_Z (u64_sub w elapsed)) (f64_of_Z w).
Definition estimate (e : Window) (w elapsed : Z) : F64 :=
  f64_add (f64_of_Z e.(current)) (f64_mul (f64_of_Z e.(previous)) (carry_fraction w elapsed)).

Definition bump (e : Window) : Window :=
  {| start := e.(start); current := u64_add e.(current) 1; previous := e.(previous);
     window_secs := e.(window_secs) |}.

Definition check_entry (e : Window) (max_requests w now : Z) : Allowance * Window :=
  let window_start := window_start_of now w in
  let e := roll e window_start w in
  let elapsed := u64_sub now e.(start) in
  let estimated := estimate e w elapsed in
  let reset := u64_sub w elapsed in
  if f64_ge estimated (f64_of_Z max_requests) then
    ({| allowed := false; remaining := 0; limit := max_requests; reset_secs := reset |}, e)
  else
    ({| allowed := true;
        remaining := remaining_after max_requests (f64_add estimated (f64_of_Z 1));
        limit := max_requests; reset_secs := reset |}, bump e).

(** [None]: the assertion [window_secs > 0] panics. *)
Definition check_at (policy : string) (ip : IpAddr) (max_requests w now : Z)
    (rl : MemoryRateLimiter) : option (Allowance * MemoryRateLimiter) :=
  if negb (0 <? w) then None else
  let key := key_for policy ip in
  let entry := unwrap_or (rl !! key) (fresh_window (window_start_of now w) w) in
  let '(a, entry) := check_entry entry max_requests w now in
  Some (a, <[key := entry]> rl).

(** [w.start >= now.saturating_sub(w.window_secs * 2)] *)
Definition keeps_idle (now : Z) (w : Window) : bool :=
  sat_sub now (u64_mul w.(window_secs) 2) <=? w.(start).

Definition cleanup_idle_at (now : Z) (rl : MemoryRateLimiter) : Z * MemoryRateLimiter :=
  let rl' := filter (λ kv, keeps_idle now kv.2 = true) rl in
  (Z.of_nat (size rl) - Z.of_nat (size rl'), rl').

(** ** Runs of requests on one key *)

Fixpoint check_all (e : Window) (max w : Z) (times : list Z) : list Allowance * Window :=
  match times with
  | [] => ([], e)
  | t :: ts => let '(a, e) := check_entry e max w t in
               let '(l, e) := check_all e max w ts in (a :: l, e)
  end.

Definition admitted (l : list Allowance) : Z :=
  Z.of_nat (length (filter (λ a, allowed a = true) l)).

(** ** Lemmas *)

Lemma ip_no_pipe ip : has_char "|" (ip_to_string (bucket ip)) = false.
Proof.
  destruct ip as [a b c d|s0 s1 s2 s3 s4 s5 s6 s7]; cbn [bucket ip_to_string].
  - apply has_char_join; [done|]. apply Forall_fmap, Forall_true. intros. by apply u_to_string_no.
  - rewrite ipv6_prefix_to_string. unfold print_groups. rewrite has_char_app.
    rewrite has_char_join; [done..|]. apply Forall_fmap, Forall_true. intros. by apply u_to_hex_no.
Qed.

Lemma colon_in_v6 a b c d :
  has_char ":" (ip_to_string (V6 a b c d 0 0 0 0)) = true.
Proof.
  cbn [ip_to_string]. rewrite ipv6_prefix_to_string. unfold print_groups.
  by rewrite has_char_app, orb_true_r.
Qed.

Lemma no_colon_in_v4 a b c d : has_char ":" (ip_to_string (V4 a b c d)) = false.
Proof.
  apply has_char_join; [done|]. apply Forall_fmap, Forall_true. intros. by apply u_to_string_no.
Qed.

Lemma window_start_bounds now w :
  0 ≤ now → 0 < w → 0 ≤ window_start_of now w ≤ now ∧ now < window_start_of now w + w.
Proof.
  intros Hn Hw. unfold window_start_of.
  pose proof (Z.mod_pos_bound now w Hw). pose proof (Z.mod_le now w Hn Hw). lia.
Qed.

Lemma window_start_mono a b w : 0 < w → a ≤ b → window_start_of a w ≤ window_start_of b w.
Proof.
  intros Hw H. unfold window_start_of. rewrite !Z.mod_eq by lia.
  pose proof (Z.div_le_mono a b w Hw H). nia.
Qed.

Lemma roll_same e ws w : ws ≤ start e → roll e ws w =
  {| start := start e; current := current e; previous := previous e; window_secs := w |}.
Proof. intros H. unfold roll. by rewrite (proj2 (Z.ltb_ge _ _)). Qed.

Lemma roll_start e ws w : start e ≤ ws → start (roll e ws w) = ws.
Proof.
  intros H. unfold roll. destruct (Z.ltb_spec (start e) ws); simpl; [done|lia].
Qed.

(** A check rolls the entry over itself. *)
Lemma check_entry_rolled e ws max w now :
  ws = window_start_of now w → start (roll e ws w) = ws →
  check_entry (roll e ws w) max w now = check_entry e max w now.
Proof.
  intros -> Hs. unfold check_entry.
  assert (roll (roll e (window_start_of now w) w) (window_start_of now w) w = roll e (window_start_of now w) w)
    as ->; [|done].
  rewrite roll_same by lia. unfold roll. by case_match.
Qed.

Lemma estimate_ge_current e w elapsed :
  (f64_of_Z (current e) <= estimate e w elapsed)%Q.
Proof. apply f64_add_of_Z_ge. auto with x402. Qed.

(** Admission leaves room: the counter was below the limit. *)
Lemma admitted_below e max w now a e' :
  check_entry e max w now = (a, e') → allowed a = true →
  current (roll e (window_start_of now w) w) < max ∧
  e' = bump (roll e (window_start_of now w) w).
Proof.
  unfold check_entry. set (r := roll e (window_start_of now w) w).
  set (est := estimate r w _). destruct (f64_ge est (f64_of_Z max)) eqn:E;
    intros [= <- <-]; [done|]. intros _. split; [|done].
  apply f64_ge_false in E. pose proof (estimate_ge_current r w (u64_sub now (start r))) as Hc.
  fold est in Hc. destruct (Z.lt_ge_cases (current r) max) as [|Hge]; [done|].
  apply f64_of_Z_mono in Hge. lra.
Qed.

Lemma denied_state e max w now a e' :
  check_entry e max w now = (a, e') → allowed a = false →
  e' = roll e (window_start_of now w) w ∧ remaining a = 0.
Proof.
  unfold check_entry. destruct (f64_ge _ _); intros [= <- <-]; done.
Qed.

Lemma admitted_cons a l : admitted (a :: l) = (if allowed a then 1 else 0) + admitted l.
Proof.
  unfold admitted. rewrite filter_cons. case_decide as H.
  - rewrite H. cbn [length]. lia.
  - by destruct (allowed a).
Qed.

Lemma bump_current e max : current e < max → 0 ≤ current e → max ≤ u64_max →
  current (bump e) = current e + 1.
Proof. intros. simpl. apply u64_add_small; lia. Qed.

(** Requests of one window never push its counter past the limit. *)
Lemma check_all_bound max w ws ts : 0 < w → max ≤ u64_max →
  ∀ e, start e = ws → 0 ≤ current e ≤ Z.max 0 max →
  Forall (λ t, window_start_of t w = ws) ts →
  let '(l, e') := check_all e max w ts in
  current e' = current e + admitted l ∧ current e' ≤ Z.max 0 max ∧ start e' = ws.
Proof.
  intros Hw Hmax. induction ts as [|t ts IH]; intros e Hs Hc Ht; [unfold admitted; simpl; lia|].
  apply Forall_cons in Ht as [Ht Hts]. cbv beta in Ht. cbn [check_all].
  destruct (check_entry e max w t) as [a e1] eqn:E.
  assert (start e1 = ws ∧ current e1 = current e + (if allowed a then 1 else 0)
          ∧ current e1 ≤ Z.max 0 max) as (Hs1 & Hc1 & Hb1).
  { assert (roll e (window_start_of t w) w =
      {| start := start e; current := current e; previous := previous e; window_secs := w |}) as Hr
      by (apply roll_same; lia).
    destruct (allowed a) eqn:Ea.
    - apply admitted_below in E as [Hlt ->]; [|done]. rewrite Hr in *. simpl in Hlt.
      cbn [bump start current]. rewrite u64_add_small by lia. lia.
    - apply denied_state in E as [-> _]; [|done]. rewrite Hr. simpl. lia. }
  specialize (IH e1 Hs1 ltac:(case_match; lia) Hts).
  destruct (check_all e1 max w ts) as [l e'] eqn:El. rewrite admitted_cons. lia.
Qed.

Lemma stale_fresh e ws w max now :
  0 < w → start e < ws → u64_sub ws (start e) ≠ w → ws = window_start_of now w →
  check_entry e max w now = check_entry (fresh_window ws w) max w now.
Proof.
  intros Hw Hlt Hne ->. unfold check_entry.
  assert (roll e (window_start_of now w) w = fresh_window (window_start_of now w) w) as ->.
  { unfold roll. rewrite (proj2 (Z.ltb_lt _ _)) by done.
    by rewrite (proj2 (Z.eqb_neq _ _)) by done. }
  by rewrite (roll_same (fresh_window _ _)) by (simpl; lia).
Qed.

Lemma check_at_answer p ip max w now (rl : MemoryRateLimiter) : 0 < w →
  fst <$> check_at p ip max w now rl =
  Some (check_entry (unwrap_or (rl !! key_for p ip) (fresh_window (window_start_of now w) w))
          max w now).1.
Proof.
  intros Hw. unfold check_at. rewrite (proj2 (Z.ltb_lt 0 w)) by done. cbn [negb].
  by destruct (check_entry _ _ _ _).
Qed.

Lemma lookup_cleanup now (rl : MemoryRateLimiter) k :
  (cleanup_idle_at now rl).2 !! k =
  match rl !! k with
  | Some e => if keeps_idle now e then Some e else None
  | None => None
  end.
Proof.
  simpl. destruct (rl !! k) as [e|] eqn:E.
  - destruct (keeps_idle now e) eqn:K.
    + by apply map_lookup_filter_Some.
    + apply map_lookup_filter_None. right. intros e' He'. simplify_eq/=. congruence.
  - apply map_lookup_filter_None. by left.
Qed.

(** ** Properties *)

(** No burst past the limit.  However the requests of one fixed window on
    one key interleave (the entry's lock makes each check atomic), at most
    [max_requests] of them are admitted. *)
Theorem admissions_within_the_limit (max w ws : Z) (times : list Z)
    (Hw : 0 < w) (Hmax : 0 ≤ max ≤ u64_max)
    (Htimes : Forall (λ t, window_start_of t w = ws) times) :
  admitted (check_all (fresh_window ws w) max w times).1 ≤ max.
Proof.
  pose proof (check_all_bound max w ws times Hw ltac:(lia) (fresh_window ws w) eq_refl
    ltac:(simpl; lia) Htimes) as H.
  destruct (check_all _ _ _ _) as [l e]. simpl in *. lia.
Qed.

Lemma admissions_within_the_limit_witness :
  Forall (λ t, window_start_of t 60 = 1700000040) [1700000040; 1700000041; 1700000050; 1700000099] ∧
  admitted (check_all (fresh_window 1700000040 60) 3 60
    [1700000040; 1700000041; 1700000050; 1700000099]).1 ≤ 3.
Proof.
  assert (Forall (λ t, window_start_of t 60 = 1700000040) [1700000040; 1700000041; 1700000050; 1700000099]) as H
    by (repeat constructor).
  split; [exact H|].
  apply (admissions_within_the_limit 3 60 1700000040 _); [lia | vm_compute; split; congruence | exact H].
Defined.

(** Buckets.  Two requests share a counter exactly when they are under the
    same policy and come from the same IPv4 address or the same IPv6 /64. *)
Theorem shared_counter_iff (p q : string) (a b : IpAddr)
    (Ha : wf_ip a) (Hb : wf_ip b) :
  key_for p a = key_for q b ↔ p = q ∧ bucket a = bucket b.
Proof.
  split; [|unfold key_for; by intros [-> ->]]. unfold key_for. intros E.
  apply last_sep_inj in E as [-> E]; [|apply ip_no_pipe..]. split; [done|].
  destruct a as [a0 a1 a2 a3|a0 a1 a2 a3 a4 a5 a6 a7], b as [b0 b1 b2 b3|b0 b1 b2 b3 b4 b5 b6 b7];
    cbn [bucket] in *.
  - by apply ipv4_inj.
  - exfalso. apply (f_equal (has_char ":")) in E.
    by rewrite colon_in_v6, no_colon_in_v4 in E.
  - exfalso. apply (f_equal (has_char ":")) in E.
    by rewrite colon_in_v6, no_colon_in_v4 in E.
  - cbn [wf_ip ip_to_string] in *. rewrite !Forall_cons in Ha, Hb.
    apply ipv6_prefix_inj in E; [congruence|..]; rewrite !Forall_cons; tauto.
Qed.

Lemma shared_counter_iff_witness :
  key_for "graphql" (V6 0x2001 0xdb8 1 2 0 0 0 1) = key_for "graphql" (V6 0x2001 0xdb8 1 2 0 0 0 0x9999).
Proof.
  refine (proj2 (shared_counter_iff "graphql" "graphql" (V6 0x2001 0xdb8 1 2 0 0 0 1)
    (V6 0x2001 0xdb8 1 2 0 0 0 0x9999) _ _) _).
  - cbn [wf_ip]. unfold is_u16. repeat (apply Forall_cons; split); [lia..|constructor].
  - cbn [wf_ip]. unfold is_u16. repeat (apply Forall_cons; split); [lia..|constructor].
  - done.
Defined.

(** A denied request is not counted: the counters are what the rollover
    alone makes them, so hammering cannot extend the lockout. *)
Theorem denied_requests_are_not_counted (e e' : Window) (max w now : Z) (a : Allowance)
    (Hcheck : check_entry e max w now = (a, e')) (Hdenied : allowed a = false) :
  e' = roll e (window_start_of now w) w ∧ remaining a = 0 ∧
  check_entry e' max w now = (a, e').
Proof.
  destruct (denied_state _ _ _ _ _ _ Hcheck Hdenied) as [-> Hr].
  split_and!; [done..|]. rewrite <- Hcheck. unfold check_entry.
  assert (∀ x, roll (roll x (window_start_of now w) w) (window_start_of now w) w
             = roll x (window_start_of now w) w) as Hrr.
  { intros x. rewrite roll_same.
    - unfold roll. by case_match.
    - unfold roll. destruct (Z.ltb_spec (start x) (window_start_of now w)); simpl; lia. }
  by rewrite Hrr.
Qed.

Definition spent_entry : Window :=
  {| start := 1700000040; current := 3; previous := 0; window_secs := 60 |}.

Lemma denied_requests_are_not_counted_witness :
  let denied := {| allowed := false; remaining := 0; limit := 3; reset_secs := 59 |} in
  check_entry spent_entry 3 60 1700000041 = (denied, spent_entry) ∧
  spent_entry = roll spent_entry (window_start_of 1700000041 60) 60.
Proof.
  cbv zeta.
  assert (H : check_entry spent_entry 3 60 1700000041 =
    ({| allowed := false; remaining := 0; limit := 3; reset_secs := 59 |}, spent_entry))
    by (vm_compute; reflexivity).
  split; [exact H|].
  exact (proj1 (denied_requests_are_not_counted _ _ 3 60 1700000041 _ H eq_refl)).
Defined.

(** The sweep is invisible.  Reaping idle keys at [now] changes no answer
    given at that time or later: a reaped key would have started from zero
    anyway. *)
Theorem cleanup_never_changes_an_answer (p : string) (ip : IpAddr)
    (max w now later : Z) (rl : MemoryRateLimiter)
    (Hw : 0 < w) (Hov : 2 * w ≤ u64_max) (Hnow : 0 ≤ now ≤ later) (Hlater : later ≤ u64_max)
    (Hwf : ∀ e, rl !! key_for p ip = Some e → 0 ≤ start e ∧ window_secs e = w) :
  fst <$> check_at p ip max w later (cleanup_idle_at now rl).2 =
  fst <$> check_at p ip max w later rl.
Proof.
  rewrite !check_at_answer by done. rewrite lookup_cleanup. destruct (rl !! key_for p ip) as [e|] eqn:E; [|done].
  destruct (keeps_idle now e) eqn:K; [done|]. cbn [unwrap_or].
  destruct (Hwf e eq_refl) as [Hs Hws].
  pose proof (window_start_bounds later w ltac:(lia) Hw) as [Hb1 Hb2].
  assert (start e < now - 2 * w) as Hidle.
  { unfold keeps_idle in K. apply Z.leb_gt in K. rewrite Hws in K.
    rewrite u64_mul_small in K by lia. unfold sat_sub in K. lia. }
  assert (check_entry e max w later
    = check_entry (fresh_window (window_start_of later w) w) max w later) as ->; [|done].
  apply stale_fresh; [done|lia| |done].
  rewrite u64_sub_small; unfold is_u64; lia.
Qed.

Lemma cleanup_never_changes_an_answer_witness :
  let e := {| start := 1700000040; current := 5; previous := 2; window_secs := 60 |} in
  let k := key_for "graphql" (V4 10 0 0 1) in
  fst <$> check_at "graphql" (V4 10 0 0 1) 5 60 1700000400
    (cleanup_idle_at 1700000340 {[ k := e ]}).2 =
  fst <$> check_at "graphql" (V4 10 0 0 1) 5 60 1700000400 {[ k := e ]}.
Proof.
  cbv zeta. apply (cleanup_never_changes_an_answer "graphql" (V4 10 0 0 1) 5 60 1700000340 1700000400).
  - lia.
  - unfold u64_max. lia.
  - lia.
  - unfold u64_max. lia.
  - intros e He. rewrite lookup_singleton_eq in He. injection He as <-. simpl. lia.
Defined.

(** The meter counts down.  In a window with no carried history the k-th
    admitted request is told [max - k], until the limit; the window's end is
    between one second and the window length away. *)
Theorem remaining_counts_down (k max w now : Z)
    (Hw : 0 < w) (Hnow : 0 ≤ now) (Hwb : w ≤ u64_max) (Hnb : now ≤ u64_max)
    (Hk : 0 ≤ k < max) (Hmax : max ≤ 2 ^ 53) :
  ∃ reset, 1 ≤ reset ≤ w ∧
  (check_entry {| start := window_start_of now w; current := k; previous := 0; window_secs := w |}
     max w now).1 =
  {| allowed := true; remaining := max - (k + 1); limit := max; reset_secs := reset |}.
Proof.
  pose proof (window_start_bounds now w Hnow Hw) as [Hb1 Hb2].
  unfold check_entry. rewrite roll_same by (simpl; lia). cbn [start current previous window_secs].
  rewrite (u64_sub_small now) by (unfold is_u64; lia).
  set (elapsed := now - window_start_of now w).
  set (e := {| start := _; current := k; previous := 0; window_secs := w |}).
  assert (estimate e w elapsed == inject_Z k)%Q as Hest.
  { unfold estimate. cbn [e current previous].
    assert (f64_mul (f64_of_Z 0) (carry_fraction w elapsed) = 0%Q) as ->.
    { unfold f64_mul. apply rnd_zero. change (f64_of_Z 0) with 0%Q. lra. }
    unfold f64_add. pose proof (f64_of_Z_exact k ltac:(lia)) as Hk'.
    pose proof (rnd_idem (inject_Z k)) as Hi. fold (f64_of_Z k) in Hi.
    pose proof (rnd_mono (f64_of_Z k + 0) (f64_of_Z k) ltac:(lra)).
    pose proof (rnd_mono (f64_of_Z k) (f64_of_Z k + 0) ltac:(lra)). lra. }
  assert (f64_ge (estimate e w elapsed) (f64_of_Z max) = false) as ->.
  { apply f64_ge_false. rewrite Hest, f64_of_Z_exact by lia. rewrite <- Zlt_Qlt. lia. }
  eexists. split; [|cbn [fst]; f_equal].
  - rewrite u64_sub_small; unfold is_u64, elapsed; lia.
  - unfold remaining_after, f64_ceil, f64_add.
    assert (Qround.Qceiling (rnd (estimate e w elapsed + f64_of_Z 1)) = k + 1) as ->.
    { rewrite <- (Qround.Qceiling_Z (k + 1)). apply Qround.Qceiling_comp.
      pose proof (f64_of_Z_exact (k + 1) ltac:(lia)) as H1. unfold f64_of_Z in H1 at 1.
      assert (estimate e w elapsed + f64_of_Z 1 == inject_Z (k + 1))%Q as H2.
      { rewrite Hest, (f64_of_Z_exact 1), inject_Z_plus by lia. reflexivity. }
      pose proof (rnd_mono (estimate e w elapsed + f64_of_Z 1) (inject_Z (k + 1)) ltac:(lra)).
      pose proof (rnd_mono (inject_Z (k + 1)) (estimate e w elapsed + f64_of_Z 1) ltac:(lra)). lra. }
    unfold f64_as_u64, sat_sub, u64_max. lia.
Qed.

Lemma remaining_counts_down_witness :
  ∃ reset, 1 ≤ reset ≤ 60 ∧
  (check_entry {| start := window_start_of 1700000045 60; current := 1; previous := 0; window_secs := 60 |}
     3 60 1700000045).1 =
  {| allowed := true; remaining := 3 - (1 + 1); limit := 3; reset_secs := reset |}.
Proof.
  apply (remaining_counts_down 1 3 60 1700000045); unfold u64_max; lia.
Defined.

(** Recovery.  Two windows after its last request a key is back to a full
    allowance, whatever its history. *)
Theorem quota_recovers_after_two_windows (e : Window) (max w now : Z)
    (Hw : 0 < w) (Hs : 0 ≤ start e) (Hnow : start e + 2 * w ≤ now) (Hnb : now ≤ u64_max) :
  check_entry e max w now = check_entry (fresh_window (window_start_of now w) w) max w now.
Proof.
  pose proof (window_start_bounds now w ltac:(lia) Hw) as [Hb1 Hb2].
  apply (stale_fresh e (window_start_of now w) w max now); [done|lia| |done].
  rewrite u64_sub_small; unfold is_u64; lia.
Qed.

Lemma quota_recovers_after_two_windows_witness :
  let e := {| start := 1700000040; current := 2; previous := 2; window_secs := 60 |} in
  allowed (check_entry e 2 60 1700000041).1 = false ∧
  check_entry e 2 60 1700000160 = check_entry (fresh_window (window_start_of 1700000160 60) 60) 2 60 1700000160.
Proof.
  cbv zeta. split; [vm_compute; reflexivity|].
  apply (quota_recovers_after_two_windows
    {| start := 1700000040; current := 2; previous := 2; window_secs := 60 |} 2 60 1700000160);
    unfold u64_max; simpl; lia.
Defined.
