(* ===== verification/Platform.v ===== *)
(** * What the program takes from its dependencies

    The crates [hex], [base64], [sha2] and [hmac] are not part of the
    repository: their functions are the fields of a class, and what the code
    relies on is the class of their laws.  A model of both, with checksums for
    the hashes, instantiates the witnesses. *)

From Stdlib Require Import Ascii Strings.Byte.
From Stdlib Require String.
From S2P Require Import Prelude RustStr.
From stdpp Require Import options.

Abbreviation bytes := (list Byte.byte).

#[export] Instance byte_eq_dec : EqDecision Byte.byte := Byte.byte_eq_dec.

Definition as_bytes (s : string) : bytes := String.list_byte_of_string s.

Class Codecs := {
  hex_encode : bytes → string;
  hex_decode : string → option bytes;
  b64_encode : bytes → string;
  b64_decode : string → result bytes string;   (* the error is its message *)
  sha256 : bytes → bytes;
  hmac_sha256 : bytes → bytes → bytes          (* key, message *)
}.

(** What a header value may hold to be read as text. *)
Definition visible_ascii (c : ascii) : bool :=
  let x := byte_of c in ((32 <=? x) && (x <? 127)) || (x =? 9).

(** Documented behaviour: decoding inverts encoding, hex text is made of hex
    digits, base64 text of printable characters, an HMAC-SHA256 is 32 bytes. *)
Class CodecLaws `{!Codecs} := {
  hex_decode_encode b : hex_decode (hex_encode b) = Some b;
  hex_encode_digits b : sall is_ascii_hexdigit (hex_encode b) = true;
  hex_encode_length b : slen (hex_encode b) = (2 * length b)%nat;
  b64_decode_encode b : b64_decode (b64_encode b) = Ok b;
  b64_encode_solid b : first_byte_solid (b64_encode b) = true ∧
                       first_byte_solid (srev (b64_encode b)) = true;
  b64_encode_visible b : sall visible_ascii (b64_encode b) = true;
  b64_encode_nonempty b : b ≠ [] → is_empty (b64_encode b) = false;
  hmac_length k m : length (hmac_sha256 k m) = 32%nat
}.

(** ** Strings of hex digits *)

Lemma sall_has_char f c s : sall f s = true → f c = false → has_char c s = false.
Proof.
  intros Hs Hc. induction s as [|a s IH]; [done|]. cbn [sall has_char] in *.
  apply andb_true_iff in Hs as [Ha Hs]. rewrite IH by done. rewrite orb_false_r.
  apply bool_decide_eq_false. congruence.
Qed.

Lemma sall_schars f s : sall f s = forallb f (schars s).
Proof. induction s as [|a s IH]; [done|]. simpl. by rewrite IH. Qed.

Lemma sall_srev f s : sall f (srev s) = sall f s.
Proof.
  rewrite !sall_schars, srev_eq, to_of_chars.
  apply eq_true_iff_eq. rewrite !forallb_forall.
  split; intros H x Hx; apply H; [by rewrite <- in_rev | by rewrite in_rev].
Qed.

Lemma sall_app f a b : sall f (a +:+ b) = sall f a && sall f b.
Proof. induction a as [|x a IH]; [done|]. simpl. by rewrite IH, andb_assoc. Qed.

Lemma hexdigit_solid c : is_ascii_hexdigit c = true → negb (ws1 c) && (byte_of c <? 128) = true.
Proof.
  unfold is_ascii_hexdigit, ws1. set (x := byte_of c).
  repeat (destruct (Z.leb_spec _ _); simpl); try done;
    repeat (destruct (Z.eqb_spec _ _); simpl); try done; try lia;
    intros _; apply Z.ltb_lt; lia.
Qed.

Lemma sall_hexdigit_visible s : sall is_ascii_hexdigit s = true → sall visible_ascii s = true.
Proof.
  induction s as [|c s IH]; [done|]. cbn [sall]. intros [Hc Hs]%andb_true_iff.
  rewrite IH by done. rewrite andb_true_r. revert Hc. unfold is_ascii_hexdigit, visible_ascii.
  set (x := byte_of c). intros Hc. apply orb_true_iff. left.
  apply andb_true_iff. rewrite Z.leb_le, Z.ltb_lt.
  rewrite !orb_true_iff, !andb_true_iff, !Z.leb_le in Hc. lia.
Qed.

Lemma hex_first_solid s : sall is_ascii_hexdigit s = true → first_byte_solid s = true.
Proof.
  destruct s as [|c s]; [done|]. cbn [sall first_byte_solid].
  rewrite andb_true_iff. intros [Hc _]. by apply hexdigit_solid.
Qed.

Lemma srev_app a b : srev (a +:+ b) = srev b +:+ srev a.
Proof.
  rewrite !srev_eq.
  assert (∀ l1 l2, of_chars (l1 ++ l2) = of_chars l1 +:+ of_chars l2) as Ho.
  { induction l1 as [|x l1 IH]; intros l2; [done|]. simpl. by rewrite IH. }
  assert (schars (a +:+ b) = schars a ++ schars b) as ->.
  { induction a as [|x a IH]; [done|]. simpl. by rewrite IH. }
  by rewrite rev_app_distr, Ho.
Qed.

Lemma first_byte_solid_app a b :
  a ≠ "" → first_byte_solid a = true → first_byte_solid (a +:+ b) = true.
Proof. by destruct a. Qed.

Lemma is_empty_false s : is_empty s = false ↔ s ≠ "".
Proof. by destruct s. Qed.

(** ** A concrete instance

    Hexadecimal as it is; the other codecs are stand-ins with the documented
    laws, for evaluating the model on concrete inputs. *)

Definition hex_digit (n : N) : ascii :=
  if (n <? 10)%N then ascii_of_N (48 + n) else ascii_of_N (87 + n).
Fixpoint hex_encode_c (b : bytes) : string :=
  match b with
  | [] => EmptyString
  | x :: b' =>
      String (hex_digit (Byte.to_N x / 16)) (String (hex_digit (Byte.to_N x mod 16)) (hex_encode_c b'))
  end.
Definition hex_value (c : ascii) : option N :=
  let n := N_of_ascii c in
  if ((48 <=? n) && (n <=? 57))%N then Some (n - 48)%N
  else if ((97 <=? n) && (n <=? 102))%N then Some (n - 87)%N
  else if ((65 <=? n) && (n <=? 70))%N then Some (n - 55)%N
  else None.
Fixpoint hex_decode_c (s : string) : option bytes :=
  match s with
  | EmptyString => Some []
  | String a (String b s') =>
      match hex_value a, hex_value b, hex_decode_c s' with
      | Some x, Some y, Some r =>
          match Byte.of_N (16 * x + y) with Some z => Some (z :: r) | None => None end
      | _, _, _ => None
      end
  | _ => None
  end.

(** A 32-byte digest that depends on every byte of its input. *)
Definition digest_c (b : bytes) : bytes :=
  let h := fold_left (λ a x, (a * 257 + Byte.to_N x + 1) mod (2 ^ 64))%N b 7%N in
  (λ i, match Byte.of_N ((h / 2 ^ (8 * N.of_nat (i mod 8))) mod 256) with
        | Some z => z | None => x00 end) <$> seq 0 32.

#[export] Instance model_codecs : Codecs := {
  hex_encode := hex_encode_c;
  hex_decode := hex_decode_c;
  b64_encode := λ b, String.append (hex_encode_c b) "==";
  b64_decode := λ s,
    match srev s with
    | String "=" (String "=" r) =>
        match hex_decode_c (srev r) with Some b => Ok b | None => Err "Invalid symbol" end
    | _ => Err "Invalid padding"
    end;
  sha256 := digest_c;
  hmac_sha256 := λ k m, digest_c (k ++ m)
}.

Lemma hex_byte x :
  hex_value (hex_digit (Byte.to_N x / 16)) = Some (Byte.to_N x / 16)%N ∧
  hex_value (hex_digit (Byte.to_N x mod 16)) = Some (Byte.to_N x mod 16)%N ∧
  is_ascii_hexdigit (hex_digit (Byte.to_N x / 16)) = true ∧
  is_ascii_hexdigit (hex_digit (Byte.to_N x mod 16)) = true.
Proof. by destruct x. Qed.

Lemma hex_decode_encode_c b : hex_decode_c (hex_encode_c b) = Some b.
Proof.
  induction b as [|x b IH]; [done|]. cbn [hex_encode_c hex_decode_c].
  destruct (hex_byte x) as (-> & -> & _). rewrite IH.
  rewrite <- N.div_mod by done. by rewrite Byte.of_to_N.
Qed.

Lemma hex_encode_digits_c b : sall is_ascii_hexdigit (hex_encode_c b) = true.
Proof.
  induction b as [|x b IH]; [done|]. cbn [hex_encode_c sall].
  destruct (hex_byte x) as (_ & _ & -> & ->). by rewrite IH.
Qed.

#[export] Instance model_codec_laws : CodecLaws.
Proof.
  split; simpl.
  - apply hex_decode_encode_c.
  - apply hex_encode_digits_c.
  - induction b as [|x b IH]; [done|]. cbn [hex_encode_c slen String.length length] in *.
    unfold slen in *. simpl. rewrite IH. lia.
  - intros b. rewrite srev_app. change (srev "==") with "==". cbn [String.append].
    by rewrite srev_involutive, hex_decode_encode_c.
  - intros b. pose proof (hex_first_solid _ (hex_encode_digits_c b)). split.
    + destruct (hex_encode_c b) eqn:E; [done|]. by apply first_byte_solid_app.
    + by rewrite srev_app.
  - intros b. rewrite sall_app. apply andb_true_iff. split; [|done].
    apply sall_hexdigit_visible, hex_encode_digits_c.
  - intros b _. by destruct (hex_encode_c b).
  - done.
Qed.
