(* ===== verification/Base64.v ===== *)
(** * Standard base64 (RFC 4648)

    The encoding behind the payment headers and the transactions, as the
    engine the program names does it: the standard alphabet, padding written
    and required, no white space, and no stray bits.  With it the class of
    codecs has an instance that reads the base64 of the program's own tests. *)

From Stdlib Require Import Ascii Strings.Byte.
From S2P Require Import Prelude RustStr Platform.
From stdpp Require Import options.
#[local] Open Scope N_scope.

Definition sextet (n : N) : ascii :=
  ascii_of_N (if n <? 26 then 65 + n else if n <? 52 then 71 + n else if n <? 62 then n - 4
              else if n =? 62 then 43 else 47).

Definition value (c : ascii) : option N :=
  let n := N_of_ascii c in
  if (65 <=? n) && (n <=? 90) then Some (n - 65)
  else if (97 <=? n) && (n <=? 122) then Some (n - 71)
  else if (48 <=? n) && (n <=? 57) then Some (n + 4)
  else if n =? 43 then Some 62
  else if n =? 47 then Some 63
  else None.

Fixpoint encode (l : bytes) : string :=
  match l with
  | a :: b :: c :: l =>
      let '(a, b, c) := (Byte.to_N a, Byte.to_N b, Byte.to_N c) in
      String (sextet (a / 4)) (String (sextet (a mod 4 * 16 + b / 16))
        (String (sextet (b mod 16 * 4 + c / 64)) (String (sextet (c mod 64)) (encode l))))
  | [a; b] =>
      let '(a, b) := (Byte.to_N a, Byte.to_N b) in
      String (sextet (a / 4)) (String (sextet (a mod 4 * 16 + b / 16))
        (String (sextet (b mod 16 * 4)) "="))
  | [a] => let a := Byte.to_N a in String (sextet (a / 4)) (String (sextet (a mod 4 * 16)) "==")
  | [] => ""
  end.

Definition octet (n : N) : Byte.byte := unwrap_or (Byte.of_N n) x00.

(** Whole quadruples; the last may be padded, with its spare bits zero. *)
Fixpoint decode (s : string) : result bytes string :=
  match s with
  | "" => Ok []
  | String p (String q (String r (String t rest))) =>
      match value p, value q with
      | Some p, Some q =>
          match value r, value t with
          | Some r, Some t =>
              match decode rest with
              | Ok l => Ok (octet (p * 4 + q / 16) :: octet (q mod 16 * 16 + r / 4) ::
                            octet (r mod 4 * 64 + t) :: l)
              | Err e => Err e
              end
          | Some r, None =>
              if bool_decide (t = "="%char) && is_empty rest && (r mod 4 =? 0)
              then Ok [octet (p * 4 + q / 16); octet (q mod 16 * 16 + r / 4)] else Err "Invalid byte"
          | None, _ =>
              if bool_decide (r = "="%char) && bool_decide (t = "="%char) && is_empty rest &&
                 (q mod 16 =? 0)
              then Ok [octet (p * 4 + q / 16)] else Err "Invalid byte"
          end
      | _, _ => Err "Invalid byte"
      end
  | _ => Err "Invalid padding"
  end.

(** ** Laws *)

#[local] Ltac Zify.zify_post_hook ::= Z.to_euclidean_division_equations.

Lemma byte_bound (b : Byte.byte) : Byte.to_N b < 256.
Proof. pose proof (Byte.to_N_bounded b). lia. Qed.

Lemma octet_of b n : n = Byte.to_N b → octet n = b.
Proof. intros ->. unfold octet. by rewrite Byte.of_to_N. Qed.

(** A statement about sextets, by looking at each. *)
Lemma sextets (P : N → bool) n :
  forallb (λ i, P (N.of_nat i)) (seq 0 64) = true → n < 64 → P n = true.
Proof.
  intros Hall Hn. rewrite forallb_forall in Hall. specialize (Hall (N.to_nat n)).
  rewrite N2Nat.id in Hall. apply Hall, in_seq. lia.
Qed.

Lemma value_sextet n : n < 64 → value (sextet n) = Some n.
Proof.
  intros Hn.
  pose proof (sextets (λ n, match value (sextet n) with Some m => m =? n | None => false end) n
                ltac:(by vm_compute) Hn) as Hs. cbv beta in Hs.
  destruct (value (sextet n)) as [m|]; [|done]. by apply N.eqb_eq in Hs as ->.
Qed.

Lemma list_ind3 {A} (P : list A → Prop) :
  P [] → (∀ a, P [a]) → (∀ a b, P [a; b]) → (∀ a b c l, P l → P (a :: b :: c :: l)) → ∀ l, P l.
Proof.
  intros Hnil Hone Htwo Hmore. fix IH 1. intros [|a [|b [|c l]]]; [done|done|done|apply Hmore, IH].
Qed.

Lemma decode_encode l : decode (encode l) = Ok l.
Proof.
  induction l as [|a|a b|a b c l IH] using list_ind3; [done|..];
    repeat match goal with b : Byte.byte |- _ =>
      lazymatch goal with _ : Byte.to_N b < 256 |- _ => fail | _ => pose proof (byte_bound b) end end;
    cbn [encode decode].
  - rewrite !value_sextet by lia. cbn -[N.mul N.div N.modulo].
    rewrite !bool_decide_eq_true_2 by done. rewrite (proj2 (N.eqb_eq _ _)) by lia. cbn -[N.mul N.div N.modulo].
    f_equal. f_equal. apply octet_of. lia.
  - rewrite !value_sextet by lia. cbn -[N.mul N.div N.modulo].
    rewrite bool_decide_eq_true_2 by done. rewrite (proj2 (N.eqb_eq _ _)) by lia. cbn -[N.mul N.div N.modulo].
    do 3 f_equal; apply octet_of; lia.
  - rewrite !value_sextet by lia. rewrite IH. do 4 f_equal; try apply octet_of; try lia.
Qed.

(** Every character is visible, and none is white space. *)
Definition plain (c : ascii) : bool := visible_ascii c && negb (ws1 c) && (byte_of c <? 128)%Z.

Lemma plain_sextet n : n < 64 → plain (sextet n) = true.
Proof. apply (sextets (λ n, plain (sextet n))). by vm_compute. Qed.

Lemma encode_plain l : sall plain (encode l) = true.
Proof.
  induction l as [|a|a b|a b c l IH] using list_ind3; [done|..];
    repeat match goal with b : Byte.byte |- _ =>
      lazymatch goal with _ : Byte.to_N b < 256 |- _ => fail | _ => pose proof (byte_bound b) end end;
    cbn [encode sall]; rewrite !plain_sextet by lia; [done..|exact IH].
Qed.

Lemma plain_solid s : sall plain s = true → first_byte_solid s = true.
Proof.
  destruct s as [|c s]; [done|]. cbn. unfold plain. intros Hs.
  apply andb_true_iff in Hs as [Hc _]. apply andb_true_iff in Hc as [Hc ->].
  apply andb_true_iff in Hc as [_ ->]. done.
Qed.

Definition rfc_codecs : Codecs := {|
  hex_encode := hex_encode_c; hex_decode := hex_decode_c;
  b64_encode := encode; b64_decode := decode;
  sha256 := digest_c; hmac_sha256 := λ k m, digest_c (k ++ m) |}.

Lemma rfc_codec_laws : @CodecLaws rfc_codecs.
Proof.
  pose proof model_codec_laws as Hm. split; cbn.
  - apply (@hex_decode_encode _ Hm).
  - apply (@hex_encode_digits _ Hm).
  - apply (@hex_encode_length _ Hm).
  - apply decode_encode.
  - intros l. pose proof (encode_plain l) as Hp. split; apply plain_solid; [done|]. unfold srev in *. by rewrite <- (sall_srev plain (encode l)) in Hp.
  - intros l. pose proof (encode_plain l) as Hp. rewrite sall_schars in *.
    rewrite forallb_forall in *. intros c Hc. specialize (Hp c Hc). unfold plain in Hp.
    by destruct (visible_ascii c).
  - intros l Hl. by destruct l as [|a [|b [|c l]]].
  - apply (@hmac_length _ Hm).
Qed.
