(* ===== verification/Session.v ===== *)
(** * Paid sessions and the replay cache ([src/session.rs])

    [TokenCodec] mints and authenticates tokens; [MemorySessionStore] keeps
    the quota of each session and the payments already seen.  Clock and
    session identifier are arguments, as in the [_at] functions of the code.
    [spend_one]'s compare-exchange loop is also given as a step relation
    ([Spend]), for its interleavings. *)

From Stdlib Require Import Ascii.
From S2P Require Import Prelude RustStr Platform.
From stdpp Require Import options.

Record Session := mkSession {
  payer : string;
  policy : option string;
  expires_at : Z;
  quota : Z;
  quota_remaining : Z
}.

Inductive SessionRejection :=
| Malformed | Expired | Unknown | WrongPolicy | QuotaExhausted | Backend.

Inductive SessionOutcome :=
| Accepted (payer : string) (remaining quota expires_at : Z)
| Rejected (reason : SessionRejection).

Record TokenClaims := mkClaims {
  c_payer : string;
  c_expires_at : Z;
  c_session_id : string
}.

Inductive PaymentClaim :=
| Fresh
| Replay (first_seen : Z)
| ClaimBackend.

#[export] Instance SessionRejection_eq_dec : EqDecision SessionRejection.
Proof. solve_decision. Defined.
#[export] Instance SessionOutcome_eq_dec : EqDecision SessionOutcome.
Proof. solve_decision. Defined.
#[export] Instance PaymentClaim_eq_dec : EqDecision PaymentClaim.
Proof. solve_decision. Defined.

(** ** Tokens *)

Section Codec.
Context `{!Codecs}.

(** [TokenCodec { hmac_key }] is its key. *)
Definition mac (hmac_key : bytes) (signed_part : string) : bytes :=
  hmac_sha256 hmac_key (as_bytes signed_part).

Definition signed (payer expires session_id : string) : string :=
  payer +:+ ":" +:+ expires +:+ ":" +:+ session_id.

Definition mint (hmac_key : bytes) (payer : string) (expires_at : Z) (session_id : string) : string :=
  let signed_part := signed payer (u_to_string expires_at) session_id in
  signed_part +:+ ":" +:+ hex_encode (mac hmac_key signed_part).

Definition verify (hmac_key : bytes) (token : string) (now : Z) :
  result TokenClaims SessionRejection :=
  match split_on ":" (trim token) with
  | [payer; expires_raw; session_id; mac_hex] =>
      match hex_decode mac_hex with
      | None => Err Malformed
      | Some presented_mac =>
          let signed_part := signed payer expires_raw session_id in
          if negb (bool_decide (mac hmac_key signed_part = presented_mac)) then Err Malformed
          else
          match parse_u64 expires_raw with
          | None => Err Malformed
          | Some expires_at =>
              if expires_at <=? now then Err Expired
              else Ok {| c_payer := payer; c_expires_at := expires_at;
                         c_session_id := session_id |}
          end
      end
  | _ => Err Malformed
  end.

(** [new_session_id]: the hex of 16 random bytes. *)
Definition new_session_id (raw : bytes) : string := hex_encode raw.
End Codec.

(** ** The store *)

Record MemorySessionStore := mkStore {
  sessions : gmap string Session;
  seen_payments : gmap string Z;
  codec : bytes;
  replay_retention_secs : Z
}.

Definition with_sessions (s : MemorySessionStore) (m : gmap string Session) :=
  {| sessions := m; seen_payments := s.(seen_payments); codec := s.(codec);
     replay_retention_secs := s.(replay_retention_secs) |}.
Definition with_seen (s : MemorySessionStore) (m : gmap string Z) :=
  {| sessions := s.(sessions); seen_payments := m; codec := s.(codec);
     replay_retention_secs := s.(replay_retention_secs) |}.

Definition new (hmac_key : bytes) (replay_retention_secs : Z) : MemorySessionStore :=
  {| sessions := ∅; seen_payments := ∅; codec := hmac_key;
     replay_retention_secs := replay_retention_secs |}.

Definition store_len (s : MemorySessionStore) : nat := size s.(sessions).
Definition store_is_empty (s : MemorySessionStore) : bool := (store_len s =? 0)%nat.

(** What a whole run of the compare-exchange loop does to the counter. *)
Definition spend_one (counter : Z) : option Z * Z :=
  if counter =? 0 then (None, counter) else (Some (counter - 1), counter - 1).

Section Store.
Context `{!Codecs}.

Definition create_session_at (payer : string) (policy : option string) (quota ttl_secs now : Z)
    (raw : bytes) (s : MemorySessionStore) : string * MemorySessionStore :=
  let session_id := new_session_id raw in
  let expires_at := sat_add now ttl_secs in
  let session := {| payer := payer; policy := policy; expires_at := expires_at;
                    quota := quota; quota_remaining := quota |} in
  (mint s.(codec) payer expires_at session_id,
   with_sessions s (<[session_id := session]> s.(sessions))).

Definition set_remaining (x : Session) (r : Z) : Session :=
  {| payer := x.(payer); policy := x.(policy); expires_at := x.(expires_at);
     quota := x.(quota); quota_remaining := r |}.

Definition consume_at (token : string) (policy' : option string) (now : Z)
    (s : MemorySessionStore) : SessionOutcome * MemorySessionStore :=
  match verify s.(codec) token now with
  | Err rejection => (Rejected rejection, s)
  | Ok claims =>
      match s.(sessions) !! claims.(c_session_id) with
      | None => (Rejected Unknown, s)
      | Some session =>
          if session.(expires_at) <=? now then (Rejected Expired, s)
          else if negb (bool_decide (session.(policy) = policy')) then (Rejected WrongPolicy, s)
          else
          match spend_one session.(quota_remaining) with
          | (Some remaining, counter) =>
              (Accepted session.(payer) remaining session.(quota) session.(expires_at),
               with_sessions s (<[claims.(c_session_id) := set_remaining session counter]>
                                  s.(sessions)))
          | (None, _) => (Rejected QuotaExhausted, s)
          end
      end
  end.
End Store.

Definition claim_payment_at (payment_id : string) (ttl_secs now : Z) (s : MemorySessionStore) :
  PaymentClaim * MemorySessionStore :=
  match s.(seen_payments) !! payment_id with
  | Some first_seen =>
      if ttl_secs <=? sat_sub now first_seen then
        (Fresh, with_seen s (<[payment_id := now]> s.(seen_payments)))
      else (Replay first_seen, s)
  | None => (Fresh, with_seen s (<[payment_id := now]> s.(seen_payments)))
  end.

Definition release_payment (payment_id : string) (s : MemorySessionStore) : MemorySessionStore :=
  with_seen s (delete payment_id s.(seen_payments)).

Definition cleanup_expired_at (now : Z) (s : MemorySessionStore) : Z * MemorySessionStore :=
  let live := filter (λ kv : string * Session, now < expires_at kv.2) s.(sessions) in
  let seen := filter (λ kv : string * Z, sat_sub now kv.2 < s.(replay_retention_secs))
                     s.(seen_payments) in
  (Z.of_nat (size s.(sessions)) - Z.of_nat (size live), with_seen (with_sessions s live) seen).

(** ** The compare-exchange loop, interleaved

    Threads run [spend_one] on one shared counter.  A compare-exchange is one
    atomic step; being weak, it may fail although the counter is the expected
    one. *)
Module Spend.
Inductive Thread :=
| Load                             (* about to load the counter *)
| Attempt (cur : Z)                (* about to compare-exchange [cur] *)
| Returned (r : option Z).

#[global] Instance Thread_eq_dec : EqDecision Thread.
Proof. solve_decision. Defined.

(** The head of the loop: [if current == 0 { return None }]. *)
Definition loop_head (cur : Z) : Thread :=
  if cur =? 0 then Returned None else Attempt cur.

Inductive step : Z * Thread → Z * Thread → Prop :=
| step_load c : step (c, Load) (c, loop_head c)
| step_exchange c : step (c, Attempt c) (c - 1, Returned (Some (c - 1)))
| step_observe c cur : step (c, Attempt cur) (c, loop_head c).

(** One thread of the pool makes a step. *)
Inductive pool_step : Z * list Thread → Z * list Thread → Prop :=
| pool_step_at c c' pre t t' post :
    step (c, t) (c', t') → pool_step (c, pre ++ t :: post) (c', pre ++ t' :: post).

Inductive pool_steps : Z * list Thread → Z * list Thread → Prop :=
| pool_refl s : pool_steps s s
| pool_trans s1 s2 s3 : pool_step s1 s2 → pool_steps s2 s3 → pool_steps s1 s3.

Definition granted (ts : list Thread) : list Z :=
  omap (λ t, match t with Returned (Some r) => Some r | _ => None end) ts.

Definition start (n : nat) : list Thread := replicate n Load.

(** No thread holds the impossible expectation of an exhausted counter. *)
Definition sane (t : Thread) : Prop :=
  match t with Attempt cur => 0 < cur | _ => True end.
End Spend.

(** ** Uses of a store *)

Inductive Op :=
| OpCreate (payer : string) (policy : option string) (quota ttl_secs now : Z) (raw : bytes)
| OpConsume (token : string) (policy : option string) (now : Z)
| OpClaim (payment_id : string) (ttl_secs now : Z)
| OpRelease (payment_id : string)
| OpCleanup (now : Z).

Section Ops.
Context `{!Codecs}.

Definition apply_op (s : MemorySessionStore) (o : Op) : MemorySessionStore :=
  match o with
  | OpCreate p pol q ttl now raw => (create_session_at p pol q ttl now raw s).2
  | OpConsume tok pol now => (consume_at tok pol now s).2
  | OpClaim id ttl now => (claim_payment_at id ttl now s).2
  | OpRelease id => release_payment id s
  | OpCleanup now => (cleanup_expired_at now s).2
  end.

(** Is this use an accepted request on session [sid]? *)
Definition spends (sid : string) (s : MemorySessionStore) (o : Op) : Z :=
  match o with
  | OpConsume tok pol now =>
      match verify s.(codec) tok now, (consume_at tok pol now s).1 with
      | Ok c, Accepted _ _ _ _ => if bool_decide (c.(c_session_id) = sid) then 1 else 0
      | _, _ => 0
      end
  | _ => 0
  end.

Fixpoint spent (sid : string) (s : MemorySessionStore) (ops : list Op) : Z :=
  match ops with
  | [] => 0
  | o :: ops => spends sid s o + spent sid (apply_op s o) ops
  end.

Definition creates (sid : string) (o : Op) : Prop :=
  match o with OpCreate _ _ _ _ _ raw => new_session_id raw = sid | _ => False end.

Definition left_on (sid : string) (s : MemorySessionStore) : Z :=
  match s.(sessions) !! sid with Some x => x.(quota_remaining) | None => 0 end.

Definition quotas_nonneg (s : MemorySessionStore) : Prop :=
  ∀ sid x, s.(sessions) !! sid = Some x → 0 ≤ x.(quota_remaining).
End Ops.

(** ** Lemmas: tokens *)

Section CodecLemmas.
#[local] Set Default Proof Using "Type*".
Context `{!Codecs, !CodecLaws}.

(** A token whose fields hold no delimiter, with no white space at its ends. *)
Definition plain_field (s : string) : Prop :=
  has_char ":" s = false ∧ s ≠ "" ∧ first_byte_solid s = true.

Lemma signed_first_solid p e i : plain_field p → first_byte_solid (signed p e i) = true.
Proof. intros (_ & Hn & Hs). unfold signed. by apply first_byte_solid_app. Qed.

Lemma mint_trim key p e i : plain_field p → trim (mint key p e i) = mint key p e i.
Proof.
  intros Hp. unfold mint. set (sp := signed p (u_to_string e) i).
  set (h := hex_encode (mac key sp)).
  apply trim_solid.
  - apply first_byte_solid_app; [|by apply signed_first_solid].
    destruct Hp as (_ & Hn & _). by destruct p.
  - rewrite !srev_app.
    assert (sall is_ascii_hexdigit (srev h) = true) as Hh
      by (rewrite sall_srev; apply hex_encode_digits).
    assert (srev h ≠ "") as Hne.
    { pose proof (hex_encode_length (mac key sp)) as Hl. unfold mac in Hl.
      rewrite hmac_length in Hl. fold (mac key sp) h in Hl.
      intros E. apply (f_equal srev) in E. rewrite srev_involutive in E.
      rewrite E in Hl. discriminate. }
    rewrite ?append_assoc. apply first_byte_solid_app; [done | by apply hex_first_solid].
Qed.

Lemma mint_split key p e i :
  plain_field p → has_char ":" i = false →
  split_on ":" (mint key p e i) =
    [p; u_to_string e; i; hex_encode (mac key (signed p (u_to_string e) i))].
Proof.
  intros (Hp & _) Hi. unfold mint, signed. rewrite !append_assoc. cbn [String.append].
  rewrite split_on_app by done. f_equal.
  rewrite split_on_app by (by apply u_to_string_no). f_equal.
  rewrite split_on_app by done. f_equal.
  apply split_on_none. eapply sall_has_char; [apply hex_encode_digits | done].
Qed.

Lemma verify_mint key p e i now :
  plain_field p → has_char ":" i = false → is_u64 e → now < e →
  verify key (mint key p e i) now =
    Ok {| c_payer := p; c_expires_at := e; c_session_id := i |}.
Proof.
  intros Hp Hi He Hnow. unfold verify.
  rewrite mint_trim, mint_split by done. rewrite hex_decode_encode.
  rewrite bool_decide_eq_true_2 by done. cbn [negb].
  unfold parse_u64. rewrite parse_uint_print by done.
  by rewrite (proj2 (Z.leb_gt _ _)).
Qed.

Lemma session_id_no_colon raw : has_char ":" (new_session_id raw) = false.
Proof. eapply sall_has_char; [apply hex_encode_digits | done]. Qed.

(** What an accepted token proves. *)
Lemma verify_inv key token now c :
  verify key token now = Ok c →
  ∃ expires_raw mac_hex,
    split_on ":" (trim token) = [c_payer c; expires_raw; c_session_id c; mac_hex] ∧
    hex_decode mac_hex = Some (mac key (signed (c_payer c) expires_raw (c_session_id c))) ∧
    parse_u64 expires_raw = Some (c_expires_at c) ∧ now < c_expires_at c.
Proof.
  unfold verify. destruct (split_on ":" (trim token)) as [|p [|e [|i [|m [|]]]]]; try done.
  destruct (hex_decode m) as [pm|] eqn:Em; [|done].
  case_bool_decide as Hmac; [|done]. cbn [negb].
  destruct (parse_u64 e) as [ex|] eqn:Ee; [|done].
  destruct (Z.leb_spec ex now); [done|]. intros [= <-]. cbn [c_payer c_session_id c_expires_at].
  exists e, m. split_and!; [done|congruence|done|lia].
Qed.
End CodecLemmas.

(** ** Lemmas: the store *)

Section StoreLemmas.
#[local] Set Default Proof Using "Type*".
Context `{!Codecs}.

Lemma consume_accepted_inv token pol now s s' p r q e :
  consume_at token pol now s = (Accepted p r q e, s') →
  ∃ c x, verify s.(codec) token now = Ok c ∧
    s.(sessions) !! c.(c_session_id) = Some x ∧
    now < x.(expires_at) ∧ x.(policy) = pol ∧ x.(quota_remaining) ≠ 0 ∧
    p = x.(payer) ∧ r = x.(quota_remaining) - 1 ∧ q = x.(quota) ∧ e = x.(expires_at) ∧
    s' = with_sessions s (<[c.(c_session_id) := set_remaining x r]> s.(sessions)).
Proof.
  unfold consume_at. destruct (verify _ _ _) as [c|]; [|done].
  destruct (sessions s !! c_session_id c) as [x|] eqn:Ex; [|done].
  destruct (Z.leb_spec (expires_at x) now); [done|].
  case_bool_decide as Hpol; [|done]. cbn [negb]. unfold spend_one.
  destruct (Z.eqb_spec (quota_remaining x) 0); [done|].
  intros [= <- <- <- <- <-]. exists c, x. split_and!; done.
Qed.

(** What a request does with a live session of its policy. *)
Lemma consume_live token c pol now s x :
  verify s.(codec) token now = Ok c → s.(sessions) !! c.(c_session_id) = Some x →
  now < x.(expires_at) → x.(policy) = pol →
  consume_at token pol now s =
    match spend_one x.(quota_remaining) with
    | (Some remaining, counter) =>
        (Accepted x.(payer) remaining x.(quota) x.(expires_at),
         with_sessions s (<[c.(c_session_id) := set_remaining x counter]> s.(sessions)))
    | (None, _) => (Rejected QuotaExhausted, s)
    end.
Proof.
  intros Hv Hx Hnow Hpol. unfold consume_at. rewrite Hv, Hx, (proj2 (Z.leb_gt _ _)) by done.
  by rewrite bool_decide_eq_true_2.
Qed.

(** Requests on one token, at these times. *)
Definition requests_at (token : string) (pol : option string) (times : list Z)
    (s : MemorySessionStore) : MemorySessionStore :=
  fold_left (λ s u, (consume_at token pol u s).2) times s.

Lemma spent_down token pol x sid key times q s :
  (∀ u, u < x.(expires_at) → ∃ p' e, verify key token u = Ok (mkClaims p' e sid)) →
  x.(policy) = pol → s.(codec) = key →
  s.(sessions) !! sid = Some (set_remaining x q) →
  Forall (λ u, u < x.(expires_at)) times → Z.of_nat (length times) ≤ q →
  (requests_at token pol times s).(codec) = key ∧
  (requests_at token pol times s).(sessions) !! sid
    = Some (set_remaining x (q - Z.of_nat (length times))).
Proof.
  intros Hv Hpol. revert q s. induction times as [|u times IH]; intros q s Hc Hx Hf Hl.
  { cbn. split; [done|]. rewrite Hx. do 2 f_equal. lia. }
  apply Forall_cons in Hf as [Hu Hf]. cbn [requests_at fold_left length] in *.
  destruct (Hv u Hu) as (p' & e & Hvu).
  erewrite consume_live; [|by rewrite Hc|exact Hx|done|done].
  cbn [c_session_id set_remaining quota_remaining]. unfold spend_one.
  rewrite (proj2 (Z.eqb_neq q 0)) by lia. cbn [snd].
  replace (q - Z.of_nat (S (length times))) with (q - 1 - Z.of_nat (length times)) by lia.
  apply IH; [done| |done|lia]. cbn [with_sessions sessions]. by rewrite lookup_insert_eq.
Qed.

Lemma consume_rejected_same token pol now s why s' :
  consume_at token pol now s = (Rejected why, s') → s' = s.
Proof.
  unfold consume_at. destruct (verify _ _ _) as [c|]; [|congruence].
  destruct (sessions s !! c_session_id c) as [x|] eqn:Ex; [|congruence].
  destruct (expires_at x <=? now); [congruence|].
  case_bool_decide; [|cbn; congruence]. cbn [negb]. unfold spend_one.
  destruct (Z.eqb_spec (quota_remaining x) 0); congruence.
Qed.

Lemma apply_op_codec s o : codec (apply_op s o) = codec s.
Proof.
  destruct o; cbn [apply_op]; try done.
  - destruct (consume_at token policy0 now s) as [[p r q e|why] s'] eqn:E.
    + apply consume_accepted_inv in E as (c & x & Hinv). destruct_and!. by subst.
    + apply consume_rejected_same in E. by subst.
  - unfold claim_payment_at. by repeat case_match.
Qed.

Lemma lookup_live s now sid :
  sessions (cleanup_expired_at now s).2 !! sid =
  match s.(sessions) !! sid with
  | Some x => if now <? x.(expires_at) then Some x else None
  | None => None
  end.
Proof.
  cbn [cleanup_expired_at snd with_seen with_sessions sessions].
  destruct (sessions s !! sid) as [x|] eqn:E.
  - destruct (Z.ltb_spec now (expires_at x)).
    + by apply map_lookup_filter_Some.
    + apply map_lookup_filter_None. right. intros y Hy. simplify_eq/=. lia.
  - apply map_lookup_filter_None. by left.
Qed.

Lemma lookup_seen s now id :
  seen_payments (cleanup_expired_at now s).2 !! id =
  match s.(seen_payments) !! id with
  | Some t => if sat_sub now t <? s.(replay_retention_secs) then Some t else None
  | None => None
  end.
Proof.
  cbn [cleanup_expired_at snd with_seen with_sessions seen_payments].
  destruct (seen_payments s !! id) as [t|] eqn:E.
  - destruct (Z.ltb_spec (sat_sub now t) (replay_retention_secs s)).
    + by apply map_lookup_filter_Some.
    + apply map_lookup_filter_None. right. intros y Hy. simplify_eq/=. lia.
  - apply map_lookup_filter_None. by left.
Qed.

Lemma claim_sessions id ttl now s : sessions (claim_payment_at id ttl now s).2 = sessions s.
Proof. unfold claim_payment_at. by repeat case_match. Qed.

(** One use of the store: what it spends of a session comes out of what is
    left on it. *)
Lemma left_on_op sid s o :
  quotas_nonneg s → ¬ creates sid o →
  spends sid s o + left_on sid (apply_op s o) ≤ left_on sid s.
Proof.
  intros Hq Hc. destruct o; cbn [spends apply_op].
  - unfold left_on, create_session_at. cbn [snd with_sessions sessions].
    rewrite lookup_insert_ne; [lia|]. intros E. by apply Hc.
  - destruct (consume_at token policy0 now s) as [[p r q e|why] s'] eqn:E; cbn [fst snd].
    + apply consume_accepted_inv in E as (c & x & Hv & Hx & _ & _ & Hne & _ & -> & _ & _ & ->).
      rewrite Hv. unfold left_on. cbn [with_sessions sessions].
      case_bool_decide as Hid.
      * subst sid. rewrite lookup_insert_eq, Hx. cbn [quota_remaining set_remaining]. lia.
      * rewrite lookup_insert_ne by done. lia.
    + apply consume_rejected_same in E as ->. destruct (verify _ _ _); lia.
  - unfold left_on. rewrite claim_sessions. lia.
  - unfold left_on. cbn [release_payment with_seen sessions]. lia.
  - unfold left_on. rewrite lookup_live. destruct (sessions s !! sid) as [x|] eqn:Ex; [|lia].
    apply Hq in Ex. destruct (now <? expires_at x); lia.
Qed.

Definition nonneg_grant (o : Op) : Prop :=
  match o with OpCreate _ _ q _ _ _ => 0 ≤ q | _ => True end.

Lemma quotas_nonneg_op s o : quotas_nonneg s → nonneg_grant o → quotas_nonneg (apply_op s o).
Proof.
  intros Hq Ho. destruct o; cbn [apply_op]; intros sid x.
  - unfold create_session_at. cbn [snd with_sessions sessions].
    rewrite lookup_insert. case_decide; [intros [= <-]; done | apply Hq].
  - destruct (consume_at token policy0 now s) as [[p r q e|why] s'] eqn:E; cbn [fst snd].
    + apply consume_accepted_inv in E as (c & y & _ & Hy & _ & _ & Hne & _ & -> & _ & _ & ->).
      cbn [with_sessions sessions]. rewrite lookup_insert. case_decide; [|apply Hq].
      intros [= <-]. apply Hq in Hy. cbn [quota_remaining set_remaining]. lia.
    + apply consume_rejected_same in E as ->. apply Hq.
  - rewrite claim_sessions. apply Hq.
  - apply Hq.
  - rewrite lookup_live. destruct (sessions s !! sid) as [y|] eqn:Ey; [|done].
    destruct (now <? expires_at y); [|done]. intros [= <-]. by eapply Hq.
Qed.

Lemma spent_bound sid ops : ∀ s,
  quotas_nonneg s → Forall nonneg_grant ops → Forall (λ o, ¬ creates sid o) ops →
  spent sid s ops + left_on sid (fold_left apply_op ops s) ≤ left_on sid s.
Proof.
  induction ops as [|o ops IH]; intros s Hq Hg Hc; [simpl; lia|].
  apply Forall_cons in Hg as [Hg Hgs], Hc as [Hc Hcs]. cbn [spent fold_left].
  pose proof (left_on_op sid s o Hq Hc).
  pose proof (IH (apply_op s o) (quotas_nonneg_op s o Hq Hg) Hgs Hcs). lia.
Qed.

Lemma left_on_nonneg sid s : quotas_nonneg s → 0 ≤ left_on sid s.
Proof.
  intros Hq. unfold left_on. destruct (sessions s !! sid) eqn:E; [by eapply Hq | lia].
Qed.

Lemma quotas_nonneg_ops ops : ∀ s,
  quotas_nonneg s → Forall nonneg_grant ops → quotas_nonneg (fold_left apply_op ops s).
Proof.
  induction ops as [|o ops IH]; intros s Hq Hg; [done|].
  apply Forall_cons in Hg as [Hg Hgs]. apply IH; [by apply quotas_nonneg_op | done].
Qed.

(** Uses that neither release payment [id] nor look at it outside [[t0, t0 + ttl)). *)
Definition holds_claim (id : string) (t0 ttl : Z) (o : Op) : Prop :=
  match o with
  | OpRelease id' => id' ≠ id
  | OpClaim id' ttl' now => id' = id → ttl ≤ ttl' ∧ now < t0 + ttl
  | OpCleanup now => now < t0 + ttl
  | _ => True
  end.

Lemma claim_kept id t0 ttl s o :
  0 < ttl ≤ s.(replay_retention_secs) → s.(seen_payments) !! id = Some t0 →
  holds_claim id t0 ttl o →
  (apply_op s o).(seen_payments) !! id = Some t0 ∧
  (apply_op s o).(replay_retention_secs) = s.(replay_retention_secs).
Proof.
  intros Httl Hseen Ho. destruct o; cbn [apply_op holds_claim] in *.
  - done.
  - destruct (consume_at token policy0 now s) as [[p r q e|why] s'] eqn:E; cbn [snd].
    + apply consume_accepted_inv in E as (c & x & Hinv). destruct_and!. by subst.
    + apply consume_rejected_same in E. by subst.
  - unfold claim_payment_at. destruct (decide (payment_id = id)) as [->|Hne].
    + destruct (Ho eq_refl) as [Hle Hnow]. rewrite Hseen.
      rewrite (proj2 (Z.leb_gt _ _)); [done|]. unfold sat_sub. lia.
    + repeat case_match; cbn [snd with_seen seen_payments];
        rewrite ?lookup_insert_ne by done; done.
  - unfold release_payment. cbn [with_seen seen_payments].
    by rewrite lookup_delete_ne by done.
  - rewrite lookup_seen, Hseen. split; [|done].
    rewrite (proj2 (Z.ltb_lt _ _)); [done|]. unfold sat_sub. lia.
Qed.

Lemma claim_kept_ops id t0 ttl ops : ∀ s,
  0 < ttl ≤ s.(replay_retention_secs) → s.(seen_payments) !! id = Some t0 →
  Forall (holds_claim id t0 ttl) ops →
  (fold_left apply_op ops s).(seen_payments) !! id = Some t0.
Proof.
  induction ops as [|o ops IH]; intros s Httl Hseen Ho; [done|].
  apply Forall_cons in Ho as [Ho Hos].
  destruct (claim_kept id t0 ttl s o Httl Hseen Ho) as [H1 H2].
  apply IH; [by rewrite H2 | done..].
Qed.
End StoreLemmas.

(** ** Lemmas: the interleaved loop *)

Module SpendLemmas.
Import Spend.

Record inv (q : Z) (n : nat) (s : Z * list Thread) : Prop := {
  inv_counter : 0 ≤ s.1 ≤ q;
  inv_granted : granted s.2 ≡ₚ seqZ s.1 (q - s.1);
  inv_sane : Forall sane s.2;
  inv_refused : Returned None ∈ s.2 → s.1 = 0;
  inv_length : length s.2 = n
}.

Lemma granted_mid pre t post :
  granted (pre ++ t :: post) = granted pre ++ granted [t] ++ granted post.
Proof. unfold granted. by rewrite <- !omap_app. Qed.

Lemma granted_start n : granted (start n) = [].
Proof. induction n as [|n IH]; [done|]. exact IH. Qed.

Lemma inv_start q n : 0 ≤ q → inv q n (q, start n).
Proof.
  intros Hq. split; cbn [fst snd].
  - lia.
  - by rewrite granted_start, Z.sub_diag.
  - by apply Forall_replicate.
  - unfold start. intros H. by apply elem_of_replicate in H as [H _].
  - apply length_replicate.
Qed.

Lemma loop_head_sane c : 0 ≤ c → sane (loop_head c).
Proof. intros. unfold loop_head. destruct (Z.eqb_spec c 0); simpl; [done|lia]. Qed.

Lemma granted_loop_head c : granted [loop_head c] = [].
Proof. unfold loop_head. by destruct (c =? 0). Qed.

Lemma refused_elsewhere (t t' : Thread) pre post :
  Returned None ∈ pre ++ t' :: post → t' ≠ Returned None →
  Returned None ∈ pre ++ t :: post.
Proof.
  rewrite !elem_of_app, !elem_of_cons. intros [H|[H|H]] Hne; [by left| |by right; right].
  by symmetry in H.
Qed.

(** A step that leaves the counter: the thread goes back to the loop head. *)
Lemma inv_loop_head q n c pre t post :
  granted [t] = [] → inv q n (c, pre ++ t :: post) → inv q n (c, pre ++ loop_head c :: post).
Proof.
  intros Ht [Hc Hg Hs Hr Hl]. cbn [fst snd] in *. split; cbn [fst snd].
  - done.
  - by rewrite <- Hg, !granted_mid, granted_loop_head, Ht.
  - rewrite Forall_app, Forall_cons in Hs. rewrite Forall_app, Forall_cons.
    split_and!; [apply Hs | apply loop_head_sane; lia | apply Hs].
  - intros H. unfold loop_head in H. destruct (Z.eqb_spec c 0) as [->|]; [done|].
    apply Hr. by eapply refused_elsewhere.
  - rewrite length_app in *. simpl in *. lia.
Qed.

Lemma inv_step q n s s' : pool_step s s' → inv q n s → inv q n s'.
Proof.
  intros Hst. destruct Hst as [c c' pre t t' post Hstep]. inversion Hstep; subst; clear Hstep.
  - by apply inv_loop_head.
  - intros [Hc Hg Hs Hr Hl]. cbn [fst snd] in *.
    rewrite Forall_app, Forall_cons in Hs. destruct Hs as (Hs1 & Hpos & Hs2). simpl in Hpos.
    split; cbn [fst snd].
    + lia.
    + rewrite (seqZ_cons (c - 1)) by lia.
      replace (Z.succ (c - 1)) with c by lia. replace (Z.pred (q - (c - 1))) with (q - c) by lia.
      rewrite <- Hg, !granted_mid. change (granted [Attempt c]) with (@nil Z).
      change (granted [Returned (Some (c - 1))]) with [c - 1].
      cbn [app]. symmetry. apply Permutation_middle.
    + rewrite Forall_app, Forall_cons. done.
    + intros H. assert (c = 0) by (apply Hr; by eapply refused_elsewhere). lia.
    + rewrite length_app in *. simpl in *. lia.
  - by apply inv_loop_head.
Qed.

Lemma inv_steps q n s s' : pool_steps s s' → inv q n s → inv q n s'.
Proof. induction 1; [done|]. intros. apply IHpool_steps. by eapply inv_step. Qed.

Lemma granted_all ts :
  Forall (λ t, ∃ r, t = Returned r) ts → Returned None ∉ ts → length (granted ts) = length ts.
Proof.
  induction 1 as [|t ts [r ->] Hts IH]; [done|]. rewrite not_elem_of_cons.
  intros [Hne Hin]. destruct r as [r|]; [|done]. cbn. f_equal. by apply IH.
Qed.

Lemma granted_le ts : (length (granted ts) ≤ length ts)%nat.
Proof.
  unfold granted. induction ts as [|t ts IH]; [done|].
  unfold omap in *. destruct t as [| |[r|]]; simpl in *; lia.
Qed.

(** Alone on the counter the loop does what [spend_one] says. *)
Lemma solo_run c : 0 ≤ c →
  pool_steps (c, [Load]) ((spend_one c).2, [Returned (spend_one c).1]).
Proof.
  intros Hc.
  eapply pool_trans; [exact (pool_step_at c c [] Load (loop_head c) [] (step_load c))|].
  unfold loop_head, spend_one. destruct (Z.eqb_spec c 0) as [->|]; [apply pool_refl|].
  eapply pool_trans; [|apply pool_refl].
  exact (pool_step_at c (c - 1) [] (Attempt c) _ [] (step_exchange c)).
Qed.
End SpendLemmas.

(** ** Properties *)

Section Properties.
#[local] Set Default Proof Using "Type*".
Context `{!Codecs, !CodecLaws}.

(** C39: Round trip.  A token minted for a payer buys exactly its quota: until
    its deadline, under its policy, requests are accepted, each told the payer,
    one less than what was left and the deadline, until [q] were; the next is
    refused because the quota is spent, and nothing is left. *)
Theorem issued_token_is_accepted (p : string) (pol : option string) (q ttl t now : Z)
    (raw : bytes) (s : MemorySessionStore) (times : list Z)
    (Hp : plain_field p) (Ht : 0 ≤ t) (Httl : 0 ≤ ttl)
    (Htimes : Forall (λ u, u < sat_add t ttl) times) (Hnow : now < sat_add t ttl)
    (Hlen : Z.of_nat (length times) ≤ q) :
  let '(token, s1) := create_session_at p pol q ttl t raw s in
  let s2 := requests_at token pol times s1 in
  let left := q - Z.of_nat (length times) in
  left_on (new_session_id raw) s2 = left ∧
  (consume_at token pol now s2).1 =
    if left =? 0 then Rejected QuotaExhausted else Accepted p (left - 1) q (sat_add t ttl).
Proof.
  unfold create_session_at. cbv zeta.
  set (e := sat_add t ttl). set (sid := new_session_id raw). set (token := mint _ p e sid).
  set (x := mkSession p pol e q q). set (s1 := with_sessions s _).
  assert (∀ u, u < e → verify s.(codec) token u
                       = Ok {| c_payer := p; c_expires_at := e; c_session_id := sid |}) as Hv.
  { intros u Hu. apply verify_mint; [done|apply session_id_no_colon| |done].
    unfold e, sat_add, is_u64, u64_max. lia. }
  assert (s1.(codec) = s.(codec) ∧ s1.(sessions) !! sid = Some (set_remaining x q)) as H1
    by (split; [done | apply lookup_insert_eq]).
  destruct (spent_down token pol x sid s.(codec) times q s1) as [Hc Hx]; try done; try apply H1.
  { intros u Hu. eexists _, _. by apply Hv. }
  set (s2 := requests_at _ _ _ _) in *. split; [unfold left_on; by rewrite Hx|].
  erewrite consume_live; [|rewrite Hc; by apply Hv|exact Hx|done|done].
  cbn [set_remaining quota_remaining payer quota expires_at]. unfold spend_one.
  by destruct (_ =? 0).
Qed.

(** C13: The quota is never oversold.  Whatever requests, payments, sweeps and
    other sessions a store sees, in whatever order, the requests accepted on
    one session together with what is left on it never exceed what it had. *)
Theorem quota_never_oversold (sid : string) (s : MemorySessionStore) (ops : list Op)
    (Hs : quotas_nonneg s) (Hg : Forall nonneg_grant ops)
    (Hfresh : Forall (λ o, ¬ creates sid o) ops) :
  spent sid s ops + left_on sid (fold_left apply_op ops s) ≤ left_on sid s ∧
  0 ≤ spent sid s ops ≤ left_on sid s.
Proof.
  pose proof (spent_bound sid ops s Hs Hg Hfresh).
  pose proof (left_on_nonneg sid _ (quotas_nonneg_ops ops s Hs Hg)).
  assert (0 ≤ spent sid s ops); [|lia].
  clear. revert s. induction ops as [|o ops IH]; intros s; [done|]. cbn [spent].
  specialize (IH (apply_op s o)). assert (0 ≤ spends sid s o); [|lia].
  destruct o; cbn [spends]; repeat case_match; lia.
Qed.

(** C16: Acceptance is earned.  An accepted request carried a token whose MAC
    is the HMAC of exactly the fields it presents and whose own deadline, one of
    those fields, has not passed; it names a session the store still has, whose
    deadline has not passed either, bought under exactly this policy, whose
    counter is not zero.  The answer is that session's payer, quota and deadline
    with one request less, and the store is the same with one request less on
    that session. *)
Theorem accepted_means_authentic (token : string) (pol : option string) (now : Z)
    (s s' : MemorySessionStore) (p : string) (r q e : Z)
    (Hacc : consume_at token pol now s = (Accepted p r q e, s')) :
  ∃ who expires_raw sid mac_hex deadline x,
    split_on ":" (trim token) = [who; expires_raw; sid; mac_hex] ∧
    hex_decode mac_hex = Some (mac s.(codec) (signed who expires_raw sid)) ∧
    parse_u64 expires_raw = Some deadline ∧ now < deadline ∧
    s.(sessions) !! sid = Some x ∧ now < x.(expires_at) ∧ x.(policy) = pol ∧
    x.(quota_remaining) ≠ 0 ∧ r = x.(quota_remaining) - 1 ∧
    p = x.(payer) ∧ q = x.(quota) ∧ e = x.(expires_at) ∧
    s' = with_sessions s (<[sid := set_remaining x r]> s.(sessions)).
Proof.
  apply consume_accepted_inv in Hacc
    as (c & x & Hv & Hx & He & Hpol & Hne & -> & -> & -> & -> & ->).
  apply verify_inv in Hv as (er & m & Hsplit & Hmac & Hdead & Hnow).
  exists (c_payer c), er, (c_session_id c), m, (c_expires_at c), x. by split_and!.
Qed.

(** The delimiter cannot be abused.  Different (payer, deadline, session)
    triples whose fields hold no colon are different signed strings, so no
    MAC covers two meanings. *)
Theorem signed_fields_cannot_shift (p e i p' e' i' : string)
    (Hp : has_char ":" p = false) (He : has_char ":" e = false) (Hi : has_char ":" i = false)
    (Hp' : has_char ":" p' = false) (He' : has_char ":" e' = false) (Hi' : has_char ":" i' = false)
    (Heq : signed p e i = signed p' e' i') :
  p = p' ∧ e = e' ∧ i = i'.
Proof.
  apply (f_equal (split_on ":")) in Heq. unfold signed in Heq. cbn [String.append] in Heq.
  rewrite !split_on_app in Heq by done. rewrite !split_on_none in Heq by done.
  injection Heq as -> -> ->. done.
Qed.
End Properties.

(** C15: A payment is single use, for claims that ask for no less.  Once claimed
    at [t0] for [ttl] seconds, and until that lifetime is over, every further
    claim that asks for at least [ttl] is a replay of [t0], whatever else the
    store is used for in the meantime: provided the payment is not released, the
    sweep keeps records at least as long as [ttl], and every claim of the payment
    in between asked for at least [ttl] too.  (A claim that asks for less is fresh
    once that much time has passed: [a_shorter_ttl_reopens].) *)
Theorem claim_is_single_use `{!Codecs} (id : string) (t0 ttl ttl' now : Z)
    (s s1 : MemorySessionStore) (ops : list Op)
    (Hfresh : claim_payment_at id ttl t0 s = (Fresh, s1))
    (Hret : 0 < ttl ≤ s.(replay_retention_secs))
    (Hops : Forall (holds_claim id t0 ttl) ops) (Hnow : now < t0 + ttl) (Httl' : ttl ≤ ttl') :
  (claim_payment_at id ttl' now (fold_left apply_op ops s1)).1 = Replay t0.
Proof.
  assert (s1 = with_seen s (<[id := t0]> s.(seen_payments))) as ->.
  { unfold claim_payment_at in Hfresh. repeat case_match; congruence. }
  unfold claim_payment_at. rewrite (claim_kept_ops id t0 ttl ops).
  - rewrite (proj2 (Z.leb_gt _ _)); [done|]. unfold sat_sub. lia.
  - done.
  - cbn [with_seen seen_payments]. apply lookup_insert_eq.
  - done.
Qed.

(** A claim that asks for less than has passed since is fresh, and restarts the
    record, though the first claim's lifetime is not over. *)
Lemma a_shorter_ttl_reopens (id : string) (t0 ttl' now : Z) (s : MemorySessionStore) :
  s.(seen_payments) !! id = Some t0 → 0 < ttl' ≤ now - t0 →
  claim_payment_at id ttl' now s = (Fresh, with_seen s (<[id := now]> s.(seen_payments))).
Proof.
  intros Hs Hle. unfold claim_payment_at. rewrite Hs.
  by rewrite (proj2 (Z.leb_le _ _)) by (unfold sat_sub; lia).
Qed.

(** A released payment can be used again at once. *)
Theorem released_claim_is_fresh (id : string) (ttl now : Z) (s : MemorySessionStore) :
  (claim_payment_at id ttl now (release_payment id s)).1 = Fresh.
Proof.
  unfold claim_payment_at, release_payment. cbn [with_seen seen_payments].
  by rewrite lookup_delete_eq.
Qed.

(** C14: Concurrent spending.  Threads running the compare-exchange loop on one
    counter of [q], in any interleaving and with spurious failures: the counter
    stays within [0, q] and never wraps, every grant reports a different
    remaining count, and once all [n] have returned exactly [min n q] were
    granted. *)
Theorem concurrent_spending_never_exceeds_quota (q : Z) (n : nat) (c : Z)
    (ts : list Spend.Thread)
    (Hq : 0 ≤ q) (Hrun : Spend.pool_steps (q, Spend.start n) (c, ts)) :
  0 ≤ c ≤ q ∧ Spend.granted ts ≡ₚ seqZ c (q - c) ∧
  (Forall (λ t, ∃ r, t = Spend.Returned r) ts →
   Z.of_nat (length (Spend.granted ts)) = Z.min (Z.of_nat n) q).
Proof.
  destruct (SpendLemmas.inv_steps q n _ _ Hrun (SpendLemmas.inv_start q n Hq))
    as [Hc Hg _ Hr Hl]. cbn [fst snd] in *.
  split_and!; [lia..|done|]. intros Hall.
  assert (Z.of_nat (length (Spend.granted ts)) = q - c) as Hlen
    by (rewrite Hg, length_seqZ; lia).
  pose proof (SpendLemmas.granted_le ts).
  destruct (decide (Spend.Returned None ∈ ts)) as [Hin|Hnin].
  - specialize (Hr Hin). lia.
  - pose proof (SpendLemmas.granted_all ts Hall Hnin). lia.
Qed.

(** The session sweep is invisible.  Reaping expired sessions at [now]
    changes no acceptance at that time or later. *)
Theorem cleanup_never_revokes_a_session `{!Codecs} (token : string) (pol : option string)
    (now later : Z) (s : MemorySessionStore) (p : string) (r q e : Z)
    (Hlater : now ≤ later) :
  (consume_at token pol later (cleanup_expired_at now s).2).1 = Accepted p r q e ↔
  (consume_at token pol later s).1 = Accepted p r q e.
Proof.
  unfold consume_at. change (codec (cleanup_expired_at now s).2) with (codec s).
  destruct (verify (codec s) token later) as [c|]; [|done]. rewrite lookup_live.
  destruct (sessions s !! c_session_id c) as [x|]; [|done].
  destruct (Z.ltb_spec now (expires_at x)) as [Hlive|Hdead].
  - destruct (expires_at x <=? later); [done|]. case_bool_decide; [|done]. cbn [negb].
    unfold spend_one. by destruct (quota_remaining x =? 0).
  - by rewrite (proj2 (Z.leb_le (expires_at x) later)) by lia.
Qed.

(** ** The properties at concrete inputs *)

Definition demo_key : bytes := replicate 32 Byte.x07.
Definition demo_raw : bytes := replicate 16 Byte.x2a.
Definition demo_store : MemorySessionStore := new demo_key 3600.
Definition demo_create :=
  create_session_at "0xdeadbeef" (Some "graphql") 3 3600 1700000000 demo_raw demo_store.
Definition demo_payer_plain : plain_field "0xdeadbeef".
Proof. split_and!; [reflexivity | discriminate | reflexivity]. Defined.

Lemma issued_token_is_accepted_witness :
  let '(token, s1) := demo_create in
  let s2 := requests_at token (Some "graphql") [1700000001; 1700000002; 1700000002] s1 in
  left_on (new_session_id demo_raw) s2 = 0 ∧
  (consume_at token (Some "graphql") 1700000003 s2).1 = Rejected QuotaExhausted.
Proof.
  apply (issued_token_is_accepted "0xdeadbeef" (Some "graphql") 3 3600 1700000000 1700000003
    demo_raw demo_store [1700000001; 1700000002; 1700000002] demo_payer_plain);
    [lia|lia| |vm_compute; congruence|cbn; lia].
  repeat (apply Forall_cons; split); [vm_compute; congruence..|constructor].
Defined.

Definition demo_ops : list Op :=
  [OpConsume demo_create.1 (Some "graphql") 1700000001;
   OpConsume demo_create.1 (Some "grpc") 1700000001;
   OpCleanup 1700000002;
   OpConsume demo_create.1 (Some "graphql") 1700000003].

Lemma quota_never_oversold_witness :
  spent (new_session_id demo_raw) demo_create.2 demo_ops = 2 ∧
  spent (new_session_id demo_raw) demo_create.2 demo_ops
    + left_on (new_session_id demo_raw) (fold_left apply_op demo_ops demo_create.2)
    ≤ left_on (new_session_id demo_raw) demo_create.2.
Proof.
  split; [vm_compute; reflexivity|].
  refine (proj1 (quota_never_oversold (new_session_id demo_raw) demo_create.2 demo_ops _ _ _)).
  - intros sid x. unfold demo_create, create_session_at, demo_store, new.
    cbn [snd with_sessions sessions]. rewrite lookup_insert. case_decide.
    + intros [= <-]. cbn [quota_remaining]. lia.
    + by rewrite lookup_empty.
  - repeat constructor.
  - unfold demo_ops. repeat (apply Forall_cons; split); [intros []..|constructor].
Defined.

Lemma accepted_means_authentic_witness :
  ∃ who expires_raw sid mac_hex deadline x,
    split_on ":" (trim demo_create.1) = [who; expires_raw; sid; mac_hex] ∧
    hex_decode mac_hex = Some (mac demo_key (signed who expires_raw sid)) ∧
    parse_u64 expires_raw = Some deadline ∧ 1700000001 < deadline ∧
    sessions demo_create.2 !! sid = Some x ∧ 1700000001 < expires_at x ∧
    policy x = Some "graphql" ∧ quota_remaining x ≠ 0 ∧ 2 = quota_remaining x - 1 ∧
    "0xdeadbeef" = payer x ∧ 3 = quota x ∧ 1700003600 = expires_at x ∧
    (consume_at demo_create.1 (Some "graphql") 1700000001 demo_create.2).2
      = with_sessions demo_create.2 (<[sid := set_remaining x 2]> (sessions demo_create.2)).
Proof.
  assert (H : consume_at demo_create.1 (Some "graphql") 1700000001 demo_create.2
    = (Accepted "0xdeadbeef" 2 3 1700003600,
       (consume_at demo_create.1 (Some "graphql") 1700000001 demo_create.2).2))
    by (vm_compute; reflexivity).
  exact (accepted_means_authentic _ _ _ _ _ _ _ _ _ H).
Defined.

Lemma signed_fields_cannot_shift_witness :
  signed "0xaa" "17" "00ff" = "0xaa:17:00ff" ∧ "0xaa" = "0xaa" ∧ "17" = "17" ∧ "00ff" = "00ff".
Proof.
  split; [vm_compute; reflexivity|].
  apply (signed_fields_cannot_shift "0xaa" "17" "00ff" "0xaa" "17" "00ff"); reflexivity.
Defined.

Lemma claim_is_single_use_witness :
  claim_payment_at "tx" 600 1700000000 demo_store
    = (Fresh, with_seen demo_store {[ "tx" := 1700000000 ]}) ∧
  (claim_payment_at "tx" 600 1700000590
     (fold_left apply_op
        [OpCleanup 1700000300; OpClaim "tx" 900 1700000400; OpRelease "other"]
        (with_seen demo_store {[ "tx" := 1700000000 ]}))).1 = Replay 1700000000.
Proof.
  assert (H : claim_payment_at "tx" 600 1700000000 demo_store
    = (Fresh, with_seen demo_store {[ "tx" := 1700000000 ]})) by (vm_compute; reflexivity).
  split; [exact H|].
  apply (claim_is_single_use "tx" 1700000000 600 600 1700000590 demo_store _ _ H).
  - vm_compute. split; congruence.
  - repeat (apply Forall_cons; split); cbn [holds_claim]; [lia | intros _; lia | done | constructor].
  - lia.
  - lia.
Defined.

Lemma concurrent_spending_never_exceeds_quota_witness :
  Spend.pool_steps (1, Spend.start 2)
    (0, [Spend.Returned None; Spend.Returned (Some 0)]) ∧
  Z.of_nat (length (Spend.granted [Spend.Returned None; Spend.Returned (Some 0)])) = Z.min (Z.of_nat 2) 1.
Proof.
  assert (H : Spend.pool_steps (1, Spend.start 2)
    (0, [Spend.Returned None; Spend.Returned (Some 0)])).
  { (* both load 1; the second exchanges first, the first observes 0 *)
    eapply Spend.pool_trans; [exact (Spend.pool_step_at 1 1 [] _ _ [Spend.Load] (Spend.step_load 1))|].
    eapply Spend.pool_trans; [exact (Spend.pool_step_at 1 1 [Spend.Attempt 1] _ _ [] (Spend.step_load 1))|].
    eapply Spend.pool_trans; [exact (Spend.pool_step_at 1 0 [Spend.Attempt 1] _ _ [] (Spend.step_exchange 1))|].
    eapply Spend.pool_trans; [exact (Spend.pool_step_at 0 0 [] _ _ [Spend.Returned (Some 0)] (Spend.step_observe 0 1))|].
    apply Spend.pool_refl. }
  split; [exact H|].
  apply (concurrent_spending_never_exceeds_quota 1 2 0 _ ltac:(lia) H).
  repeat (apply Forall_cons; split); [by eexists..|constructor].
Defined.

Lemma cleanup_never_revokes_a_session_witness :
  1700000001 ≤ 1700000002 ∧
  (consume_at demo_create.1 (Some "graphql") 1700000002 (cleanup_expired_at 1700000001 demo_create.2).2).1
    = Accepted "0xdeadbeef" 2 3 1700003600.
Proof.
  assert (H : 1700000001 ≤ 1700000002) by lia. split; [exact H|].
  apply (cleanup_never_revokes_a_session demo_create.1 (Some "graphql") 1700000001 1700000002
    demo_create.2 "0xdeadbeef" 2 3 1700003600 H).
  vm_compute. reflexivity.
Defined.
