(* ===== verification/Redis.v ===== *)
(** * The shared state store (the Redis halves of [src/session.rs] and
    [src/ratelimit.rs])

    Redis is a service: its commands are the fields of a class, their
    documented behaviour the class of laws.  What the repository writes is
    modelled: the three Lua scripts, each one indivisible, the pipeline that
    creates a session, and the Rust code that decodes their replies. *)

From Stdlib Require Import Ascii QArith Qround Lqa.
From S2P Require Import Prelude RustStr Float64 IpAddr Platform RateLimit Session.
From stdpp Require Import options.
#[local] Open Scope Z_scope.

Class RedisCommands (R : Type) := {
  redis_get : Z → string → R → option string;             (* server time, key *)
  redis_set_ex : Z → string → string → Z → R → R;         (* SET key value EX ttl *)
  redis_refuses_ex : Z → Z → R → bool;                    (* an invalid ttl: the command fails *)
  redis_del : string → R → R;
  redis_incr : Z → string → R → R;
  redis_expire : Z → string → Z → R → R;
  redis_hget : Z → string → string → R → option string;
  redis_hset : Z → string → string → string → R → R;
  redis_hincrby : Z → string → string → Z → R → R
}.

(** The largest integer that Redis counts to; a command beyond it is refused. *)
Definition i64_max : Z := 9223372036854775807.

(** The documented behaviour the scripts rely on. *)
Class RedisLaws (R : Type) `{!RedisCommands R} := {
  get_set_ex t t' k v ttl r : t ≤ t' → 0 < ttl →
    redis_get t' k (redis_set_ex t k v ttl r) = if t' <? t + ttl then Some v else None;
  ex_accepted t ttl r : 0 < ttl → t + ttl ≤ 2 ^ 53 → redis_refuses_ex t ttl r = false;
  get_set_ex_ne t t' k k' v ttl r : k ≠ k' →
    redis_get t' k' (redis_set_ex t k v ttl r) = redis_get t' k' r;
  get_del t k r : redis_get t k (redis_del k r) = None;
  get_incr t k r n :
    unwrap_or (redis_get t k r) "0" = u_to_string n → 0 ≤ n < i64_max →
    redis_get t k (redis_incr t k r) = Some (u_to_string (n + 1));
  get_incr_ne t t' k k' r : k ≠ k' → redis_get t' k' (redis_incr t k r) = redis_get t' k' r;
  get_del_ne t k k' r : k ≠ k' → redis_get t k' (redis_del k r) = redis_get t k' r;
  get_hset t t' k k' f v r : k ≠ k' →
    redis_get t' k' (redis_hset t k f v r) = redis_get t' k' r;
  get_hincrby t t' k k' f d r : k ≠ k' →
    redis_get t' k' (redis_hincrby t k f d r) = redis_get t' k' r;
  get_expire_ne t t' k k' ttl r : k ≠ k' →
    redis_get t' k' (redis_expire t k ttl r) = redis_get t' k' r;
  get_expire t k k' ttl r : 0 < ttl → redis_get t k' (redis_expire t k ttl r) = redis_get t k' r;
  get_expire_at t t' k ttl v r : redis_get t k r = Some v → 0 < ttl → t' < t + ttl →
    redis_get t' k (redis_expire t k ttl r) = Some v;
  hget_hset t k f v r : redis_hget t k f (redis_hset t k f v r) = Some v;
  hget_hset_ne t k f f' v r : f ≠ f' →
    redis_hget t k f' (redis_hset t k f v r) = redis_hget t k f' r;
  hget_expire t k k' f ttl r : 0 < ttl →
    redis_hget t k' f (redis_expire t k ttl r) = redis_hget t k' f r;
  hget_hincrby t k f n d r : redis_hget t k f r = Some (u_to_string n) →
    0 ≤ n ≤ i64_max → 0 ≤ n + d ≤ i64_max →
    redis_hget t k f (redis_hincrby t k f d r) = Some (u_to_string (n + d));
  hget_hincrby_ne t k f f' d r : f ≠ f' →
    redis_hget t k f' (redis_hincrby t k f d r) = redis_hget t k f' r;
  (* what a field can be found to hold at any other time *)
  hget_hset_at t t' k f v r x : redis_hget t' k f (redis_hset t k f v r) = Some x → x = v;
  hget_hset_ne_at t t' k f f' v r x : f ≠ f' →
    redis_hget t' k f' (redis_hset t k f v r) = Some x → redis_hget t' k f' r = Some x;
  hget_expire_at t t' k f ttl r x : redis_hget t' k f (redis_expire t k ttl r) = Some x →
    redis_hget t k f r = Some x ∨ redis_hget t' k f r = Some x;
  hget_hincrby_at t t' k f n d r x : redis_hget t k f r = Some (u_to_string n) →
    0 ≤ n ≤ i64_max → 0 ≤ n + d ≤ i64_max → redis_hget t' k f (redis_hincrby t k f d r) = Some x → x = u_to_string (n + d);
  (* and no command touches another key *)
  hget_set_ex_key t t' k k' f v ttl r : k ≠ k' →
    redis_hget t' k' f (redis_set_ex t k v ttl r) = redis_hget t' k' f r;
  hget_del_key t' k k' f r : k ≠ k' → redis_hget t' k' f (redis_del k r) = redis_hget t' k' f r;
  hget_hset_key t t' k k' f g v r : k ≠ k' →
    redis_hget t' k' f (redis_hset t k g v r) = redis_hget t' k' f r;
  hget_expire_key t t' k k' f ttl r : k ≠ k' →
    redis_hget t' k' f (redis_expire t k ttl r) = redis_hget t' k' f r;
  hget_hincrby_key t t' k k' f g d r : k ≠ k' →
    redis_hget t' k' f (redis_hincrby t k g d r) = redis_hget t' k' f r
}.

(** How one round trip to the server fares: it may not arrive, or its reply
    may be lost after it took effect. *)
Inductive Link := Up | DownBefore | DownAfter.

(** ** Lua numbers

    Lua's numbers are doubles; an integer reply is the double truncated. *)
Definition lua_int (z : Z) : Z := Qfloor (f64_of_Z z).
Definition tonumber (s : string) : option Z := lua_int <$> parse_digits s.

Lemma lua_int_exact z : 0 ≤ z ≤ 2 ^ 53 → lua_int z = z.
Proof.
  intros Hz. unfold lua_int. rewrite (Qfloor_comp _ _ (f64_of_Z_exact z Hz)). apply Qfloor_Z.
Qed.

(** [u64 as i64]. *)
Definition as_i64 (z : Z) : Z := if z <? 2 ^ 63 then z else z - 2 ^ 64.

Definition REDIS_SESSION_PREFIX : string := "x402:sess:".
Definition REDIS_REPLAY_PREFIX : string := "x402:seen:".
Definition REDIS_RATELIMIT_PREFIX : string := "x402:rl:".

Section Scripts.
Context {R : Type} `{!RedisCommands R}.

(** A script's reply, or its error ([None]), and the database after it. *)
Definition script (A : Type) : Type := R → option A * R.

(** [CLAIM_SCRIPT]: [GET], then [SET .. EX] when there is nothing, with which the
    script fails when the lifetime is invalid. *)
Definition CLAIM_SCRIPT (t : Z) (key arg_now : string) (ttl : Z) : script (Z * string) := λ r,
  match redis_get t key r with
  | Some existing => (Some (0, existing), r)
  | None => if redis_refuses_ex t ttl r then (None, r)
            else (Some (1, arg_now), redis_set_ex t key arg_now ttl r)
  end.

(** [SPEND_SCRIPT]: negative sentinels for the failures. *)
Definition SPEND_SCRIPT (t : Z) (key arg_policy : string) : script (Z * string * Z) := λ r,
  match redis_hget t key "payer" r with
  | None => (Some (-2, "", 0), r)
  | Some payer =>
      let policy := unwrap_or (redis_hget t key "policy" r) "" in
      if negb (bool_decide (policy = arg_policy)) then (Some (-3, payer, 0), r)
      else
      match redis_hget t key "quota" r ≫= tonumber with
      | None => (Some (-1, payer, 0), r)
      | Some quota =>
          if quota <=? 0 then (Some (-1, payer, 0), r)
          else
            let r := redis_hincrby t key "quota" (-1) r in
            let granted := unwrap_or (redis_hget t key "granted" r ≫= tonumber) quota in
            (Some (lua_int (quota - 1), payer, granted), r)
      end
  end.

(** [CHECK_SCRIPT]: the sliding window over two counters. *)
Definition CHECK_SCRIPT (t : Z) (key_cur key_prev : string) (arg_limit arg_ttl : Z) (carry : F64) :
  script (Z * Z) := λ r,
  match tonumber (unwrap_or (redis_get t key_cur r) "0"),
        tonumber (unwrap_or (redis_get t key_prev r) "0") with
  | Some cur, Some prev =>
      let limit := f64_of_Z arg_limit in
      let est := f64_add (f64_of_Z cur) (f64_mul (f64_of_Z prev) carry) in
      if f64_ge est limit then (Some (0, 0), r)
      else
        let r := redis_incr t key_cur r in
        let r := redis_expire t key_cur arg_ttl r in
        let remaining := lua_int arg_limit - f64_ceil (f64_add est (f64_of_Z 1)) in
        (Some (1, if remaining <? 0 then 0 else remaining), r)
  | _, _ => (None, r)
  end.

(** [invoke_async] over a link. *)
Definition invoke {A} (link : Link) (s : script A) (r : R) : option A * R :=
  match link with
  | Up => s r
  | DownBefore => (None, r)
  | DownAfter => (None, (s r).2)
  end.

(** ** [RedisSessionStore] *)

Definition key (session_id : string) : string := REDIS_SESSION_PREFIX +:+ session_id.

Definition redis_claim_payment (link : Link) (t now : Z) (payment_id : string) (ttl_secs : Z)
    (r : R) : PaymentClaim * R :=
  let '(reply, r) :=
    invoke link (CLAIM_SCRIPT t (REDIS_REPLAY_PREFIX +:+ payment_id) (u_to_string now) ttl_secs) r in
  (match reply with
   | Some (flag, stamp) =>
       match parse_u64 stamp with
       | Some first_seen => if flag =? 1 then Fresh else Replay first_seen
       | None => ClaimBackend
       end
   | None => ClaimBackend
   end, r).

Definition redis_release_payment (link : Link) (payment_id : string) (r : R) : R :=
  let k := REDIS_REPLAY_PREFIX +:+ payment_id in
  match link with DownBefore => r | _ => redis_del k r end.

(** The atomic pipeline that stores a session. *)
Definition store_session (t : Z) (k payer : string) (policy : option string) (quota ttl : Z)
    (r : R) : R :=
  let r := redis_hset t k "payer" payer r in
  let r := redis_hset t k "quota" (u_to_string quota) r in
  let r := redis_hset t k "granted" (u_to_string quota) r in
  let r := redis_hset t k "policy" (unwrap_or policy "") r in
  redis_expire t k (as_i64 ttl) r.

Context `{!Codecs}.

(** [None]: the store could not be reached. *)
Definition redis_create_session (hmac_key : bytes) (link : Link) (t now : Z)
    (payer : string) (policy : option string) (quota ttl_secs : Z) (raw : bytes) (r : R) :
  option string * R :=
  let session_id := new_session_id raw in
  let expires_at := sat_add now ttl_secs in
  let k := key session_id in
  match link with
  | Up => (Some (mint hmac_key payer expires_at session_id),
           store_session t k payer policy quota ttl_secs r)
  | DownBefore => (None, r)
  | DownAfter => (None, store_session t k payer policy quota ttl_secs r)
  end.

Definition redis_consume (hmac_key : bytes) (link : Link) (t now : Z) (token : string)
    (policy : option string) (r : R) : SessionOutcome * R :=
  match verify hmac_key token now with
  | Err rejection => (Rejected rejection, r)
  | Ok claims =>
      let '(reply, r) :=
        invoke link (SPEND_SCRIPT t (key claims.(c_session_id)) (unwrap_or policy "")) r in
      (match reply with
       | Some (n, payer, quota) =>
           if n =? -2 then Rejected Unknown
           else if n =? -3 then Rejected WrongPolicy
           else if n =? -1 then Rejected QuotaExhausted
           else Accepted payer (Z.max n 0) quota claims.(c_expires_at)
       | None => Rejected Backend
       end, r)
  end.

(** ** [RedisRateLimiter] *)

Definition counter_key (k : string) (window_start : Z) : string :=
  REDIS_RATELIMIT_PREFIX +:+ k +:+ ":" +:+ u_to_string window_start.

(** [None]: the assertion [window_secs > 0] panics. *)
Definition redis_check_at (link : Link) (t : Z) (policy : string) (ip : IpAddr)
    (max_requests w now : Z) (r : R) : option (Allowance * R) :=
  if negb (0 <? w) then None else
  let k := key_for policy ip in
  let window_start := window_start_of now w in
  let previous_start := sat_sub window_start w in
  let elapsed := now - window_start in
  let carry := carry_fraction w elapsed in
  let reset := u64_sub w elapsed in
  let '(reply, r) :=
    invoke link (CHECK_SCRIPT t (counter_key k window_start) (counter_key k previous_start)
                   max_requests (u64_mul w 2) carry) r in
  Some (match reply with
        | Some (flag, rest) =>
            {| allowed := flag =? 1; remaining := if flag =? 1 then rest else 0;
               limit := max_requests; reset_secs := reset |}
        | None =>
            {| allowed := false; remaining := 0; limit := max_requests; reset_secs := reset |}
        end, r).
End Scripts.

(** ** When the two backends agree

    The hash of a session stands for the session of the in-memory store, as
    seen at server time [t].  [policy = Some ""] is excluded: Redis stores
    both it and [None] as the empty string. *)
Section Correspondence.
Context {R : Type} `{!RedisCommands R}.

Definition represents (t : Z) (sid : string) (r : R) (x : option Session) : Prop :=
  match x with
  | None => redis_hget t (key sid) "payer" r = None
  | Some x =>
      redis_hget t (key sid) "payer" r = Some x.(payer) ∧
      redis_hget t (key sid) "policy" r = Some (unwrap_or x.(policy) "") ∧
      redis_hget t (key sid) "quota" r = Some (u_to_string x.(quota_remaining)) ∧
      redis_hget t (key sid) "granted" r = Some (u_to_string x.(quota)) ∧
      0 ≤ x.(quota_remaining) ≤ 2 ^ 53 ∧ 0 ≤ x.(quota) ≤ 2 ^ 53 ∧
      x.(policy) ≠ Some ""
  end.

(** Two counters of Redis stand for the entry of the in-memory limiter. *)
Definition counter (t : Z) (k : string) (r : R) (n : Z) : Prop :=
  unwrap_or (redis_get t k r) "0" = u_to_string n ∧ 0 ≤ n ≤ 2 ^ 53.

(** What the in-memory limiter's entry says of the window that starts at [s]. *)
Definition count_at (w : Z) (e : option Window) (s : Z) : Z :=
  match e with
  | None => 0
  | Some e => if s =? e.(start) then e.(current) else if s =? e.(start) - w then e.(previous) else 0
  end.

(** From [now] on, the counters of a client's windows hold what the entry says
    of them, each for as long as it is the current or the previous one. *)
Definition tracks (k : string) (w now : Z) (r : R) (e : option Window) : Prop :=
  (∀ x, e = Some x → 0 ≤ x.(start) ≤ now ∧ x.(start) mod w = 0) ∧
  ∀ s t, 0 ≤ s → s mod w = 0 → now ≤ t < s + 2 * w → counter t (counter_key k s) r (count_at w e s).

(** From [now] on, the key of a payment holds what the in-memory cache
    remembers of it, until [kept] seconds after it was seen. *)
Definition remembers (kept now : Z) (id : string) (r : R) (seen : option Z) : Prop :=
  (∀ t0, seen = Some t0 → is_u64 t0 ∧ t0 ≤ now) ∧
  ∀ t, now ≤ t → redis_get t (REDIS_REPLAY_PREFIX +:+ id) r =
    match seen with
    | Some t0 => if t <? t0 + kept then Some (u_to_string t0) else None
    | None => None
    end.
End Correspondence.

(** ** Lemmas *)

Section RedisLemmas.
#[local] Set Default Proof Using "Type*".
Context {R : Type} `{!RedisCommands R, !RedisLaws R}.

Lemma tonumber_print n : 0 ≤ n ≤ 2 ^ 53 → tonumber (u_to_string n) = Some n.
Proof.
  intros Hn. unfold tonumber. rewrite parse_digits_print by lia. cbn.
  by rewrite lua_int_exact.
Qed.

Lemma unwrap_policy_inj (p q : option string) :
  p ≠ Some "" → q ≠ Some "" → unwrap_or p "" = unwrap_or q "" ↔ p = q.
Proof. intros. split; [|by intros ->]. destruct p, q; simpl; congruence. Qed.

Lemma ceil_succ_bound (x : Q) max :
  (x < inject_Z max)%Q → max ≤ 2 ^ 53 → f64_ceil (f64_add x (f64_of_Z 1)) ≤ u64_max.
Proof.
  intros Hx Hmax. assert (f64_add x (f64_of_Z 1) <= inject_Z (2 ^ 54))%Q as Hle.
  { assert (rnd (inject_Z (2 ^ 54)) == inject_Z (2 ^ 54))%Q as <-
      by (apply (rnd_exact 1 54); [lia|reflexivity]).
    apply rnd_mono. rewrite (f64_of_Z_exact 1) by lia. rewrite Zle_Qle in Hmax.
    change (inject_Z (2 ^ 54)) with (18014398509481984 # 1)%Q.
    change (inject_Z (2 ^ 53)) with (9007199254740992 # 1)%Q in Hmax.
    change (inject_Z 1) with 1%Q. lra. }
  apply Qceiling_resp_le in Hle. rewrite Qceiling_Z in Hle.
  unfold f64_ceil, u64_max. lia.
Qed.

Lemma counter_incr t k ttl r n :
  0 < ttl → n < 2 ^ 53 → counter t k r n →
  counter t k (redis_expire t k ttl (redis_incr t k r)) (n + 1).
Proof.
  intros Httl Hn [Hc Hr]. split; [|lia]. rewrite get_expire by done.
  rewrite (get_incr t k r n) by (done || (unfold i64_max; lia)). done.
Qed.

(** The counter of a window, for as long as the window lasts. *)
Definition counts (k : string) (ws w n : Z) (r : R) : Prop :=
  0 ≤ n ≤ 2 ^ 53 ∧
  ∀ t, ws ≤ t < ws + w → unwrap_or (redis_get t (counter_key k ws) r) "0" = u_to_string n.

Lemma counter_key_ne k k' ws ws' : k ≠ k' → counter_key k ws ≠ counter_key k' ws'.
Proof using.
  intros Hne E. apply append_inj_l in E. apply Hne.
  by apply last_sep_inj in E as [? _]; [|apply u_to_string_no..].
Qed.

Lemma counter_key_inj k ws ws' : 0 ≤ ws → 0 ≤ ws' → counter_key k ws = counter_key k ws' → ws = ws'.
Proof using. intros ? ? E%append_inj_l%append_inj_l%append_inj_l. by apply u_to_string_inj in E. Qed.

Lemma counts_other k ws w n r r' :
  (∀ t, redis_get t (counter_key k ws) r' = redis_get t (counter_key k ws) r) →
  counts k ws w n r → counts k ws w n r'.
Proof using. intros Heq [Hn Hg]. split; [done|]. intros t Ht. by rewrite Heq, Hg. Qed.

(** A check that leaves another key alone, or denies, or counts one below the limit. *)
Lemma check_script_other t0 t k k' ws ws' kp lim ttl carry r :
  k ≠ k' → redis_get t0 (counter_key k ws) (CHECK_SCRIPT t (counter_key k' ws') kp lim ttl carry r).2
           = redis_get t0 (counter_key k ws) r.
Proof.
  intros Hne. pose proof (not_eq_sym (counter_key_ne k k' ws ws' Hne)) as Hk. unfold CHECK_SCRIPT.
  repeat case_match; cbn [snd]; by rewrite ?get_expire_ne, ?get_incr_ne by done.
Qed.

Lemma redis_check_other link t0 t p ip max w now k ws r a r' :
  k ≠ key_for p ip → redis_check_at link t p ip max w now r = Some (a, r') →
  redis_get t0 (counter_key k ws) r' = redis_get t0 (counter_key k ws) r.
Proof.
  intros Hne. unfold redis_check_at. destruct (negb _); [done|]. destruct link; cbn [invoke].
  - destruct (CHECK_SCRIPT _ _ _ _ _ _ r) as [x r1] eqn:Es. intros [= _ <-].
    change r1 with (x, r1).2. rewrite <- Es. by apply check_script_other.
  - by intros [= _ <-].
  - intros [= _ <-]. by apply check_script_other.
Qed.

Lemma check_script_counts t k ws w n kp lim ttl carry r reply r' :
  counts k ws w n r → ws ≤ t < ws + w → lim ≤ 2 ^ 53 → w ≤ ttl →
  CHECK_SCRIPT t (counter_key k ws) kp lim ttl carry r = (reply, r') →
  (r' = r ∧ ∀ x, reply = Some x → x.1 = 0) ∨ (n < lim ∧ counts k ws w (n + 1) r').
Proof.
  intros [Hn Hg] Ht Hlim Httl. unfold CHECK_SCRIPT. rewrite (Hg t Ht), tonumber_print by done.
  destruct (tonumber _) as [prev|]; [|intros [= <- <-]; by left].
  destruct (f64_ge _ _) eqn:Ege; intros [= <- <-]; [left; split; [done|by intros x [= <-]]|].
  right. assert (n < lim) as Hlt.
  { apply f64_ge_false in Ege. destruct (Z.lt_ge_cases n lim) as [|Hge]; [done|].
    apply f64_of_Z_mono in Hge.
    pose proof (f64_add_of_Z_ge n (f64_mul (f64_of_Z prev) carry) (f64_mul_nonneg _ _)). lra. }
  split; [done|]. split; [lia|]. intros t' Ht'.
  erewrite get_expire_at; [done|apply (get_incr t _ r n); [by apply Hg|unfold i64_max; lia]|lia..].
Qed.

(** Rolling the entry over changes nothing that its counters still hold. *)
Lemma roll_count_at x ws w s :
  0 < w → 0 ≤ start x ≤ ws → ws ≤ u64_max → start x mod w = 0 → ws mod w = 0 → s mod w = 0 → ws - w ≤ s →
  count_at w (Some (roll x ws w)) s = count_at w (Some x) s.
Proof using.
  intros Hw Hx Hu Hxa%Z.mod_divide Hwa%Z.mod_divide Hsa%Z.mod_divide Hs; [|lia..].
  destruct Hxa as [a Ha], Hwa as [b Hb], Hsa as [c Hc]. unfold roll.
  destruct (Z.ltb_spec (start x) ws) as [Hlt|]; [|done]. cbn [count_at start current previous].
  rewrite (u64_sub_small ws) by (unfold is_u64; lia).
  assert (b - 1 ≤ c) by nia. assert (a < b) by nia.
  destruct (Z.eqb_spec s ws), (Z.eqb_spec s (start x)), (Z.eqb_spec s (start x - w)),
    (Z.eqb_spec s (ws - w)), (Z.eqb_spec (ws - start x) w); try lia; try done; nia.
Qed.

(** The entry a check finds, rolled over to the window of [now]. *)
Definition rolled (w now : Z) (e : option Window) : Window :=
  roll (unwrap_or e (fresh_window (window_start_of now w) w)) (window_start_of now w) w.

Lemma window_start_aligned now w : 0 < w → window_start_of now w mod w = 0.
Proof using.
  intros Hw. unfold window_start_of. rewrite (Z.mod_eq now w) by lia.
  replace (now - (now - w * (now / w))) with (now / w * w) by lia. apply Z.mod_mul. lia.
Qed.

(** A window whose counter is still kept is the current one, the previous one, or to come. *)
Lemma kept_window w now s t :
  0 < w → s mod w = 0 → now ≤ t < s + 2 * w → window_start_of now w - w ≤ s.
Proof using.
  intros Hw [c Hc]%Z.mod_divide Ht; [|lia].
  pose proof (window_start_aligned now w Hw) as [b Hb]%Z.mod_divide; [|lia].
  assert (window_start_of now w ≤ now) by (unfold window_start_of; pose proof (Z.mod_pos_bound now w Hw); lia).
  assert (b - 2 < c) by (apply Z.mul_lt_mono_pos_r with w; lia). rewrite Hb, Hc. nia.
Qed.

Lemma tracks_rolled k w now r e :
  0 < w → is_u64 now → tracks k w now r e →
  start (rolled w now e) = window_start_of now w ∧ tracks k w now r (Some (rolled w now e)).
Proof using.
  intros Hw Hnow [He Hc]. unfold rolled. set (ws := window_start_of now w).
  pose proof (window_start_bounds now w ltac:(destruct Hnow; lia) Hw) as [Hb1 Hb2]. fold ws in Hb1, Hb2.
  pose proof (window_start_aligned now w Hw) as Hal. fold ws in Hal.
  set (x := unwrap_or e _).
  assert (0 ≤ start x ≤ ws ∧ start x mod w = 0 ∧
          ∀ s, ws - w ≤ s → count_at w (Some x) s = count_at w e s) as (Hx & Hxa & Hxc).
  { subst x. destruct e as [x|]; cbn [unwrap_or].
    - destruct (He x eq_refl) as [Hr Ha]. split; [|done]. split; [lia|].
      apply Z.mod_divide in Ha as [a Ha]; [|lia]. apply Z.mod_divide in Hal as [b Hb]; [|lia].
      assert (a < b + 1) by (apply Z.mul_lt_mono_pos_r with w; lia). nia.
    - cbn [fresh_window start count_at current previous]. split; [lia|]. split; [done|]. intros s _.
      by destruct (s =? ws), (s =? ws - w). }
  assert (start (roll x ws w) = ws) as Hs by (apply roll_start; lia).
  split; [done|]. split; [intros ? [= <-]; rewrite Hs; lia|]. intros s t Hs0 Hsa Ht.
  pose proof (kept_window w now s t Hw Hsa Ht) as Hk. fold ws in Hk.
  destruct Hnow. rewrite roll_count_at by (done || lia). rewrite Hxc by lia. by apply Hc.
Qed.

Lemma tracks_later k w now later r e : now ≤ later → tracks k w now r e → tracks k w later r e.
Proof using.
  intros Hl [He Hc]. split; [|intros s t Hs Hm Ht; apply Hc; [lia|done|lia]].
  intros x Hx. destruct (He x Hx). split; [lia|done].
Qed.

(** Counting a request adds one to the current window, and to no other. *)
Lemma tracks_bump k w now r e :
  0 < w → 0 ≤ now → start e = window_start_of now w → 0 ≤ current e < 2 ^ 53 → tracks k w now r (Some e) →
  let kc := counter_key k (start e) in
  tracks k w now (redis_expire now kc (2 * w) (redis_incr now kc r)) (Some (bump e)).
Proof.
  intros Hw Hnow Hstart Hcur [He Hc] kc. pose proof (window_start_bounds now w Hnow Hw) as [Hb1 Hb2].
  split; [intros x [= <-]; by apply (He e)|]. intros s t Hs0 Hsa Ht. cbn [count_at bump start current previous].
  pose proof (Hc s t Hs0 Hsa Ht) as Hs. cbn [count_at] in Hs. destruct (Z.eqb_spec s (start e)) as [->|Hne].
  - rewrite u64_add_small by (unfold u64_max; lia). split; [|lia].
    erewrite get_expire_at; [done| |lia..]. apply get_incr; [|unfold i64_max; lia].
    destruct (He e eq_refl) as [Hse Hsm]. destruct (Hc (start e) now) as [Hg _]; [lia..|].
    cbn [count_at] in Hg. by rewrite Z.eqb_refl in Hg.
  - assert (kc ≠ counter_key k s) as Hk.
    { intros E%counter_key_inj; [by apply Hne|lia..]. }
    unfold counter. rewrite get_expire_ne, get_incr_ne by done. exact Hs.
Qed.

Lemma stored_session_represented t p pol q ttl raw `{!Codecs} now r :
  0 < ttl < 2 ^ 63 → 0 ≤ q ≤ 2 ^ 53 → pol ≠ Some "" →
  represents t (new_session_id raw)
    (store_session t (key (new_session_id raw)) p pol q ttl r)
    (Some {| payer := p; policy := pol; expires_at := sat_add now ttl;
             quota := q; quota_remaining := q |}).
Proof.
  intros Httl Hq Hpol. unfold represents, store_session. cbn [payer policy quota quota_remaining].
  unfold as_i64. rewrite (proj2 (Z.ltb_lt ttl _)) by lia. rewrite !hget_expire by lia.
  split_and!; try done; repeat (rewrite ?hget_hset; rewrite ?hget_hset_ne by discriminate); done || lia.
Qed.
End RedisLemmas.

(** ** Properties *)

Section RedisProperties.
#[local] Set Default Proof Using "Type*".
Context {R : Type} `{!RedisCommands R, !RedisLaws R, !Codecs, !CodecLaws}.

(** The two counters that a check reads. *)
Lemma tracked_counters k w now r e :
  0 < w → 0 ≤ now → w ≤ window_start_of now w → start e = window_start_of now w → tracks k w now r (Some e) →
  counter now (counter_key k (start e)) r (current e) ∧ counter now (counter_key k (start e - w)) r (previous e).
Proof using.
  intros Hw Hnow Hpos Hstart [_ Hc]. pose proof (window_start_bounds now w Hnow Hw) as [Hb1 Hb2].
  pose proof (window_start_aligned now w Hw) as Hal. split.
  - specialize (Hc (start e) now). cbn [count_at] in Hc. rewrite Z.eqb_refl in Hc. apply Hc; rewrite ?Hstart; lia.
  - specialize (Hc (start e - w) now). cbn [count_at] in Hc. rewrite Z.eqb_refl in Hc.
    rewrite (proj2 (Z.eqb_neq (start e - w) (start e))) in Hc by lia. apply Hc; rewrite ?Hstart; [lia| |lia].
    rewrite Zminus_mod, Hal, Z_mod_same_full. by apply Z.mod_0_l; lia.
Qed.

(** A check of a rolled entry, on either side. *)
Lemma redis_check_tracked p ip max w now e r :
  0 < w ≤ 2 ^ 52 → is_u64 now → 0 ≤ max ≤ 2 ^ 53 → w ≤ window_start_of now w →
  start e = window_start_of now w → window_secs e = w → tracks (key_for p ip) w now r (Some e) →
  ∃ r', redis_check_at Up now p ip max w now r = Some ((check_entry e max w now).1, r') ∧
    tracks (key_for p ip) w now r' (Some (check_entry e max w now).2).
Proof.
  intros Hw [Hn0 Hn1] Hmax Hpos Hstart Hsecs Htr. unfold redis_check_at, check_entry.
  rewrite (proj2 (Z.ltb_lt 0 w)) by lia. cbn [negb invoke].
  pose proof (window_start_bounds now w ltac:(lia) ltac:(lia)) as [Hb1 Hb2].
  destruct (tracked_counters _ w now r e ltac:(lia) ltac:(lia) Hpos Hstart Htr) as [[Hc Hcr] [Hp Hpr]].
  rewrite roll_same by lia. cbn [start current previous]. rewrite <- Hstart in *. unfold CHECK_SCRIPT.
  rewrite sat_sub_ge by lia. rewrite (u64_sub_small now) by (unfold is_u64; lia).
  rewrite Hc, Hp, !tonumber_print by done.
  change (f64_add (f64_of_Z (current e)) _) with (estimate e w (now - start e)).
  set (e' := {| start := start e; current := current e; previous := previous e; window_secs := w |}).
  assert (e' = e) as -> by (destruct e; cbn in *; by subst).
  destruct (f64_ge (estimate e w (now - start e)) (f64_of_Z max)) eqn:Ege.
  - by exists r.
  - apply f64_ge_false in Ege. eexists. split; [f_equal; f_equal|].
    + cbn [fst]. change (1 =? 1) with true. cbn iota. f_equal.
      unfold remaining_after, sat_sub, f64_as_u64. rewrite lua_int_exact by done.
      set (c := f64_ceil _).
      assert (0 ≤ c ≤ u64_max) as Hcb.
      { unfold c, f64_ceil. split.
        - rewrite <- (Qceiling_Z 0). apply Qceiling_resp_le. apply rnd_nonneg.
        - rewrite (f64_of_Z_exact max) in Ege by done.
          apply (ceil_succ_bound _ max); [lra | lia]. }
      destruct (Z.ltb_spec (max - c) 0); lia.
    + cbn [snd]. rewrite u64_mul_small by (unfold u64_max; lia). rewrite (Z.mul_comm w 2).
      apply tracks_bump; [lia..|by rewrite Hstart| |done].
      assert (current e < max); [|lia]. pose proof (estimate_ge_current e w (now - start e)) as Hge.
      destruct (Z.lt_ge_cases (current e) max) as [|Hle%f64_of_Z_mono]; [done|lra].
Qed.

(** C31: The shared store spends like the in-memory one.  On a session both
    represent, a request has the same outcome on either backend, and leaves
    states that represent each other again. *)
Theorem redis_consume_refines_memory (hmac_key : bytes) (token : string) (pol : option string)
    (t now : Z) (s : MemorySessionStore) (r : R) (claims : TokenClaims)
    (Hkey : s.(codec) = hmac_key) (Hv : verify hmac_key token now = Ok claims)
    (Hrep : represents t claims.(c_session_id) r (s.(sessions) !! claims.(c_session_id)))
    (Hexp : ∀ x, s.(sessions) !! claims.(c_session_id) = Some x →
              x.(expires_at) = claims.(c_expires_at))
    (Hpol : pol ≠ Some "") :
  let '(o, r') := redis_consume hmac_key Up t now token pol r in
  let '(o', s') := consume_at token pol now s in
  o = o' ∧ represents t claims.(c_session_id) r' (s'.(sessions) !! claims.(c_session_id)).
Proof.
  unfold redis_consume, consume_at. rewrite Hkey, Hv. cbn [invoke]. unfold SPEND_SCRIPT.
  destruct (sessions s !! c_session_id claims) as [x|] eqn:Ex; cbn [represents] in Hrep.
  - destruct Hrep as (Hpay & Hp & Hquota & Hg & Hr1 & Hr2 & Hne).
    rewrite (proj2 (Z.leb_gt _ _)).
    2: { rewrite (Hexp x eq_refl). by apply verify_inv in Hv as (? & ? & ? & ? & ? & ?). }
    rewrite Hpay, Hp, Hquota. cbn [unwrap_or mbind option_bind].
    destruct (decide (policy x = pol)) as [->|Hd].
    + rewrite !bool_decide_eq_true_2 by done. cbn [negb].
      rewrite tonumber_print by done. unfold spend_one.
      destruct (Z.eqb_spec (quota_remaining x) 0) as [Hz|Hz].
      * rewrite Hz. cbn -[represents]. rewrite Ex. split; [done|].
        cbn [represents]. rewrite Hz in *. done.
      * rewrite (proj2 (Z.leb_gt _ _)) by lia.
        rewrite hget_hincrby_ne, Hg by discriminate. cbn [unwrap_or mbind option_bind].
        rewrite tonumber_print, lua_int_exact by lia. cbn [unwrap_or].
        rewrite !(proj2 (Z.eqb_neq _ _)) by lia. rewrite Z.max_l by lia.
        rewrite (Hexp x eq_refl). split; [done|].
        cbn [with_sessions sessions]. rewrite lookup_insert_eq. cbn [represents set_remaining payer policy quota quota_remaining].
        split_and!; rewrite ?hget_hincrby_ne by discriminate; try done; try lia.
        rewrite (hget_hincrby t _ _ (quota_remaining x)) by (done || (unfold i64_max; lia)). f_equal.
    + rewrite !bool_decide_eq_false_2; [|done|by rewrite unwrap_policy_inj].
      cbn -[represents]. rewrite Ex. done.
  - rewrite Hrep. cbn. by rewrite Ex.
Qed.

(** C32: Both backends meter alike.  When the Redis counters of a client hold
    what the in-memory limiter remembers of its current and its previous window,
    or nothing where it remembers nothing, a check gives the same allowance on
    either backend, the rollover into a new window included, and the counters
    hold what the limiter then remembers, of both windows, from that time on; what is
    tracked of the clients of other keys stays tracked.  The two clocks agree; the
    window is at most [2 ^ 52] seconds and not the epoch's first, the limit at
    most [2 ^ 53], where Lua's doubles are exact, the counts likewise ([counter]). *)
Theorem redis_check_refines_memory (p : string) (ip : IpAddr) (max w now : Z)
    (m : MemoryRateLimiter) (r : R) (k := key_for p ip)
    (Hw : 0 < w ≤ 2 ^ 52) (Hnow : is_u64 now) (Hmax : 0 ≤ max ≤ 2 ^ 53)
    (Hpos : w ≤ window_start_of now w)
    (Htracks : tracks k w now r (m !! k)) :
  ∃ a m' r', check_at p ip max w now m = Some (a, m') ∧
    redis_check_at Up now p ip max w now r = Some (a, r') ∧
    (∀ later, now ≤ later → tracks k w later r' (m' !! k)) ∧
    (∀ k' w', k' ≠ k → tracks k' w' now r (m !! k') → tracks k' w' now r' (m' !! k')).
Proof.
  destruct (tracks_rolled k w now r (m !! k) ltac:(lia) Hnow Htracks) as [Hstart Hrolled].
  assert (window_secs (rolled w now (m !! k)) = w) as Hsecs by (unfold rolled, roll; by case_match).
  destruct (redis_check_tracked p ip max w now _ r Hw Hnow Hmax Hpos Hstart Hsecs Hrolled) as (r' & Hr & He).
  unfold rolled in Hr, He, Hstart. rewrite check_entry_rolled in Hr, He by done.
  unfold check_at. rewrite (proj2 (Z.ltb_lt 0 w)) by lia. cbn [negb]. fold k.
  destruct (check_entry _ max w now) as [a e']. cbn [fst snd] in Hr, He.
  exists a, (<[k := e']> m), r'. split; [done|]. split; [done|]. rewrite lookup_insert_eq.
  split; [intros later Hl; by apply (tracks_later k w now)|].
  intros k' w' Hne [Hin Hc]. rewrite lookup_insert_ne by done. split; [done|]. intros s t Hs0 Hsa Ht.
  unfold counter. rewrite (redis_check_other _ _ _ _ _ _ _ _ _ _ _ _ _ Hne Hr). by apply Hc.
Qed.

(** C33: The shared replay cache claims like the in-memory one.  On caches that
    remember the same of a payment, a claim has the same outcome exactly when
    the lifetime it asks for and the lifetime of the record agree on whether
    the record is still alive, as they do when they are equal; and after equal
    outcomes the caches remember the same again, a fresh claim for the lifetime
    it asked for.  (A shorter lifetime finds the record alive in Redis and dead
    in memory.)  The two clocks agree; the lifetime is positive and ends before [2 ^ 53]
    seconds, as Redis refuses one beyond its clock. *)
Theorem redis_claim_refines_memory (id : string) (kept ttl now : Z) (s : MemorySessionStore) (r : R)
    (Httl : 0 < ttl) (Hnow : 0 ≤ now) (Hend : now + ttl ≤ 2 ^ 53)
    (Hrem : remembers kept now id r (s.(seen_payments) !! id)) :
  let '(o, r') := redis_claim_payment Up now now id ttl r in
  let '(o', s') := claim_payment_at id ttl now s in
  (o = o' ↔ ∀ t0, s.(seen_payments) !! id = Some t0 → (now < t0 + kept ↔ now < t0 + ttl)) ∧
  (o = o' → remembers (if decide (o = Fresh) then ttl else kept) now id r' (s'.(seen_payments) !! id)).
Proof.
  destruct Hrem as [Hin Hget]. unfold redis_claim_payment, claim_payment_at. cbn [invoke].
  assert (is_u64 now) as Hu by (unfold is_u64, u64_max; lia).
  unfold CLAIM_SCRIPT. pose proof (Hget now ltac:(lia)) as Hg. rewrite ex_accepted by done.
  assert (remembers ttl now id (redis_set_ex now (REDIS_REPLAY_PREFIX +:+ id) (u_to_string now) ttl r)
            (Some now)) as Hset.
  { split; [by intros ? [= <-]|]. intros t Ht. by apply get_set_ex. }
  destruct (seen_payments s !! id) as [t0|] eqn:Es.
  - destruct (Hin t0 eq_refl) as [Hu0 Hle]. rewrite sat_sub_ge by lia. rewrite Hg.
    destruct (Z.ltb_spec now (t0 + kept)), (Z.leb_spec ttl (now - t0)); cbn [negb]; unfold parse_u64;
      rewrite parse_uint_print by done; cbn [with_seen seen_payments]; rewrite ?lookup_insert_eq, ?Es;
      change (0 =? 1) with false; change (1 =? 1) with true; cbn iota.
    + split; [split; [done|]|done]. intros Hag. apply (Hag t0) in H1; [lia|done].
    + rewrite decide_False by done. split; [split; [|done]; intros _ t1 [= <-]; lia|]. by intros _.
    + rewrite decide_True by done. split; [split; [|done]; intros _ t1 [= <-]; lia|]. by intros _.
    + split; [split; [done|]|done]. intros Hag. destruct (Hag t0 eq_refl) as [_ Hlate]. lia.
  - rewrite Hg. unfold parse_u64. rewrite parse_uint_print by done.
    cbn [with_seen seen_payments]. rewrite lookup_insert_eq. split; [done|]. intros _. exact Hset.
Qed.
End RedisProperties.

(** C34: An outage of the shared store fails closed, whether the command was
    lost or only its reply: no payment is fresh, no session is accepted, no
    session is granted, no free request is admitted. *)
Theorem redis_outage_fails_closed {R : Type} `{!RedisCommands R, !Codecs}
    (link : Link) (t now ttl quota max w : Z) (id payer token p : string)
    (pol : option string) (hmac_key raw : bytes) (ip : IpAddr) (r : R)
    (Hdown : link ≠ Up) (Hw : 0 < w) :
  (redis_claim_payment link t now id ttl r).1 = ClaimBackend ∧
  (redis_create_session hmac_key link t now payer pol quota ttl raw r).1 = None ∧
  (∃ why, (redis_consume hmac_key link t now token pol r).1 = Rejected why) ∧
  ∃ a r', redis_check_at link t p ip max w now r = Some (a, r') ∧ allowed a = false.
Proof.
  unfold redis_claim_payment, redis_create_session, redis_consume, redis_check_at.
  rewrite (proj2 (Z.ltb_lt 0 w)) by lia.
  destruct link; [done| |]; cbn [invoke negb]; refine (conj eq_refl (conj eq_refl (conj _ _))).
  1, 3: destruct (verify hmac_key token now); eexists; reflexivity.
  all: eexists _, _; split; reflexivity.
Qed.

(** ** A database that has the documented behaviour *)

Module Db.
Record t := mk {
  strs : gmap string (string * option Z);
  hashes : gmap string (gmap string string * option Z)
}.

(** A key past its deadline is gone. *)
Definition live (now : Z) (d : option Z) : bool :=
  match d with Some d => now <? d | None => true end.
Definition peek {A} (now : Z) (x : option (A * option Z)) : option A :=
  x ≫= λ '(a, d), if live now d then Some a else None.
Definition age {A} (now ttl : Z) (x : A * option Z) : A * option Z :=
  if live now x.2 then (x.1, Some (now + ttl)) else x.
Definition fields (now : Z) (k : string) (r : t) : gmap string string * option Z :=
  match r.(hashes) !! k with
  | Some (m, d) => if live now d then (m, d) else (∅, None)
  | None => (∅, None)
  end.

Definition empty : t := mk ∅ ∅.

#[export] Instance commands : RedisCommands t := {
  redis_get now k r := peek now (r.(strs) !! k);
  redis_set_ex now k v ttl r := mk (<[k := (v, Some (now + ttl))]> r.(strs)) r.(hashes);
  redis_refuses_ex now ttl _ := (ttl <=? 0) || (i64_max <? (now + ttl) * 1000);
  redis_del k r := mk (delete k r.(strs)) (delete k r.(hashes));
  redis_incr now k r :=
    let old := r.(strs) !! k in
    let n := unwrap_or (parse_digits (unwrap_or (peek now old) "0")) 0 in
    mk (<[k := (u_to_string (n + 1), match old with
                                     | Some (_, d) => if live now d then d else None
                                     | None => None
                                     end)]> r.(strs)) r.(hashes);
  redis_expire now k ttl r := mk (alter (age now ttl) k r.(strs)) (alter (age now ttl) k r.(hashes));
  redis_hget now k f r := (fields now k r).1 !! f;
  redis_hset now k f v r :=
    let '(m, d) := fields now k r in mk r.(strs) (<[k := (<[f := v]> m, d)]> r.(hashes));
  redis_hincrby now k f d r :=
    let '(m, dl) := fields now k r in
    let n := unwrap_or (parse_digits (unwrap_or (m !! f) "0")) 0 in
    mk r.(strs) (<[k := (<[f := u_to_string (n + d)]> m, dl)]> r.(hashes))
}.

Lemma live_age now ttl {A} (x : A * option Z) : 0 < ttl → live now (age now ttl x).2 = live now x.2.
Proof.
  intros. unfold age. destruct (live now x.2) eqn:E; [|done]. simpl. apply Z.ltb_lt. lia.
Qed.

Lemma peek_alter {A} now ttl (m : gmap string (A * option Z)) k k' :
  0 < ttl → peek now (alter (age now ttl) k m !! k') = peek now (m !! k').
Proof.
  intros. rewrite lookup_alter. case_decide as Ek; [|done]. rewrite Ek.
  destruct (m !! k') as [[a d]|]; [|done]. simpl.
  pose proof (live_age now ttl (a, d)) as Hl. unfold age in *. simpl in *.
  destruct (live now d) eqn:E; simpl in *; rewrite ?E; [|done]. by rewrite Hl.
Qed.

Lemma fields_live now k r m d :
  fields now k r = (m, d) → live now d = true.
Proof.
  unfold fields. destruct (hashes r !! k) as [[m' d']|]; [|by intros [= <- <-]].
  destruct (live now d') eqn:E; by intros [= <- <-].
Qed.

Lemma fields_write t' k m d (r : t) :
  fields t' k (mk r.(strs) (<[k := (m, d)]> r.(hashes))) = if live t' d then (m, d) else (∅, None).
Proof. unfold fields. cbn [hashes]. by rewrite lookup_insert_eq. Qed.

Lemma fields_other t' k k' (r : t) strs' x :
  k ≠ k' → fields t' k' (mk strs' (<[k := x]> r.(hashes))) = fields t' k' r.
Proof. intros. unfold fields. cbn [hashes]. by rewrite lookup_insert_ne. Qed.

(** A field found after a write at [t0] of the hash found then. *)
Lemma fields_later t0 t' k (r : t) m d f x :
  fields t0 k r = (m, d) → (if live t' d then (m, d) else (∅, None)).1 !! f = Some x →
  (fields t' k r).1 !! f = Some x.
Proof.
  unfold fields. destruct (hashes r !! k) as [[m' d']|]; [|by intros [= <- <-]].
  destruct (live t0 d'); intros [= <- <-]; [by destruct (live t' d')|cbn [live fst]; by rewrite lookup_empty].
Qed.

Lemma fields_insert now k r m d :
  live now d = true →
  fields now k (mk r.(strs) (<[k := (m, d)]> r.(hashes))) = (m, d).
Proof. intros Hl. unfold fields. cbn [hashes]. by rewrite lookup_insert_eq, Hl. Qed.

Lemma hset_at now t' k f v x (r : t) :
  redis_hget t' k f (redis_hset now k f v r) = Some x → x = v.
Proof.
  cbn. destruct (fields now k r) as [m d]. rewrite fields_write.
  destruct (live t' d); cbn [fst]; [|by rewrite lookup_empty]. rewrite lookup_insert_eq. by intros [= ->].
Qed.

Lemma hset_ne_at now t' k f f' v x (r : t) : f ≠ f' →
  redis_hget t' k f' (redis_hset now k f v r) = Some x → redis_hget t' k f' r = Some x.
Proof.
  intros Hne. cbn. destruct (fields now k r) as [m d] eqn:E. rewrite fields_write. intros Hx.
  apply (fields_later now t' k r m d); [done|]. destruct (live t' d); [|done].
  cbn [fst] in *. by rewrite lookup_insert_ne in Hx.
Qed.

Lemma expire_at now t' k f ttl x (r : t) :
  redis_hget t' k f (redis_expire now k ttl r) = Some x →
  redis_hget now k f r = Some x ∨ redis_hget t' k f r = Some x.
Proof.
  cbn. unfold fields. cbn [hashes]. rewrite lookup_alter_eq.
  destruct (hashes r !! k) as [[m d]|]; [|by right]. cbn [fmap option_fmap option_map].
  unfold age. cbn [fst snd]. destruct (live now d) eqn:E; [|by right].
  intros Hx. left. destruct (live t' _); [done|]. cbn [fst] in Hx. by rewrite lookup_empty in Hx.
Qed.

Lemma hincrby_at now t' k f n d x (r : t) :
  redis_hget now k f r = Some (u_to_string n) → 0 ≤ n →
  redis_hget t' k f (redis_hincrby now k f d r) = Some x → x = u_to_string (n + d).
Proof.
  cbn. destruct (fields now k r) as [m dl] eqn:E. cbn [fst]. intros -> Hn. cbn [unwrap_or].
  rewrite parse_digits_print by lia. rewrite fields_write.
  destruct (live t' dl); cbn [fst]; [|by rewrite lookup_empty]. rewrite lookup_insert_eq. by intros [= ->].
Qed.

#[export] Instance laws : RedisLaws t.
Proof.
  split; cbn [redis_get redis_set_ex redis_refuses_ex redis_del redis_incr redis_expire redis_hget redis_hset
              redis_hincrby commands strs hashes]; intros.
  - by rewrite lookup_insert_eq.
  - unfold i64_max. rewrite (proj2 (Z.leb_gt _ _)) by done. apply Z.ltb_ge. lia.
  - by rewrite lookup_insert_ne.
  - by rewrite lookup_delete_eq.
  - rewrite H, parse_digits_print by lia. rewrite lookup_insert_eq. cbn [unwrap_or peek mbind option_bind].
    destruct (strs r !! k) as [[a d]|]; [|done]. by destruct (live t0 d) eqn:E; rewrite ?E.
  - by rewrite lookup_insert_ne.
  - by rewrite lookup_delete_ne.
  - by destruct (fields t0 k r).
  - by destruct (fields t0 k r).
  - by rewrite lookup_alter_ne.
  - by apply peek_alter.
  - rename H into Hget. rewrite lookup_alter_eq. destruct (strs r !! k) as [[a d]|]; [|done].
    cbn [peek mbind option_bind] in Hget. destruct (live t0 d) eqn:E; [|done]. injection Hget as ->.
    cbn [fmap option_fmap option_map]. unfold age. cbn [fst snd]. rewrite E. cbn [peek mbind option_bind].
    unfold live. by rewrite (proj2 (Z.ltb_lt _ _)).
  - destruct (fields t0 k r) as [m d] eqn:E. rewrite fields_insert by (by eapply fields_live).
    apply lookup_insert_eq.
  - destruct (fields t0 k r) as [m d] eqn:E. rewrite fields_insert by (by eapply fields_live).
    by apply lookup_insert_ne.
  - unfold fields. cbn [hashes]. rewrite lookup_alter. case_decide as Ek; [|done]. rewrite Ek.
    destruct (hashes r !! k') as [[m d]|]; [|done]. cbn [fmap option_fmap option_map].
    pose proof (live_age t0 ttl (m, d) ltac:(done)) as Hl. unfold age in *. cbn [fst snd] in *.
    destruct (live t0 d) eqn:E; cbn [fst snd] in *; rewrite ?E; [|done]. by rewrite Hl.
  - destruct (fields t0 k r) as [m dl] eqn:E. rewrite fields_insert by (by eapply fields_live).
    cbn [fst] in *. rewrite H. cbn [unwrap_or]. rewrite parse_digits_print by lia.
    apply lookup_insert_eq.
  - destruct (fields t0 k r) as [m dl] eqn:E. rewrite fields_insert by (by eapply fields_live).
    by apply lookup_insert_ne.
  - by apply (hset_at t0 t' k f v x r).
  - by apply (hset_ne_at t0 t' k f f' v x r).
  - by apply (expire_at t0 t' k f ttl x r).
  - by apply (hincrby_at t0 t' k f n d x r); [|lia|].
  - done.
  - unfold fields. cbn [hashes]. by rewrite lookup_delete_ne.
  - destruct (fields t0 k r) as [m dl]. by rewrite fields_other.
  - unfold fields. cbn [hashes]. by rewrite lookup_alter_ne.
  - destruct (fields t0 k r) as [m dl]. by rewrite fields_other.
Qed.
End Db.
#[export] Existing Instance Db.commands.
#[export] Existing Instance Db.laws.

(** ** The properties at concrete inputs *)

Definition demo_db : Db.t :=
  (redis_create_session demo_key Up 1700000000 1700000000 "0xdeadbeef" (Some "graphql") 3 3600
     demo_raw Db.empty).2.
Definition demo_claims : TokenClaims :=
  {| c_payer := "0xdeadbeef"; c_expires_at := 1700003600; c_session_id := new_session_id demo_raw |}.

Lemma redis_consume_refines_memory_witness :
  let '(o, _) := redis_consume demo_key Up 1700000001 1700000001 demo_create.1 (Some "graphql") demo_db in
  let '(o', _) := consume_at demo_create.1 (Some "graphql") 1700000001 demo_create.2 in
  o = o' ∧ o = Accepted "0xdeadbeef" 2 3 1700003600.
Proof.
  assert (Hv : verify demo_key demo_create.1 1700000001 = Ok demo_claims) by (vm_compute; reflexivity).
  pose proof (redis_consume_refines_memory demo_key demo_create.1 (Some "graphql") 1700000001
    1700000001 demo_create.2 demo_db demo_claims eq_refl Hv) as Hthm.
  assert (Ho : (redis_consume demo_key Up 1700000001 1700000001 demo_create.1 (Some "graphql")
                 demo_db).1 = Accepted "0xdeadbeef" 2 3 1700003600) by (vm_compute; reflexivity).
  destruct (redis_consume _ _ _ _ _ _ _) as [o r']. cbn [fst] in Ho.
  destruct (consume_at demo_create.1 (Some "graphql") 1700000001 demo_create.2) as [o' s'].
  split; [|exact Ho]. apply Hthm.
  - assert (Hs : sessions demo_create.2 !! c_session_id demo_claims =
      Some {| payer := "0xdeadbeef"; policy := Some "graphql"; expires_at := 1700003600;
              quota := 3; quota_remaining := 3 |}) by (vm_compute; reflexivity).
    rewrite Hs. split_and!; vm_compute; congruence.
  - intros x Hx. vm_compute in Hx. injection Hx as <-. reflexivity.
  - discriminate.
Defined.

(** The last minute's five requests, in both; the first check of the next minute. *)
Definition demo_entry : Window :=
  {| start := 1699999980; current := 5; previous := 0; window_secs := 60 |}.
Definition demo_visitor : IpAddr := V4 203 0 113 7.
Definition demo_counter : string := counter_key (key_for "graphql" demo_visitor) 1699999980.
Definition demo_counters : Db.t := redis_set_ex 1700000001 demo_counter "5" 120 Db.empty.

Lemma redis_check_refines_memory_witness :
  let k := key_for "graphql" demo_visitor in
  ∃ a m' r', check_at "graphql" demo_visitor 5 60 1700000045 {[k := demo_entry]} = Some (a, m') ∧
    redis_check_at Up 1700000045 "graphql" demo_visitor 5 60 1700000045 demo_counters = Some (a, r') ∧
    a = {| allowed := true; remaining := 0; limit := 5; reset_secs := 55 |}.
Proof.
  intros k.
  assert (fst <$> check_at "graphql" demo_visitor 5 60 1700000045 {[k := demo_entry]}
    = Some {| allowed := true; remaining := 0; limit := 5; reset_secs := 55 |}) as Hv
    by (vm_compute; reflexivity).
  destruct (redis_check_refines_memory "graphql" demo_visitor 5 60 1700000045
    {[k := demo_entry]} demo_counters) as (a & m' & r' & Hm & Hr & _);
    [lia | unfold is_u64, u64_max; lia | lia | vm_compute; congruence | |].
  - unfold k. rewrite lookup_singleton_eq. split; [intros x [= <-]; vm_compute; split; [split|]; congruence|].
    intros s t Hs0 Hsa Ht. cbn [count_at start current previous demo_entry].
    destruct (Z.eqb_spec s 1699999980) as [->|Hne].
    + split; [|lia]. unfold demo_counters. rewrite get_set_ex by lia. by rewrite (proj2 (Z.ltb_lt t _)) by lia.
    + rewrite (proj2 (Z.eqb_neq s (1699999980 - 60))) by lia. split; [|lia].
      unfold demo_counters. rewrite get_set_ex_ne; [done|]. intros E%counter_key_inj; [by apply Hne|lia..].
  - exists a, m', r'. split; [exact Hm|]. split; [exact Hr|].
    rewrite Hm in Hv. by injection Hv.
Defined.

Lemma redis_claim_refines_memory_witness :
  (redis_claim_payment Up 1700000000 1700000000 "tx" 600 Db.empty).1
    = (claim_payment_at "tx" 600 1700000000 demo_store).1 ∧
  (claim_payment_at "tx" 600 1700000000 demo_store).1 = Fresh.
Proof.
  pose proof (redis_claim_refines_memory "tx" 300 600 1700000000 demo_store Db.empty) as Hthm.
  assert (Hn : seen_payments demo_store !! "tx" = None) by (vm_compute; reflexivity).
  assert (Hf : (claim_payment_at "tx" 600 1700000000 demo_store).1 = Fresh) by (vm_compute; reflexivity).
  destruct (redis_claim_payment _ _ _ _ _ _) as [o r'].
  destruct (claim_payment_at "tx" 600 1700000000 demo_store) as [o' s']. cbn [fst] in Hf |- *.
  split; [|exact Hf]. apply Hthm; [lia | lia | lia | |].
  - rewrite Hn. split; [discriminate | reflexivity].
  - rewrite Hn. discriminate.
Defined.

Lemma redis_outage_fails_closed_witness :
  (redis_claim_payment DownAfter 1700000000 1700000000 "tx" 600 Db.empty).1 = ClaimBackend ∧
  (redis_claim_payment Up 1700000001 1700000001 "tx" 600
     (redis_claim_payment DownAfter 1700000000 1700000000 "tx" 600 Db.empty).2).1 = Replay 1700000000.
Proof.
  split; [|vm_compute; reflexivity].
  exact (proj1 (redis_outage_fails_closed DownAfter 1700000000 1700000000 600 3 5 60 "tx"
    "0xdeadbeef" "token" "graphql" None demo_key demo_raw (V4 203 0 113 7) Db.empty
    ltac:(discriminate) ltac:(lia))).
Defined.
