(* ===== verification/Config.v ===== *)
(** * Configuration ([src/config.rs])

    The configuration after parsing: the environment overrides of
    [Config::load], every check of [Config::validate] in its order, and
    [policy_for], which picks the terms of a request.  [anyhow] messages are
    constructors that keep what distinguishes them. *)

From Stdlib Require Import Ascii.
From S2P Require Import Prelude RustStr Platform IpAddr RateLimit.
From stdpp Require Import options.
#[local] Open Scope Z_scope.

Definition ENV_HMAC_SECRET : string := "X402_SESSION_HMAC_SECRET".
Definition ENV_PAY_TO : string := "X402_PAY_TO".
Definition ENV_PAY_TO_PREFIX : string := "X402_PAY_TO_".

Definition pay_to_env_var (policy : string) : string :=
  ENV_PAY_TO_PREFIX +:+ replace_char "-" "_" (to_ascii_uppercase policy).

Definition SUI_ADDRESS_HEX_LEN : nat := 64.
Definition PLACEHOLDER_HMAC_SECRET : string :=
  "abababababababababababababababababababababababababababababababab".
Definition DEFAULT_ASSET_DECIMALS : Z := 6.
Definition MIN_HMAC_KEY_BYTES : nat := 32.

(** [u128::saturating_pow]. *)
Definition sat_pow_u128 (b e : Z) : Z := Z.min u128_max (b ^ e).
Definition gasless_minimum_base_units (decimals : Z) : Z := sat_pow_u128 10 decimals / 100.

Inductive VerificationMode := StubAcceptAll | SuiGrpc.

Record PaymentConfig := mkPaymentConfig {
  scheme : string;
  network : string;
  amount : string;
  asset : string;
  asset_decimals : Z;
  pay_to : string;
  max_timeout_seconds : Z;
  description : string;
  service_name : option string;
  tags : list string;
  icon_url : option string;
  gas_station : option string
}.

Record FreeTierConfig := mkFreeTier { max_requests : Z; free_window_secs : Z }.
Record PaidTierConfig := mkPaidTier { paid_quota : Z; duration_secs : Z }.

Record PaymentOverride := mkOverride {
  ov_pay_to : option string;
  ov_amount : option string;
  ov_asset : option string;
  ov_asset_decimals : option Z;
  ov_description : option string;
  ov_free_tier : option FreeTierConfig;
  ov_paid_tier : option PaidTierConfig
}.

Record ResolvedPolicy := mkResolved {
  label : string;
  payment : PaymentConfig;
  free_tier : FreeTierConfig;
  paid_tier : PaidTierConfig
}.

Definition DEFAULT_POLICY_LABEL : string := "default".

Record RouteOverride := mkRoute { path_prefix : string; overrides : PaymentOverride }.

Inductive StoreBackend := Memory | Redis.
Record StoreConfig := mkStoreConfig { backend : StoreBackend; redis_url : string }.

Record SocketAddr := mkSocketAddr { addr_ip : IpAddr; addr_port : Z }.

Record Config := mkConfig {
  listen_addr : SocketAddr;
  metrics_listen_addr : option SocketAddr;
  facilitator_api_listen_addr : option SocketAddr;
  sui_grpc_url : string;
  sui_chain : string;
  verification_mode : VerificationMode;
  cfg_payment : PaymentConfig;
  policies : gmap string PaymentOverride;
  routes : list RouteOverride;
  cfg_free_tier : FreeTierConfig;
  cfg_paid_tier : PaidTierConfig;
  store : StoreConfig;
  session_hmac_secret : string
}.

(** What a refused configuration says; the string is the context. *)
Inductive ConfigError :=
| Unreadable
| UnsupportedScheme (got : string)
| BadAmount (context got : string)
| PayToNotPrefixed | PayToNotHex | PayToZero
| ZeroWindow (context : string) | ZeroDuration (context : string) | ZeroQuota (context : string)
| BadServiceName | TooManyTags | BadTag (tag : string) | IconTooLong | IconNotUrl
| EmptyPathPrefix
| MissingRedisUrl
| EmptySecret | PlaceholderSecret | SecretNotHex | SecretTooShort (got : nat)
| InContext (context : string) (e : ConfigError).

(** [u128::parse] accepts a leading plus sign. *)
Definition amount_ok (s : string) : bool := is_some_b (parse_u128 s).

Definition validate_pay_to (pay_to : string) : result () ConfigError :=
  match strip_prefix "0x" pay_to with
  | None => Err PayToNotPrefixed
  | Some hex_part =>
      if negb (slen hex_part =? SUI_ADDRESS_HEX_LEN)%nat || negb (sall is_ascii_hexdigit hex_part)
      then Err PayToNotHex
      else if sall (λ c, bool_decide (c = "0"%char)) hex_part then Err PayToZero
      else Ok ()
  end.

Definition free_tier_validate (t : FreeTierConfig) (context : string) : result () ConfigError :=
  if t.(free_window_secs) =? 0 then Err (ZeroWindow context) else Ok ().

Definition paid_tier_validate (t : PaidTierConfig) (context : string) : result () ConfigError :=
  if t.(duration_secs) =? 0 then Err (ZeroDuration context)
  else if t.(paid_quota) =? 0 then Err (ZeroQuota context)
  else Ok ().

(** [if let Some(x) = field { check(x)? }] *)
Definition when_some {A E} (o : option A) (check : A → result () E) : result () E :=
  match o with Some a => check a | None => Ok () end.

(** [for x in xs { check(x)? }] *)
Fixpoint for_each {A E} (check : A → result () E) (l : list A) : result () E :=
  match l with
  | [] => Ok ()
  | a :: l => _ <-? check a ;; for_each check l
  end.

(** ** Overrides *)

Definition apply_payment (o : PaymentOverride) (p : PaymentConfig) : PaymentConfig :=
  {| scheme := p.(scheme); network := p.(network);
     amount := unwrap_or o.(ov_amount) p.(amount);
     asset := unwrap_or o.(ov_asset) p.(asset);
     asset_decimals := unwrap_or o.(ov_asset_decimals) p.(asset_decimals);
     pay_to := unwrap_or o.(ov_pay_to) p.(pay_to);
     max_timeout_seconds := p.(max_timeout_seconds);
     description := unwrap_or o.(ov_description) p.(description);
     service_name := p.(service_name); tags := p.(tags); icon_url := p.(icon_url);
     gas_station := p.(gas_station) |}.

Definition apply_to (o : PaymentOverride) (r : ResolvedPolicy) : ResolvedPolicy :=
  {| label := r.(label);
     payment := apply_payment o r.(payment);
     free_tier := unwrap_or o.(ov_free_tier) r.(free_tier);
     paid_tier := unwrap_or o.(ov_paid_tier) r.(paid_tier) |}.

Definition override_validate (o : PaymentOverride) (context : string) : result () ConfigError :=
  _ <-? when_some o.(ov_pay_to) (λ a, map_err (InContext context) (validate_pay_to a)) ;;
  _ <-? when_some o.(ov_amount) (λ a, if amount_ok a then Ok () else Err (BadAmount context a)) ;;
  _ <-? when_some o.(ov_free_tier) (λ t, free_tier_validate t (context +:+ " free_tier")) ;;
  when_some o.(ov_paid_tier) (λ t, paid_tier_validate t (context +:+ " paid_tier")).

(** ** [Config] *)

Definition MAX_FIELD : nat := 32.
Definition MAX_TAGS : nat := 5.
Definition MAX_ICON_URL : nat := 2048.

Definition validate_discovery_metadata (p : PaymentConfig) : result () ConfigError :=
  _ <-? when_some p.(service_name) (λ name,
          if (MAX_FIELD <? slen name)%nat || negb (is_ascii name) then Err BadServiceName else Ok ()) ;;
  if (MAX_TAGS <? length p.(tags))%nat then Err TooManyTags else
  _ <-? for_each (λ tag,
          if (MAX_FIELD <? slen tag)%nat || negb (is_ascii tag) then Err (BadTag tag) else Ok ())
          p.(tags) ;;
  when_some p.(icon_url) (λ icon,
    if (MAX_ICON_URL <? slen icon)%nat then Err IconTooLong
    else if negb (starts_with "http://" icon) && negb (starts_with "https://" icon)
    then Err IconNotUrl else Ok ()).

Definition priced_policies (c : Config) : list (string * string * Z) :=
  (DEFAULT_POLICY_LABEL, c.(cfg_payment).(amount), c.(cfg_payment).(asset_decimals)) ::
  ((λ '(name, over),
      (name, unwrap_or over.(ov_amount) c.(cfg_payment).(amount),
       unwrap_or over.(ov_asset_decimals) c.(cfg_payment).(asset_decimals)))
     <$> map_to_list c.(policies)).

(** The prices [warn_if_below_the_gasless_floor] warns about. *)
Definition warn_if_below_the_gasless_floor (c : Config) : list (string * string * Z) :=
  List.filter (λ '(_, amount, decimals),
    match parse_u128 amount with
    | Some value => (0 <? value) && (value <? gasless_minimum_base_units decimals)
    | None => false
    end) (priced_policies c).

Definition policy_for (c : Config) (path : string) (policy : option string) : ResolvedPolicy :=
  let resolved := {| label := DEFAULT_POLICY_LABEL; payment := c.(cfg_payment);
                     free_tier := c.(cfg_free_tier); paid_tier := c.(cfg_paid_tier) |} in
  let relabel l r := {| label := l; payment := payment r;
                        free_tier := free_tier r; paid_tier := paid_tier r |} in
  match policy ≫= λ name, pair name <$> c.(policies) !! name with
  | Some (name, over) => relabel name (apply_to over resolved)
  | None =>
      match max_by_key (λ r, slen r.(path_prefix))
              (List.filter (λ r, starts_with r.(path_prefix) path) c.(routes)) with
      | Some route => relabel route.(path_prefix) (apply_to route.(overrides) resolved)
      | None => resolved
      end
  end.

Definition is_unknown_policy (c : Config) (policy : string) : bool :=
  bool_decide (c.(policies) !! policy = None).

Section Key.
Context `{!Codecs}.

Definition hmac_key (c : Config) : result bytes ConfigError :=
  if is_empty c.(session_hmac_secret) then Err EmptySecret
  else if bool_decide (trim c.(session_hmac_secret) = PLACEHOLDER_HMAC_SECRET)
  then Err PlaceholderSecret
  else
  match hex_decode c.(session_hmac_secret) with
  | None => Err SecretNotHex
  | Some key =>
      if (length key <? MIN_HMAC_KEY_BYTES)%nat then Err (SecretTooShort (length key)) else Ok key
  end.

Definition validate (c : Config) : result () ConfigError :=
  let p := c.(cfg_payment) in
  if negb (bool_decide (p.(scheme) = "exact")) then Err (UnsupportedScheme p.(scheme)) else
  if negb (amount_ok p.(amount)) then Err (BadAmount "payment" p.(amount)) else
  _ <-? validate_pay_to p.(pay_to) ;;
  _ <-? free_tier_validate c.(cfg_free_tier) "free_tier" ;;
  _ <-? paid_tier_validate c.(cfg_paid_tier) "paid_tier" ;;
  _ <-? validate_discovery_metadata p ;;
  _ <-? for_each (λ '(name, policy), override_validate policy ("policy " +:+ debug_str name))
          (map_to_list c.(policies)) ;;
  _ <-? for_each (λ route,
          if is_empty route.(path_prefix) then Err EmptyPathPrefix
          else override_validate route.(overrides) ("route " +:+ debug_str route.(path_prefix)))
          c.(routes) ;;
  if match c.(store).(backend) with Redis => is_empty c.(store).(redis_url) | Memory => false end
  then Err MissingRedisUrl
  else
  _ <-? hmac_key c ;;
  Ok ().

Definition set_pay_to (p : PaymentConfig) (a : string) : PaymentConfig :=
  {| scheme := scheme p; network := network p; amount := amount p; asset := asset p;
     asset_decimals := asset_decimals p; pay_to := a;
     max_timeout_seconds := max_timeout_seconds p; description := description p;
     service_name := service_name p; tags := tags p; icon_url := icon_url p;
     gas_station := gas_station p |}.
Definition override_pay_to (o : PaymentOverride) (a : string) : PaymentOverride :=
  {| ov_pay_to := Some a; ov_amount := ov_amount o; ov_asset := ov_asset o;
     ov_asset_decimals := ov_asset_decimals o; ov_description := ov_description o;
     ov_free_tier := ov_free_tier o; ov_paid_tier := ov_paid_tier o |}.

(** The environment wins over the file. *)
Definition with_env (env : string → option string) (c : Config) : Config :=
  {| listen_addr := listen_addr c; metrics_listen_addr := metrics_listen_addr c;
     facilitator_api_listen_addr := facilitator_api_listen_addr c;
     sui_grpc_url := sui_grpc_url c; sui_chain := sui_chain c;
     verification_mode := verification_mode c;
     cfg_payment := match env ENV_PAY_TO with
                    | Some a => set_pay_to (cfg_payment c) a
                    | None => cfg_payment c
                    end;
     policies := map_imap (λ name over,
                   Some (match env (pay_to_env_var name) with
                         | Some a => override_pay_to over a
                         | None => over
                         end)) (policies c);
     routes := routes c; cfg_free_tier := cfg_free_tier c; cfg_paid_tier := cfg_paid_tier c;
     store := store c;
     session_hmac_secret := unwrap_or (env ENV_HMAC_SECRET) (session_hmac_secret c) |}.

(** [file]: what reading and parsing the file gave. *)
Definition load (file : result Config ConfigError) (env : string → option string) :
  result Config ConfigError :=
  config <-? file ;;
  let config := with_env env config in
  _ <-? validate config ;;
  Ok config.
End Key.

(** ** What validation promises *)

Definition valid_pay_to (s : string) : Prop :=
  ∃ h, s = "0x" +:+ h ∧ slen h = 64%nat ∧ sall is_ascii_hexdigit h = true ∧
       sall (λ c, bool_decide (c = "0"%char)) h = false.

(** Terms a request can be served under. *)
Record valid_terms (r : ResolvedPolicy) : Prop := {
  vt_amount : ∃ v, parse_u128 r.(payment).(amount) = Some v;
  vt_pay_to : valid_pay_to r.(payment).(pay_to);
  vt_window : r.(free_tier).(free_window_secs) ≠ 0;
  vt_duration : r.(paid_tier).(duration_secs) ≠ 0;
  vt_quota : r.(paid_tier).(paid_quota) ≠ 0
}.

Record valid_override (o : PaymentOverride) : Prop := {
  vo_amount a : o.(ov_amount) = Some a → ∃ v, parse_u128 a = Some v;
  vo_pay_to a : o.(ov_pay_to) = Some a → valid_pay_to a;
  vo_window t : o.(ov_free_tier) = Some t → t.(free_window_secs) ≠ 0;
  vo_paid t : o.(ov_paid_tier) = Some t → t.(duration_secs) ≠ 0 ∧ t.(paid_quota) ≠ 0
}.

Record valid_metadata (p : PaymentConfig) : Prop := {
  vm_name n : p.(service_name) = Some n → (slen n ≤ 32)%nat ∧ is_ascii n = true;
  vm_tags : (length p.(tags) ≤ 5)%nat;
  vm_tag n : n ∈ p.(tags) → (slen n ≤ 32)%nat ∧ is_ascii n = true;
  vm_icon i : p.(icon_url) = Some i →
    (slen i ≤ 2048)%nat ∧ (starts_with "http://" i = true ∨ starts_with "https://" i = true)
}.

(** A session key that is not public and is long enough to sign with. *)
Record usable_key `{!Codecs} (secret : string) (key : bytes) : Prop := {
  uk_given : secret ≠ "";
  uk_private : trim secret ≠ PLACEHOLDER_HMAC_SECRET;
  uk_hex : hex_decode secret = Some key;
  uk_long : (32 ≤ length key)%nat
}.

Record runnable `{!Codecs} (c : Config) : Prop := {
  rn_scheme : c.(cfg_payment).(scheme) = "exact";
  rn_terms : valid_terms {| label := DEFAULT_POLICY_LABEL; payment := c.(cfg_payment);
                            free_tier := c.(cfg_free_tier); paid_tier := c.(cfg_paid_tier) |};
  rn_metadata : valid_metadata c.(cfg_payment);
  rn_policies name o : c.(policies) !! name = Some o → valid_override o;
  rn_routes r : r ∈ c.(routes) → r.(path_prefix) ≠ "" ∧ valid_override r.(overrides);
  rn_redis : c.(store).(backend) = Redis → c.(store).(redis_url) ≠ "";
  rn_key : ∃ key, usable_key c.(session_hmac_secret) key
}.

(** ** Lemmas *)

Lemma when_some_ok {A E} (o : option A) (f : A → result () E) :
  when_some o f = Ok () ↔ ∀ a, o = Some a → f a = Ok ().
Proof. destruct o; simpl; split; [intros ? ? [= <-]|intros H; by apply H|done|done]; done. Qed.

Lemma for_each_ok {A E} (f : A → result () E) l :
  for_each f l = Ok () ↔ ∀ a, a ∈ l → f a = Ok ().
Proof.
  induction l as [|a l IH]; simpl; [by split; [intros _ ? ?%elem_of_nil|]|].
  destruct (f a) as [[]|e] eqn:Ef.
  - rewrite IH. setoid_rewrite elem_of_cons. split; [intros H b [->|]; auto | auto].
  - split; [done|]. intros H. specialize (H a). rewrite Ef in H. apply H, elem_of_cons. by left.
Qed.

Lemma question_ok {A E} (c : result () E) (k : result A E) (a : A) :
  (_ <-? c ;; k) = Ok a ↔ c = Ok () ∧ k = Ok a.
Proof. destruct c as [[]|]; naive_solver. Qed.

Lemma if_err {A E} (b : bool) (e : E) (k : result A E) a :
  (if b then Err e else k) = Ok a ↔ b = false ∧ k = Ok a.
Proof. destruct b; naive_solver. Qed.

Lemma amount_ok_iff s : amount_ok s = true ↔ ∃ v, parse_u128 s = Some v.
Proof. unfold amount_ok. destruct (parse_u128 s); simpl; naive_solver. Qed.

Lemma validate_pay_to_ok s : validate_pay_to s = Ok () ↔ valid_pay_to s.
Proof.
  unfold validate_pay_to, valid_pay_to. destruct (strip_prefix "0x" s) as [h|] eqn:E.
  - apply strip_prefix_Some in E as ->. rewrite !if_err, orb_false_iff, !negb_false_iff, Nat.eqb_eq.
    split; [intros ([] & ? & _); by eauto|].
    intros (h' & Heq & ?). apply append_inj_l in Heq as <-. naive_solver.
  - split; [done|]. intros (h & -> & _). by rewrite strip_prefix_app in E.
Qed.

Lemma free_tier_validate_ok t ctx : free_tier_validate t ctx = Ok () ↔ free_window_secs t ≠ 0.
Proof. unfold free_tier_validate. rewrite if_err, Z.eqb_neq. naive_solver. Qed.

Lemma paid_tier_validate_ok t ctx :
  paid_tier_validate t ctx = Ok () ↔ duration_secs t ≠ 0 ∧ paid_quota t ≠ 0.
Proof. unfold paid_tier_validate. rewrite !if_err, !Z.eqb_neq. naive_solver. Qed.

Lemma map_err_ok {A E F} (f : E → F) (r : result A E) a : map_err f r = Ok a ↔ r = Ok a.
Proof. destruct r; naive_solver. Qed.

Lemma override_validate_ok o ctx : override_validate o ctx = Ok () ↔ valid_override o.
Proof.
  unfold override_validate. rewrite !question_ok, !when_some_ok.
  setoid_rewrite map_err_ok. setoid_rewrite validate_pay_to_ok.
  setoid_rewrite free_tier_validate_ok. setoid_rewrite paid_tier_validate_ok.
  assert (∀ a, (if amount_ok a then Ok () else Err (BadAmount ctx a)) = Ok () ↔
               ∃ v, parse_u128 a = Some v) as Ha.
  { intros a. rewrite <- amount_ok_iff. destruct (amount_ok a); naive_solver. }
  setoid_rewrite Ha. split; [intros (? & ? & ? & ?); by split | by intros [? ? ? ?]].
Qed.

Lemma short_ascii_ok {E} n (e : E) :
  (if (MAX_FIELD <? slen n)%nat || negb (is_ascii n) then Err e else Ok ()) = Ok () ↔
  (slen n ≤ 32)%nat ∧ is_ascii n = true.
Proof.
  rewrite if_err, orb_false_iff, negb_false_iff, Nat.ltb_ge. unfold MAX_FIELD. naive_solver.
Qed.

Lemma icon_ok icon :
  (if (MAX_ICON_URL <? slen icon)%nat then Err IconTooLong
   else if negb (starts_with "http://" icon) && negb (starts_with "https://" icon)
   then Err IconNotUrl else Ok ()) = Ok () ↔
  (slen icon ≤ 2048)%nat ∧ (starts_with "http://" icon = true ∨ starts_with "https://" icon = true).
Proof.
  rewrite !if_err, andb_false_iff, !negb_false_iff, Nat.ltb_ge. unfold MAX_ICON_URL. naive_solver.
Qed.

Lemma validate_discovery_metadata_ok p :
  validate_discovery_metadata p = Ok () ↔ valid_metadata p.
Proof.
  unfold validate_discovery_metadata. rewrite question_ok, if_err, question_ok.
  rewrite !when_some_ok, for_each_ok, Nat.ltb_ge.
  setoid_rewrite short_ascii_ok. setoid_rewrite icon_ok.
  unfold MAX_TAGS. split; [intros (? & ? & ? & ?); by split | by intros [? ? ? ?]].
Qed.

Lemma policies_ok (m : gmap string PaymentOverride) :
  (∀ a, a ∈ map_to_list m →
     (let '(name, policy) := a in override_validate policy ("policy " +:+ debug_str name)) = Ok ()) ↔
  ∀ name o, m !! name = Some o → valid_override o.
Proof.
  split.
  - intros Hm name o Ho. apply elem_of_map_to_list in Ho. apply Hm in Ho.
    by apply override_validate_ok in Ho.
  - intros Hm [name o] Ho%elem_of_map_to_list. apply override_validate_ok. by eapply Hm.
Qed.

Lemma route_ok r :
  (if is_empty r.(path_prefix) then Err EmptyPathPrefix
   else override_validate r.(overrides) ("route " +:+ debug_str r.(path_prefix))) = Ok () ↔
  r.(path_prefix) ≠ "" ∧ valid_override r.(overrides).
Proof. by rewrite if_err, is_empty_false, override_validate_ok. Qed.

(** An override of valid terms by a valid override is valid terms. *)
Lemma apply_to_valid o r : valid_override o → valid_terms r → valid_terms (apply_to o r).
Proof.
  intros [Ha Hp Hw Hd] [? ? ? ? ?]. unfold apply_to, apply_payment.
  split; cbn [payment free_tier paid_tier amount pay_to].
  - destruct (ov_amount o); simpl; auto.
  - destruct (ov_pay_to o); simpl; auto.
  - destruct (ov_free_tier o); simpl; auto.
  - destruct (ov_paid_tier o); simpl; [by eapply Hd|auto].
  - destruct (ov_paid_tier o); simpl; [by eapply Hd|auto].
Qed.

Lemma relabel_valid l r :
  valid_terms r → valid_terms {| label := l; payment := payment r;
                                 free_tier := free_tier r; paid_tier := paid_tier r |}.
Proof. intros [? ? ? ? ?]. by split. Qed.

(** The rule that prices a path: the longest of the matching prefixes. *)
Definition matching (path : string) (l : list RouteOverride) : list RouteOverride :=
  List.filter (λ r, starts_with r.(path_prefix) path) l.

Lemma matching_In path l r : r ∈ matching path l ↔ r ∈ l ∧ starts_with r.(path_prefix) path = true.
Proof. unfold matching. by rewrite !list_elem_of_In, List.filter_In. Qed.

(** Two prefixes of one path with the same length are the same. *)
Lemma prefix_length_inj p q path :
  starts_with p path = true → starts_with q path = true → slen p = slen q → p = q.
Proof.
  rewrite !starts_with_iff. intros [r ->] [r' Heq] Hl. revert q Heq Hl.
  induction p as [|a p IH]; intros [|b q] Heq Hl; try done.
  cbn [String.append] in Heq. injection Heq as -> Heq. f_equal. apply (IH q Heq). by injection Hl.
Qed.

Definition longest (path : string) (l : list RouteOverride) : option RouteOverride :=
  max_by_key (λ r, slen r.(path_prefix)) (matching path l).

Lemma longest_unique path l r :
  NoDup (path_prefix <$> l) →
  longest path l = Some r ↔
  r ∈ l ∧ starts_with r.(path_prefix) path = true ∧
  (∀ r', r' ∈ l → starts_with r'.(path_prefix) path = true →
         (slen r'.(path_prefix) ≤ slen r.(path_prefix))%nat).
Proof.
  intros Hnd.
  assert (∀ a, longest path l = Some a → a ∈ matching path l ∧
            ∀ r', r' ∈ l → starts_with r'.(path_prefix) path = true →
              (slen r'.(path_prefix) ≤ slen a.(path_prefix))%nat) as Hlong.
  { intros a Ha. split; [by eapply max_by_key_elem|]. intros r' Hr' Hs.
    eapply (max_by_key_max (λ r, slen r.(path_prefix))); [exact Ha|]. by apply matching_In. }
  split.
  - intros Hr. destruct (Hlong r Hr) as [Hin Hmax]. by apply matching_In in Hin as [? ?].
  - intros (Hr & Hs & Hmax). destruct (longest path l) as [a|] eqn:Ea.
    + destruct (Hlong a eq_refl) as [[Hal Has]%matching_In Hamax]. f_equal.
      assert (path_prefix a = path_prefix r) as Hp.
      { eapply prefix_length_inj; [done..|]. apply Nat.le_antisymm; auto. }
      apply list_elem_of_lookup in Hal as [i Hi], Hr as [j Hj].
      assert (i = j) as ->.
      { eapply (NoDup_lookup _ _ _ (path_prefix a) Hnd);
          rewrite list_lookup_fmap; [by rewrite Hi | rewrite Hj; cbn; by rewrite Hp]. }
      congruence.
    + apply max_by_key_None in Ea. assert (r ∈ matching path l) as Hc by by apply matching_In.
      rewrite Ea in Hc. by apply elem_of_nil in Hc.
Qed.

Lemma policy_for_unfold c path pol :
  policy_for c path pol =
  let resolved := {| label := DEFAULT_POLICY_LABEL; payment := c.(cfg_payment);
                     free_tier := c.(cfg_free_tier); paid_tier := c.(cfg_paid_tier) |} in
  let relabel l r := {| label := l; payment := payment r;
                        free_tier := free_tier r; paid_tier := paid_tier r |} in
  match pol ≫= λ name, pair name <$> c.(policies) !! name with
  | Some (name, over) => relabel name (apply_to over resolved)
  | None =>
      match longest path c.(routes) with
      | Some route => relabel route.(path_prefix) (apply_to route.(overrides) resolved)
      | None => resolved
      end
  end.
Proof. reflexivity. Qed.

(** Every override the configuration lists. *)
Definition overrides_of (c : Config) : list PaymentOverride :=
  (map_to_list c.(policies)).*2 ++ (overrides <$> c.(routes)).

(** A policy's tiers are the default ones or those of a listed override. *)
Lemma policy_for_tiers c path pol :
  let p := policy_for c path pol in
  (free_tier p = cfg_free_tier c ∧ paid_tier p = cfg_paid_tier c) ∨
  ∃ o, o ∈ overrides_of c ∧ free_tier p = unwrap_or o.(ov_free_tier) c.(cfg_free_tier) ∧
    paid_tier p = unwrap_or o.(ov_paid_tier) c.(cfg_paid_tier).
Proof.
  rewrite policy_for_unfold. cbv zeta. unfold overrides_of.
  destruct (pol ≫= _) as [[n o]|] eqn:Eo.
  - right. exists o. split; [|done]. apply elem_of_app. left. apply list_elem_of_fmap. exists (n, o).
    split; [done|]. apply elem_of_map_to_list. destruct pol as [m|]; [|done]. cbn in Eo.
    destruct (policies c !! m) eqn:Em; simplify_eq/=. done.
  - destruct (longest path (routes c)) as [r|] eqn:Er; [|by left].
    right. exists (overrides r). split; [|done]. apply elem_of_app. right.
    apply list_elem_of_fmap_2. by apply max_by_key_elem, matching_In in Er as [Hin _].
Qed.

(** ** Properties *)

Section Properties.
#[local] Set Default Proof Using "Type*".
Context `{!Codecs}.

Lemma hmac_key_ok c key : hmac_key c = Ok key ↔ usable_key c.(session_hmac_secret) key.
Proof.
  unfold hmac_key. split.
  - destruct (is_empty _) eqn:Ee; [done|]. apply is_empty_false in Ee.
    case_bool_decide as Hp; [done|]. destruct (hex_decode _) as [k|] eqn:Eh; [|done].
    destruct (Nat.ltb_spec (length k) MIN_HMAC_KEY_BYTES) as [|Hl]; [done|]. intros [= <-]. by split.
  - intros [Hg Hp Hh Hl]. rewrite (proj2 (is_empty_false _) Hg), bool_decide_eq_false_2, Hh by done.
    unfold MIN_HMAC_KEY_BYTES. by rewrite (proj2 (Nat.ltb_ge _ _) Hl).
Qed.

Lemma validate_ok (c : Config) : validate c = Ok () ↔ runnable c.
Proof.
  unfold validate. rewrite !if_err, !question_ok, !if_err.
  rewrite !negb_false_iff, bool_decide_eq_true, amount_ok_iff, validate_pay_to_ok,
    free_tier_validate_ok, paid_tier_validate_ok, validate_discovery_metadata_ok, !for_each_ok,
    policies_ok.
  setoid_rewrite route_ok.
  assert (∀ b url, match b with Redis => is_empty url | Memory => false end = false ↔
                   (b = Redis → url ≠ "")) as ->.
  { intros [] url; [by split|]. rewrite is_empty_false. naive_solver. }
  assert (∀ (r : result bytes ConfigError),
    (_ <-? r ;; Ok ()) = Ok () ↔ ∃ key, r = Ok key) as ->.
  { intros []; naive_solver. }
  setoid_rewrite hmac_key_ok.
  split.
  - intros (? & ? & ? & ? & [? ?] & ? & ? & ? & ? & ?). split; try done; by split.
  - intros [? [? ? ? ? ?] ? ? ? ? ?]. cbn [payment free_tier paid_tier] in *. by split_and!.
Qed.

Lemma runnable_terms (c : Config) path pol : runnable c → valid_terms (policy_for c path pol).
Proof.
  intros [_ Hterms _ Hpol Hroutes _ _].
  rewrite policy_for_unfold. cbv zeta.
  destruct (pol ≫= _) as [[name o]|] eqn:E.
  - apply relabel_valid, apply_to_valid; [|done].
    destruct pol as [n|]; [|done]. cbn in E.
    destruct (policies c !! n) eqn:En; [|done]. simplify_eq/=. by eapply Hpol.
  - destruct (longest path (routes c)) as [r|] eqn:Er; [|done].
    apply relabel_valid, apply_to_valid; [|done].
    apply max_by_key_elem, matching_In in Er as [Hr _]. by apply Hroutes.
Qed.

(** C17: What [validate] accepts, exactly.  A configuration is accepted if and
    only if every default and every override could be served: the scheme is
    exact; amounts parse as u128; wallets are 0x and 64 hex digits, not all
    zero; no window, lifetime or quota is zero; the service name and at most
    five tags are ASCII of at most 32 bytes (control characters pass, although
    the errors say printable), and the icon an http(s) URL of at most 2048;
    prefixes are not empty; a Redis store has a URL; and the session secret is
    not empty, not the published placeholder up to surrounding space, and the
    hex of at least 32 bytes. *)
Theorem validate_accepts_exactly_the_runnable (c : Config) :
  validate c = Ok () ↔ runnable c.
Proof. apply validate_ok. Qed.

(** C21: A validated configuration never serves unusable terms: whatever path
    and policy name a request comes with, the terms it is given have a price
    that parses, a real wallet, and no zero window, lifetime or quota. *)
Theorem every_request_gets_valid_terms (c : Config) (path : string) (pol : option string)
    (Hv : validate c = Ok ()) :
  valid_terms (policy_for c path pol).
Proof. by apply runnable_terms, validate_ok. Qed.
End Properties.

(** The order of precedence.  A configured policy name decides; failing
    that a longest matching prefix; failing that the defaults.  The label says
    which it was. *)
Theorem policy_precedence (c : Config) (path : string) (pol : option string) :
  let base := {| label := DEFAULT_POLICY_LABEL; payment := c.(cfg_payment);
                 free_tier := c.(cfg_free_tier); paid_tier := c.(cfg_paid_tier) |} in
  let r := policy_for c path pol in
  (∃ name o, pol = Some name ∧ c.(policies) !! name = Some o ∧
     label r = name ∧ payment r = apply_payment o c.(cfg_payment) ∧
     free_tier r = unwrap_or o.(ov_free_tier) c.(cfg_free_tier) ∧
     paid_tier r = unwrap_or o.(ov_paid_tier) c.(cfg_paid_tier)) ∨
  ((∀ name, pol = Some name → is_unknown_policy c name = true) ∧
   ((∃ x, x ∈ c.(routes) ∧ starts_with x.(path_prefix) path = true ∧
       (∀ x', x' ∈ c.(routes) → starts_with x'.(path_prefix) path = true →
              (slen x'.(path_prefix) ≤ slen x.(path_prefix))%nat) ∧
       label r = x.(path_prefix) ∧ payment r = apply_payment x.(overrides) c.(cfg_payment) ∧
       free_tier r = unwrap_or x.(overrides).(ov_free_tier) c.(cfg_free_tier) ∧
       paid_tier r = unwrap_or x.(overrides).(ov_paid_tier) c.(cfg_paid_tier)) ∨
    ((∀ x, x ∈ c.(routes) → starts_with x.(path_prefix) path = false) ∧ r = base))).
Proof.
  intros base r. subst r. rewrite policy_for_unfold. cbv zeta.
  assert (∀ name, pol = Some name →
    pol ≫= (λ name, pair name <$> policies c !! name) = None → is_unknown_policy c name = true) as Hunk.
  { intros name -> Hn. unfold is_unknown_policy. apply bool_decide_eq_true.
    cbn in Hn. by destruct (policies c !! name). }
  destruct (pol ≫= _) as [[name o]|] eqn:E.
  - left. destruct pol as [n|]; [|done]. cbn in E.
    destruct (policies c !! n) eqn:En; [|done]. simplify_eq/=. by exists name, o.
  - right. split; [intros name Hn; by apply Hunk|].
    destruct (longest path (routes c)) as [x|] eqn:Ex.
    + left. exists x. pose proof (max_by_key_elem _ _ _ Ex) as [Hin Hs]%matching_In.
      split_and!; try done. intros x' Hx' Hs'.
      eapply (max_by_key_max (λ r, slen r.(path_prefix))); [exact Ex|]. by apply matching_In.
    + right. split; [|done]. intros x Hx. apply max_by_key_None in Ex.
      apply not_true_is_false. intros Hs.
      assert (x ∈ matching path (routes c)) as Hc by by apply matching_In.
      rewrite Ex in Hc. by apply elem_of_nil in Hc.
Qed.

(** The order of the routes in the file is irrelevant, as long as no
    prefix is given twice. *)
Theorem route_order_is_irrelevant (c c' : Config) (path : string) (pol : option string)
    (Hperm : c.(routes) ≡ₚ c'.(routes)) (Hnd : NoDup (path_prefix <$> c.(routes)))
    (Hpol : c.(policies) = c'.(policies)) (Hpay : c.(cfg_payment) = c'.(cfg_payment))
    (Hfree : c.(cfg_free_tier) = c'.(cfg_free_tier)) (Hpaid : c.(cfg_paid_tier) = c'.(cfg_paid_tier)) :
  policy_for c path pol = policy_for c' path pol.
Proof.
  rewrite !policy_for_unfold, <- Hpol, <- Hpay, <- Hfree, <- Hpaid.
  assert (longest path (routes c) = longest path (routes c')) as ->; [|done].
  assert (NoDup (path_prefix <$> routes c')) as Hnd' by by rewrite <- Hperm.
  assert (∀ r, longest path (routes c) = Some r ↔ longest path (routes c') = Some r) as Hiff.
  { intros r. rewrite !longest_unique by done. by setoid_rewrite Hperm. }
  destruct (longest path (routes c)) as [a|] eqn:Ea.
  - symmetry. by apply Hiff.
  - destruct (longest path (routes c')) as [b|] eqn:Eb; [|done]. by destruct (Hiff b) as [_ <-].
Qed.

(** The warning about sub-cent prices is exact: the default terms and each
    named policy are warned about just when their own price, at their own
    decimals, is positive and below a hundredth of a whole unit. *)
Theorem sub_cent_prices_are_warned_about (c : Config) (name a : string) (d v : Z)
    (Hd : 2 ≤ d ≤ 38) (Hv : parse_u128 a = Some v)
    (Hin : (name, a, d) ∈ priced_policies c) :
  (name, a, d) ∈ warn_if_below_the_gasless_floor c ↔ 0 < v ∧ 100 * v < 10 ^ d.
Proof.
  unfold warn_if_below_the_gasless_floor. rewrite list_elem_of_In, List.filter_In, Hv.
  rewrite <- list_elem_of_In, andb_true_iff, !Z.ltb_lt.
  assert (gasless_minimum_base_units d = 10 ^ (d - 2) ∧ 10 ^ d = 100 * 10 ^ (d - 2)) as [-> ->].
  { unfold gasless_minimum_base_units, sat_pow_u128.
    assert (10 ^ d = 10 ^ (d - 2) * 100) as Hp.
    { replace d with (d - 2 + 2) at 1 by lia. rewrite Z.pow_add_r by lia. done. }
    assert (10 ^ d ≤ 10 ^ 38) by (apply Z.pow_le_mono_r; lia).
    rewrite Z.min_r by (unfold u128_max; lia).
    split; [rewrite Hp; by apply Z.div_mul | lia]. }
  split; [naive_solver lia|]. intros. split; [done|]. lia.
Qed.

(** Wallets from the environment win: once loaded, a policy with a wallet
    variable is paid to that wallet and no other, likewise the default terms,
    and the session key is of at least 32 bytes. *)
Theorem loaded_configuration `{!Codecs} (file : result Config ConfigError)
    (env : string → option string) (c : Config) (Hl : load file env = Ok c) :
  runnable c ∧
  (∀ name o a, c.(policies) !! name = Some o → env (pay_to_env_var name) = Some a →
     (policy_for c "" (Some name)).(payment).(pay_to) = a) ∧
  (∀ a, env ENV_PAY_TO = Some a → c.(cfg_payment).(pay_to) = a) ∧
  (∀ key, hmac_key c = Ok key → (32 ≤ length key)%nat).
Proof.
  unfold load in Hl. destruct file as [c0|]; [|done].
  apply question_ok in Hl as [Hval [= <-]].
  split; [by apply validate_ok|]. split_and!.
  - intros name o a Ho Ha. rewrite policy_for_unfold. cbv zeta. cbn [mbind option_bind].
    rewrite Ho. cbn. revert Ho. unfold with_env. cbn [policies]. rewrite map_lookup_imap, Ha.
    by destruct (policies c0 !! name) as [o0|]; intros [= <-].
  - intros a Ha. unfold with_env. cbn [cfg_payment]. by rewrite Ha.
  - by intros key [_ _ _ ?]%hmac_key_ok.
Qed.

(** ** The properties at concrete inputs *)

Definition demo_wallet : string :=
  "0x00000000000000000000000000000000000000000000000000000000000000a1".
Definition demo_payment : PaymentConfig :=
  {| scheme := "exact"; network := "sui:testnet"; amount := "10000"; asset := "0x2::usdc::USDC";
     asset_decimals := 6; pay_to := demo_wallet; max_timeout_seconds := 60;
     description := "Sui RPC"; service_name := Some "sui rpc"; tags := ["sui"; "rpc"];
     icon_url := Some "https://example.com/i.png"; gas_station := None |}.
Definition no_override : PaymentOverride :=
  {| ov_pay_to := None; ov_amount := None; ov_asset := None; ov_asset_decimals := None;
     ov_description := None; ov_free_tier := None; ov_paid_tier := None |}.
Definition price_override (a : string) : PaymentOverride :=
  {| ov_pay_to := None; ov_amount := Some a; ov_asset := None; ov_asset_decimals := None;
     ov_description := None; ov_free_tier := None; ov_paid_tier := None |}.
Definition demo_config_with (secret : string) (rs : list RouteOverride) : Config :=
  {| listen_addr := {| addr_ip := V4 127 0 0 1; addr_port := 50051 |};
     metrics_listen_addr := None; facilitator_api_listen_addr := None;
     sui_grpc_url := "https://fullnode.testnet.sui.io"; sui_chain := "testnet";
     verification_mode := SuiGrpc; cfg_payment := demo_payment;
     policies := {[ "graphql" := price_override "25000"; "cheap" := price_override "900" ]};
     routes := rs;
     cfg_free_tier := {| max_requests := 5; free_window_secs := 60 |};
     cfg_paid_tier := {| paid_quota := 1000; duration_secs := 3600 |};
     store := {| backend := Memory; redis_url := "" |};
     session_hmac_secret := secret |}.
Definition demo_secret : string :=
  "0102030405060708090a0b0c0d0e0f101112131415161718191a1b1c1d1e1f20".
Definition demo_routes : list RouteOverride :=
  [ {| path_prefix := "/"; overrides := no_override |};
    {| path_prefix := "/sui.rpc.v2."; overrides := price_override "50000" |} ].
Definition demo_config : Config := demo_config_with demo_secret demo_routes.

Lemma every_request_gets_valid_terms_witness :
  validate demo_config = Ok () ∧ valid_terms (policy_for demo_config "/graphql" (Some "graphql")).
Proof.
  assert (H : validate demo_config = Ok ()) by (vm_compute; reflexivity).
  split; [exact H | exact (every_request_gets_valid_terms demo_config _ _ H)].
Defined.

Lemma route_order_is_irrelevant_witness :
  label (policy_for demo_config "/sui.rpc.v2.Ledger" None) = "/sui.rpc.v2." ∧
  policy_for demo_config "/sui.rpc.v2.Ledger" None
    = policy_for (demo_config_with demo_secret (reverse demo_routes)) "/sui.rpc.v2.Ledger" None.
Proof.
  split; [vm_compute; reflexivity|].
  apply (route_order_is_irrelevant demo_config (demo_config_with demo_secret (reverse demo_routes)));
    try reflexivity.
  - symmetry. apply reverse_Permutation.
  - cbn. repeat (apply NoDup_cons; split); [|set_solver|by constructor].
    rewrite list_elem_of_singleton. discriminate.
Defined.

Lemma sub_cent_prices_are_warned_about_witness :
  ("cheap", "900", 6) ∈ warn_if_below_the_gasless_floor demo_config ↔ 0 < 900 ∧ 100 * 900 < 10 ^ 6.
Proof.
  apply (sub_cent_prices_are_warned_about demo_config "cheap" "900" 6 900); [lia|vm_compute; reflexivity|].
  apply (bool_decide_unpack _). vm_compute. exact I.
Defined.

Lemma loaded_configuration_witness :
  let env := λ v, if bool_decide (v = "X402_PAY_TO_GRAPHQL") then Some demo_wallet else None in
  (policy_for (with_env env demo_config) "" (Some "graphql")).(payment).(pay_to) = demo_wallet.
Proof.
  intros env.
  assert (H : load (Ok demo_config) env = Ok (with_env env demo_config)) by (vm_compute; reflexivity).
  destruct (loaded_configuration (Ok demo_config) env _ H) as (_ & Hpol & _).
  assert (Hp : policies (with_env env demo_config) !! "graphql"
    = Some (override_pay_to (price_override "25000") demo_wallet)) by (vm_compute; reflexivity).
  exact (Hpol "graphql" _ demo_wallet Hp eq_refl).
Defined.

(** The published session key is refused only in its own spelling.  The
    placeholder secret of the example configuration in capitals decodes to the
    same key bytes and is accepted. *)
Theorem placeholder_key_in_capitals_is_accepted :
  let capitals := to_ascii_uppercase PLACEHOLDER_HMAC_SECRET in
  hmac_key (demo_config_with PLACEHOLDER_HMAC_SECRET []) = Err PlaceholderSecret ∧
  validate (demo_config_with capitals []) = Ok () ∧
  result_ok (hmac_key (demo_config_with capitals [])) = hex_decode PLACEHOLDER_HMAC_SECRET.
Proof. vm_compute. split_and!; reflexivity. Qed.
