(* ===== verification/Json.v ===== *)
(** * JSON values and the serde conventions of the wire types

    [serde_json] is a dependency: its text parser and printer are the fields
    of a class with the round trip as law.  What the derives of the repository
    mean is modelled: named fields, defaults, [Option] and [null], duplicate
    fields, and the positional form every derived struct also accepts. *)

From Stdlib Require Import Strings.Byte.
From S2P Require Import Prelude RustStr Platform.
From stdpp Require Import options.
#[local] Open Scope Z_scope.

(** [serde_json::Value]; a number by its decimal text, an object by its
    members in order, the last of equal keys being the one that counts. *)
#[warnings="-register-all"]
Inductive Value :=
| Null
| Bool (b : bool)
| Number (text : string)
| Str (s : string)
| Array (l : list Value)
| Object (members : list (string * Value)).

Class Json := {
  json_text : Value → bytes;
  json_parse : bytes → result Value string;     (* the error is its message *)
  json_error : Value → string                   (* why a value is not of a type *)
}.

Fixpoint last_assoc {A} (k : string) (l : list (string * A)) : option A :=
  match l with
  | [] => None
  | (k', a) :: l => match last_assoc k l with
                    | Some b => Some b
                    | None => if String.eqb k k' then Some a else None
                    end
  end.

(** [Value::get] and [Value::as_str]. *)
Definition get (v : Value) (k : string) : option Value :=
  match v with Object m => last_assoc k m | _ => None end.
Definition as_str (v : Value) : option string :=
  match v with Str s => Some s | _ => None end.

Definition u64_value (z : Z) : Value := Number (u_to_string z).

(** ** Deserializing *)

Definition occurrences (k : string) {A} (m : list (string * A)) : nat :=
  length (List.filter (λ p, String.eqb k p.1) m).

Fixpoint index_of (k : string) (l : list string) : option nat :=
  match l with
  | [] => None
  | k' :: l => if String.eqb k k' then Some 0%nat else S <$> index_of k l
  end.

(** The fields of a struct in a value: by name in an object, by position in an
    array.  Read from text, a known field may not come twice ([strict]). *)
Definition fields (strict : bool) (names : list string) (v : Value) :
  option (string → option Value) :=
  match v with
  | Object m =>
      if strict && existsb (λ k, (1 <? occurrences k m)%nat) names then None
      else Some (λ k, last_assoc k m)
  | Array l =>
      if (length names <? length l)%nat then None
      else Some (λ k, i ← index_of k names; l !! i)
  | _ => None
  end.

Definition req {A} (rd : Value → option A) (f : string → option Value) (k : string) : option A :=
  f k ≫= rd.

(** [#[serde(default)]] on an [Option]: absent and [null] are both [None]. *)
Definition opt {A} (rd : Value → option A) (f : string → option Value) (k : string) :
  option (option A) :=
  match f k with
  | None | Some Null => Some None
  | Some v => Some <$> rd v
  end.

Definition of_string : Value → option string := as_str.
Definition of_bool (v : Value) : option bool := match v with Bool b => Some b | _ => None end.
Definition of_value (v : Value) : option Value := Some v.
Definition of_uint (max : Z) (v : Value) : option Z :=
  match v with
  | Number t => match parse_digits t with
                | Some z => if z <=? max then Some z else None
                | None => None
                end
  | _ => None
  end.
Definition of_u64 : Value → option Z := of_uint u64_max.
Definition of_u32 : Value → option Z := of_uint (2 ^ 32 - 1).
Fixpoint of_each {A} (rd : Value → option A) (l : list Value) : option (list A) :=
  match l with
  | [] => Some []
  | v :: l => a ← rd v; r ← of_each rd l; Some (a :: r)
  end.
Definition of_list {A} (rd : Value → option A) (v : Value) : option (list A) :=
  match v with Array l => of_each rd l | _ => None end.

(** ** Serializing *)

Definition always (k : string) (v : Value) : list (string * Value) := [(k, v)].
(** [skip_serializing_if = "Option::is_none"]. *)
Definition unless_none {A} (to : A → Value) (k : string) (o : option A) : list (string * Value) :=
  match o with Some a => [(k, to a)] | None => [] end.

(** ** Laws *)

(** Numbers are written as naturals. *)
Fixpoint naturals (v : Value) : Prop :=
  match v with
  | Number t => ∃ z, 0 ≤ z ∧ t = u_to_string z
  | Array l => (fix go l := match l with [] => True | v :: l => naturals v ∧ go l end) l
  | Object m => (fix go m := match m with [] => True | (_, v) :: m => naturals v ∧ go m end) m
  | _ => True
  end.

(** How deep arrays and objects are nested; serde_json reads up to 127 levels. *)
Fixpoint depth (v : Value) : nat :=
  match v with
  | Array l => S ((fix go l := match l with [] => 0%nat | v :: l => Nat.max (depth v) (go l) end) l)
  | Object m => S ((fix go m := match m with [] => 0%nat | (_, v) :: m => Nat.max (depth v) (go m) end) m)
  | _ => 0%nat
  end.

Definition json_ok (v : Value) : Prop := naturals v ∧ (depth v < 128)%nat.

Class JsonLaws `{!Json} := {
  json_parse_text v : json_ok v → json_parse (json_text v) = Ok v
}.

Lemma of_uint_print max z : 0 ≤ z ≤ max → of_uint max (u64_value z) = Some z.
Proof.
  intros [? ?]. cbn. rewrite parse_digits_print by done. by rewrite (proj2 (Z.leb_le _ _)).
Qed.

Lemma naturals_u64 z : 0 ≤ z → naturals (u64_value z).
Proof. intros. by exists z. Qed.

Lemma of_each_fmap {A} (rd : Value → option A) (to : A → Value) l :
  (∀ a, rd (to a) = Some a) → of_each rd (to <$> l) = Some l.
Proof. intros Hr. induction l as [|a l IH]; [done|]. cbn in *. by rewrite Hr, IH. Qed.

Lemma last_assoc_app {A} k (l1 l2 : list (string * A)) :
  last_assoc k (l1 ++ l2) = or_else (last_assoc k l2) (last_assoc k l1).
Proof.
  induction l1 as [|[k' a] l1 IH]; simpl; [by destruct (last_assoc k l2)|].
  rewrite IH. by destruct (last_assoc k l2), (last_assoc k l1).
Qed.

Lemma last_assoc_unless_none {A} (to : A → Value) k k' o :
  last_assoc k (unless_none to k' o) = if String.eqb k k' then to <$> o else None.
Proof. destruct o; simpl; [done | by destruct (String.eqb k k')]. Qed.

Lemma occurrences_app {A} k (l1 l2 : list (string * A)) :
  occurrences k (l1 ++ l2) = (occurrences k l1 + occurrences k l2)%nat.
Proof. unfold occurrences. by rewrite List.filter_app, length_app. Qed.

Lemma occurrences_unless_none {A} (to : A → Value) k k' o :
  occurrences k (unless_none to k' o) =
  if String.eqb k k' then (if is_some_b o then 1 else 0)%nat else 0%nat.
Proof. unfold occurrences. destruct o; simpl; by destruct (String.eqb k k'). Qed.

(** ** A concrete text codec

    A prefix code in place of JSON's text; for evaluating the model on
    concrete inputs. *)

Section ValueInd.
Context (P : Value → Prop).
Context (HNull : P Null) (HBool : ∀ b, P (Bool b)) (HNumber : ∀ t, P (Number t))
  (HStr : ∀ s, P (Str s)) (HArray : ∀ l, Forall P l → P (Array l))
  (HObject : ∀ m, Forall (λ kv, P kv.2) m → P (Object m)).

Fixpoint Value_rec' (v : Value) : P v :=
  match v with
  | Null => HNull | Bool b => HBool b | Number t => HNumber t | Str s => HStr s
  | Array l => HArray l ((fix go l : Forall P l :=
      match l with [] => Forall_nil_2 _ | v :: l => Forall_cons_2 _ _ _ (Value_rec' v) (go l) end) l)
  | Object m => HObject m ((fix go m : Forall (λ kv, P kv.2) m :=
      match m with
      | [] => Forall_nil_2 _
      | kv :: m => Forall_cons_2 _ kv _ (Value_rec' kv.2) (go m)
      end) m)
  end.
End ValueInd.

(** A string: a mark before each character, a zero at the end; lists alike. *)
Fixpoint ser_str (s : string) : bytes :=
  match s with
  | EmptyString => [x00]
  | String c s => x01 :: Ascii.byte_of_ascii c :: ser_str s
  end.
Fixpoint ser (v : Value) : bytes :=
  match v with
  | Null => [x30]
  | Bool b => [if b then x31 else x32]
  | Number t => x33 :: ser_str t
  | Str s => x34 :: ser_str s
  | Array l => x35 :: (fix go l := match l with [] => [x00] | v :: l => x01 :: ser v ++ go l end) l
  | Object m =>
      x36 :: (fix go m := match m with
                          | [] => [x00]
                          | (k, v) :: m => x01 :: ser_str k ++ ser v ++ go m
                          end) m
  end.
Definition ser_list : list Value → bytes :=
  fix go l := match l with [] => [x00] | v :: l => x01 :: ser v ++ go l end.
Definition ser_members : list (string * Value) → bytes :=
  fix go m := match m with [] => [x00] | (k, v) :: m => x01 :: ser_str k ++ ser v ++ go m end.

Fixpoint de_str (b : bytes) : option (string * bytes) :=
  match b with
  | x00 :: b => Some (EmptyString, b)
  | x01 :: c :: b => '(s, b) ← de_str b; Some (String (Ascii.ascii_of_byte c) s, b)
  | _ => None
  end.
Fixpoint de (n : nat) (b : bytes) : option (Value * bytes) :=
  match n with
  | O => None
  | S n =>
      match b with
      | x30 :: b => Some (Null, b)
      | x31 :: b => Some (Bool true, b)
      | x32 :: b => Some (Bool false, b)
      | x33 :: b => '(t, b) ← de_str b; Some (Number t, b)
      | x34 :: b => '(s, b) ← de_str b; Some (Str s, b)
      | x35 :: b => '(l, b) ← de_list n b; Some (Array l, b)
      | x36 :: b => '(m, b) ← de_members n b; Some (Object m, b)
      | _ => None
      end
  end
with de_list (n : nat) (b : bytes) : option (list Value * bytes) :=
  match n with
  | O => None
  | S n =>
      match b with
      | x00 :: b => Some ([], b)
      | x01 :: b => '(v, b) ← de n b; '(l, b) ← de_list n b; Some (v :: l, b)
      | _ => None
      end
  end
with de_members (n : nat) (b : bytes) : option (list (string * Value) * bytes) :=
  match n with
  | O => None
  | S n =>
      match b with
      | x00 :: b => Some ([], b)
      | x01 :: b => '(k, b) ← de_str b; '(v, b) ← de n b; '(m, b) ← de_members n b;
                    Some ((k, v) :: m, b)
      | _ => None
      end
  end.

Lemma de_ser_str s rest : de_str (ser_str s ++ rest) = Some (s, rest).
Proof.
  induction s as [|c s IH]; [done|]. cbn. rewrite IH. cbn.
  by rewrite Ascii.ascii_of_byte_of_ascii.
Qed.

Lemma de_ser v n rest : (length (ser v) ≤ n)%nat → de n (ser v ++ rest) = Some (v, rest).
Proof.
  revert n rest. induction v as [ | | | |l IH|m IH] using Value_rec'; intros [|n] rest Hn;
    try (exfalso; cbn in Hn; lia); try done; cbn [ser List.app de].
  - by destruct b.
  - by rewrite de_ser_str.
  - by rewrite de_ser_str.
  - change (length (ser_list l) < S n)%nat in Hn. fold ser_list.
    enough (de_list n (ser_list l ++ rest) = Some (l, rest)) as -> by done.
    revert n Hn. induction IH as [|v l Hv _ IHl]; intros [|n] Hn; try (cbn in Hn; lia); [done|].
    cbn [ser_list] in *. cbn [length] in Hn. rewrite length_app in Hn.
    cbn [List.app de_list]. rewrite <- app_assoc, Hv by lia. cbn. by rewrite IHl by lia.
  - change (length (ser_members m) < S n)%nat in Hn. fold ser_members.
    enough (de_members n (ser_members m ++ rest) = Some (m, rest)) as -> by done.
    revert n Hn. induction IH as [|[k v] m Hv _ IHl]; intros [|n] Hn; try (cbn in Hn; lia); [done|].
    cbn [ser_members] in *. cbn [length] in Hn. rewrite !length_app in Hn.
    cbn [List.app de_members snd] in *. rewrite <- !app_assoc, de_ser_str. cbn.
    rewrite Hv by lia. cbn. by rewrite IHl by lia.
Qed.

#[export] Instance model_json : Json := {
  json_text v := ser v;
  json_parse b := match de (length b) b with
                  | Some (v, []) => Ok v
                  | _ => Err "expected value at line 1 column 1"
                  end;
  json_error _ := "invalid type"
}.

#[export] Instance model_json_laws : JsonLaws.
Proof.
  split. intros v _. cbn.
  rewrite <- (app_nil_r (ser v)) at 2. by rewrite (de_ser v) by lia.
Qed.
