(* ===== verification/X402.v ===== *)
(** * Wire types, payment identity and errors of x402 ([src/x402.rs])

    The records are the derived (de)serializers' as well as the program's:
    [json_of_...] is what [Serialize] writes and [..._of_json] what
    [Deserialize] accepts, camelCase names, skipped and defaulted fields
    included. *)

From Stdlib Require Import Ascii.
From S2P Require Import Prelude RustStr Platform Config Json.
From stdpp Require Import options.
#[local] Open Scope Z_scope.

Definition X402_VERSION : Z := 2.
Definition HEADER_PAYMENT_SIGNATURE : string := "payment-signature".
Definition HEADER_PAYMENT_SESSION : string := "x-payment-session".
Definition HEADER_PAYMENT_REQUIRED : string := "PAYMENT-REQUIRED".
Definition HEADER_PAYMENT_RESPONSE : string := "PAYMENT-RESPONSE".
Definition SESSION_EXTENSION : string := "sui-x402-verifier.session.v1".

Record ResourceInfo := mkResourceInfo {
  ri_url : string;
  ri_description : option string;
  ri_mime_type : option string;
  ri_service_name : option string;
  ri_tags : option (list string);
  ri_icon_url : option string
}.

Record PaymentRequirements := mkRequirements {
  pr_scheme : string;
  pr_network : string;
  pr_amount : string;
  pr_asset : string;
  pr_pay_to : string;
  pr_max_timeout_seconds : Z;
  pr_extra : option Value
}.

Definition from_config (p : PaymentConfig) : PaymentRequirements :=
  {| pr_scheme := p.(scheme); pr_network := p.(network); pr_amount := p.(amount);
     pr_asset := p.(asset); pr_pay_to := p.(pay_to);
     pr_max_timeout_seconds := p.(max_timeout_seconds);
     pr_extra := (λ url, Object [("gasStation", Str url)]) <$> p.(gas_station) |}.

Record PaymentRequired := mkRequired {
  rq_x402_version : Z;
  rq_error : option string;
  rq_resource : ResourceInfo;
  rq_accepts : list PaymentRequirements;
  rq_extensions : option Value
}.

(** [PaymentRequired::new]. *)
Definition payment_required (error : string) (resource : ResourceInfo)
    (accepts : list PaymentRequirements) : PaymentRequired :=
  {| rq_x402_version := X402_VERSION; rq_error := Some error; rq_resource := resource;
     rq_accepts := accepts; rq_extensions := None |}.
Definition with_extensions (c : PaymentRequired) (e : option Value) : PaymentRequired :=
  {| rq_x402_version := rq_x402_version c; rq_error := rq_error c; rq_resource := rq_resource c;
     rq_accepts := rq_accepts c; rq_extensions := e |}.

Record SuiExactPayload := mkSuiPayload { signature : string; transaction : string }.

Record PaymentPayload := mkPayload {
  pp_x402_version : Z;
  pp_resource : option ResourceInfo;
  pp_accepted : PaymentRequirements;
  pp_payload : Value;
  pp_extensions : option Value
}.

Record SettlementResponse := mkSettlement {
  sr_success : bool;
  sr_error_reason : option string;
  sr_payer : option string;
  sr_transaction : string;
  sr_network : string;
  sr_amount : option string;
  sr_extensions : option Value
}.

Record VerifyResponse := mkVerifyResponse {
  vr_is_valid : bool; vr_invalid_reason : option string; vr_payer : option string }.

Record SupportedKind := mkSupportedKind {
  sk_x402_version : Z; sk_scheme : string; sk_network : string; sk_extra : option Value }.
Record SupportedResponse := mkSupported {
  su_kinds : list SupportedKind; su_extensions : list string; su_signers : gmap string (list string) }.

Record FacilitatorRequest := mkFacilitatorRequest {
  fr_x402_version : Z; fr_payload : PaymentPayload; fr_requirements : PaymentRequirements }.

(** ** The session extension *)

Definition session_extension_advertisement (quota duration_secs : Z) (header : string) : Value :=
  Object [(SESSION_EXTENSION, Object
    [("info", Object
       [("description", Str "A settled payment mints a reusable session token                                 covering many requests, returned in the                                 PAYMENT-RESPONSE extensions and presented on                                 subsequent requests.");
        ("header", Str header); ("quota", u64_value quota);
        ("durationSeconds", u64_value duration_secs)]);
     ("schema", Object
       [("$schema", Str "https://json-schema.org/draft/2020-12/schema");
        ("type", Str "object"); ("required", Array [Str "token"]);
        ("properties", Object
          [("token", Object [("type", Str "string");
             ("description", Str "Opaque session token. Present it on later                                         requests to reuse the paid tier.")]);
           ("quota", Object [("type", Str "integer"); ("minimum", u64_value 0)]);
           ("durationSeconds", Object [("type", Str "integer"); ("minimum", u64_value 0)])])])])].

Definition session_extension_grant (token : string) (quota duration_secs : Z) : Value :=
  Object [(SESSION_EXTENSION, Object
    [("info", Object [("token", Str token); ("quota", u64_value quota);
                      ("durationSeconds", u64_value duration_secs)])])].

Definition session_token_from_extensions (extensions : option Value) : option string :=
  extensions ≫= λ e, get e SESSION_EXTENSION ≫= λ s, get s "info" ≫= λ i, get i "token" ≫= as_str.

(** ** JSON *)

Definition json_of_strings (l : list string) : Value := Array (Str <$> l).
Definition of_strings : Value → option (list string) := of_list of_string.

Definition resource_names : list string :=
  ["url"; "description"; "mimeType"; "serviceName"; "tags"; "iconUrl"].
Definition json_of_resource (r : ResourceInfo) : Value :=
  Object (always "url" (Str r.(ri_url)) ++ unless_none Str "description" r.(ri_description) ++
          unless_none Str "mimeType" r.(ri_mime_type) ++
          unless_none Str "serviceName" r.(ri_service_name) ++
          unless_none json_of_strings "tags" r.(ri_tags) ++
          unless_none Str "iconUrl" r.(ri_icon_url)).
Definition resource_of_json (v : Value) : option ResourceInfo :=
  f ← fields true resource_names v;
  url ← req of_string f "url"; d ← opt of_string f "description";
  m ← opt of_string f "mimeType"; s ← opt of_string f "serviceName";
  t ← opt of_strings f "tags"; i ← opt of_string f "iconUrl";
  Some (mkResourceInfo url d m s t i).

Definition requirements_names : list string :=
  ["scheme"; "network"; "amount"; "asset"; "payTo"; "maxTimeoutSeconds"; "extra"].
Definition json_of_requirements (r : PaymentRequirements) : Value :=
  Object (always "scheme" (Str r.(pr_scheme)) ++ always "network" (Str r.(pr_network)) ++
          always "amount" (Str r.(pr_amount)) ++ always "asset" (Str r.(pr_asset)) ++
          always "payTo" (Str r.(pr_pay_to)) ++
          always "maxTimeoutSeconds" (u64_value r.(pr_max_timeout_seconds)) ++
          unless_none id "extra" r.(pr_extra)).
Definition requirements_of_json (v : Value) : option PaymentRequirements :=
  f ← fields true requirements_names v;
  s ← req of_string f "scheme"; n ← req of_string f "network"; a ← req of_string f "amount";
  c ← req of_string f "asset"; p ← req of_string f "payTo";
  m ← req of_u64 f "maxTimeoutSeconds"; e ← opt of_value f "extra";
  Some (mkRequirements s n a c p m e).

Definition required_names : list string := ["x402Version"; "error"; "resource"; "accepts"; "extensions"].
Definition json_of_required (r : PaymentRequired) : Value :=
  Object (always "x402Version" (u64_value r.(rq_x402_version)) ++
          unless_none Str "error" r.(rq_error) ++
          always "resource" (json_of_resource r.(rq_resource)) ++
          always "accepts" (Array (json_of_requirements <$> r.(rq_accepts))) ++
          unless_none id "extensions" r.(rq_extensions)).
Definition required_of_json (v : Value) : option PaymentRequired :=
  f ← fields true required_names v;
  x ← req of_u32 f "x402Version"; e ← opt of_string f "error";
  r ← req resource_of_json f "resource"; a ← req (of_list requirements_of_json) f "accepts";
  o ← opt of_value f "extensions";
  Some (mkRequired x e r a o).

(** [from_value] on an already parsed value: duplicates are gone. *)
Definition sui_payload_of_json (v : Value) : option SuiExactPayload :=
  f ← fields false ["signature"; "transaction"] v;
  s ← req of_string f "signature"; t ← req of_string f "transaction";
  Some (mkSuiPayload s t).
Definition json_of_sui_payload (p : SuiExactPayload) : Value :=
  Object (always "signature" (Str p.(signature)) ++ always "transaction" (Str p.(transaction))).

Definition payload_names : list string :=
  ["x402Version"; "resource"; "accepted"; "payload"; "extensions"].
Definition json_of_payload (p : PaymentPayload) : Value :=
  Object (always "x402Version" (u64_value p.(pp_x402_version)) ++
          unless_none json_of_resource "resource" p.(pp_resource) ++
          always "accepted" (json_of_requirements p.(pp_accepted)) ++
          always "payload" p.(pp_payload) ++
          unless_none id "extensions" p.(pp_extensions)).
Definition payload_of_json (v : Value) : option PaymentPayload :=
  f ← fields true payload_names v;
  x ← req of_u32 f "x402Version"; r ← opt resource_of_json f "resource";
  a ← req requirements_of_json f "accepted"; p ← req of_value f "payload";
  e ← opt of_value f "extensions";
  Some (mkPayload x r a p e).

Definition settlement_names : list string :=
  ["success"; "errorReason"; "payer"; "transaction"; "network"; "amount"; "extensions"].
Definition json_of_settlement (s : SettlementResponse) : Value :=
  Object (always "success" (Bool s.(sr_success)) ++
          unless_none Str "errorReason" s.(sr_error_reason) ++
          unless_none Str "payer" s.(sr_payer) ++
          always "transaction" (Str s.(sr_transaction)) ++ always "network" (Str s.(sr_network)) ++
          unless_none Str "amount" s.(sr_amount) ++ unless_none id "extensions" s.(sr_extensions)).
Definition settlement_of_json (v : Value) : option SettlementResponse :=
  f ← fields true settlement_names v;
  s ← req of_bool f "success"; e ← opt of_string f "errorReason"; p ← opt of_string f "payer";
  t ← req of_string f "transaction"; n ← req of_string f "network";
  a ← opt of_string f "amount"; x ← opt of_value f "extensions";
  Some (mkSettlement s e p t n a x).

Definition request_of_json (v : Value) : option FacilitatorRequest :=
  f ← fields true ["x402Version"; "paymentPayload"; "paymentRequirements"] v;
  x ← req of_u32 f "x402Version"; p ← req payload_of_json f "paymentPayload";
  r ← req requirements_of_json f "paymentRequirements";
  Some (mkFacilitatorRequest x p r).

(** ** Headers and identity *)

Inductive HeaderDecodeError := BadBase64 (msg : string) | BadJson (msg : string).

Section Codec.
Context `{!Codecs, !Json}.

Definition encode_header (v : Value) : string := b64_encode (json_text v).

Definition decode_header {A} (of_json : Value → option A) (raw : string) :
  result A HeaderDecodeError :=
  match b64_decode (trim raw) with
  | Err e => Err (BadBase64 e)
  | Ok bytes =>
      match json_parse bytes with
      | Err e => Err (BadJson e)
      | Ok v => ok_or (BadJson (json_error v)) (of_json v)
      end
  end.

Definition payment_id (p : PaymentPayload) : option string :=
  sui ← sui_payload_of_json p.(pp_payload);
  bytes ← result_ok (b64_decode (trim sui.(transaction)));
  Some (hex_encode (sha256 bytes)).

Definition stub_payer (transaction_b64 : string) : string :=
  let canonical := match b64_decode (trim transaction_b64) with
                   | Ok b => b
                   | Err _ => as_bytes (trim transaction_b64)
                   end in
  "0x" +:+ hex_encode (sha256 canonical).
End Codec.

(** ** Errors *)

Inductive FacilitatorError :=
| VersionMismatch (got expected : Z)
| SchemeMismatch (got expected : string)
| NetworkMismatch (got expected : string)
| ChainMismatch (reported configured : string)
| AmountMismatch (got expected : string)
| AssetMismatch (got expected : string)
| RecipientMismatch (got expected : string)
| MalformedPayload (scheme detail : string)
| EmptyTransaction
| MissingSignature
| ReplayError (first_seen : Z)
| ReplayCacheUnavailable
| Rpc (detail : string)
| InvalidSignature (detail : string)
| SimulationFailed (detail : string)
| StaleInput (object_id : string) (pinned : Z) (current : option Z)
| SettlementFailed (detail : string)
| InvalidRequirements (detail : string)
| AmountNotCredited (expected credited pay_to asset : string)
| AuthorizationExpired (first_seen window : Z).

Definition code (e : FacilitatorError) : string :=
  match e with
  | VersionMismatch _ _ => "invalid_x402_version"
  | SchemeMismatch _ _ => "invalid_scheme"
  | NetworkMismatch _ _ => "invalid_network"
  | ChainMismatch _ _ => "invalid_network"
  | AmountMismatch _ _ | AssetMismatch _ _ | RecipientMismatch _ _ => "invalid_payment_requirements"
  | MalformedPayload _ _ | EmptyTransaction | MissingSignature => "invalid_payload"
  | ReplayError _ => "invalid_transaction_state"
  | ReplayCacheUnavailable | Rpc _ => "unexpected_verify_error"
  | InvalidSignature _ => "invalid_payload"
  | SimulationFailed _ | StaleInput _ _ _ => "invalid_transaction_state"
  | SettlementFailed _ => "unexpected_settle_error"
  | InvalidRequirements _ | AmountNotCredited _ _ _ _ => "invalid_payment_requirements"
  | AuthorizationExpired _ _ => "invalid_transaction_state"
  end.

(** ** Messages: [#[error(..)]], the [Display] of both error types *)

(** [{:?}] of an [Option<u64>]. *)
Definition debug_option (o : option Z) : string :=
  match o with Some z => "Some(" +:+ u_to_string z +:+ ")" | None => "None" end.

Definition decode_error_text (e : HeaderDecodeError) : string :=
  match e with
  | BadBase64 msg => "header is not valid base64: " +:+ msg
  | BadJson msg => "header is not valid JSON: " +:+ msg
  end.

Definition mismatch (what verb got wants expected : string) : string :=
  what +:+ " mismatch: payment " +:+ verb +:+ " " +:+ debug_str got +:+ ", resource " +:+ wants +:+
  " " +:+ debug_str expected.

Definition error_text (e : FacilitatorError) : string :=
  match e with
  | VersionMismatch got expected =>
      "unsupported x402 version " +:+ u_to_string got +:+ ", expected " +:+ u_to_string expected
  | SchemeMismatch got expected => mismatch "scheme" "is" got "requires" expected
  | NetworkMismatch got expected => mismatch "network" "is" got "requires" expected
  | ChainMismatch reported configured =>
      "the fullnode reports it is serving " +:+ debug_str reported +:+ ", but sui_chain says " +:+
      debug_str configured
  | AmountMismatch got expected => mismatch "amount" "offers" got "costs" expected
  | AssetMismatch got expected => mismatch "asset" "is in" got "requires" expected
  | RecipientMismatch got expected => mismatch "recipient" "pays" got "requires" expected
  | MalformedPayload scheme detail =>
      "payment payload is not a valid " +:+ scheme +:+ " payload: " +:+ detail
  | EmptyTransaction => "payment payload is missing the transaction"
  | MissingSignature => "payment payload carries no signature"
  | ReplayError first_seen =>
      "this payment has already been used (first seen " +:+ u_to_string first_seen +:+ ")"
  | ReplayCacheUnavailable => "the replay cache is unavailable; refusing the payment"
  | Rpc detail => "could not reach the Sui fullnode: " +:+ detail
  | InvalidSignature detail => "signature is not valid over the transaction: " +:+ detail
  | SimulationFailed detail => "transaction would not execute: " +:+ detail
  | StaleInput object_id pinned current =>
      "input object " +:+ object_id +:+ " is pinned at version " +:+ u_to_string pinned +:+
      " but the chain is at " +:+ debug_option current +:+
      ";          the payment authorization is no longer executable"
  | SettlementFailed detail => "settlement failed on chain: " +:+ detail
  | InvalidRequirements detail => "payment requirements are unusable: " +:+ detail
  | AmountNotCredited expected credited pay_to asset =>
      "transaction credits " +:+ pay_to +:+ " with " +:+ credited +:+ " of " +:+ asset +:+
      ", but the resource costs exactly " +:+ expected
  | AuthorizationExpired first_seen window =>
      "the payment authorization has expired (first seen " +:+ u_to_string first_seen +:+
      ", window " +:+ u_to_string window +:+ "s)"
  end.
(** ** Lemmas: the wire format *)

Definition not_null (o : option Value) : Prop := o ≠ Some Null.
Definition is_u32 (z : Z) : Prop := 0 ≤ z ≤ 2 ^ 32 - 1.

Lemma opt_some {A} (rd : Value → option A) (f : string → option Value) k v :
  f k = Some v → v ≠ Null → opt rd f k = Some <$> rd v.
Proof. unfold opt. intros ->. by destruct v. Qed.

Lemma opt_value (f : string → option Value) k o :
  f k = o → not_null o → opt of_value f k = Some o.
Proof.
  intros <- Hn. unfold opt, of_value. destruct (f k) as [v|]; [|done].
  by destruct v.
Qed.

Lemma of_strings_print l : of_strings (json_of_strings l) = Some l.
Proof. by apply of_each_fmap. Qed.

Lemma of_u64_print z : is_u64 z → of_u64 (u64_value z) = Some z.
Proof. apply of_uint_print. Qed.
Lemma of_u32_print z : is_u32 z → of_u32 (u64_value z) = Some z.
Proof. apply of_uint_print. Qed.

(** The named members of an object built from distinct names. *)
Ltac members :=
  cbn -[u64_value of_u64 of_u32 of_strings json_of_strings json_of_resource resource_of_json
        json_of_requirements requirements_of_json of_list opt of_value]; unfold req;
  cbn -[u64_value of_u64 of_u32 of_strings json_of_strings json_of_resource resource_of_json
        json_of_requirements requirements_of_json of_list opt of_value].

Lemma resource_roundtrip r : resource_of_json (json_of_resource r) = Some r.
Proof.
  destruct r as [url [d|] [m|] [s|] [t|] [i|]];
    unfold resource_of_json, json_of_resource; members; unfold opt; members;
    by rewrite ?of_strings_print.
Qed.

Definition wire_requirements (r : PaymentRequirements) : Prop :=
  is_u64 r.(pr_max_timeout_seconds) ∧ not_null r.(pr_extra).

Lemma requirements_roundtrip r :
  wire_requirements r → requirements_of_json (json_of_requirements r) = Some r.
Proof.
  destruct r as [s n a c p m x]. intros [Hm Hx]. cbn [pr_max_timeout_seconds pr_extra] in *.
  unfold requirements_of_json, json_of_requirements.
  destruct x as [x|]; members; rewrite of_u64_print by done; members.
  - by rewrite (opt_value _ _ (Some x)).
  - by rewrite (opt_value _ _ None).
Qed.

Lemma each_requirements l :
  Forall wire_requirements l →
  of_list requirements_of_json (Array (json_of_requirements <$> l)) = Some l.
Proof.
  cbn -[json_of_requirements requirements_of_json].
  induction 1 as [|r l Hr _ IH]; [done|].
  cbn -[json_of_requirements requirements_of_json] in *.
  by rewrite requirements_roundtrip, IH.
Qed.

Record wire_payload (p : PaymentPayload) : Prop := {
  wp_version : is_u32 p.(pp_x402_version);
  wp_accepted : wire_requirements p.(pp_accepted);
  wp_extensions : not_null p.(pp_extensions)
}.

Record wire_required (r : PaymentRequired) : Prop := {
  wr_version : is_u32 r.(rq_x402_version);
  wr_accepts : Forall wire_requirements r.(rq_accepts);
  wr_extensions : not_null r.(rq_extensions)
}.

Lemma payload_roundtrip p : wire_payload p → payload_of_json (json_of_payload p) = Some p.
Proof.
  destruct p as [v r a y x]. intros [Hv Ha Hx].
  cbn [pp_x402_version pp_accepted pp_extensions] in *.
  unfold payload_of_json, json_of_payload.
  destruct r as [r|], x as [x|]; members; rewrite of_u32_print by done; members;
    rewrite ?(opt_some resource_of_json _ _ (json_of_resource r)) by done;
    rewrite ?resource_roundtrip; members; rewrite requirements_roundtrip by done; members;
    change (of_value y) with (Some y); members; (erewrite opt_value; [reflexivity|reflexivity|exact Hx]).
Qed.

Lemma required_roundtrip r : wire_required r → required_of_json (json_of_required r) = Some r.
Proof.
  destruct r as [v e r a x]. intros [Hv Ha Hx].
  cbn [rq_x402_version rq_accepts rq_extensions] in *.
  unfold required_of_json, json_of_required.
  destruct e as [e|], x as [x|]; members; rewrite of_u32_print by done; unfold opt; members;
    rewrite resource_roundtrip; members; rewrite each_requirements by done; members;
    by try destruct x.
Qed.

Lemma settlement_roundtrip s :
  not_null s.(sr_extensions) → settlement_of_json (json_of_settlement s) = Some s.
Proof.
  destruct s as [b e p t n a x]. cbn [sr_extensions]. intros Hx.
  unfold settlement_of_json, json_of_settlement.
  destruct e, p, a, x as [x|]; unfold opt; members; by try destruct x.
Qed.

(** ** Properties *)

Section Properties.
#[local] Set Default Proof Using "Type*".
Context `{!Codecs, !CodecLaws, !Json, !JsonLaws}.

Lemma header_roundtrip {A} (of_json : Value → option A) (v : Value) (a : A) :
  json_ok v → of_json v = Some a → decode_header of_json (encode_header v) = Ok a.
Proof.
  intros Hv Ha. unfold decode_header, encode_header.
  destruct (b64_encode_solid (json_text v)) as [Hs1 Hs2].
  rewrite trim_solid by done. by rewrite b64_decode_encode, json_parse_text, Ha.
Qed.

(** C36: The payment header round trips: what a client encodes is what the
    service decodes, for every payload the wire format can express: its numbers
    fit their types, and whatever JSON it carries has natural numbers only and
    is nested less than 128 levels deep. *)
Theorem payment_header_roundtrip (p : PaymentPayload)
    (Hw : wire_payload p) (Hj : json_ok (json_of_payload p)) :
  decode_header payload_of_json (encode_header (json_of_payload p)) = Ok p.
Proof. apply header_roundtrip; [done | by apply payload_roundtrip]. Qed.

(** A granted session token comes back.  A client that decodes its receipt
    and echoes the receipt's extensions in its next payment presents exactly
    the token that was granted. *)
Theorem granted_token_comes_back (s : SettlementResponse) (p : PaymentPayload)
    (token : string) (quota duration : Z)
    (Hgrant : s.(sr_extensions) = Some (session_extension_grant token quota duration))
    (Hecho : p.(pp_extensions) = s.(sr_extensions))
    (Hs : json_ok (json_of_settlement s)) (Hw : wire_payload p)
    (Hj : json_ok (json_of_payload p)) :
  ∃ s' p', decode_header settlement_of_json (encode_header (json_of_settlement s)) = Ok s' ∧
    decode_header payload_of_json (encode_header (json_of_payload p)) = Ok p' ∧
    session_token_from_extensions s'.(sr_extensions) = Some token ∧
    session_token_from_extensions p'.(pp_extensions) = Some token.
Proof.
  assert (session_token_from_extensions (sr_extensions s) = Some token) as Htok
    by by rewrite Hgrant.
  exists s, p. split_and!; [|by apply payment_header_roundtrip|done|by rewrite Hecho].
  apply header_roundtrip; [done|]. apply settlement_roundtrip. by rewrite Hgrant.
Qed.

(** C37: A payment is its transaction bytes.  Two payloads have the same
    replay key exactly when the digests of the transactions they decode to
    are the same, however their base64 is spelled and whatever else they
    say. *)
Theorem payment_identity (p q : PaymentPayload) (sp sq : SuiExactPayload) (bp bq : bytes)
    (Hp : sui_payload_of_json p.(pp_payload) = Some sp)
    (Hq : sui_payload_of_json q.(pp_payload) = Some sq)
    (Hbp : b64_decode (trim sp.(transaction)) = Ok bp)
    (Hbq : b64_decode (trim sq.(transaction)) = Ok bq) :
  payment_id p = payment_id q ↔ sha256 bp = sha256 bq.
Proof.
  unfold payment_id. rewrite Hp, Hq. cbn. rewrite Hbp, Hbq. cbn.
  split; [|by intros ->]. intros [= Heq]. apply (f_equal hex_decode) in Heq.
  rewrite !hex_decode_encode in Heq. by injection Heq.
Qed.
End Properties.

(** ** The properties at concrete inputs *)

Definition demo_requirements : PaymentRequirements := from_config demo_payment.
Definition demo_payload_with (tx : string) (ext : option Value) : PaymentPayload :=
  {| pp_x402_version := 2; pp_resource := None; pp_accepted := demo_requirements;
     pp_payload := json_of_sui_payload {| signature := "0a0b=="; transaction := tx |};
     pp_extensions := ext |}.
Definition demo_tx : string := "c0ffee==".
Definition demo_payload : PaymentPayload := demo_payload_with demo_tx None.

Ltac demo_json := split; [|vm_compute; lia]; cbn -[u64_value]; split_and!; try exact I; apply naturals_u64;
  first [lia | vm_compute; congruence].

Lemma demo_payload_wire ext : not_null ext → wire_payload (demo_payload_with demo_tx ext).
Proof.
  intros. split; [|split|done]; cbn.
  - unfold is_u32. lia.
  - unfold is_u64, u64_max. lia.
  - discriminate.
Qed.

Lemma payment_header_roundtrip_witness :
  decode_header payload_of_json (encode_header (json_of_payload demo_payload)) = Ok demo_payload.
Proof.
  apply (payment_header_roundtrip demo_payload); [by apply demo_payload_wire|]. demo_json.
Defined.

Definition demo_receipt : SettlementResponse :=
  {| sr_success := true; sr_error_reason := None; sr_payer := Some "0xdeadbeef";
     sr_transaction := "9x"; sr_network := "sui:testnet"; sr_amount := Some "10000";
     sr_extensions := Some (session_extension_grant "tok" 1000 3600) |}.

Lemma granted_token_comes_back_witness :
  ∃ s' p', decode_header settlement_of_json (encode_header (json_of_settlement demo_receipt)) = Ok s' ∧
    decode_header payload_of_json
      (encode_header (json_of_payload (demo_payload_with demo_tx (sr_extensions demo_receipt)))) = Ok p' ∧
    session_token_from_extensions s'.(sr_extensions) = Some "tok" ∧
    session_token_from_extensions p'.(pp_extensions) = Some "tok".
Proof.
  apply (granted_token_comes_back demo_receipt _ "tok" 1000 3600); try reflexivity.
  - demo_json.
  - by apply demo_payload_wire.
  - demo_json.
Defined.

Lemma payment_identity_witness :
  payment_id (demo_payload_with " c0ffee==" None) = payment_id (demo_payload_with "C0FFEE==" None) ↔
  sha256 [Byte.xc0; Byte.xff; Byte.xee] = sha256 [Byte.xc0; Byte.xff; Byte.xee].
Proof.
  apply (payment_identity (demo_payload_with " c0ffee==" None) (demo_payload_with "C0FFEE==" None)
    (mkSuiPayload "0a0b==" " c0ffee==") (mkSuiPayload "0a0b==" "C0FFEE==")); vm_compute; reflexivity.
Defined.
