(* ===== verification/Sui.v ===== *)
(** * Verification and settlement against a fullnode ([src/sui.rs])

    The fullnode is a service: its remote calls are the fields of a class over
    a node state that each call may read and change, so nothing is assumed
    about what the node answers or whether it answers the same twice.  The
    calls made are recorded in order.  Parsing of BCS and of signatures is the
    SDK's. *)

From Stdlib Require Import Ascii.
From S2P Require Import Prelude RustStr Platform Config Json X402.
From stdpp Require Import options.
#[local] Open Scope Z_scope.

(** ** What the SDK and the node's protocol give *)

Record ObjectReference := mkRef { object_id : string; version : Z }.

Inductive Input :=
| ImmutableOrOwned (r : ObjectReference)
| Receiving (r : ObjectReference)
| SharedInput
| OtherInput.

Inductive TransactionKind :=
| ProgrammableTransaction (inputs : list Input)
| OtherKind.

Record Transaction := mkTransaction {
  sender : string;
  kind : TransactionKind;
  gas_objects : list ObjectReference
}.

Record VerifySignatureResponse := mkVerifySignature { is_valid : option bool; reason : option string }.
(** [error]: the outer option the message, the inner one its description. *)
Record ExecutionStatus := mkStatus { status_success : option bool; status_error : option (option string) }.
Record Effects := mkEffects { status : option ExecutionStatus }.
Record BalanceChange := mkChange {
  bc_address : option string; bc_coin_type : option string; bc_amount : option string }.
Record ExecutedTransaction := mkExecuted {
  digest : option string; effects : option Effects; balance_changes : list BalanceChange }.
Record Object := mkObject { obj_version : option Z }.
Inductive Status := StatusNotFound (msg : string) | StatusOther (msg : string).

Class SuiSdk := {
  UserSignature : Type;
  bcs_transaction : bytes → result Transaction string;
  user_signature : bytes → result UserSignature string
}.

Class SuiNode (N : Type) `{!SuiSdk} := {
  node_connect : string → result () string;
  node_verify_signature : bytes → UserSignature → string → N → result VerifySignatureResponse string * N;
  node_simulate : bytes → N → result (option ExecutedTransaction) string * N;
  node_get_object : string → N → result (option Object) Status * N;
  node_execute : bytes → list UserSignature → N → result (option ExecutedTransaction) string * N;
  node_service_info : N → result (option string) string * N
}.

Inductive Call :=
| CallVerifySignature (transaction : bytes) (address : string)
| CallSimulate (transaction : bytes)
| CallGetObject (id : string)
| CallExecute (transaction : bytes)
| CallServiceInfo.

#[export] Instance Call_eq_dec : EqDecision Call.
Proof. solve_decision. Defined.

Record Chain (N : Type) := mkChain { node : N; calls : list Call }.
Arguments mkChain {N} _ _.
Arguments node {N} _.
Arguments calls {N} _.

(** ** The verifier *)

Record VerifiedPayment := mkVerified { v_payer : string; v_digest : string }.

Inductive ChainCheck := Matches | NotReported.

Definition malformed (detail : string) : FacilitatorError := MalformedPayload "exact" detail.

(** Status present and not a success. *)
Definition failed_status (e : ExecutedTransaction) : option ExecutionStatus :=
  s ← e.(effects) ≫= status;
  if unwrap_or s.(status_success) false then None else Some s.
Definition status_text (s : ExecutionStatus) (default : string) : string :=
  unwrap_or (s.(status_error) ≫= id) default.

(** [i128]'s [Sum], without overflow checks. *)
Definition i128_sum (l : list Z) : Z := fold_left (λ a b, wrap_i128 (a + b)) l 0.

Definition credits_recipient (r : PaymentRequirements) (c : BalanceChange) : bool :=
  bool_decide (c.(bc_address) = Some r.(pr_pay_to)) &&
  bool_decide (c.(bc_coin_type) = Some r.(pr_asset)).

Definition credited_amounts (changes : list BalanceChange) (r : PaymentRequirements) : list Z :=
  omap (λ c, c.(bc_amount) ≫= parse_i128) (List.filter (credits_recipient r) changes).

Definition assert_credits (changes : list BalanceChange) (r : PaymentRequirements) :
  result () FacilitatorError :=
  match parse_i128 r.(pr_amount) with
  | None => Err (InvalidRequirements ("amount " +:+ debug_str r.(pr_amount) +:+ " is not an integer"))
  | Some expected =>
      let credited := i128_sum (credited_amounts changes r) in
      if negb (credited =? expected)
      then Err (AmountNotCredited r.(pr_amount) (i_to_string credited) r.(pr_pay_to) r.(pr_asset))
      else Ok ()
  end.

Definition check_chain (configured : string) (reported : option string) :
  result ChainCheck FacilitatorError :=
  match trim <$> reported with
  | None => Ok NotReported
  | Some r =>
      if is_empty r then Ok NotReported
      else if eq_ignore_ascii_case r (trim configured) then Ok Matches
      else Err (ChainMismatch r configured)
  end.

(** The objects a transaction pins, gas coins last. *)
Definition pinned_objects (t : Transaction) : list ObjectReference :=
  (match t.(kind) with
   | ProgrammableTransaction inputs =>
       omap (λ i, match i with
                  | ImmutableOrOwned r | Receiving r => Some r
                  | SharedInput | OtherInput => None
                  end) inputs
   | OtherKind => []
   end) ++ t.(gas_objects).

Section Verifier.
Context `{!Codecs, !SuiSdk} {N : Type} `{!SuiNode N}.

(** One remote call. *)
Definition rpc {A} (c : Call) (f : N → A * N) : M (Chain N) A :=
  λ w, let '(a, n) := f w.(node) in (a, mkChain n (w.(calls) ++ [c])).

Definition connect (grpc_url : string) : result () FacilitatorError :=
  map_err (λ e, Rpc ("connecting to " +:+ grpc_url +:+ ": " +:+ e)) (node_connect grpc_url).

Definition decode (p : SuiExactPayload) : result (bytes * bytes) FacilitatorError :=
  t <-? map_err (λ e, malformed ("transaction is not valid base64: " +:+ e))
          (b64_decode (trim p.(transaction))) ;;
  s <-? map_err (λ e, malformed ("signature is not valid base64: " +:+ e))
          (b64_decode (trim p.(signature))) ;;
  Ok (t, s).

(** One iteration of the loop over the pinned objects. *)
Definition assert_live (r : ObjectReference) : M (Chain N) (result () FacilitatorError) :=
  response <-- rpc (CallGetObject r.(object_id)) (node_get_object r.(object_id)) ;;;
  let check current :=
    match current with
    | Some v => if v =? r.(version) then Ok ()
                else Err (StaleInput r.(object_id) r.(version) current)
    | None => Err (StaleInput r.(object_id) r.(version) current)
    end in
  ret match response with
      | Ok o => check (o ≫= obj_version)
      | Err (StatusNotFound _) => check None
      | Err (StatusOther e) => Err (Rpc ("GetObject(" +:+ r.(object_id) +:+ "): " +:+ e))
      end.

Fixpoint all_live (l : list ObjectReference) : M (Chain N) (result () FacilitatorError) :=
  match l with
  | [] => ret (Ok ())
  | r :: l => _ <-! assert_live r ;;; all_live l
  end.

Definition assert_inputs_are_live (t : Transaction) : M (Chain N) (result () FacilitatorError) :=
  all_live (pinned_objects t).

(** Step 2 of the scheme. *)
Definition check_signature (transaction_bytes : bytes) (sender : string) (sig : UserSignature) :
  M (Chain N) (result () FacilitatorError) :=
  response <-- rpc (CallVerifySignature transaction_bytes sender)
                   (node_verify_signature transaction_bytes sig sender) ;;;
  ret match response with
      | Err e => Err (Rpc ("VerifySignature: " +:+ e))
      | Ok r => if unwrap_or r.(is_valid) false then Ok ()
                else Err (InvalidSignature (unwrap_or r.(reason) "signature did not verify"))
      end.

(** Step 3. *)
Definition simulate (transaction_bytes : bytes) :
  M (Chain N) (result ExecutedTransaction FacilitatorError) :=
  response <-- rpc (CallSimulate transaction_bytes) (node_simulate transaction_bytes) ;;;
  ret match response with
      | Err e => Err (Rpc ("SimulateTransaction: " +:+ e))
      | Ok None => Err (SimulationFailed "simulation returned no transaction")
      | Ok (Some executed) =>
          match failed_status executed with
          | Some s => Err (SimulationFailed (status_text s "transaction would not succeed"))
          | None => Ok executed
          end
      end.

Definition parse (p : SuiExactPayload) : result (bytes * Transaction * UserSignature) FacilitatorError :=
  tb <-? decode p ;;
  let '(transaction_bytes, signature_bytes) := tb in
  t <-? map_err (λ e, malformed ("transaction is not valid BCS TransactionData: " +:+ e))
          (bcs_transaction transaction_bytes) ;;
  s <-? map_err (λ e, malformed ("signature is not a valid Sui user signature: " +:+ e))
          (user_signature signature_bytes) ;;
  Ok (transaction_bytes, t, s).

Definition verify (p : SuiExactPayload) (r : PaymentRequirements) :
  M (Chain N) (result VerifiedPayment FacilitatorError) :=
  parsed <-! ret (parse p) ;;;
  let '(transaction_bytes, t, sig) := parsed in
  _ <-! check_signature transaction_bytes t.(sender) sig ;;;
  executed <-! simulate transaction_bytes ;;;
  _ <-! assert_inputs_are_live t ;;;
  _ <-! ret (assert_credits executed.(balance_changes) r) ;;;
  ret (Ok {| v_payer := t.(sender); v_digest := unwrap_or executed.(digest) "" |}).

Definition settle (p : SuiExactPayload) : M (Chain N) (result string FacilitatorError) :=
  tb <-! ret (decode p) ;;;
  let '(transaction_bytes, signature_bytes) := tb in
  sig <-! ret (map_err (λ e, malformed ("signature is not a valid Sui user signature: " +:+ e))
                       (user_signature signature_bytes)) ;;;
  response <-- rpc (CallExecute transaction_bytes) (node_execute transaction_bytes [sig]) ;;;
  ret match response with
      | Err e => Err (SettlementFailed ("ExecuteTransaction: " +:+ e))
      | Ok None => Err (SettlementFailed "execution returned no transaction")
      | Ok (Some executed) =>
          match failed_status executed with
          | Some s => Err (SettlementFailed (status_text s "transaction failed on chain"))
          | None => Ok (unwrap_or executed.(digest) "")
          end
      end.

Definition reported_chain : M (Chain N) (result (option string) FacilitatorError) :=
  response <-- rpc CallServiceInfo node_service_info ;;;
  ret (map_err (λ e, Rpc ("GetServiceInfo: " +:+ e)) response).
End Verifier.

(** ** Lemmas *)

Lemma wrap_i128_mod a b : a mod 2 ^ 128 = b mod 2 ^ 128 → wrap_i128 a = wrap_i128 b.
Proof.
  intros Heq. unfold wrap_i128. f_equal.
  rewrite (Z.add_mod a), (Z.add_mod b), Heq by lia. done.
Qed.

Lemma wrap_i128_eqm a : wrap_i128 a mod 2 ^ 128 = a mod 2 ^ 128.
Proof.
  unfold wrap_i128. rewrite Zminus_mod_idemp_l. f_equal. lia.
Qed.

(** The wrapped running sum is the sum, wrapped once. *)
Lemma i128_sum_wraps l : i128_sum l = wrap_i128 (foldr Z.add 0 l).
Proof.
  unfold i128_sum.
  assert (∀ a, wrap_i128 a = a → fold_left (λ a b, wrap_i128 (a + b)) l a
                                = wrap_i128 (a + foldr Z.add 0 l)) as Hl.
  { induction l as [|x l IH]; intros a Ha; cbn [fold_left foldr].
    - by rewrite Z.add_0_r.
    - rewrite IH.
      + apply wrap_i128_mod. rewrite Z.add_mod, wrap_i128_eqm, <- Z.add_mod by lia.
        f_equal. lia.
      + apply wrap_i128_small. unfold wrap_i128, i128_min, i128_max.
        pose proof (Z.mod_pos_bound (a + x + 2 ^ 127) (2 ^ 128)). lia. }
  rewrite Hl; [done | reflexivity].
Qed.

Lemma assert_credits_ok changes r :
  assert_credits changes r = Ok () ↔
  parse_i128 r.(pr_amount) = Some (wrap_i128 (foldr Z.add 0 (credited_amounts changes r))).
Proof.
  unfold assert_credits. rewrite i128_sum_wraps.
  destruct (parse_i128 (pr_amount r)) as [e|]; [|done].
  rewrite if_err, negb_false_iff, Z.eqb_eq. naive_solver.
Qed.

Section Quiet.
Context {N : Type}.

(** Verification never broadcasts. *)
Definition no_execute (l : list Call) : Prop := ∀ tb, CallExecute tb ∉ l.

(** The calls of a handler are appended, and none of them executes. *)
Definition quiet (w w' : Chain N) : Prop :=
  ∃ l, w'.(calls) = w.(calls) ++ l ∧ no_execute l.

#[export] Instance quiet_refl : Reflexive quiet.
Proof. intros w. exists []. split; [by rewrite app_nil_r|]. intros tb. apply not_elem_of_nil. Qed.
#[export] Instance quiet_trans : Transitive quiet.
Proof.
  intros w1 w2 w3 (l & Hl & Hn) (l' & Hl' & Hn'). exists (l ++ l').
  split; [by rewrite Hl', Hl, app_assoc|]. intros tb. rewrite elem_of_app. intros [Hi|Hi]; [by apply (Hn tb) | by apply (Hn' tb)].
Qed.
End Quiet.

Section VerifierLemmas.
#[local] Set Default Proof Using "Type*".
Context `{!Codecs, !SuiSdk} {N : Type} `{!SuiNode N}.

Lemma rpc_eq {A} (c : Call) (f : N → A * N) w :
  rpc c f w = ((f w.(node)).1, mkChain (f w.(node)).2 (w.(calls) ++ [c])).
Proof. unfold rpc. by destruct (f (node w)). Qed.

Lemma parse_ok p tb t sig :
  parse p = Ok (tb, t, sig) ↔
  ∃ sb, b64_decode (trim p.(transaction)) = Ok tb ∧ b64_decode (trim p.(signature)) = Ok sb ∧
        bcs_transaction tb = Ok t ∧ user_signature sb = Ok sig.
Proof.
  unfold parse, decode.
  assert (∀ e : FacilitatorError, (Err e = Ok (tb, t, sig)) ↔ False) as Herr by done.
  destruct (b64_decode (trim (transaction p))) as [b|]; cbn.
  2: rewrite Herr; split; [done | intros (? & ? & ? & ? & ?); congruence].
  destruct (b64_decode (trim (signature p))) as [s|]; cbn.
  2: rewrite Herr; split; [done | intros (? & ? & ? & ? & ?); congruence].
  destruct (bcs_transaction b) as [t'|] eqn:Et; cbn.
  2: rewrite Herr; split; [done | intros (? & ? & ? & ? & ?); congruence].
  destruct (user_signature s) as [s'|] eqn:Es; cbn.
  2: rewrite Herr; split; [done | intros (? & ? & ? & ? & ?); congruence].
  split; [intros [= <- <- <-]; by exists s | intros (? & ? & ? & ? & ?); congruence].
Qed.

Lemma check_signature_ok tb s sig w w' :
  check_signature tb s sig w = (Ok (), w') →
  (∃ resp, (node_verify_signature tb sig s w.(node)).1 = Ok resp ∧ resp.(is_valid) = Some true) ∧
  w'.(calls) = w.(calls) ++ [CallVerifySignature tb s].
Proof.
  unfold check_signature, bind. rewrite rpc_eq. unfold ret.
  destruct (node_verify_signature tb sig s (node w)) as [[resp|e] n]; cbn [fst snd]; [|done].
  destruct (is_valid resp) as [[]|] eqn:Ev; cbn; intros [= <-]; eauto.
Qed.

Lemma simulate_ok tb w executed w' :
  simulate tb w = (Ok executed, w') →
  (node_simulate tb w.(node)).1 = Ok (Some executed) ∧ failed_status executed = None ∧
  w'.(calls) = w.(calls) ++ [CallSimulate tb].
Proof.
  unfold simulate, bind. rewrite rpc_eq. unfold ret.
  destruct (node_simulate tb (node w)) as [[[e|]|e] n]; cbn [fst snd]; try done.
  destruct (failed_status e) eqn:Ef; [done|]. by intros [= -> <-].
Qed.

Definition live_at (r : ObjectReference) (n : N) : Prop :=
  ∃ o, (node_get_object r.(object_id) n).1 = Ok (Some o) ∧ o.(obj_version) = Some r.(version).

Lemma assert_live_ok r w w' :
  assert_live r w = (Ok (), w') →
  live_at r w.(node) ∧ w'.(calls) = w.(calls) ++ [CallGetObject r.(object_id)].
Proof.
  unfold assert_live, bind. rewrite rpc_eq. unfold ret, live_at.
  destruct (node_get_object (object_id r) (node w)) as [[[o|]|[]] n]; cbn [fst snd mbind option_bind];
    try done.
  destruct (obj_version o) as [v|] eqn:Ev; [|done].
  destruct (Z.eqb_spec v (version r)) as [->|]; [|done]. intros [= <-]. eauto.
Qed.

Lemma all_live_ok l w w' :
  all_live l w = (Ok (), w') →
  Forall (λ r, ∃ n, live_at r n) l ∧
  w'.(calls) = w.(calls) ++ (CallGetObject ∘ object_id <$> l).
Proof.
  revert w. induction l as [|r l IH]; intros w; cbn [all_live].
  - intros [= <-]. split; [constructor | by rewrite app_nil_r].
  - intros ([] & w1 & [Hr Hc]%assert_live_ok & [Hl Hc']%IH)%bind_ok_inv.
    split; [constructor; eauto|]. rewrite Hc', Hc, <- app_assoc. done.
Qed.

Lemma quiet_rpc {A} (c : Call) (f : N → A * N) :
  (∀ tb, c ≠ CallExecute tb) → keeps quiet (rpc c f).
Proof.
  intros Hc w. rewrite rpc_eq. exists [c]. split; [done|]. intros tb.
  rewrite list_elem_of_singleton. intros E. by apply (Hc tb).
Qed.

Lemma keeps_bind_ok {A B} (c : M (Chain N) (result A FacilitatorError)) (k : A → M _ (result B _)) :
  keeps quiet c → (∀ a, keeps quiet (k a)) → keeps quiet (bind_ok c k).
Proof.
  intros Hc Hk. apply keeps_bind; [apply quiet_trans|done|].
  intros [a|e]; [done | apply keeps_ret; apply quiet_refl].
Qed.

Lemma all_live_quiet l : keeps quiet (all_live l).
Proof.
  induction l as [|r l IH]; cbn [all_live]; [apply keeps_ret; apply quiet_refl|].
  apply keeps_bind_ok; [|done]. apply keeps_bind; [apply quiet_trans|by apply quiet_rpc|].
  intros a. apply keeps_ret. apply quiet_refl.
Qed.

Lemma verify_quiet p r : keeps quiet (verify p r).
Proof.
  unfold verify. apply keeps_bind_ok; [apply keeps_ret; apply quiet_refl|]. intros [[tb t] sig].
  apply keeps_bind_ok; [apply keeps_bind; [apply quiet_trans|by apply quiet_rpc|]|].
  { intros a. apply keeps_ret; apply quiet_refl. }
  intros _. apply keeps_bind_ok; [apply keeps_bind; [apply quiet_trans|by apply quiet_rpc|]|].
  { intros a. apply keeps_ret; apply quiet_refl. }
  intros e. apply keeps_bind_ok; [apply all_live_quiet|].
  intros _. apply keeps_bind_ok; [apply keeps_ret; apply quiet_refl|].
  intros _. apply keeps_ret; apply quiet_refl.
Qed.

(** The transaction a verification parsed, and whose sender it names. *)
Lemma verified_payment_ok p r w w' v :
  verify p r w = (Ok v, w') →
  ∃ tb t, b64_decode (trim p.(transaction)) = Ok tb ∧ bcs_transaction tb = Ok t ∧
          v.(v_payer) = t.(sender).
Proof.
  intros Hv. unfold verify in Hv. apply bind_ok_inv in Hv as ([[tb t] sig] & w0 & [= Hp <-] & Hv).
  apply parse_ok in Hp as (sb & Htb & _ & Ht & _). exists tb, t. split_and!; [done..|].
  do 4 apply bind_ok_inv in Hv as (? & ? & _ & Hv). by injection Hv as <- _.
Qed.

Lemma settle_ok_calls p w d w' : settle p w = (Ok d, w') → w'.(calls) ≠ w.(calls).
Proof.
  intros Hs. unfold settle in Hs. apply bind_ok_inv in Hs as ([tb sb] & ? & [= _ <-] & Hs).
  apply bind_ok_inv in Hs as (sig & ? & [= _ <-] & Hs).
  unfold bind in Hs. rewrite rpc_eq in Hs. unfold ret in Hs. injection Hs as _ <-.
  cbn [calls]. intros Heq. apply (f_equal length) in Heq. rewrite length_app in Heq.
  simpl in Heq. lia.
Qed.
End VerifierLemmas.

(** ** Properties *)

Section Properties.
#[local] Set Default Proof Using "Type*".
Context `{!Codecs, !SuiSdk} {N : Type} `{!SuiNode N}.

(** C8: What a verified payment is.  Verification succeeds only after the node
    confirmed the signature over exactly the decoded bytes for the sender in
    them, simulated those bytes without a failure, confirmed every object
    they pin at its pinned version, and the simulation credits the recipient
    with exactly the price (as [i128] arithmetic sums it).  The payer is the
    sender in the signed bytes; the calls are these, in this order, and none
    broadcasts. *)
Theorem verified_payment_is_backed (p : SuiExactPayload) (r : PaymentRequirements)
    (w w' : Chain N) (v : VerifiedPayment) (Hv : verify p r w = (Ok v, w')) :
  ∃ tb sb t sig executed n1 n2,
    b64_decode (trim p.(transaction)) = Ok tb ∧ b64_decode (trim p.(signature)) = Ok sb ∧
    bcs_transaction tb = Ok t ∧ user_signature sb = Ok sig ∧
    (∃ resp, (node_verify_signature tb sig t.(sender) n1).1 = Ok resp ∧
             resp.(is_valid) = Some true) ∧
    (node_simulate tb n2).1 = Ok (Some executed) ∧ failed_status executed = None ∧
    Forall (λ o, ∃ n, live_at o n) (pinned_objects t) ∧
    parse_i128 r.(pr_amount)
      = Some (wrap_i128 (foldr Z.add 0 (credited_amounts executed.(balance_changes) r))) ∧
    v.(v_payer) = t.(sender) ∧
    w'.(calls) = w.(calls) ++ [CallVerifySignature tb t.(sender); CallSimulate tb]
                   ++ (CallGetObject ∘ object_id <$> pinned_objects t).
Proof.
  unfold verify in Hv. apply bind_ok_inv in Hv as ([[tb t] sig] & w0 & [= Hp <-] & Hv).
  apply parse_ok in Hp as (sb & Htb & Hsb & Ht & Hsig).
  apply bind_ok_inv in Hv as ([] & w1 & [Hresp Hc1]%check_signature_ok & Hv).
  apply bind_ok_inv in Hv as (executed & w2 & (Hsim & Hst & Hc2)%simulate_ok & Hv).
  apply bind_ok_inv in Hv as ([] & w3 & [Hlive Hc3]%all_live_ok & Hv).
  apply bind_ok_inv in Hv as ([] & w4 & [= Hcr <-] & Hv).
  apply assert_credits_ok in Hcr. unfold ret in Hv. injection Hv as <- <-.
  exists tb, sb, t, sig, executed, (node w), (node w1). split_and!; try done.
  by rewrite Hc3, Hc2, Hc1, <- !app_assoc.
Qed.
End Properties.

(** The credit is exact.  As long as the credits to the recipient add up to
    an [i128] at all, verification's last step accepts exactly the
    transactions whose balance changes credit the recipient, in the asset of
    the terms, with the price: not less and not more, however split up. *)
Theorem credit_is_exact (changes : list BalanceChange) (r : PaymentRequirements)
    (Hsmall : i128_min ≤ foldr Z.add 0 (credited_amounts changes r) ≤ i128_max) :
  assert_credits changes r = Ok () ↔
  parse_i128 r.(pr_amount) = Some (foldr Z.add 0 (credited_amounts changes r)).
Proof. by rewrite assert_credits_ok, wrap_i128_small. Qed.

(** A price above [i128] passes the configuration check, which reads it as
    [u128], and then no transaction can pay it. *)
Theorem price_above_i128_cannot_be_paid (r : PaymentRequirements) (v : Z)
    (changes : list BalanceChange)
    (Ha : r.(pr_amount) = u_to_string v) (Hv : i128_max < v ≤ u128_max) :
  amount_ok r.(pr_amount) = true ∧
  ∃ e, assert_credits changes r = Err e ∧ code e = "invalid_payment_requirements".
Proof.
  rewrite Ha. split.
  - unfold amount_ok, parse_u128. rewrite parse_uint_print; [done|]. unfold i128_max in Hv. lia.
  - unfold assert_credits. rewrite Ha.
    destruct (parse_i128 (u_to_string v)) as [e|] eqn:E; [|by eexists].
    rewrite parse_i128_print in E by (unfold i128_max in *; lia).
    destruct (Z.leb_spec v i128_max); [lia|done].
Qed.

(** ** A concrete node

    One transaction, known by its bytes, that pays one recipient; the node
    tracks whether the objects it pins are spent. *)
Module DemoNode.
Definition tx_bytes : bytes := [Byte.xc0; Byte.xff; Byte.xee].
Definition coin : ObjectReference := {| object_id := "0xc01"; version := 7 |}.
Definition tx : Transaction :=
  {| sender := "0xdeadbeef"; kind := ProgrammableTransaction [SharedInput; ImmutableOrOwned coin];
     gas_objects := [] |}.

#[export] Instance sdk : SuiSdk := {
  UserSignature := bytes;
  bcs_transaction b := if bool_decide (b = tx_bytes) then Ok tx else Err "unexpected end of input";
  user_signature b := match b with [] => Err "empty" | _ => Ok b end
}.

Definition change : BalanceChange :=
  {| bc_address := Some demo_wallet; bc_coin_type := Some "0x2::usdc::USDC";
     bc_amount := Some "10000" |}.
Definition outcome : ExecutedTransaction :=
  {| digest := Some "9xDigest"; effects := Some {| status :=
       Some {| status_success := Some true; status_error := None |} |};
     balance_changes := [change] |}.

(** [true]: the coin has been spent. *)
Definition t : Type := bool.

#[export] Instance node : SuiNode t := {
  node_connect _ := Ok ();
  node_verify_signature _ _ _ spent := (Ok {| is_valid := Some true; reason := None |}, spent);
  node_simulate _ spent := (Ok (Some outcome), spent);
  node_get_object _ spent :=
    (Ok (Some {| obj_version := Some (if spent then 8 else 7) |}), spent);
  node_execute _ _ spent :=
    if (spent : bool) then (Err "object version is stale", spent) else (Ok (Some outcome), true);
  node_service_info spent := (Ok (Some "testnet"), spent)
}.
End DemoNode.
#[export] Existing Instance DemoNode.sdk.
#[export] Existing Instance DemoNode.node.

(** ** The properties at concrete inputs *)

Definition demo_sui_payload : SuiExactPayload := {| signature := "0a0b=="; transaction := demo_tx |}.
Definition demo_chain : Chain DemoNode.t := {| node := false; calls := [] |}.

Lemma verified_payment_is_backed_witness :
  ∃ tb sb t sig executed n1 n2,
    b64_decode (trim demo_sui_payload.(transaction)) = Ok tb ∧
    b64_decode (trim demo_sui_payload.(signature)) = Ok sb ∧
    bcs_transaction tb = Ok t ∧ user_signature sb = Ok sig ∧
    (∃ resp, (node_verify_signature tb sig t.(sender) n1).1 = Ok resp ∧ resp.(is_valid) = Some true) ∧
    (node_simulate tb n2).1 = Ok (Some executed) ∧ failed_status executed = None ∧
    Forall (λ o, ∃ n, live_at o n) (pinned_objects t) ∧
    parse_i128 demo_requirements.(pr_amount)
      = Some (wrap_i128 (foldr Z.add 0 (credited_amounts executed.(balance_changes) demo_requirements))) ∧
    "0xdeadbeef" = t.(sender) ∧
    (verify demo_sui_payload demo_requirements demo_chain).2.(calls)
      = [] ++ [CallVerifySignature tb t.(sender); CallSimulate tb]
           ++ (CallGetObject ∘ object_id <$> pinned_objects t).
Proof.
  assert (H : verify demo_sui_payload demo_requirements demo_chain
    = (Ok {| v_payer := "0xdeadbeef"; v_digest := "9xDigest" |},
       (verify demo_sui_payload demo_requirements demo_chain).2)) by (vm_compute; reflexivity).
  exact (verified_payment_is_backed _ _ _ _ _ H).
Defined.

Lemma credit_is_exact_witness :
  assert_credits [DemoNode.change] demo_requirements = Ok () ↔ parse_i128 "10000" = Some 10000.
Proof.
  exact (credit_is_exact [DemoNode.change] demo_requirements
    ltac:(vm_compute; split; discriminate)).
Defined.

Definition dear_requirements : PaymentRequirements :=
  {| pr_scheme := "exact"; pr_network := "sui:testnet"; pr_amount := u_to_string (2 ^ 127);
     pr_asset := "0x2::usdc::USDC"; pr_pay_to := demo_wallet; pr_max_timeout_seconds := 60;
     pr_extra := None |}.

Lemma price_above_i128_cannot_be_paid_witness :
  amount_ok (u_to_string (2 ^ 127)) = true ∧
  ∃ e, assert_credits [DemoNode.change] dear_requirements = Err e ∧
       code e = "invalid_payment_requirements".
Proof.
  apply (price_above_i128_cannot_be_paid dear_requirements (2 ^ 127) [DemoNode.change]).
  - reflexivity.
  - unfold i128_max, u128_max. lia.
Defined.
