(* ===== verification/Facilitator.v ===== *)
(** * The facilitator ([Facilitator] of [src/x402.rs])

    Checks the terms a client accepted, then verifies or settles, against the
    fullnode in [sui-grpc] mode, on paper in [stub-accept-all] mode. *)

From Stdlib Require Import Ascii.
From S2P Require Import Prelude RustStr Platform Config Json X402 Sui.
From stdpp Require Import options.
#[local] Open Scope Z_scope.

#[export] Instance VerificationMode_eq_dec : EqDecision VerificationMode.
Proof. solve_decision. Defined.

(** [sui]: whether a fullnode client was built. *)
Record Facilitator := mkFacilitator { mode : VerificationMode; f_network : string; sui : bool }.

Section Facilitator.
Context `{!Codecs, !Json, !SuiSdk} {N : Type} `{!SuiNode N}.

(** [Facilitator::new]. *)
Definition new (mode : VerificationMode) (grpc_url network : string) :
  result Facilitator FacilitatorError :=
  sui <-? match mode with
          | StubAcceptAll => Ok false
          | SuiGrpc => _ <-? connect grpc_url ;; Ok true
          end ;;
  Ok {| mode := mode; f_network := network; sui := sui |}.

Definition verify_chain (f : Facilitator) (expected : string) :
  M (Chain N) (result ChainCheck FacilitatorError) :=
  if f.(sui) then
    reported <-! reported_chain ;;;
    ret (check_chain expected reported)
  else ret (Ok NotReported).

Definition check_terms (f : Facilitator) (p : PaymentPayload) (r : PaymentRequirements) :
  result SuiExactPayload FacilitatorError :=
  let accepted := p.(pp_accepted) in
  let differ (a b : string) := negb (bool_decide (a = b)) in
  if differ r.(pr_network) f.(f_network)
  then Err (NetworkMismatch r.(pr_network) f.(f_network))
  else if negb (p.(pp_x402_version) =? X402_VERSION)
  then Err (VersionMismatch p.(pp_x402_version) X402_VERSION)
  else if differ accepted.(pr_scheme) r.(pr_scheme)
  then Err (SchemeMismatch accepted.(pr_scheme) r.(pr_scheme))
  else if differ accepted.(pr_network) r.(pr_network)
  then Err (NetworkMismatch accepted.(pr_network) r.(pr_network))
  else if differ accepted.(pr_amount) r.(pr_amount)
  then Err (AmountMismatch accepted.(pr_amount) r.(pr_amount))
  else if differ accepted.(pr_asset) r.(pr_asset)
  then Err (AssetMismatch accepted.(pr_asset) r.(pr_asset))
  else if differ accepted.(pr_pay_to) r.(pr_pay_to)
  then Err (RecipientMismatch accepted.(pr_pay_to) r.(pr_pay_to))
  else
  sui <-? ok_or (MalformedPayload r.(pr_scheme) (json_error p.(pp_payload)))
                (sui_payload_of_json p.(pp_payload)) ;;
  if is_empty (trim sui.(transaction)) then Err EmptyTransaction
  else if is_empty (trim sui.(signature)) then Err MissingSignature
  else Ok sui.

Definition no_client : FacilitatorError :=
  Rpc "sui-grpc mode selected but no fullnode client was built".

Definition verify (f : Facilitator) (p : PaymentPayload) (r : PaymentRequirements) :
  M (Chain N) (result string FacilitatorError) :=
  payload <-! ret (check_terms f p r) ;;;
  match f.(mode), f.(sui) with
  | StubAcceptAll, _ => ret (Ok (stub_payer payload.(transaction)))
  | SuiGrpc, true =>
      verified <-! Sui.verify payload r ;;;
      ret (Ok verified.(v_payer))
  | SuiGrpc, false => ret (Err no_client)
  end.

Definition receipt (f : Facilitator) (r : PaymentRequirements) (payer digest : string) :
  SettlementResponse :=
  {| sr_success := true; sr_error_reason := None; sr_payer := Some payer;
     sr_transaction := digest; sr_network := f.(f_network); sr_amount := Some r.(pr_amount);
     sr_extensions := None |}.

Definition settle (f : Facilitator) (p : PaymentPayload) (r : PaymentRequirements) :
  M (Chain N) (result SettlementResponse FacilitatorError) :=
  payload <-! ret (check_terms f p r) ;;;
  match f.(mode) with
  | StubAcceptAll =>
      ret (Ok (receipt f r (stub_payer payload.(transaction)) "stub-not-settled-on-chain"))
  | SuiGrpc =>
      _ <-! ret (if f.(sui) then Ok () else Err no_client) ;;;
      verified <-! Sui.verify payload r ;;;
      digest <-! Sui.settle payload ;;;
      ret (Ok (receipt f r verified.(v_payer) digest))
  end.

Definition verify_and_settle (f : Facilitator) (p : PaymentPayload) (r : PaymentRequirements) :
  M (Chain N) (result SettlementResponse FacilitatorError) := settle f p r.

Definition failure_receipt (f : Facilitator) (code : string) : SettlementResponse :=
  {| sr_success := false; sr_error_reason := Some code; sr_payer := None; sr_transaction := "";
     sr_network := f.(f_network); sr_amount := None; sr_extensions := None |}.

Definition supported (f : Facilitator) : SupportedResponse :=
  {| su_kinds := [ {| sk_x402_version := X402_VERSION; sk_scheme := "exact";
                      sk_network := f.(f_network); sk_extra := None |} ];
     su_extensions := [SESSION_EXTENSION]; su_signers := ∅ |}.
End Facilitator.

(** ** Lemmas *)

(** The terms the client accepted are the ones asked for, on this chain. *)
Record same_terms (f : Facilitator) (p : PaymentPayload) (r : PaymentRequirements) : Prop := {
  st_chain : r.(pr_network) = f.(f_network);
  st_version : p.(pp_x402_version) = X402_VERSION;
  st_scheme : p.(pp_accepted).(pr_scheme) = r.(pr_scheme);
  st_network : p.(pp_accepted).(pr_network) = r.(pr_network);
  st_amount : p.(pp_accepted).(pr_amount) = r.(pr_amount);
  st_asset : p.(pp_accepted).(pr_asset) = r.(pr_asset);
  st_pay_to : p.(pp_accepted).(pr_pay_to) = r.(pr_pay_to)
}.

Section Lemmas.
#[local] Set Default Proof Using "Type*".
Context `{!Codecs, !Json, !SuiSdk} {N : Type} `{!SuiNode N}.

Lemma differ_err {A E} (a b : string) (e : E) (k : result A E) x :
  (if negb (bool_decide (a = b)) then Err e else k) = Ok x ↔ a = b ∧ k = Ok x.
Proof. rewrite if_err, negb_false_iff, bool_decide_eq_true. done. Qed.

Lemma check_terms_ok f p r s :
  check_terms f p r = Ok s ↔
  same_terms f p r ∧ sui_payload_of_json p.(pp_payload) = Some s ∧
  is_empty (trim s.(transaction)) = false ∧ is_empty (trim s.(signature)) = false.
Proof.
  unfold check_terms. cbv zeta. rewrite !differ_err, if_err, !differ_err.
  rewrite negb_false_iff, Z.eqb_eq.
  assert (∀ o : option SuiExactPayload, ∀ e : FacilitatorError,
    (sui <-? ok_or e o ;; if is_empty (trim sui.(transaction)) then Err EmptyTransaction
       else if is_empty (trim sui.(signature)) then Err MissingSignature else Ok sui) = Ok s ↔
    o = Some s ∧ is_empty (trim s.(transaction)) = false ∧ is_empty (trim s.(signature)) = false)
    as Hlast.
  { intros [x|] e; cbn [ok_or]; [rewrite !if_err|]; split; try done.
    - intros (? & ? & [= <-]). done.
    - intros ([= <-] & ? & ?). done.
    - by intros [? _]. }
  rewrite Hlast. split.
  - intros (? & ? & ? & ? & ? & ? & ? & ?). by split.
  - intros [[? ? ? ? ? ? ?] ?]. done.
Qed.

Lemma bind_ret_ok {A B E W} (c : result A E) (k : A → M W (result B E)) w :
  bind_ok (ret c) k w = match c with Ok a => k a w | Err e => (Err e, w) end.
Proof. by destruct c. Qed.

Lemma facilitator_verify_quiet f p r : keeps quiet (verify (N := N) f p r).
Proof.
  unfold verify. apply keeps_bind_ok; [apply keeps_ret, _|]. intros s.
  destruct (mode f), (sui f); try (apply keeps_ret, _).
  apply keeps_bind_ok; [apply Sui.verify_quiet|]. intros v. apply keeps_ret, _.
Qed.

Lemma sui_settle_calls s w o w' :
  Sui.settle s w = (o, w') →
  w'.(calls) = w.(calls) ∨
  ∃ tb, b64_decode (trim s.(transaction)) = Ok tb ∧ w'.(calls) = w.(calls) ++ [CallExecute tb].
Proof.
  unfold Sui.settle, decode. rewrite bind_ret_ok.
  destruct (b64_decode (trim (transaction s))) as [tb|]; cbn [map_err]; [|intros [= _ <-]; by left].
  destruct (b64_decode (trim (signature s))) as [sb|]; cbn [map_err]; [|intros [= _ <-]; by left].
  rewrite bind_ret_ok. destruct (user_signature sb) as [sig|]; cbn [map_err]; [|intros [= _ <-]; by left].
  unfold bind. rewrite rpc_eq. unfold ret. intros [= _ <-]. right. by exists tb.
Qed.

(** The calls of a settlement: quiet ones, then at most one execution. *)
Lemma settle_calls f p r (w w' : Chain N) o :
  settle f p r w = (o, w') →
  (∃ l, w'.(calls) = w.(calls) ++ l ∧ no_execute l) ∨
  (∃ l tb, w'.(calls) = w.(calls) ++ l ++ [CallExecute tb] ∧ no_execute l).
Proof.
  intros Hs. assert (∃ l, w.(calls) = w.(calls) ++ l ∧ no_execute l) as Hsame.
  { exists []. split; [by rewrite app_nil_r|]. intros tb. apply not_elem_of_nil. }
  unfold settle in Hs. rewrite bind_ret_ok in Hs.
  destruct (check_terms f p r) as [sp|]; [|injection Hs as _ <-; by left].
  destruct (mode f); [injection Hs as _ <-; by left|].
  rewrite bind_ret_ok in Hs. destruct (sui f); [|injection Hs as _ <-; by left].
  unfold bind_ok at 1, bind at 1 in Hs. pose proof (Sui.verify_quiet sp r w) as (l & Hl & Hn).
  destruct (Sui.verify sp r w) as [[v|e] w1]; cbn [snd] in Hl.
  2: { injection Hs as _ <-. left. by exists l. }
  unfold bind_ok, bind in Hs. destruct (Sui.settle sp w1) as [d w2] eqn:Es.
  assert (w' = w2) as -> by (destruct d; by injection Hs).
  apply sui_settle_calls in Es as [Hc | (tb & _ & Hc)].
  - left. exists l. by rewrite Hc.
  - right. exists l, tb. by rewrite Hc, Hl, app_assoc.
Qed.
End Lemmas.

(** ** Properties *)

Section Properties.
#[local] Set Default Proof Using "Type*".
Context `{!Codecs, !Json, !SuiSdk} {N : Type} `{!SuiNode N}.

(** The client pays what was asked, not what it says.  A payment verifies
    or settles only if the terms it accepted are the terms required: scheme,
    network, amount, asset and recipient, on the chain this facilitator
    serves and in protocol version 2. *)
Theorem only_the_advertised_terms (f : Facilitator) (p : PaymentPayload)
    (r : PaymentRequirements) (w w1 w2 : Chain N) (payer : string) (s : SettlementResponse)
    (Hok : verify f p r w = (Ok payer, w1) ∨ settle f p r w = (Ok s, w2)) :
  same_terms f p r.
Proof.
  assert (∃ x, check_terms f p r = Ok x) as [x Hx].
  { destruct Hok as [Hok|Hok]; apply bind_ok_inv in Hok as (x & ? & [= Hx _] & _); eauto. }
  by apply check_terms_ok in Hx as [? _].
Qed.

(** C9: Nothing is broadcast unverified.  Settlement makes the calls of a
    verification and at most one more: an execution, of the very bytes that
    verification has just accepted on these terms.  Verification alone never
    broadcasts. *)
Theorem broadcast_only_after_verification (f : Facilitator) (p : PaymentPayload)
    (r : PaymentRequirements) (w w' : Chain N) (o : result SettlementResponse FacilitatorError)
    (Hs : settle f p r w = (o, w')) :
  quiet w w' ∨
  ∃ sp tb v w1, sui_payload_of_json p.(pp_payload) = Some sp ∧
    b64_decode (trim sp.(transaction)) = Ok tb ∧
    Sui.verify sp r w = (Ok v, w1) ∧ quiet w w1 ∧
    w'.(calls) = w1.(calls) ++ [CallExecute tb] ∧ same_terms f p r ∧ f.(mode) = SuiGrpc.
Proof.
  unfold settle in Hs. rewrite bind_ret_ok in Hs.
  destruct (check_terms f p r) as [sp|] eqn:Hx; [|injection Hs as _ <-; left; reflexivity].
  apply check_terms_ok in Hx as (Hterms & Hsp & _).
  destruct (mode f) eqn:Em; [injection Hs as _ <-; left; reflexivity|].
  rewrite bind_ret_ok in Hs. destruct (sui f); [|injection Hs as _ <-; left; reflexivity].
  unfold bind_ok at 1, bind at 1 in Hs.
  pose proof (Sui.verify_quiet sp r w) as Hq.
  destruct (Sui.verify sp r w) as [[v|e] w1] eqn:Ev; cbn [snd] in Hq.
  2: { injection Hs as _ <-. by left. }
  unfold bind_ok, bind in Hs. destruct (Sui.settle sp w1) as [d w2] eqn:Es.
  assert (w' = w2) as -> by (destruct d; by injection Hs).
  apply sui_settle_calls in Es as [Hc | (tb & Htb & Hc)].
  - left. destruct Hq as (l & Hl & Hn). exists l. by rewrite Hc.
  - right. by exists sp, tb, v, w1.
Qed.

(** A settled payment can be claimed.  On the chain, a settlement that
    succeeds is of a payment that has a replay key, the hash of the executed
    bytes, so the replay cache saw it; the receipt names the sender in those
    bytes and the advertised price. *)
Theorem settled_payment_has_a_replay_key (f : Facilitator) (p : PaymentPayload)
    (r : PaymentRequirements) (w w' : Chain N) (s : SettlementResponse)
    (Hmode : f.(mode) = SuiGrpc) (Hs : settle f p r w = (Ok s, w')) :
  ∃ tb t l, payment_id p = Some (hex_encode (sha256 tb)) ∧
    bcs_transaction tb = Ok t ∧ w'.(calls) = w.(calls) ++ l ++ [CallExecute tb] ∧ no_execute l ∧
    s.(sr_success) = true ∧ s.(sr_payer) = Some t.(sender) ∧ s.(sr_amount) = Some r.(pr_amount).
Proof.
  unfold settle in Hs. apply bind_ok_inv in Hs as (sp & w0 & [= Hx <-] & Hs).
  apply check_terms_ok in Hx as (_ & Hsp & _). rewrite Hmode in Hs.
  apply bind_ok_inv in Hs as ([] & w1 & [= _ <-] & Hs).
  apply bind_ok_inv in Hs as (v & w2 & Hv & Hs).
  apply bind_ok_inv in Hs as (d & w3 & Hd & Hs). injection Hs as <- <-.
  pose proof (Sui.verify_quiet sp r w) as Hq. rewrite Hv in Hq. destruct Hq as (l & Hl & Hn).
  cbn [snd] in Hl.
  destruct (verified_payment_ok sp r w w2 v Hv) as (tb & t & Htb & Ht & Hpayer).
  exists tb, t, l. split_and!; try done.
  - unfold payment_id. rewrite Hsp. cbn. by rewrite Htb.
  - apply sui_settle_calls in Hd as Hc. destruct Hc as [Hc | (tb' & Htb' & Hc)].
    + exfalso. apply settle_ok_calls in Hd. by rewrite Hc in Hd.
    + rewrite Htb in Htb'. injection Htb' as <-. by rewrite Hc, Hl, <- app_assoc.
  - cbn. by rewrite Hpayer.
Qed.

(** The stub moves nothing.  In [stub-accept-all] mode no operation makes a
    call to the chain, and a settlement says so in place of a digest. *)
Theorem stub_never_touches_the_chain (f : Facilitator) (p : PaymentPayload)
    (r : PaymentRequirements) (w : Chain N) (Hmode : f.(mode) = StubAcceptAll) :
  (verify f p r w).2 = w ∧ (settle f p r w).2 = w ∧
  ∀ s, (settle f p r w).1 = Ok s → s.(sr_transaction) = "stub-not-settled-on-chain".
Proof.
  unfold verify, settle. rewrite !bind_ret_ok, Hmode.
  destruct (check_terms f p r); [|done]. cbn. split_and!; [done..|]. by intros s [= <-].
Qed.
End Properties.

(** ** The properties at concrete inputs *)

Definition demo_facilitator : Facilitator :=
  {| mode := SuiGrpc; f_network := "sui:testnet"; sui := true |}.
Definition stub_facilitator : Facilitator :=
  {| mode := StubAcceptAll; f_network := "sui:testnet"; sui := false |}.
Definition demo_settled : SettlementResponse :=
  receipt demo_facilitator demo_requirements "0xdeadbeef" "9xDigest".

Lemma demo_settle_ok :
  settle demo_facilitator demo_payload demo_requirements demo_chain
  = (Ok demo_settled, (settle demo_facilitator demo_payload demo_requirements demo_chain).2).
Proof. vm_compute. reflexivity. Qed.

Lemma only_the_advertised_terms_witness :
  same_terms demo_facilitator demo_payload demo_requirements.
Proof.
  exact (only_the_advertised_terms demo_facilitator demo_payload demo_requirements demo_chain
    demo_chain _ "" _ (or_intror demo_settle_ok)).
Defined.

Lemma broadcast_only_after_verification_witness :
  ∃ tb, (settle demo_facilitator demo_payload demo_requirements demo_chain).2.(calls)
    = [CallVerifySignature tb "0xdeadbeef"; CallSimulate tb; CallGetObject "0xc01"; CallExecute tb] ∧
  (quiet demo_chain (settle demo_facilitator demo_payload demo_requirements demo_chain).2 ∨
   ∃ sp tb v w1, sui_payload_of_json demo_payload.(pp_payload) = Some sp ∧
      b64_decode (trim sp.(transaction)) = Ok tb ∧
      Sui.verify sp demo_requirements demo_chain = (Ok v, w1) ∧ quiet demo_chain w1 ∧
      (settle demo_facilitator demo_payload demo_requirements demo_chain).2.(calls)
        = w1.(calls) ++ [CallExecute tb] ∧
      same_terms demo_facilitator demo_payload demo_requirements ∧
      demo_facilitator.(mode) = SuiGrpc).
Proof.
  exists DemoNode.tx_bytes. split; [vm_compute; reflexivity|].
  exact (broadcast_only_after_verification _ _ _ _ _ _ demo_settle_ok).
Defined.

Lemma settled_payment_has_a_replay_key_witness :
  ∃ tb t l, payment_id demo_payload = Some (hex_encode (sha256 tb)) ∧
    bcs_transaction tb = Ok t ∧
    (settle demo_facilitator demo_payload demo_requirements demo_chain).2.(calls)
      = [] ++ l ++ [CallExecute tb] ∧ no_execute l ∧
    true = true ∧ Some "0xdeadbeef" = Some t.(sender) ∧ Some "10000" = Some "10000".
Proof.
  exact (settled_payment_has_a_replay_key demo_facilitator _ _ _ _ _ eq_refl demo_settle_ok).
Defined.

Lemma stub_never_touches_the_chain_witness :
  (verify stub_facilitator demo_payload demo_requirements demo_chain).2 = demo_chain ∧
  (settle stub_facilitator demo_payload demo_requirements demo_chain).2 = demo_chain.
Proof.
  destruct (stub_never_touches_the_chain stub_facilitator demo_payload demo_requirements demo_chain
    eq_refl) as (Hv & Hs & _).
  exact (conj Hv Hs).
Defined.

(** In stub mode a payment without a replay key is accepted.  A transaction
    that is not base64 has no key to claim, and nothing else refuses it. *)
Theorem stub_accepts_a_payment_without_a_key :
  let p := demo_payload_with "not base64!" None in
  payment_id p = None ∧
  ∃ s, (settle stub_facilitator p demo_requirements demo_chain).1 = Ok s ∧ s.(sr_success) = true.
Proof. split; [vm_compute; reflexivity|]. eexists. split; vm_compute; reflexivity. Qed.
