(* ===== verification/Stores.v ===== *)
(** * The storage interfaces ([SessionStore] and [RateLimiter])

    What the handlers use of storage is a class of operations with a class of
    promises: single use of a claimed payment, and a limiter that answers.
    The in-memory store and Redis implement both, and so does the program's
    enum over the two.  Each operation is given the clock reading (and the
    random bytes) it takes. *)

From Stdlib Require Import Ascii.
From S2P Require Import Prelude RustStr Platform IpAddr RateLimit Session Redis.
From stdpp Require Import options.
#[local] Open Scope Z_scope.

Class SessionBackend (S : Type) := {
  session_consume : Z → string → option string → M S SessionOutcome;
  session_create : Z → bytes → string → option string → Z → Z → M S (option string);
  session_claim : Z → string → Z → M S PaymentClaim;
  session_release : string → M S ();
  session_cleanup : Z → M S Z;
  session_count : S → nat
}.

(** The promise to the handlers: once a claim of [id] for [ttl] seconds was
    fresh at [t0], the store holds it. *)
Class SingleUse (S : Type) `{!SessionBackend S} := {
  held : string → Z → Z → S → Prop;                     (* id, t0, ttl *)
  claim_holds now id ttl s s' :
    is_u64 now → 0 < ttl → session_claim now id ttl s = (Fresh, s') → held id now ttl s';
  held_refuses id t0 ttl ttl' now s :
    held id t0 ttl s → t0 ≤ now < t0 + ttl → ttl ≤ ttl' →
    (session_claim now id ttl' s).1 ≠ Fresh;
  held_claim id id' t0 ttl ttl' now s :
    held id t0 ttl s → t0 ≤ now < t0 + ttl → ttl ≤ ttl' →
    held id t0 ttl (session_claim now id' ttl' s).2;
  held_consume id t0 ttl now tok pol s :
    held id t0 ttl s → held id t0 ttl (session_consume now tok pol s).2;
  held_create id t0 ttl now raw p pol q d s :
    held id t0 ttl s → held id t0 ttl (session_create now raw p pol q d s).2;
  held_release id id' t0 ttl s :
    id ≠ id' → held id t0 ttl s → held id t0 ttl (session_release id' s).2;
  held_weaken id t0 ttl ttl' s : ttl ≤ ttl' → held id t0 ttl' s → held id t0 ttl s;
  (* Are records kept for [ttl] seconds?  Then a sweep leaves claims alone. *)
  retains : Z → S → Prop;
  held_cleanup id t0 ttl now s :
    retains ttl s → held id t0 ttl s → t0 ≤ now < t0 + ttl → held id t0 ttl (session_cleanup now s).2;
  retains_claim r now id ttl s : retains r s → retains r (session_claim now id ttl s).2;
  retains_consume r now tok pol s : retains r s → retains r (session_consume now tok pol s).2;
  retains_create r now raw p pol q d s :
    retains r s → retains r (session_create now raw p pol q d s).2;
  retains_release r id s : retains r s → retains r (session_release id s).2;
  retains_cleanup r now s : retains r s → retains r (session_cleanup now s).2
}.

Class RateBackend (L : Type) := {
  rate_check : Z → string → IpAddr → Z → Z → L → option (Allowance * L);
  rate_cleanup : Z → M L Z;
  rate_count : L → nat
}.

(** The promise: with a positive window the limiter answers. *)
Class RateAnswers (L : Type) `{!RateBackend L} := {
  rate_answers now label ip max w l : 0 < w → ∃ a l', rate_check now label ip max w l = Some (a, l')
}.

(** ** In memory *)

Section Memory.
#[local] Set Default Proof Using "Type*".
Context `{!Codecs}.

#[export] Instance memory_sessions : SessionBackend MemorySessionStore := {
  session_consume now tok pol := consume_at tok pol now;
  session_create now raw p pol q ttl := λ s,
    let '(tok, s) := create_session_at p pol q ttl now raw s in (Some tok, s);
  session_claim now id ttl := claim_payment_at id ttl now;
  session_release id := λ s, (tt, release_payment id s);
  session_cleanup now := cleanup_expired_at now;
  session_count := store_len
}.

#[export] Instance memory_single_use : SingleUse MemorySessionStore.
Proof.
  refine {| held := λ id t0 _ s, s.(seen_payments) !! id = Some t0;
            retains := λ r s, r ≤ s.(replay_retention_secs) |};
    cbn [session_claim session_consume session_create session_release session_cleanup memory_sessions].
  - intros now id ttl s s' _ _. unfold claim_payment_at.
    repeat case_match; intros [= <-]; cbn; by rewrite lookup_insert_eq.
  - intros id t0 ttl ttl' now s Hs Hnow Httl. unfold claim_payment_at. rewrite Hs.
    by rewrite sat_sub_ge, (proj2 (Z.leb_gt _ _)) by lia.
  - intros id id' t0 ttl ttl' now s Hs Hnow Httl. unfold claim_payment_at.
    destruct (decide (id = id')) as [<-|Hne].
    + rewrite Hs. by rewrite sat_sub_ge, (proj2 (Z.leb_gt _ _)) by lia.
    + repeat case_match; cbn; rewrite ?lookup_insert_ne; done.
  - intros id t0 ttl now tok pol s Hs.
    destruct (consume_at tok pol now s) as [[p r q e|why] s'] eqn:E; cbn [snd].
    + by apply consume_accepted_inv in E as (c & x & _ & _ & _ & _ & _ & _ & _ & _ & _ & ->).
    + by apply consume_rejected_same in E as ->.
  - done.
  - intros id id' t0 ttl s Hne Hs. cbn. by rewrite lookup_delete_ne.
  - done.
  - intros id t0 ttl now s Hret Hs Hnow. rewrite lookup_seen, Hs, sat_sub_ge by lia.
    by rewrite (proj2 (Z.ltb_lt _ _)) by lia.
  - intros r now id ttl s. unfold claim_payment_at. by repeat case_match.
  - intros r now tok pol s. destruct (consume_at tok pol now s) as [[p rem q e|why] s'] eqn:E; cbn [snd].
    + by apply consume_accepted_inv in E as (c & x & _ & _ & _ & _ & _ & _ & _ & _ & _ & ->).
    + by apply consume_rejected_same in E as ->.
  - done.
  - done.
  - done.
Defined.

#[export] Instance memory_limiter : RateBackend MemoryRateLimiter := {
  rate_check now label ip max w := check_at label ip max w now;
  rate_cleanup now := cleanup_idle_at now;
  rate_count := len
}.

#[export] Instance memory_limiter_answers : RateAnswers MemoryRateLimiter.
Proof.
  split. intros now label ip max w l Hw. cbn. unfold check_at.
  rewrite (proj2 (Z.ltb_lt 0 w)) by done. cbn [negb].
  destruct (check_entry _ _ _ _) as [a e]. eauto.
Qed.
End Memory.

(** ** Redis

    The links say how each coming round trip fares; the server's clock is the
    verifier's. *)

Record RedisSessionStore (R : Type) := mkRedisSessions {
  rs_db : R; rs_key : bytes; rs_links : list Link }.
Arguments mkRedisSessions {R} _ _ _.
Arguments rs_db {R} _.
Arguments rs_key {R} _.
Arguments rs_links {R} _.

Record RedisRateLimiter (R : Type) := mkRedisLimiter { rl_db : R; rl_links : list Link }.
Arguments mkRedisLimiter {R} _ _.
Arguments rl_db {R} _.
Arguments rl_links {R} _.

Definition next_link (l : list Link) : Link * list Link :=
  match l with [] => (Up, []) | k :: l => (k, l) end.

Section RedisStores.
#[local] Set Default Proof Using "Type*".
Context `{!Codecs} {R : Type} `{!RedisCommands R}.

(** One operation on the database over the next link. *)
Definition over_link {A} (f : Link → R → A * R) : M (RedisSessionStore R) A := λ s,
  let '(k, ks) := next_link s.(rs_links) in
  let '(a, r) := f k s.(rs_db) in (a, mkRedisSessions r s.(rs_key) ks).

#[export] Instance redis_sessions : SessionBackend (RedisSessionStore R) := {
  session_consume now tok pol := λ s,
    over_link (λ k, redis_consume s.(rs_key) k now now tok pol) s;
  session_create now raw p pol q ttl := λ s,
    over_link (λ k, redis_create_session s.(rs_key) k now now p pol q ttl raw) s;
  session_claim now id ttl := over_link (λ k, redis_claim_payment k now now id ttl);
  session_release id := over_link (λ k r, (tt, redis_release_payment k id r));
  session_cleanup _ := ret 0;
  session_count _ := 0%nat
}.

#[export] Instance redis_limiter : RateBackend (RedisRateLimiter R) := {
  rate_check now label ip max w l :=
    let '(k, ks) := next_link l.(rl_links) in
    '(a, r) ← redis_check_at k now label ip max w now l.(rl_db);
    Some (a, mkRedisLimiter r ks);
  rate_cleanup _ := ret 0;
  rate_count _ := 0%nat
}.

#[export] Instance redis_limiter_answers : RateAnswers (RedisRateLimiter R).
Proof.
  split. intros now label ip max w l Hw. cbn. destruct (next_link (rl_links l)) as [k ks].
  unfold redis_check_at. rewrite (proj2 (Z.ltb_lt 0 w)) by done. cbn [negb].
  destruct (invoke _ _ _) as [reply r]. cbn. eauto.
Qed.

Context `{!RedisLaws R}.

Lemma over_link_db {A} (f : Link → R → A * R) s :
  ∃ k, (over_link f s).1 = (f k s.(rs_db)).1 ∧ rs_db (over_link f s).2 = (f k s.(rs_db)).2.
Proof.
  unfold over_link. destruct (next_link (rs_links s)) as [k ks]. exists k.
  by destruct (f k (rs_db s)).
Qed.

Lemma key_ne sid id : key sid ≠ REDIS_REPLAY_PREFIX +:+ id.
Proof. discriminate. Qed.

Lemma replay_key_inj id id' :
  id ≠ id' → REDIS_REPLAY_PREFIX +:+ id' ≠ REDIS_REPLAY_PREFIX +:+ id.
Proof. intros Hne Heq. by apply append_inj_l in Heq. Qed.

(** What Redis remembers of a payment for [ttl] seconds from [t0] on. *)
Definition redis_held (id : string) (t0 ttl : Z) (r : R) : Prop :=
  is_u64 t0 ∧ ∀ t, t0 ≤ t < t0 + ttl →
    redis_get t (REDIS_REPLAY_PREFIX +:+ id) r = Some (u_to_string t0).

Lemma redis_held_same id t0 ttl r r' :
  (∀ t, redis_get t (REDIS_REPLAY_PREFIX +:+ id) r'
        = redis_get t (REDIS_REPLAY_PREFIX +:+ id) r) →
  redis_held id t0 ttl r → redis_held id t0 ttl r'.
Proof. intros Heq [Hu Hg]. split; [done|]. intros t Ht. by rewrite Heq, Hg. Qed.

Lemma store_session_get t t' sid id p pol q ttl r :
  redis_get t' (REDIS_REPLAY_PREFIX +:+ id) (store_session t (key sid) p pol q ttl r)
  = redis_get t' (REDIS_REPLAY_PREFIX +:+ id) r.
Proof.
  unfold store_session. rewrite get_expire_ne by apply key_ne.
  by rewrite !get_hset by apply key_ne.
Qed.

(** The script of a claim, on a held payment. *)
Lemma claim_script_held id t0 ttl now ttl' r :
  redis_held id t0 ttl r → t0 ≤ now < t0 + ttl →
  CLAIM_SCRIPT now (REDIS_REPLAY_PREFIX +:+ id) (u_to_string now) ttl' r
  = (Some (0, u_to_string t0), r).
Proof.
  intros [_ Hg] Hnow. unfold CLAIM_SCRIPT. by rewrite Hg by lia.
Qed.

Lemma claim_held_unchanged id t0 ttl now ttl' k r :
  redis_held id t0 ttl r → t0 ≤ now < t0 + ttl →
  (redis_claim_payment k now now id ttl' r).1 ≠ Fresh ∧
  (redis_claim_payment k now now id ttl' r).2 = r.
Proof.
  intros Hh Hnow. pose proof Hh as [Hu _]. unfold redis_claim_payment, invoke.
  destruct k; rewrite ?(claim_script_held _ _ _ _ _ _ Hh Hnow); cbn [snd]; try done.
  unfold parse_u64. by rewrite parse_uint_print.
Qed.

Lemma claim_other id id' t0 ttl now ttl' k r :
  id ≠ id' → redis_held id t0 ttl r →
  redis_held id t0 ttl (redis_claim_payment k now now id' ttl' r).2.
Proof.
  intros Hne Hh. unfold redis_claim_payment, invoke, CLAIM_SCRIPT.
  assert (∀ v, redis_held id t0 ttl (redis_set_ex now (REDIS_REPLAY_PREFIX +:+ id') v ttl' r)) as Hset.
  { intros v. eapply redis_held_same; [|exact Hh]. intros t.
    apply get_set_ex_ne. by apply replay_key_inj. }
  destruct k, (redis_get now (REDIS_REPLAY_PREFIX +:+ id') r), (redis_refuses_ex now ttl' r); cbn; done.
Qed.

(** The other commands write other keys. *)
Lemma consume_get t id ks k now tok pol r :
  redis_get t (REDIS_REPLAY_PREFIX +:+ id) (redis_consume ks k now now tok pol r).2
  = redis_get t (REDIS_REPLAY_PREFIX +:+ id) r.
Proof.
  unfold redis_consume. destruct (Session.verify _ _ _) as [c|]; [|done].
  assert (redis_get t (REDIS_REPLAY_PREFIX +:+ id)
            (SPEND_SCRIPT now (key (c_session_id c)) (unwrap_or pol "") r).2
          = redis_get t (REDIS_REPLAY_PREFIX +:+ id) r) as Hs.
  { unfold SPEND_SCRIPT. repeat case_match; try done. cbn [snd]. by rewrite get_hincrby by apply key_ne. }
  destruct k; cbn [invoke]; [|done|apply Hs]. by destruct (SPEND_SCRIPT _ _ _ _).
Qed.

Lemma create_get t id ks k now p pol q d raw r :
  redis_get t (REDIS_REPLAY_PREFIX +:+ id) (redis_create_session ks k now now p pol q d raw r).2
  = redis_get t (REDIS_REPLAY_PREFIX +:+ id) r.
Proof.
  unfold redis_create_session. destruct k; cbn [snd]; [apply store_session_get|done|apply store_session_get].
Qed.

Lemma release_get t id id' k r :
  id ≠ id' → redis_get t (REDIS_REPLAY_PREFIX +:+ id) (redis_release_payment k id' r)
             = redis_get t (REDIS_REPLAY_PREFIX +:+ id) r.
Proof.
  intros Hne. unfold redis_release_payment.
  destruct k; cbn [snd]; [|done|]; apply get_del_ne; by apply replay_key_inj.
Qed.

#[export] Instance redis_single_use : SingleUse (RedisSessionStore R).
Proof.
  refine {| held := λ id t0 ttl s, redis_held id t0 ttl s.(rs_db); retains := λ _ _, True |};
    cbn [session_claim session_consume session_create session_release session_cleanup redis_sessions];
    try done.
  - intros now id ttl s s' Hu Httl Hc.
    destruct (over_link_db (λ k, redis_claim_payment k now now id ttl) s) as (k & H1 & H2).
    rewrite Hc in H1, H2. cbn [fst snd] in *. rewrite H2. revert H1.
    unfold redis_claim_payment, invoke, CLAIM_SCRIPT. destruct k; try done.
    destruct (redis_get now _ (rs_db s)) as [old|] eqn:E; cbn [fst snd].
    + by destruct (parse_u64 old).
    + destruct (redis_refuses_ex now ttl _); [done|]. cbn [fst snd].
      intros _. split; [done|]. intros t Ht. rewrite get_set_ex by lia. by rewrite (proj2 (Z.ltb_lt _ _)) by lia.
  - intros id t0 ttl ttl' now s Hh Hnow _.
    destruct (over_link_db (λ k, redis_claim_payment k now now id ttl') s) as (k & -> & _).
    by apply (claim_held_unchanged _ t0 ttl).
  - intros id id' t0 ttl ttl' now s Hh Hnow _.
    destruct (over_link_db (λ k, redis_claim_payment k now now id' ttl') s) as (k & _ & ->).
    destruct (decide (id = id')) as [<-|Hne]; [|by apply claim_other].
    by destruct (claim_held_unchanged _ _ _ _ ttl' k _ Hh Hnow) as [_ ->].
  - intros id t0 ttl now tok pol s Hh.
    destruct (over_link_db (λ k, redis_consume (rs_key s) k now now tok pol) s) as (k & _ & ->).
    eapply redis_held_same; [|exact Hh]. intros t. apply consume_get.
  - intros id t0 ttl now raw p pol q d s Hh.
    destruct (over_link_db (λ k, redis_create_session (rs_key s) k now now p pol q d raw) s)
      as (k & _ & ->).
    eapply redis_held_same; [|exact Hh]. intros t. apply create_get.
  - intros id id' t0 ttl s Hne Hh.
    destruct (over_link_db (λ k r, (tt, redis_release_payment k id' r)) s) as (k & _ & ->).
    eapply redis_held_same; [|exact Hh]. intros t. by apply release_get.
  - intros id t0 ttl ttl' s Httl [Hu Hg]. split; [done|]. intros t Ht. apply Hg. lia.
Defined.
End RedisStores.

(** ** The program's enums *)

Inductive SessionStore (R : Type) :=
| MemorySessions (s : MemorySessionStore)
| RedisSessions (s : RedisSessionStore R).
Arguments MemorySessions {R} s.
Arguments RedisSessions {R} s.

Inductive RateLimiter (R : Type) :=
| MemoryLimiter (l : MemoryRateLimiter)
| RedisLimiter (l : RedisRateLimiter R).
Arguments MemoryLimiter {R} l.
Arguments RedisLimiter {R} l.

Definition via {S T A} (inj : S → T) (m : M S A) (s : S) : A * T :=
  let '(a, s') := m s in (a, inj s').

Section Enums.
#[local] Set Default Proof Using "Type*".
Context `{!Codecs} {R : Type} `{!RedisCommands R}.

(** Run the operation of whichever backend it is. *)
Definition dispatch {A} (m : M MemorySessionStore A) (r : M (RedisSessionStore R) A) :
  M (SessionStore R) A := λ s,
  match s with
  | MemorySessions s => via MemorySessions m s
  | RedisSessions s => via RedisSessions r s
  end.

#[export] Instance enum_sessions : SessionBackend (SessionStore R) := {
  session_consume now tok pol :=
    dispatch (session_consume now tok pol) (session_consume now tok pol);
  session_create now raw p pol q ttl :=
    dispatch (session_create now raw p pol q ttl) (session_create now raw p pol q ttl);
  session_claim now id ttl := dispatch (session_claim now id ttl) (session_claim now id ttl);
  session_release id := dispatch (session_release id) (session_release id);
  session_cleanup now := dispatch (session_cleanup now) (session_cleanup now);
  session_count s :=
    match s with MemorySessions s => session_count s | RedisSessions s => session_count s end
}.

#[export] Instance enum_limiter : RateBackend (RateLimiter R) := {
  rate_check now label ip max w l :=
    match l with
    | MemoryLimiter l => '(a, l) ← rate_check now label ip max w l; Some (a, MemoryLimiter l)
    | RedisLimiter l => '(a, l) ← rate_check now label ip max w l; Some (a, RedisLimiter l)
    end;
  rate_cleanup now := λ l,
    match l with
    | MemoryLimiter l => via MemoryLimiter (rate_cleanup now) l
    | RedisLimiter l => via RedisLimiter (rate_cleanup now) l
    end;
  rate_count l := match l with MemoryLimiter l => rate_count l | RedisLimiter l => rate_count l end
}.

#[export] Instance enum_limiter_answers : RateAnswers (RateLimiter R).
Proof.
  split. intros now label ip max w [l|l] Hw; cbn [rate_check enum_limiter].
  - destruct (rate_answers now label ip max w l Hw) as (a & l' & ->). cbn. eauto.
  - destruct (rate_answers now label ip max w l Hw) as (a & l' & ->). cbn. eauto.
Qed.

Lemma via_eq {S T A} (inj : S → T) (m : M S A) s : via inj m s = ((m s).1, inj (m s).2).
Proof. unfold via. by destruct (m s). Qed.

Context `{!RedisLaws R}.

#[export] Instance enum_single_use : SingleUse (SessionStore R).
Proof.
  refine {| held := λ id t0 ttl s,
              match s with
              | MemorySessions s => held id t0 ttl s
              | RedisSessions s => held id t0 ttl s
              end;
            retains := λ r s,
              match s with MemorySessions s => retains r s | RedisSessions s => retains r s end |};
    cbn [session_claim session_consume session_create session_release session_cleanup enum_sessions].
  - intros now id ttl [s|s] s' Hu Httl; unfold dispatch; rewrite via_eq; intros [= Hf <-];
      eapply claim_holds; try done; rewrite <- Hf; apply surjective_pairing.
  - intros id t0 ttl ttl' now [s|s] Hh; unfold dispatch; rewrite via_eq; by apply held_refuses.
  - intros id id' t0 ttl ttl' now [s|s] Hh; unfold dispatch; rewrite via_eq; by apply held_claim.
  - intros id t0 ttl now tok pol [s|s] Hh; unfold dispatch; rewrite via_eq; by apply held_consume.
  - intros id t0 ttl now raw p pol q d [s|s] Hh; unfold dispatch; rewrite via_eq;
      by apply held_create.
  - intros id id' t0 ttl [s|s] Hne Hh; unfold dispatch; rewrite via_eq; by apply held_release.
  - intros id t0 ttl ttl' [s|s]; apply held_weaken.
  - intros id t0 ttl now [s|s] Hr Hh; unfold dispatch; rewrite via_eq; by apply held_cleanup.
  - intros r now id ttl [s|s] Hr; unfold dispatch; rewrite via_eq; by apply retains_claim.
  - intros r now tok pol [s|s] Hr; unfold dispatch; rewrite via_eq; by apply retains_consume.
  - intros r now raw p pol q d [s|s] Hr; unfold dispatch; rewrite via_eq; by apply retains_create.
  - intros r id [s|s] Hr; unfold dispatch; rewrite via_eq; by apply retains_release.
  - intros r now [s|s] Hr; unfold dispatch; rewrite via_eq; by apply retains_cleanup.
Defined.
End Enums.

(** How long a claim lasts is up to the last claimant.  The in-memory store
    compares the age of a record with the lifetime the new request asks for,
    so a payment claimed for 600 seconds is fresh again after 300 to a request
    that asks for 300; Redis keeps the record for the lifetime it was claimed
    with. *)
Theorem a_shorter_lifetime_reopens_a_memory_claim :
  let claim t ttl := session_claim (S := SessionStore Db.t) t "tx" ttl in
  let twice s := (claim 1700000300 300 (claim 1700000000 600 s).2).1 in
  twice (MemorySessions demo_store) = Fresh ∧
  twice (RedisSessions (mkRedisSessions Db.empty demo_key [])) = Replay 1700000000.
Proof. split; vm_compute; reflexivity. Qed.
