(* ===== verification/World.v ===== *)
(** * The shared state of the service and its surroundings

    [AppState] of [src/auth.rs] (the breaker, the stores, the facilitator's
    connection), the wall clock of [src/util.rs] and the random generator of
    which each use takes a fresh reading, and the metrics of [src/metrics.rs]
    in the order they are emitted.  Handlers are programs over this world. *)

From Stdlib Require Import Ascii.
From S2P Require Import Prelude RustStr Platform IpAddr Session Config X402 Sui Facilitator.
From S2P Require Import Stores.
From S2P Require RateLimit Breaker.
From stdpp Require Import options.
#[local] Open Scope Z_scope.

(** ** Metrics *)

Definition REQUESTS : string := "x402_requests_total".
Definition PAYMENTS : string := "x402_payments_total".
Definition VERIFICATION_SECONDS : string := "x402_verification_seconds".
Definition SETTLEMENT_SECONDS : string := "x402_settlement_seconds".
Definition SESSIONS : string := "x402_sessions_total".
Definition SESSION_REJECTIONS : string := "x402_session_rejections_total".
Definition REPLAY_CLAIMS : string := "x402_replay_claims_total".
Definition RATE_LIMIT : string := "x402_rate_limit_total".
Definition SETTLEMENT_AFTER_SERVE_FAILURES : string := "x402_settlement_after_serve_failures_total".
Definition STORE_ERRORS : string := "x402_store_errors_total".

(** A counter incremented or a histogram recorded, with its labels. *)
Record Metric := mkMetric { m_name : string; m_labels : list (string * string) }.

(** ** The world *)

Record World (S L N : Type) := mkWorld {
  w_clock : nat → Z;            (* the readings of [now_epoch_secs] *)
  w_tick : nat;                 (* how many were taken *)
  w_entropy : nat → bytes;      (* the random bytes of each session *)
  w_draws : nat;
  w_breaker : Breaker.SettlementBreaker;
  w_sessions : S;
  w_limiter : L;
  w_chain : Chain N;
  w_metrics : list Metric
}.
Arguments mkWorld {S L N} _ _ _ _ _ _ _ _ _.
Arguments w_clock {S L N} _ _.
Arguments w_tick {S L N} _.
Arguments w_entropy {S L N} _ _.
Arguments w_draws {S L N} _.
Arguments w_breaker {S L N} _.
Arguments w_sessions {S L N} _.
Arguments w_limiter {S L N} _.
Arguments w_chain {S L N} _.
Arguments w_metrics {S L N} _.

(** What does not change after startup. *)
Record App := mkApp { config : Config; facilitator : Facilitator }.

Section World.
Context {S L N : Type}.

Definition now_epoch_secs : M (World S L N) Z := λ w,
  (w_clock w (w_tick w),
   mkWorld (w_clock w) (w_tick w + 1) (w_entropy w) (w_draws w) (w_breaker w) (w_sessions w)
     (w_limiter w) (w_chain w) (w_metrics w)).

Definition draw : M (World S L N) bytes := λ w,
  (w_entropy w (w_draws w),
   mkWorld (w_clock w) (w_tick w) (w_entropy w) (w_draws w + 1) (w_breaker w) (w_sessions w)
     (w_limiter w) (w_chain w) (w_metrics w)).

Definition emit (name : string) (labels : list (string * string)) : M (World S L N) () := λ w,
  (tt, mkWorld (w_clock w) (w_tick w) (w_entropy w) (w_draws w) (w_breaker w) (w_sessions w)
         (w_limiter w) (w_chain w) (w_metrics w ++ [mkMetric name labels])).

Definition on_breaker {A} (f : M Breaker.SettlementBreaker A) : M (World S L N) A := λ w,
  let '(a, b) := f (w_breaker w) in
  (a, mkWorld (w_clock w) (w_tick w) (w_entropy w) (w_draws w) b (w_sessions w) (w_limiter w)
        (w_chain w) (w_metrics w)).

Definition on_sessions {A} (f : M S A) : M (World S L N) A := λ w,
  let '(a, s) := f (w_sessions w) in
  (a, mkWorld (w_clock w) (w_tick w) (w_entropy w) (w_draws w) (w_breaker w) s (w_limiter w)
        (w_chain w) (w_metrics w)).

(** The limiter may panic ([None]). *)
Definition on_limiter {A} (f : L → option (A * L)) : M (World S L N) (option A) := λ w,
  match f (w_limiter w) with
  | Some (a, l) =>
      (Some a, mkWorld (w_clock w) (w_tick w) (w_entropy w) (w_draws w) (w_breaker w)
                 (w_sessions w) l (w_chain w) (w_metrics w))
  | None => (None, w)
  end.

Definition on_chain {A} (f : M (Chain N) A) : M (World S L N) A := λ w,
  let '(a, c) := f (w_chain w) in
  (a, mkWorld (w_clock w) (w_tick w) (w_entropy w) (w_draws w) (w_breaker w) (w_sessions w)
        (w_limiter w) c (w_metrics w)).

(** The operations of the components, each with the readings it takes. *)
Context `{!SessionBackend S, !RateBackend L}.

Definition consume (token : string) (policy : option string) : M (World S L N) SessionOutcome :=
  now <-- now_epoch_secs ;;; on_sessions (session_consume now token policy).
Definition create_session (payer : string) (policy : option string) (quota ttl : Z) :
  M (World S L N) (option string) :=
  raw <-- draw ;;; now <-- now_epoch_secs ;;;
  on_sessions (session_create now raw payer policy quota ttl).
Definition claim_payment (id : string) (ttl : Z) : M (World S L N) PaymentClaim :=
  now <-- now_epoch_secs ;;; on_sessions (session_claim now id ttl).
Definition release_payment (id : string) : M (World S L N) () := on_sessions (session_release id).
Definition cleanup_sessions : M (World S L N) Z :=
  now <-- now_epoch_secs ;;; on_sessions (session_cleanup now).
Definition cleanup_limiter : M (World S L N) Z :=
  now <-- now_epoch_secs ;;;
  idle <-- on_limiter (λ l, Some (rate_cleanup now l)) ;;; ret (unwrap_or idle 0).
Definition check_rate (label : string) (ip : IpAddr) (max w : Z) :
  M (World S L N) (option RateLimit.Allowance) :=
  now <-- now_epoch_secs ;;; on_limiter (rate_check now label ip max w).
Definition breaker_state (policy : string) : M (World S L N) Breaker.BreakerState :=
  now <-- now_epoch_secs ;;; on_breaker (Breaker.state_at policy now).
Definition record_success (policy : string) : M (World S L N) () :=
  now <-- now_epoch_secs ;;; on_breaker (λ b, (tt, Breaker.record_success policy now b)).
Definition record_failure (policy : string) : M (World S L N) () :=
  now <-- now_epoch_secs ;;; on_breaker (λ b, (tt, Breaker.record_failure policy now b)).
End World.

(** ** Frames

    What a relation [R] between worlds must satisfy for the operations on one
    part of the world to keep it. *)
Section Frames.
#[local] Set Default Proof Using "Type*".
Context {S L N : Type} (R : World S L N → World S L N → Prop) `{!PreOrder R}.

Lemma keeps_on_sessions {A} (f : M S A) :
  (∀ w s, s = (f (w_sessions w)).2 →
     R w (mkWorld (w_clock w) (w_tick w) (w_entropy w) (w_draws w) (w_breaker w) s (w_limiter w)
            (w_chain w) (w_metrics w))) →
  keeps R (on_sessions f).
Proof.
  intros Hf w. unfold on_sessions. specialize (Hf w).
  destruct (f (w_sessions w)) as [a s]. by apply Hf.
Qed.

Lemma keeps_on_limiter {A} (f : L → option (A * L)) :
  (∀ w l, R w (mkWorld (w_clock w) (w_tick w) (w_entropy w) (w_draws w) (w_breaker w)
                 (w_sessions w) l (w_chain w) (w_metrics w))) →
  keeps R (on_limiter f).
Proof.
  intros Hf w. unfold on_limiter. destruct (f (w_limiter w)) as [[a l]|]; [apply Hf|]. reflexivity.
Qed.

Lemma keeps_on_chain {A} (f : M (Chain N) A) :
  (∀ w c, c = (f (w_chain w)).2 →
     R w (mkWorld (w_clock w) (w_tick w) (w_entropy w) (w_draws w) (w_breaker w)
            (w_sessions w) (w_limiter w) c (w_metrics w))) →
  keeps R (on_chain f).
Proof.
  intros Hf w. unfold on_chain. specialize (Hf w). destruct (f (w_chain w)) as [a c].
  by apply Hf.
Qed.

Lemma keeps_on_breaker {A} (f : M Breaker.SettlementBreaker A) :
  (∀ w b, R w (mkWorld (w_clock w) (w_tick w) (w_entropy w) (w_draws w) b
                 (w_sessions w) (w_limiter w) (w_chain w) (w_metrics w))) →
  keeps R (on_breaker f).
Proof. intros Hf w. unfold on_breaker. destruct (f (w_breaker w)). apply Hf. Qed.
End Frames.

(** *** What only chain calls change *)

Definition chain_quiet {S L N} (w w' : World S L N) : Prop := quiet (w_chain w) (w_chain w').

#[export] Instance chain_quiet_preorder {S L N} : PreOrder (@chain_quiet S L N).
Proof.
  split; [intros w; apply quiet_refl|]. intros w1 w2 w3. apply quiet_trans.
Qed.

(** *** Single use

    From a world on, the claim of [id] at [t0] for [ttl] seconds stays held,
    as long as the readings to come are within its lifetime. *)
Section Guards.
#[local] Set Default Proof Using "Type*".
Context {S L N : Type} `{!SessionBackend S, !SingleUse S, !RateBackend L}.
Context (id : string) (t0 ttl : Z).

Definition timely (w : World S L N) : Prop :=
  ∀ i, (w_tick w ≤ i)%nat → t0 ≤ w_clock w i < t0 + ttl.

Definition guards (w w' : World S L N) : Prop :=
  w_clock w' = w_clock w ∧ (w_tick w ≤ w_tick w')%nat ∧
  (timely w → held id t0 ttl (w_sessions w) → held id t0 ttl (w_sessions w')) ∧
  (retains ttl (w_sessions w) → retains ttl (w_sessions w')).

#[export] Instance guards_preorder : PreOrder guards.
Proof.
  split; [intros w; unfold guards; by split_and!|].
  intros w1 w2 w3 (Hc & Ht & Hh & Hr) (Hc' & Ht' & Hh' & Hr'). unfold guards.
  split_and!; [congruence|lia| |auto].
  intros Hw H. apply Hh'; [|by apply Hh]. intros i Hi. rewrite Hc. apply Hw. lia.
Qed.

Lemma guards_timely w w' : guards w w' → timely w → timely w'.
Proof. intros (Hc & Ht & _) Hw i Hi. rewrite Hc. apply Hw. lia. Qed.

Lemma guards_now : keeps guards now_epoch_secs.
Proof. intros w. unfold guards. cbn. split_and!; [done|lia|done|done]. Qed.
Lemma guards_draw : keeps guards draw.
Proof. intros w. unfold guards. by cbn. Qed.
Lemma guards_emit n l : keeps guards (emit n l).
Proof. intros w. unfold guards. by cbn. Qed.
Lemma guards_limiter {A} (f : L → option (A * L)) : keeps guards (on_limiter f).
Proof. apply keeps_on_limiter; [apply _|]. by intros w l. Qed.
Lemma guards_breaker {A} (f : M Breaker.SettlementBreaker A) : keeps guards (on_breaker f).
Proof. apply keeps_on_breaker; [apply _|]. by intros w b. Qed.
Lemma guards_chain {A} (f : M (Chain N) A) : keeps guards (on_chain f).
Proof. apply keeps_on_chain; [apply _|]. by intros w c _. Qed.

Lemma guards_sessions {A} (f : M S A) :
  (∀ s, held id t0 ttl s → held id t0 ttl (f s).2) → (∀ s, retains ttl s → retains ttl (f s).2) →
  keeps guards (on_sessions f).
Proof.
  intros Hf Hr. apply keeps_on_sessions; [apply _|]. intros w s ->. unfold guards. cbn. split_and!; auto.
Qed.

Lemma guards_consume tok pol : keeps guards (consume tok pol).
Proof.
  apply keeps_bind; [apply _|apply guards_now|]. intros now. apply guards_sessions; intros s;
    [apply held_consume|apply retains_consume].
Qed.
Lemma guards_create p pol q d : keeps guards (create_session p pol q d).
Proof.
  apply keeps_bind; [apply _|apply guards_draw|]. intros raw.
  apply keeps_bind; [apply _|apply guards_now|]. intros now. apply guards_sessions; intros s;
    [apply held_create|apply retains_create].
Qed.
Lemma guards_release id' : id ≠ id' → keeps guards (release_payment id').
Proof. intros Hne. apply guards_sessions; intros s; [by apply held_release|apply retains_release]. Qed.

(** A claim takes its reading and then finds the store as it was. *)
Lemma claim_payment_eq id' ttl' (w : World S L N) :
  let now := w_clock w (w_tick w) in
  (claim_payment id' ttl' w).1 = (session_claim now id' ttl' (w_sessions w)).1 ∧
  w_sessions (claim_payment id' ttl' w).2 = (session_claim now id' ttl' (w_sessions w)).2 ∧
  w_clock (claim_payment id' ttl' w).2 = w_clock w ∧
  w_tick (claim_payment id' ttl' w).2 = (w_tick w + 1)%nat ∧
  w_chain (claim_payment id' ttl' w).2 = w_chain w.
Proof.
  cbv zeta. unfold claim_payment, bind, now_epoch_secs, on_sessions. cbn.
  by destruct (session_claim _ _ _ _).
Qed.

Lemma guards_claim id' ttl' : ttl ≤ ttl' → keeps guards (claim_payment id' ttl').
Proof.
  intros Httl w. pose proof (claim_payment_eq id' ttl' w) as (_ & Hs & Hc & Ht & _).
  unfold guards. rewrite Hs, Hc, Ht. split_and!; [done|lia| |apply retains_claim].
  intros Hw Hh. apply held_claim; [done| |done]. by apply Hw.
Qed.

(** A sweep keeps what is recorded for long enough. *)
Lemma sweep_guards (w : World S L N) :
  retains ttl (w_sessions w) → guards w (cleanup_sessions w).2.
Proof.
  intros Hr. unfold cleanup_sessions, bind, now_epoch_secs, on_sessions. cbn.
  pose proof (λ t0', held_cleanup id t0' ttl (w_clock w (w_tick w)) (w_sessions w) Hr) as Hh.
  pose proof (retains_cleanup ttl (w_clock w (w_tick w)) (w_sessions w)) as Hk.
  destruct (session_cleanup _ _) as [n s]. unfold guards. cbn [w_clock w_tick w_sessions snd] in *.
  split_and!; [done|lia| |done]. intros Hw Hheld. apply Hh; [done|]. by apply Hw.
Qed.

Lemma guards_check label ip max w : keeps guards (check_rate label ip max w).
Proof. apply keeps_bind; [apply _|apply guards_now|]. intros now. apply guards_limiter. Qed.
Lemma guards_breaker_state p : keeps guards (breaker_state p).
Proof. apply keeps_bind; [apply _|apply guards_now|]. intros now. apply guards_breaker. Qed.
Lemma guards_success p : keeps guards (record_success p).
Proof. apply keeps_bind; [apply _|apply guards_now|]. intros now. apply guards_breaker. Qed.
Lemma guards_failure p : keeps guards (record_failure p).
Proof. apply keeps_bind; [apply _|apply guards_now|]. intros now. apply guards_breaker. Qed.

(** A held payment is not fresh to anyone who asks for as long a lifetime. *)
Lemma held_claim_refused ttl' (w : World S L N) :
  timely w → held id t0 ttl (w_sessions w) → ttl ≤ ttl' →
  (claim_payment id ttl' w).1 ≠ Fresh.
Proof.
  intros Hw Hh Httl. pose proof (claim_payment_eq id ttl' w) as (-> & _).
  eapply held_refuses; [done| |done]. by apply Hw.
Qed.
End Guards.

#[export] Hint Resolve guards_now guards_draw guards_emit guards_limiter guards_breaker guards_chain
  guards_consume guards_create guards_release guards_claim guards_check guards_breaker_state
  guards_success guards_failure : x402.

(** Walk through a handler by its binds and branches; hints close the leaves. *)
Ltac keep :=
  repeat first
    [ solve [auto with x402]
    | apply keeps_ret; apply _
    | apply keeps_bind; [apply _ | | intros ?]
    | case_match ].
