(* ===== verification/Auth.v ===== *)
(** * The authorization decision and the [ext_authz] filter ([src/auth.rs])

    [decide] is the policy of the gateway: an accepted session, else a
    presented payment, else the metered free tier.  It is split into its
    numbered stages; [decision_to_response] frames the outcome for Envoy. *)

From Stdlib Require Import Ascii.
From S2P Require Import Prelude RustStr Platform IpAddr Session Redis Config Json X402 Sui.
From S2P Require Import Facilitator Stores World.
From S2P Require RateLimit Breaker.
From stdpp Require Import options.
#[local] Open Scope Z_scope.

Definition HEADER_TIER : string := "x-x402-tier".
Definition HEADER_PAYER : string := "x-x402-payer".
Definition POLICY_CONTEXT_KEY : string := "x402_policy".

Inductive SettlePolicy := Immediate | Deferred.

Record PendingPayment := mkPending {
  pd_payload : PaymentPayload;
  pd_requirements : PaymentRequirements;
  pd_payment_id : option string
}.

Inductive Tier := Free | Paid.
Definition tier_str (t : Tier) : string := match t with Free => "free" | Paid => "paid" end.

Inductive Meter :=
| MeterFree (remaining limit reset_secs : Z)
| MeterSession (remaining quota expires_in_secs : Z)
| MeterUnknown.

Inductive Decision :=
| Allow (tier : Tier) (payer session_token : option string) (settlement : option SettlementResponse)
        (pending : option PendingPayment) (meter : Meter)
| Deny (challenge : PaymentRequired) (receipt : option SettlementResponse) (meter : Meter).

(** ** Labels *)

Definition policy_label (policy : option string) : string := unwrap_or policy "default".
Definition replay_claim_label (c : PaymentClaim) : string :=
  match c with Fresh => "fresh" | Replay _ => "replay" | ClaimBackend => "backend_error" end.
Definition mode_label (m : VerificationMode) : string :=
  match m with StubAcceptAll => "stub" | SuiGrpc => "sui-grpc" end.
Definition session_rejection_label (r : SessionRejection) : string :=
  match r with
  | Malformed => "malformed" | Expired => "expired" | Unknown => "unknown"
  | WrongPolicy => "wrong_policy" | QuotaExhausted => "quota_exhausted" | Backend => "backend"
  end.

Definition FLOOR : Z := 300.
Definition MULTIPLIER : Z := 10.
Definition replay_ttl (max_timeout_seconds : Z) : Z :=
  Z.max (sat_mul max_timeout_seconds MULTIPLIER) FLOOR.

(** ** Request headers *)

Definition Headers : Type := gmap string string.

(** [HeaderView::get]; the miss path scans for another spelling of the name. *)
Definition header_get (inner : option Headers) (name : string) : option string :=
  map ← inner;
  value ← or_else (map !! name)
            (snd <$> List.find (λ kv, eq_ignore_ascii_case kv.1 name) (map_to_list map));
  if is_empty (trim value) then None else Some value.

Definition is_grpc_request (headers : option Headers) : bool :=
  match header_get headers "content-type" with
  | Some ct => starts_with "application/grpc" ct
  | None => false
  end.

(** The arguments of [decide]. *)
Record Request := mkRequest {
  headers : option Headers;
  client_ip : option IpAddr;
  path : string;
  policy : option string;
  resource_url : string;
  settle_policy : SettlePolicy
}.

Section Decide.
Context `{!Codecs, !Json, !SuiSdk} {S L N : Type}
  `{!SuiNode N, !SessionBackend S, !RateBackend L}.
Context (app : App).

Definition resolved (r : Request) : ResolvedPolicy := policy_for app.(config) r.(path) r.(policy).
Definition requirements (r : Request) : PaymentRequirements := from_config (resolved r).(payment).

Definition resource (r : Request) : ResourceInfo :=
  let p := (resolved r).(payment) in
  {| ri_url := r.(resource_url); ri_description := Some p.(description);
     ri_mime_type := Some "application/json"; ri_service_name := p.(service_name);
     ri_tags := match p.(tags) with [] => None | _ => Some p.(tags) end;
     ri_icon_url := p.(icon_url) |}.

Definition challenge_extensions (r : Request) : Value :=
  session_extension_advertisement (resolved r).(paid_tier).(paid_quota)
    (resolved r).(paid_tier).(duration_secs) HEADER_PAYMENT_SESSION.

Definition challenge (r : Request) (error : string) : PaymentRequired :=
  with_extensions (payment_required error (resource r) [requirements r])
    (Some (challenge_extensions r)).

Definition presented_payment (r : Request) : option (result PaymentPayload HeaderDecodeError) :=
  decode_header payload_of_json <$> header_get r.(headers) HEADER_PAYMENT_SIGNATURE.

Definition session_token (r : Request) : option string :=
  let echoed_token :=
    decoded ← presented_payment r;
    p ← result_ok decoded;
    session_token_from_extensions p.(pp_extensions) in
  or_else echoed_token (header_get r.(headers) HEADER_PAYMENT_SESSION).

Definition mode_l : string := mode_label app.(config).(verification_mode).

(** *** 1. Existing paid session: [Some] when it was accepted *)
Definition try_session (r : Request) (token : string) : M (World S L N) (option Decision) :=
  outcome <-- consume token r.(policy) ;;;
  match outcome with
  | Accepted payer remaining quota expires_at =>
      emit SESSIONS [("event", "accepted")] ;;;
      emit REQUESTS [("tier", "paid"); ("decision", "allow");
                     ("policy", policy_label r.(policy))] ;;;
      now <-- now_epoch_secs ;;;
      ret (Some (Allow Paid (Some payer) None None None
                   (MeterSession remaining quota (sat_sub expires_at now))))
  | Rejected reason =>
      emit SESSION_REJECTIONS [("reason", session_rejection_label reason)] ;;;
      (if bool_decide (reason = Backend) then emit STORE_ERRORS [("store", "session")]
       else ret tt) ;;;
      ret None
  end.

(** A payment attempt refused: challenge and receipt. *)
Definition refuse (r : Request) (error code : string) : Decision :=
  Deny (challenge r error) (Some (failure_receipt app.(facilitator) code)) MeterUnknown.

Definition rejected (r : Request) (e : FacilitatorError) : Decision :=
  refuse r ("payment rejected: " +:+ error_text e) (code e).

Definition count_rejected (e : FacilitatorError) : M (World S L N) () :=
  emit PAYMENTS [("outcome", "rejected"); ("code", code e); ("mode", mode_l)].

(** *** 2a. Claim the payment: the error when it cannot be used *)
Definition claim_stage (r : Request) (p : PaymentPayload) :
  M (World S L N) (option FacilitatorError) :=
  match payment_id p with
  | None => ret None
  | Some id =>
      let window := (requirements r).(pr_max_timeout_seconds) in
      claim <-- claim_payment id (replay_ttl window) ;;;
      emit REPLAY_CLAIMS [("outcome", replay_claim_label claim)] ;;;
      (if bool_decide (claim = ClaimBackend) then emit STORE_ERRORS [("store", "replay")]
       else ret tt) ;;;
      match claim with
      | Fresh => ret None
      | Replay first_seen =>
          now <-- now_epoch_secs ;;;
          let age := sat_sub now first_seen in
          ret (Some (if window <? age then AuthorizationExpired first_seen window
                     else ReplayError first_seen))
      | ClaimBackend => ret (Some ReplayCacheUnavailable)
      end
  end.

(** *** 2b. Deferred: verify only *)
Definition deferred_stage (r : Request) (p : PaymentPayload) : M (World S L N) Decision :=
  verified <-- on_chain (verify app.(facilitator) p (requirements r)) ;;;
  emit VERIFICATION_SECONDS [("mode", mode_l)] ;;;
  match verified with
  | Ok payer =>
      emit PAYMENTS [("outcome", "verified"); ("code", "ok"); ("mode", mode_l)] ;;;
      ret (Allow Paid (Some payer) None None
             (Some {| pd_payload := p; pd_requirements := requirements r;
                      pd_payment_id := payment_id p |}) MeterUnknown)
  | Err e => count_rejected e ;;; ret (rejected r e)
  end.

(** The settlement with the session granted in its extensions. *)
Definition grant_session (s : SettlementResponse) (token : option string) (t : PaidTierConfig) :
  SettlementResponse :=
  match token with
  | Some tok =>
      {| sr_success := sr_success s; sr_error_reason := sr_error_reason s; sr_payer := sr_payer s;
         sr_transaction := sr_transaction s; sr_network := sr_network s; sr_amount := sr_amount s;
         sr_extensions := Some (session_extension_grant tok t.(paid_quota) t.(duration_secs)) |}
  | None => s
  end.

Definition new_session_meter (token : option string) (t : PaidTierConfig) : Meter :=
  match token with
  | Some _ => MeterSession t.(paid_quota) t.(paid_quota) t.(duration_secs)
  | None => MeterUnknown
  end.

(** *** 2c. Immediate: settle and mint a session *)
Definition immediate_stage (r : Request) (p : PaymentPayload) : M (World S L N) Decision :=
  let tier := (resolved r).(paid_tier) in
  settled <-- on_chain (verify_and_settle app.(facilitator) p (requirements r)) ;;;
  match settled with
  | Ok settlement =>
      token <-- match settlement.(sr_payer) with
                | None => ret None
                | Some payer => create_session payer r.(policy) tier.(paid_quota) tier.(duration_secs)
                end ;;;
      emit PAYMENTS [("outcome", "settled"); ("code", "ok"); ("mode", mode_l)] ;;;
      (if is_some_b token then emit SESSIONS [("event", "created")] else ret tt) ;;;
      ret (Allow Paid settlement.(sr_payer) token (Some (grant_session settlement token tier)) None
             (new_session_meter token tier))
  | Err e => count_rejected e ;;; ret (rejected r e)
  end.

(** *** 2. New payment *)
Definition payment_stage (r : Request) (decoded : result PaymentPayload HeaderDecodeError) :
  M (World S L N) Decision :=
  match decoded with
  | Err e =>
      ret (refuse r ("malformed payment-signature header: " +:+ decode_error_text e)
                  "invalid_payload")
  | Ok p =>
      refused <-- claim_stage r p ;;;
      match refused with
      | Some e => ret (rejected r e)
      | None =>
          match r.(settle_policy) with
          | Deferred => deferred_stage r p
          | Immediate => immediate_stage r p
          end
      end
  end.

(** *** 3. Anonymous free tier: [None] when the limiter panics *)
Definition free_stage (r : Request) : M (World S L N) (option Decision) :=
  match r.(client_ip) with
  | None =>
      ret (Some (Deny (challenge r "client address unavailable; free tier cannot be metered")
                   None MeterUnknown))
  | Some ip =>
      let t := (resolved r).(free_tier) in
      allowance <-- check_rate (resolved r).(label) ip t.(max_requests) t.(free_window_secs) ;;;
      match allowance with
      | None => ret None
      | Some a =>
          let meter := MeterFree (RateLimit.remaining a) (RateLimit.limit a) (RateLimit.reset_secs a) in
          if RateLimit.allowed a then
            emit RATE_LIMIT [("outcome", "allowed")] ;;;
            emit REQUESTS [("tier", "free"); ("decision", "allow");
                           ("policy", policy_label r.(policy))] ;;;
            ret (Some (Allow Free None None None None meter))
          else
            emit RATE_LIMIT [("outcome", "denied")] ;;;
            emit REQUESTS [("tier", "free"); ("decision", "challenge");
                           ("policy", policy_label r.(policy))] ;;;
            ret (Some (Deny (challenge r "free tier rate limit exceeded; pay to unlock a higher limit")
                         None meter))
      end
  end.

Definition decide (r : Request) : M (World S L N) (option Decision) :=
  served <-- match session_token r with
             | Some token => try_session r token
             | None => ret None
             end ;;;
  match served with
  | Some d => ret (Some d)
  | None =>
      match presented_payment r with
      | Some decoded => d <-- payment_stage r decoded ;;; ret (Some d)
      | None => free_stage r
      end
  end.
End Decide.

(** ** Framing for Envoy *)

Definition HEADER_FREE_REMAINING : string := "x-x402-free-remaining".
Definition HEADER_FREE_LIMIT : string := "x-x402-free-limit".
Definition HEADER_FREE_RESET : string := "x-x402-free-reset".
Definition HEADER_SESSION_REMAINING : string := "x-x402-session-remaining".
Definition HEADER_SESSION_QUOTA : string := "x-x402-session-quota".
Definition HEADER_SESSION_EXPIRES : string := "x-x402-session-expires".

Definition meter_headers (m : Meter) : list (string * string) :=
  match m with
  | MeterFree remaining limit reset_secs =>
      [(HEADER_FREE_REMAINING, u_to_string remaining); (HEADER_FREE_LIMIT, u_to_string limit);
       (HEADER_FREE_RESET, u_to_string reset_secs)]
  | MeterSession remaining quota expires_in_secs =>
      [(HEADER_SESSION_REMAINING, u_to_string remaining); (HEADER_SESSION_QUOTA, u_to_string quota);
       (HEADER_SESSION_EXPIRES, u_to_string expires_in_secs)]
  | MeterUnknown => []
  end.

Definition GRPC_STATUS_RESOURCE_EXHAUSTED : string := "8".

Inductive HeaderAppendAction := AppendIfExistsOrAdd | AddIfAbsent | OverwriteIfExistsOrAdd.
Definition AUTHORITATIVE_APPEND : HeaderAppendAction := OverwriteIfExistsOrAdd.

(** A header with its append action; [keep_empty] is false throughout. *)
Record HeaderOption := mkHeaderOption {
  h_name : string; h_value : string; h_action : option HeaderAppendAction }.
Definition set_header (k v : string) : HeaderOption := mkHeaderOption k v (Some AUTHORITATIVE_APPEND).
Definition add_header (k v : string) : HeaderOption := mkHeaderOption k v None.

Inductive CheckResponse :=
| CheckOk (request_headers : list HeaderOption) (removed : list string)
          (response_headers : list HeaderOption) (metadata : list (string * string))
| CheckDenied (http_status : Z) (headers : list HeaderOption) (body : option Value)
              (message : string).

Definition upper_hex_digit (n : Z) : ascii :=
  ascii_of_N (Z.to_N (if n <? 10 then 48 + n else 55 + n)).

(** [format!("%{other:02X}")]. *)
Definition percent_encoded (b : Z) : string :=
  String "%" (String (upper_hex_digit (b / 16)) (String (upper_hex_digit (b mod 16)) "")).

Fixpoint grpc_message (reason : string) : string :=
  match reason with
  | EmptyString => ""
  | String c s =>
      let b := byte_of c in
      (if (32 <=? b) && (b <=? 126) && negb (bool_decide (c = "%"%char))
       then String c "" else percent_encoded b) +:+ grpc_message s
  end.

(** The fields of the dynamic metadata, in the order of their names. *)
Definition rate_limit_metadata (t : Tier) (payer : option string) (ip : option IpAddr) :
  list (string * string) :=
  match payer with Some p => [("payer", p)] | None => [] end ++
  match ip with Some i => [("source_ip", ip_to_string i)] | None => [] end ++
  [("tier", tier_str t)].

Section Framing.
Context `{!Codecs, !Json}.

Definition receipt_header (s : SettlementResponse) : string := encode_header (json_of_settlement s).

Definition decision_to_response (d : Decision) (ip : option IpAddr) (grpc : bool) : CheckResponse :=
  match d with
  | Allow tier payer session_token settlement _ meter =>
      CheckOk
        [set_header HEADER_TIER (tier_str tier); set_header HEADER_PAYER (unwrap_or payer "")]
        [HEADER_PAYMENT_SIGNATURE; HEADER_PAYMENT_SESSION]
        (match session_token with Some t => [set_header HEADER_PAYMENT_SESSION t] | None => [] end ++
         match settlement with
         | Some s => [set_header HEADER_PAYMENT_RESPONSE (receipt_header s)]
         | None => []
         end ++
         ((λ '(k, v), set_header k v) <$> meter_headers meter))
        (rate_limit_metadata tier payer ip)
  | Deny challenge receipt meter =>
      let reason := unwrap_or challenge.(rq_error) "" in
      let common :=
        match receipt with
        | Some s => [add_header HEADER_PAYMENT_RESPONSE (receipt_header s)]
        | None => []
        end ++
        [add_header HEADER_PAYMENT_REQUIRED (encode_header (json_of_required challenge))] ++
        ((λ '(k, v), add_header k v) <$> meter_headers meter) in
      if grpc then
        CheckDenied 200
          (common ++ [add_header "content-type" "application/grpc";
                      add_header "grpc-status" GRPC_STATUS_RESOURCE_EXHAUSTED;
                      add_header "grpc-message" (grpc_message reason)])
          None reason
      else
        CheckDenied 402 (common ++ [add_header "content-type" "application/json"])
          (Some (json_of_required challenge)) reason
  end.
End Framing.

(** What the filter reads of a [CheckRequest]. *)
Record HttpRequest := mkHttp { http_host : string; http_scheme : string; http_path : string }.
Record CheckRequest := mkCheck {
  ck_headers : option Headers;
  ck_address : option string;
  ck_http : option HttpRequest;
  ck_context_extensions : Headers
}.

(** [resource_url] of this filter. *)
Definition http_resource_url (http : option HttpRequest) : string :=
  match http with
  | None => ""
  | Some h =>
      if is_empty h.(http_host) then h.(http_path)
      else
        let scheme := if is_empty h.(http_scheme) then "https" else h.(http_scheme) in
        scheme +:+ "://" +:+ h.(http_host) +:+ h.(http_path)
  end.

Definition check_request (c : CheckRequest) : Request :=
  {| headers := c.(ck_headers);
     client_ip := c.(ck_address) ≫= parse_ip;
     path := match c.(ck_http) with Some h => h.(http_path) | None => "" end;
     policy := c.(ck_context_extensions) !! POLICY_CONTEXT_KEY;
     resource_url := http_resource_url c.(ck_http);
     settle_policy := Immediate |}.

Section Check.
Context `{!Codecs, !Json, !SuiSdk} {S L N : Type}
  `{!SuiNode N, !SessionBackend S, !RateBackend L}.

(** The whole [ext_authz] callout. *)
Definition check (app : App) (c : CheckRequest) : M (World S L N) (option CheckResponse) :=
  let r := check_request c in
  decision <-- decide app r ;;;
  ret ((λ d, decision_to_response d r.(client_ip) (is_grpc_request r.(headers))) <$> decision).
End Check.

(** ** Lemmas *)

Lemma resolved_max_timeout (c : Config) path pol :
  (policy_for c path pol).(payment).(max_timeout_seconds)
  = c.(cfg_payment).(max_timeout_seconds).
Proof.
  rewrite policy_for_unfold. cbv zeta. destruct (pol ≫= _) as [[n o]|]; [done|].
  by destruct (longest path (routes c)).
Qed.

Lemma replay_ttl_pos m : 0 < replay_ttl m.
Proof. unfold replay_ttl, FLOOR. lia. Qed.

Section DecideLemmas.
#[local] Set Default Proof Using "Type*".
Context `{!Codecs, !Json, !SuiSdk} {S L N : Type}
  `{!SuiNode N, !SessionBackend S, !RateBackend L}.
Context (app : App).

(** [decide] is one of its three stages. *)
Lemma decide_cases r (w w' : World S L N) o :
  decide app r w = (o, w') →
  (∃ tok d, session_token r = Some tok ∧ try_session r tok w = (Some d, w') ∧ o = Some d) ∨
  (∃ w1, (match session_token r with Some tok => try_session r tok | None => ret None end) w
           = (None, w1) ∧
     ((∃ decoded d, presented_payment r = Some decoded ∧
         payment_stage app r decoded w1 = (d, w') ∧ o = Some d) ∨
      (presented_payment r = None ∧ free_stage app r w1 = (o, w')))).
Proof.
  unfold decide. unfold bind at 1.
  destruct (session_token r) as [tok|] eqn:Et; cycle 1.
  - unfold ret at 1. intros Hd. right. exists w. split; [done|].
    destruct (presented_payment r) as [decoded|]; [|by right].
    left. unfold bind in Hd. destruct (payment_stage app r decoded w) as [d w2] eqn:Ep.
    injection Hd as <- <-. by exists decoded, d.
  - destruct (try_session r tok w) as [[d|] w1] eqn:Es.
    + intros [= <- <-]. left. by exists tok, d.
    + intros Hd. right. exists w1. split; [done|].
      destruct (presented_payment r) as [decoded|]; [|by right].
      left. unfold bind in Hd. destruct (payment_stage app r decoded w1) as [d w2] eqn:Ep.
      injection Hd as <- <-. by exists decoded, d.
Qed.

Lemma try_session_allow r tok (w w' : World S L N) d :
  try_session r tok w = (Some d, w') →
  ∃ payer remaining quota e w1 x,
    consume tok r.(policy) w = (Accepted payer remaining quota e, w1) ∧
    d = Allow Paid (Some payer) None None None (MeterSession remaining quota x).
Proof.
  unfold try_session, bind, ret.
  destruct (consume tok (policy r) w) as [[p rem q e|why] w1] eqn:Ec; cbn.
  - intros [= <- _]. by eexists p, rem, q, e, w1, _.
  - by case_bool_decide.
Qed.

(** The lifetime every claim of this gateway asks for. *)
Definition gateway_ttl : Z := replay_ttl app.(config).(cfg_payment).(max_timeout_seconds).

Lemma requirements_ttl r : replay_ttl (requirements app r).(pr_max_timeout_seconds) = gateway_ttl.
Proof. unfold requirements, resolved. cbn. by rewrite resolved_max_timeout. Qed.

Lemma claim_stage_None r p (w : World S L N) :
  payment_id p = None → claim_stage app r p w = (None, w).
Proof. unfold claim_stage. by intros ->. Qed.

(** The claim passes exactly when the store says it is fresh. *)
Lemma claim_stage_Some r p id (w : World S L N) :
  payment_id p = Some id →
  ((claim_stage app r p w).1 = None ↔ (claim_payment id gateway_ttl w).1 = Fresh).
Proof.
  intros Hid. unfold claim_stage. rewrite Hid. cbv zeta. rewrite requirements_ttl.
  unfold bind at 1. destruct (claim_payment id gateway_ttl w) as [c w1]. cbn [fst].
  unfold bind, ret, emit. destruct c; cbn; case_bool_decide as Hb; try discriminate Hb; cbn; by split.
Qed.

Lemma claim_stage_code r p (w w' : World S L N) e :
  claim_stage app r p w = (Some e, w') →
  e = ReplayCacheUnavailable ∨ code e = "invalid_transaction_state".
Proof.
  unfold claim_stage. destruct (payment_id p) as [id|]; [|done]. cbv zeta.
  unfold bind, ret, emit. destruct (claim_payment id _ w) as [c w1].
  destruct c; cbn; repeat case_bool_decide; try done; cbn; intros [= <- _]; auto.
  right. by destruct (_ <? _).
Qed.

(** A claim that was refused denies the request. *)
Lemma payment_stage_refused r p (w w1 : World S L N) e :
  claim_stage app r p w = (Some e, w1) →
  payment_stage app r (Ok p) w = (rejected app r e, w1).
Proof. intros Hc. unfold payment_stage, bind, ret. by rewrite Hc. Qed.

Lemma payment_stage_passed r p (w w1 : World S L N) :
  claim_stage app r p w = (None, w1) →
  payment_stage app r (Ok p) w =
    match r.(settle_policy) with
    | Deferred => deferred_stage app r p w1
    | Immediate => immediate_stage app r p w1
    end.
Proof. intros Hc. unfold payment_stage, bind. rewrite Hc. by destruct (settle_policy r). Qed.

Lemma deferred_stage_eq r p (w w' : World S L N) d :
  deferred_stage app r p w = (d, w') →
  match (verify app.(facilitator) p (requirements app r) (w_chain w)).1 with
  | Ok payer => d = Allow Paid (Some payer) None None
                      (Some {| pd_payload := p; pd_requirements := requirements app r;
                               pd_payment_id := payment_id p |}) MeterUnknown
  | Err e => d = rejected app r e
  end.
Proof.
  unfold deferred_stage, bind, on_chain, emit, count_rejected, ret.
  destruct (verify _ _ _ _) as [[payer|e] c]; cbn; by intros [= <- _].
Qed.

Lemma immediate_stage_eq r p (w w' : World S L N) d :
  immediate_stage app r p w = (d, w') →
  match (settle app.(facilitator) p (requirements app r) (w_chain w)).1 with
  | Ok s => ∃ token,
      d = Allow Paid s.(sr_payer) token
            (Some (grant_session s token (resolved app r).(paid_tier))) None
            (new_session_meter token (resolved app r).(paid_tier))
  | Err e => d = rejected app r e
  end.
Proof.
  unfold immediate_stage, verify_and_settle. unfold bind at 1, on_chain at 1.
  destruct (settle _ _ _ _) as [[s|e] c]; cbn [fst].
  - unfold bind, emit, ret. destruct (sr_payer s) as [payer|].
    + destruct (create_session _ _ _ _ _) as [tok w2]. destruct tok as [tok|]; cbn; intros [= <- _];
        [by exists (Some tok) | by exists None].
    + cbn. intros [= <- _]. by exists None.
  - unfold count_rejected, bind, emit, ret. by intros [= <- _].
Qed.

Lemma free_stage_eq r (w w' : World S L N) o :
  free_stage app r w = (o, w') →
  match o with
  | None => ∃ ip, r.(client_ip) = Some ip ∧
      (check_rate (resolved app r).(label) ip (resolved app r).(free_tier).(max_requests)
         (resolved app r).(free_tier).(free_window_secs) w).1 = None
  | Some (Allow t payer tok st pd _) =>
      t = Free ∧ payer = None ∧ tok = None ∧ st = None ∧ pd = None ∧ ∃ ip, r.(client_ip) = Some ip
  | Some (Deny _ receipt _) => receipt = None
  end.
Proof.
  unfold free_stage. destruct (client_ip r) as [ip|]; [|by intros [= <- _]].
  cbv zeta. unfold bind at 1. destruct (check_rate _ _ _ _ w) as [[a|] w1] eqn:Ec.
  - destruct (RateLimit.allowed a); unfold bind, emit, ret; intros [= <- _]; naive_solver.
  - unfold ret. intros [= <- _]. exists ip. by rewrite Ec.
Qed.
End DecideLemmas.

(** *** Frames of [decide] *)

Section DecideFrames.
#[local] Set Default Proof Using "Type*".
Context `{!Codecs, !Json, !SuiSdk} {S L N : Type}
  `{!SuiNode N, !SessionBackend S, !SingleUse S, !RateBackend L}.
Context (app : App) (id : string) (t0 ttl : Z).

Lemma guards_session_phase r :
  keeps (guards (S := S) (L := L) (N := N) id t0 ttl)
    (match session_token r with Some tok => try_session r tok | None => ret None end).
Proof. unfold try_session. keep. Qed.

Lemma guards_claim_stage r p :
  ttl ≤ gateway_ttl app → keeps (guards (S := S) (L := L) (N := N) id t0 ttl) (claim_stage app r p).
Proof.
  intros Httl. unfold claim_stage. cbv zeta. rewrite requirements_ttl. keep.
Qed.

Lemma guards_deferred r p : keeps (guards (S := S) (L := L) (N := N) id t0 ttl) (deferred_stage app r p).
Proof. unfold deferred_stage, count_rejected. keep. Qed.

Lemma guards_immediate r p :
  keeps (guards (S := S) (L := L) (N := N) id t0 ttl) (immediate_stage app r p).
Proof. unfold immediate_stage, count_rejected. keep. Qed.

Lemma guards_payment_stage r d :
  ttl ≤ gateway_ttl app → keeps (guards (S := S) (L := L) (N := N) id t0 ttl) (payment_stage app r d).
Proof.
  intros Httl. unfold payment_stage. destruct d as [p|e]; [|keep].
  apply keeps_bind; [apply _|by apply guards_claim_stage|]. intros [e|]; [keep|].
  destruct (settle_policy r); [apply guards_immediate|apply guards_deferred].
Qed.

Lemma guards_free_stage r : keeps (guards (S := S) (L := L) (N := N) id t0 ttl) (free_stage app r).
Proof. unfold free_stage. keep. Qed.

Lemma guards_decide r :
  ttl ≤ gateway_ttl app → keeps (guards (S := S) (L := L) (N := N) id t0 ttl) (decide app r).
Proof.
  intros Httl. unfold decide. apply keeps_bind; [apply _|apply guards_session_phase|].
  intros [d|]; [keep|]. destruct (presented_payment r) as [d|]; [|apply guards_free_stage].
  apply keeps_bind; [apply _|by apply guards_payment_stage|]. keep.
Qed.
End DecideFrames.

(** *** Deferred decisions make no broadcast *)

Section DecideQuiet.
#[local] Set Default Proof Using "Type*".
Context `{!Codecs, !Json, !SuiSdk} {S L N : Type}
  `{!SuiNode N, !SessionBackend S, !RateBackend L}.
Context (app : App).

Abbreviation Q := (keeps (chain_quiet (S := S) (L := L) (N := N))).

Lemma quiet_now : Q now_epoch_secs.
Proof. intros w. apply quiet_refl. Qed.
Lemma quiet_draw : Q draw.
Proof. intros w. apply quiet_refl. Qed.
Lemma quiet_emit n l : Q (emit n l).
Proof. intros w. apply quiet_refl. Qed.
Lemma quiet_sessions {A} (f : M S A) : Q (on_sessions f).
Proof. apply keeps_on_sessions; [apply _|]. intros w s _. apply quiet_refl. Qed.
Lemma quiet_limiter {A} (f : L → option (A * L)) : Q (on_limiter f).
Proof. apply keeps_on_limiter; [apply _|]. intros w l. apply quiet_refl. Qed.
Lemma quiet_verify p r : Q (on_chain (verify app.(facilitator) p r)).
Proof.
  apply keeps_on_chain; [apply _|]. intros w c ->. apply Facilitator.facilitator_verify_quiet.
Qed.

Lemma quiet_consume tok pol : Q (consume tok pol).
Proof. apply keeps_bind; [apply _|apply quiet_now|]. intros. apply quiet_sessions. Qed.
Lemma quiet_claim id t : Q (claim_payment id t).
Proof. apply keeps_bind; [apply _|apply quiet_now|]. intros. apply quiet_sessions. Qed.
Lemma quiet_check label ip max win : Q (check_rate label ip max win).
Proof. apply keeps_bind; [apply _|apply quiet_now|]. intros. apply quiet_limiter. Qed.

#[local] Hint Resolve quiet_now quiet_emit quiet_sessions quiet_limiter quiet_verify quiet_consume
  quiet_claim quiet_check : x402.

Lemma decide_deferred_quiet r : r.(settle_policy) = Deferred → Q (decide app r).
Proof.
  intros Hp. unfold decide, try_session. apply keeps_bind; [apply _|keep|].
  intros [d|]; [keep|]. destruct (presented_payment r) as [d|]; [|unfold free_stage; keep].
  unfold payment_stage, claim_stage. rewrite Hp. unfold deferred_stage, count_rejected. keep.
Qed.
End DecideQuiet.

(** ** A gateway over a sequence of requests *)

Section Run.
Context `{!Codecs, !Json, !SuiSdk} {S L N : Type}
  `{!SuiNode N, !SessionBackend S, !RateBackend L}.
Context (app : App).

Fixpoint run (rs : list Request) (w : World S L N) : list (option Decision) * World S L N :=
  match rs with
  | [] => ([], w)
  | r :: rs => let '(o, w1) := decide app r w in
               let '(os, w2) := run rs w1 in (o :: os, w2)
  end.

(** Does the request present the payment [id]? *)
Definition pays_with (id : string) (r : Request) : bool :=
  match presented_payment r with
  | Some (Ok p) => bool_decide (payment_id p = Some id)
  | _ => false
  end.

(** Was it let through on a payment of its own, settled or pending? *)
Definition served_by_payment (o : option Decision) : bool :=
  match o with
  | Some (Allow _ _ _ settlement pending _) => is_some_b settlement || is_some_b pending
  | _ => false
  end.

Fixpoint times_served (id : string) (rs : list Request) (os : list (option Decision)) : nat :=
  match rs, os with
  | r :: rs, o :: os =>
      ((if pays_with id r && served_by_payment o then 1 else 0) + times_served id rs os)%nat
  | _, _ => 0%nat
  end.
End Run.

Section RunLemmas.
#[local] Set Default Proof Using "Type*".
Context `{!Codecs, !Json, !SuiSdk} {S L N : Type}
  `{!SuiNode N, !SessionBackend S, !SingleUse S, !RateBackend L}.
Context (app : App).

(** A decision served by a payment went through its claim. *)
Lemma served_inv id r (w w' : World S L N) o :
  decide app r w = (o, w') → pays_with id r = true → served_by_payment o = true →
  ∃ p w1 w2, presented_payment r = Some (Ok p) ∧ payment_id p = Some id ∧
    (∀ t0 ttl, guards id t0 ttl w w1) ∧ claim_stage app r p w1 = (None, w2) ∧
    (∀ t0 ttl, guards id t0 ttl w2 w').
Proof.
  unfold pays_with. intros Hd Hpays Hserved.
  destruct (presented_payment r) as [[p|]|] eqn:Hp; [|done|done].
  apply bool_decide_eq_true in Hpays.
  apply decide_cases in Hd as [(tok & d & _ & Ht & ->) | (w1 & Hs & [(dec & d & Hdec & Hst & ->) | [Hno _]])].
  - apply try_session_allow in Ht as (? & ? & ? & ? & ? & ? & _ & ->). done.
  - simplify_eq. exists p, w1.
    assert (∀ t0 ttl, guards id t0 ttl w w1) as Hg.
    { intros t0 ttl. pose proof (guards_session_phase id t0 ttl r w) as Hg. by rewrite Hs in Hg. }
    destruct (claim_stage app r p w1) as [[e|] w2] eqn:Ec.
    + erewrite payment_stage_refused in Hst by done. by injection Hst as <- <-.
    + exists w2. split_and!; try done. intros t0 ttl.
      erewrite payment_stage_passed in Hst by done.
      destruct (settle_policy r).
      * pose proof (guards_immediate app id t0 ttl r p w2) as Hi. by rewrite Hst in Hi.
      * pose proof (guards_deferred app id t0 ttl r p w2) as Hi. by rewrite Hst in Hi.
  - congruence.
Qed.

(** While the claim is held the payment serves nobody. *)
Lemma held_never_served id t0 r (w w' : World S L N) o :
  timely t0 (gateway_ttl app) w → held id t0 (gateway_ttl app) (w_sessions w) →
  decide app r w = (o, w') → pays_with id r && served_by_payment o = false.
Proof.
  intros Hw Hh Hd. apply not_true_is_false. intros [Hpays Hserved]%andb_true_iff.
  destruct (served_inv id r w w' o Hd Hpays Hserved) as (p & w1 & w2 & _ & Hid & Hg & Hc & _).
  apply (held_claim_refused id t0 (gateway_ttl app) (gateway_ttl app) w1).
  - exact (guards_timely _ _ _ _ _ (Hg t0 (gateway_ttl app)) Hw).
  - by apply (Hg t0 (gateway_ttl app)).
  - done.
  - apply (claim_stage_Some app r p id w1 Hid). by rewrite Hc.
Qed.

Lemma claim_stage_holds id r p (w w1 : World S L N) :
  payment_id p = Some id → claim_stage app r p w = (None, w1) →
  is_u64 (w_clock w (w_tick w)) →
  held id (w_clock w (w_tick w)) (gateway_ttl app) (w_sessions w1) ∧
  w_clock w1 = w_clock w ∧ (w_tick w1 = w_tick w + 1)%nat.
Proof.
  intros Hid Hc Hu. pose proof (claim_stage_Some app r p id w Hid) as [Hf _].
  rewrite Hc in Hf. specialize (Hf eq_refl).
  pose proof (claim_payment_eq id (gateway_ttl app) w) as (Hres & Hsess & Hclk & Htick & _).
  unfold claim_stage in Hc. rewrite Hid in Hc. cbv zeta in Hc. rewrite requirements_ttl in Hc.
  unfold bind at 1 in Hc. destruct (claim_payment id (gateway_ttl app) w) as [c w2].
  cbn [fst snd] in *. subst c. unfold bind, emit, ret in Hc. cbn in Hc. injection Hc as <-.
  cbn [w_sessions w_clock w_tick]. split_and!; [|done|done]. rewrite Hsess.
  apply (claim_holds _ _ _ (w_sessions w)); [done|apply replay_ttl_pos|].
  rewrite Hres. apply surjective_pairing.
Qed.

Lemma guards_run id t0 rs (w : World S L N) :
  guards id t0 (gateway_ttl app) w (run app rs w).2.
Proof.
  revert w. induction rs as [|r rs IH]; intros w; cbn [run]; [reflexivity|].
  pose proof (guards_decide app id t0 (gateway_ttl app) r ltac:(done) w) as Hg.
  destruct (decide app r w) as [o w1]. specialize (IH w1).
  destruct (run app rs w1) as [os w2]. cbn [snd] in *. by transitivity w1.
Qed.

Lemma held_run id t0 rs (w : World S L N) :
  timely t0 (gateway_ttl app) w → held id t0 (gateway_ttl app) (w_sessions w) →
  times_served id rs (run app rs w).1 = 0%nat.
Proof.
  revert w. induction rs as [|r rs IH]; intros w Hw Hh; [done|]. cbn [run].
  pose proof (guards_decide app id t0 (gateway_ttl app) r ltac:(done) w) as Hg.
  destruct (decide app r w) as [o w1] eqn:Hd. cbn [snd] in Hg.
  specialize (IH w1 (guards_timely _ _ _ _ _ Hg Hw)).
  destruct (run app rs w1) as [os w2]. cbn [fst times_served] in *.
  rewrite (held_never_served id t0 r w w1 o Hw Hh Hd), IH; [done|]. by apply Hg.
Qed.
End RunLemmas.

(** What it takes to be given the paid tier. *)
Section PaidTier.
#[local] Set Default Proof Using "Type*".
Context `{!Codecs, !Json, !SuiSdk} {S L N : Type}
  `{!SuiNode N, !SessionBackend S, !RateBackend L}.
Context (app : App).

Lemma paid_tier_parts (r : Request) (w w' : World S L N)
    (payer tok : option string) (st : option SettlementResponse) (pd : option PendingPayment)
    (m : Meter) (Hd : decide app r w = (Some (Allow Paid payer tok st pd m), w')) :
  (∃ token who remaining quota e w1, session_token r = Some token ∧
     consume token r.(policy) w = (Accepted who remaining quota e, w1) ∧
     payer = Some who ∧ tok = None ∧ st = None ∧ pd = None) ∨
  (∃ p (w1 w2 : World S L N), presented_payment r = Some (Ok p) ∧ claim_stage app r p w1 = (None, w2) ∧
     match r.(settle_policy) with
     | Deferred => ∃ who,
         (verify app.(facilitator) p (requirements app r) (w_chain w2)).1 = Ok who ∧
         payer = Some who ∧ tok = None ∧ st = None ∧
         pd = Some {| pd_payload := p; pd_requirements := requirements app r;
                      pd_payment_id := payment_id p |}
     | Immediate => ∃ s,
         (settle app.(facilitator) p (requirements app r) (w_chain w2)).1 = Ok s ∧
         payer = s.(sr_payer) ∧ pd = None ∧
         st = Some (grant_session s tok (resolved app r).(paid_tier))
     end).
Proof.
  apply decide_cases in Hd
    as [(token & d & Htok & Ht & [= <-]) | (w1 & _ & [(dec & d & Hp & Hst & [= <-]) | [_ Hf]])].
  - left. apply try_session_allow in Ht as (who & rem & q & e & w1 & x & Hc & [= -> -> -> -> ->]).
    by exists token, who, rem, q, e, w1.
  - right. destruct dec as [p|e]; [|done].
    destruct (claim_stage app r p w1) as [[e|] w2] eqn:Ec.
    + by erewrite payment_stage_refused in Hst by done.
    + exists p, w1, w2. split_and!; [done..|]. erewrite payment_stage_passed in Hst by done.
      destruct (settle_policy r).
      * apply immediate_stage_eq in Hst. destruct (settle _ _ _ _).1 as [s|e]; [|done].
        destruct Hst as [token [= -> -> -> -> ->]]. by exists s.
      * apply deferred_stage_eq in Hst. destruct (verify _ _ _ _).1 as [who|e]; [|done].
        injection Hst as -> -> -> -> ->. by exists who.
  - apply free_stage_eq in Hf as [? _]. done.
Qed.
End PaidTier.

(** ** Properties *)

Section Properties.
#[local] Set Default Proof Using "Type*".
Context `{!Codecs, !Json, !SuiSdk} {S L N : Type}
  `{!SuiNode N, !SessionBackend S, !RateBackend L}.
Context (app : App).

(** One payment serves one request.  Over any sequence of requests, on any
    paths and policies, under either filter and on any backend that keeps
    claims, however the chain answers: as long as the clock does not run
    backwards and the sequence ends within a claim's lifetime, a payment is
    the reason for letting at most one request through.  (Only requests are in
    the sequence: giving a payment back after a failed upstream, and the
    background sweep, are other operations.) *)
Theorem one_payment_serves_one_request `{!SingleUse S} (id : string) (rs : list Request)
    (w : World S L N)
    (Hu : ∀ i, is_u64 (w_clock w i)) (Hmono : ∀ i j, (i ≤ j)%nat → w_clock w i ≤ w_clock w j)
    (Hend : ∀ i, w_clock w i < w_clock w (w_tick w) + gateway_ttl app) :
  (times_served id rs (run app rs w).1 ≤ 1)%nat.
Proof.
  set (start := w_clock w (w_tick w)) in *.
  assert (start ≤ w_clock w (w_tick w)) as Hs by done. clearbody start.
  revert w Hu Hmono Hend Hs. induction rs as [|r rs IH]; intros w Hu Hmono Hend Hs; [cbn; lia|].
  cbn [run]. destruct (decide app r w) as [o w1] eqn:Hd.
  pose proof (guards_decide app id 0 (gateway_ttl app) r ltac:(done) w) as Hg.
  rewrite Hd in Hg. destruct Hg as (Hc & Ht & _). cbn [snd] in *.
  destruct (pays_with id r && served_by_payment o) eqn:Eserved.
  - apply andb_true_iff in Eserved as [Hpays Hserved].
    destruct (served_inv app id r w w1 o Hd Hpays Hserved)
      as (p & wa & wb & _ & Hid & Hga & Hcl & Hgb).
    destruct (Hga 0 0) as (Hca & Hta & _). destruct (Hgb 0 0) as (_ & Htb & _).
    destruct (claim_stage_holds app id r p wa wb Hid Hcl) as (Hheld & Hcb & Htick);
      [by rewrite Hca|].
    set (t0 := w_clock wa (w_tick wa)) in *.
    assert (t0 = w_clock w (w_tick wa)) as Et by (unfold t0; by rewrite Hca).
    assert (∀ i, (w_tick wa ≤ i)%nat → t0 ≤ w_clock w i < t0 + gateway_ttl app) as Hin.
    { intros i Hi. pose proof (Hmono _ _ Hi). pose proof (Hmono _ _ Hta).
      specialize (Hend i). lia. }
    assert (timely t0 (gateway_ttl app) wb) as Hwb.
    { intros i Hi. rewrite Hcb, Hca. apply Hin. lia. }
    assert (times_served id rs (run app rs w1).1 = 0%nat) as Hzero.
    { apply (held_run app id t0); [|by apply Hgb].
      exact (guards_timely _ _ _ _ _ (Hgb t0 (gateway_ttl app)) Hwb). }
    destruct (run app rs w1) as [os w2]. cbn [fst times_served] in *.
    rewrite Hpays, Hserved. cbn. lia.
  - specialize (IH w1). rewrite Hc in IH.
    specialize (IH Hu Hmono Hend ltac:(pose proof (Hmono _ _ Ht); lia)).
    destruct (run app rs w1) as [os w2]. cbn [fst times_served] in *. rewrite Eserved. cbn. lia.
Qed.

(** C11: The paid tier is earned.  A request gets it only because the session
    store accepted its token, or because the payment it carries passed its
    claim and then verified (to be charged after the response) or settled
    (at once), on the terms of the policy in force.  What it is told matches:
    a deferred payment mints nothing yet and is handed on to be charged. *)
Theorem paid_tier_is_earned (r : Request) (w w' : World S L N)
    (payer tok : option string) (st : option SettlementResponse) (pd : option PendingPayment)
    (m : Meter) (Hd : decide app r w = (Some (Allow Paid payer tok st pd m), w')) :
  (∃ token who remaining quota e w1, session_token r = Some token ∧
     consume token r.(policy) w = (Accepted who remaining quota e, w1) ∧
     payer = Some who ∧ tok = None ∧ st = None ∧ pd = None) ∨
  (∃ p (w1 w2 : World S L N), presented_payment r = Some (Ok p) ∧ claim_stage app r p w1 = (None, w2) ∧
     match r.(settle_policy) with
     | Deferred => ∃ who,
         (verify app.(facilitator) p (requirements app r) (w_chain w2)).1 = Ok who ∧
         payer = Some who ∧ tok = None ∧ st = None ∧
         pd = Some {| pd_payload := p; pd_requirements := requirements app r;
                      pd_payment_id := payment_id p |}
     | Immediate => ∃ s,
         (settle app.(facilitator) p (requirements app r) (w_chain w2)).1 = Ok s ∧
         payer = s.(sr_payer) ∧ pd = None ∧
         st = Some (grant_session s tok (resolved app r).(paid_tier))
     end).
Proof. by apply (paid_tier_parts app r w w' payer tok st pd m). Qed.

(** C12: A payment attempt is answered as one.  A request that presents a
    payment is served from a session or on that payment, or it is refused
    with a failure receipt that says why; it is never quietly let through on
    the free tier. *)
Theorem payment_attempts_never_fall_to_the_free_tier (r : Request) (w w' : World S L N)
    (o : option Decision) (x : result PaymentPayload HeaderDecodeError)
    (Hp : presented_payment r = Some x) (Hd : decide app r w = (o, w')) :
  match o with
  | Some (Allow t _ _ _ _ _) => t = Paid
  | Some (Deny c (Some s) _) =>
      s.(sr_success) = false ∧ is_some_b s.(sr_error_reason) = true ∧ s.(sr_payer) = None ∧
      c.(rq_accepts) = [requirements app r]
  | _ => False
  end.
Proof.
  apply decide_cases in Hd
    as [(token & d & _ & Ht & ->) | (w1 & _ & [(dec & d & Hp' & Hst & ->) | [Hno _]])].
  - by apply try_session_allow in Ht as (? & ? & ? & ? & ? & ? & _ & ->).
  - assert (∀ e, match rejected app r e with
      | Allow t _ _ _ _ _ => t = Paid
      | Deny c (Some s) _ => s.(sr_success) = false ∧ is_some_b s.(sr_error_reason) = true ∧
          s.(sr_payer) = None ∧ c.(rq_accepts) = [requirements app r]
      | _ => False
      end) as Hrej by done.
    destruct dec as [p|e]; [|by injection Hst as <- _].
    destruct (claim_stage app r p w1) as [[e|] w2] eqn:Ec.
    + erewrite payment_stage_refused in Hst by done. injection Hst as <- _. apply Hrej.
    + erewrite payment_stage_passed in Hst by done. destruct (settle_policy r).
      * apply immediate_stage_eq in Hst. destruct (settle _ _ _ _).1 as [s|e].
        -- by destruct Hst as [? ->].
        -- rewrite Hst. apply Hrej.
      * apply deferred_stage_eq in Hst. destruct (verify _ _ _ _).1 as [s|e].
        -- by rewrite Hst.
        -- rewrite Hst. apply Hrej.
  - congruence.
Qed.

(** Deferring means not charging.  A decision of the [ext_proc] filter
    broadcasts nothing, whatever it decides, and grants neither a session
    nor a receipt. *)
Theorem deferred_decisions_charge_nothing (r : Request) (w w' : World S L N)
    (o : option Decision) (Hpol : r.(settle_policy) = Deferred) (Hd : decide app r w = (o, w')) :
  chain_quiet w w' ∧
  match o with
  | Some (Allow _ _ tok st _ _) => tok = None ∧ st = None
  | _ => True
  end.
Proof.
  split.
  - pose proof (decide_deferred_quiet app r Hpol w) as Hq. by rewrite Hd in Hq.
  - destruct o as [[t payer tok st pd m|]|]; [|done..]. destruct t.
    + apply decide_cases in Hd
        as [(tk & d & _ & Ht & [= <-]) | (w1 & _ & [(dec & d & Hp & Hst & [= <-]) | [_ Hf]])].
      * by apply try_session_allow in Ht as (? & ? & ? & ? & ? & ? & _ & ?).
      * destruct dec as [p|e]; [|done].
        destruct (claim_stage app r p w1) as [[e|] w2] eqn:Ec.
        -- by erewrite payment_stage_refused in Hst by done.
        -- erewrite payment_stage_passed in Hst by done. rewrite Hpol in Hst.
           apply deferred_stage_eq in Hst. by destruct (verify _ _ _ _).1.
      * by apply free_stage_eq in Hf as (_ & _ & -> & -> & _).
    + apply paid_tier_parts in Hd as [(? & ? & ? & ? & ? & ? & _ & _ & _ & -> & -> & _)
                                      | (p & w1 & w2 & _ & _ & Hm)]; [done|].
      rewrite Hpol in Hm. by destruct Hm as (? & _ & _ & -> & -> & _).
Qed.

(** C22: A validated gateway always decides.  With a configuration that
    validates (its windows are [u64]s) no request makes the limiter panic,
    whatever its path, policy and headers. *)
Theorem validated_gateway_always_decides `{!RateAnswers L} (r : Request) (w : World S L N)
    (Hv : validate app.(config) = Ok ())
    (Htyped : 0 ≤ (resolved app r).(free_tier).(free_window_secs)) :
  ∃ d w', decide app r w = (Some d, w').
Proof.
  destruct (decide app r w) as [[d|] w'] eqn:Hd; [by eauto|]. exfalso.
  apply decide_cases in Hd as [(? & ? & _ & _ & ?) | (w1 & _ & [(? & ? & _ & _ & ?) | [_ Hf]])];
    [done..|].
  apply free_stage_eq in Hf as (ip & _ & Hc).
  assert (valid_terms (resolved app r)) as [_ _ Hw _ _].
  { by apply runnable_terms, validate_ok. }
  unfold check_rate, bind, now_epoch_secs, on_limiter in Hc. cbn in Hc.
  destruct (rate_answers (w_clock w1 (w_tick w1)) (resolved app r).(label) ip
    (resolved app r).(free_tier).(max_requests) (resolved app r).(free_tier).(free_window_secs)
    (w_limiter w1) ltac:(lia)) as (a & l' & Ha).
  by rewrite Ha in Hc.
Qed.
End Properties.

(** A claim outlives the window it protects: for every timeout short of the
    largest [u64] the replay record lasts longer than the authorization, at
    least five minutes, and the product never overflows. *)
Theorem replay_ttl_outlasts_the_window (m : Z) (Hm : 0 ≤ m < u64_max) :
  m < replay_ttl m ∧ 300 ≤ replay_ttl m ≤ u64_max ∧ (m ≤ u64_max / 10 → 10 * m ≤ replay_ttl m).
Proof.
  unfold replay_ttl, FLOOR, MULTIPLIER, sat_mul, u64_max in *.
  assert ((2 ^ 64 - 1) / 10 = 1844674407370955161) as -> by reflexivity. lia.
Qed.

(** ** Properties of the framing *)

(** The inverse a gRPC client applies to [grpc-message]. *)
Definition hex_of (c : ascii) : Z :=
  let n := byte_of c in if n <=? 57 then n - 48 else n - 55.
Fixpoint percent_decode (s : string) : string :=
  match s with
  | String "%" (String a (String b s)) =>
      String (ascii_of_N (Z.to_N (16 * hex_of a + hex_of b))) (percent_decode s)
  | String c s => String c (percent_decode s)
  | EmptyString => ""
  end.
Definition printable (c : ascii) : bool := (32 <=? byte_of c) && (byte_of c <=? 126).

Lemma grpc_char c :
  let e := if (32 <=? byte_of c) && (byte_of c <=? 126) && negb (bool_decide (c = "%"%char))
           then String c "" else percent_encoded (byte_of c) in
  sall printable e = true ∧ ∀ s, percent_decode (e +:+ s) = String c (percent_decode s).
Proof. destruct c as [[] [] [] [] [] [] [] []]; split; reflexivity. Qed.

(** [grpc-message] is faithful.  The header is printable ASCII whatever the
    reason says, and a client that percent-decodes it reads the reason. *)
Theorem grpc_message_roundtrip (reason : string) :
  sall printable (grpc_message reason) = true ∧ percent_decode (grpc_message reason) = reason.
Proof.
  induction reason as [|c s [IH1 IH2]]; [done|]. cbn [grpc_message].
  destruct (grpc_char c) as [H1 H2]. split.
  - by rewrite sall_app, H1.
  - by rewrite H2, IH2.
Qed.

(** Identity headers are the gateway's own.  On every request it lets
    through, [ext_authz] sets tier and payer (blank when there is none) by
    overwriting, publishes every response header by overwriting, and strips the
    client's payment credentials. *)
Theorem identity_headers_are_overwritten `{!Codecs, !Json} (t : Tier) (payer tok : option string)
    (st : option SettlementResponse) (pd : option PendingPayment) (m : Meter) (ip : option IpAddr)
    (grpc : bool) :
  ∃ up removed down meta,
    decision_to_response (Allow t payer tok st pd m) ip grpc = CheckOk up removed down meta ∧
    set_header HEADER_TIER (tier_str t) ∈ up ∧
    set_header HEADER_PAYER (unwrap_or payer "") ∈ up ∧
    Forall (λ h, h.(h_action) = Some OverwriteIfExistsOrAdd) (up ++ down) ∧
    HEADER_PAYMENT_SIGNATURE ∈ removed ∧ HEADER_PAYMENT_SESSION ∈ removed.
Proof.
  eexists _, _, _, _. split; [reflexivity|]. split_and!; [set_solver..| |set_solver|set_solver].
  repeat (apply Forall_app_2 || apply Forall_cons_2 || apply Forall_nil_2 || reflexivity).
  - by destruct tok; repeat constructor.
  - by destruct st; repeat constructor.
  - by destruct m; repeat constructor.
Qed.

(** ** The properties at concrete inputs *)

Definition demo_app : App := {| config := demo_config; facilitator := demo_facilitator |}.
Definition demo_world : World (SessionStore Db.t) (RateLimiter Db.t) DemoNode.t :=
  {| w_clock := λ i, 1700000000 + Z.of_nat (Nat.min i 100); w_tick := 0;
     w_entropy := λ _, demo_raw; w_draws := 0; w_breaker := Breaker.new;
     w_sessions := MemorySessions demo_store; w_limiter := MemoryLimiter RateLimit.new;
     w_chain := demo_chain; w_metrics := [] |}.

Definition demo_request (h : Headers) (path : string) (s : SettlePolicy) : Request :=
  {| headers := Some h; client_ip := Some (V4 203 0 113 7); path := path; policy := None;
     resource_url := "https://gw.example" +:+ path; settle_policy := s |}.
Definition paying_headers : Headers :=
  {[ HEADER_PAYMENT_SIGNATURE := encode_header (json_of_payload demo_payload) ]}.
Definition paying_request : Request := demo_request paying_headers "/x" Deferred.
Definition demo_id : string := unwrap_or (payment_id demo_payload) "".

Lemma one_payment_serves_one_request_witness :
  times_served demo_id [paying_request; paying_request]
    (run demo_app [paying_request; paying_request] demo_world).1 = 1%nat ∧
  (times_served demo_id [paying_request; paying_request]
    (run demo_app [paying_request; paying_request] demo_world).1 ≤ 1)%nat.
Proof.
  split; [vm_compute; reflexivity|].
  apply (one_payment_serves_one_request demo_app demo_id).
  - intros i. cbn. unfold is_u64, u64_max. lia.
  - intros i j Hij. cbn. lia.
  - intros i. assert (gateway_ttl demo_app = 600) as -> by (vm_compute; reflexivity). cbn. lia.
Defined.

Definition demo_allow : Decision :=
  Allow Paid (Some "0xdeadbeef") None None
    (Some {| pd_payload := demo_payload; pd_requirements := requirements demo_app paying_request;
             pd_payment_id := payment_id demo_payload |}) MeterUnknown.

Lemma demo_decides : decide demo_app paying_request demo_world
  = (Some demo_allow, (decide demo_app paying_request demo_world).2).
Proof.
  assert ((decide demo_app paying_request demo_world).1 = Some demo_allow) as <-
    by (vm_compute; reflexivity).
  apply surjective_pairing.
Qed.

Lemma some_is_not_none {A} (a : A) : Some a = None → False.
Proof. discriminate. Qed.

Lemma paid_tier_is_earned_witness :
  ∃ p (w1 w2 : World (SessionStore Db.t) (RateLimiter Db.t) DemoNode.t),
    presented_payment paying_request = Some (Ok p) ∧
    claim_stage demo_app paying_request p w1 = (None, w2) ∧
    (verify demo_facilitator p (requirements demo_app paying_request) (w_chain w2)).1
      = Ok "0xdeadbeef".
Proof.
  destruct (paid_tier_is_earned demo_app paying_request demo_world _ _ _ _ _ _ demo_decides)
    as [(? & ? & ? & ? & ? & ? & _ & _ & _ & _ & _ & Hpd) | (p & w1 & w2 & Hp & Hc & Hm)].
  - exact (False_ind _ (some_is_not_none _ Hpd)).
  - exists p, w1, w2. destruct Hm as (who & Hv & Hwho & _). apply Some_inj in Hwho.
    rewrite <- Hwho in Hv. exact (conj Hp (conj Hc Hv)).
Defined.

Lemma payment_attempts_never_fall_to_the_free_tier_witness :
  is_some_b (presented_payment paying_request) = true ∧
  match (decide demo_app paying_request (decide demo_app paying_request demo_world).2).1 with
  | Some (Deny _ (Some s) _) => s.(sr_error_reason) = Some "invalid_transaction_state"
  | _ => False
  end ∧
  match (decide demo_app paying_request (decide demo_app paying_request demo_world).2).1 with
  | Some (Allow t _ _ _ _ _) => t = Paid
  | Some (Deny c (Some s) _) =>
      s.(sr_success) = false ∧ is_some_b s.(sr_error_reason) = true ∧ s.(sr_payer) = None ∧
      c.(rq_accepts) = [requirements demo_app paying_request]
  | _ => False
  end.
Proof.
  split; [vm_compute; reflexivity|]. split; [vm_compute; reflexivity|].
  assert (Hp : presented_payment paying_request = Some (Ok demo_payload))
    by (vm_compute; reflexivity).
  set (w := (decide demo_app paying_request demo_world).2).
  pose proof (payment_attempts_never_fall_to_the_free_tier demo_app paying_request w
    (decide demo_app paying_request w).2 (decide demo_app paying_request w).1 _ Hp
    (surjective_pairing _)) as Hthm.
  exact Hthm.
Defined.

Lemma deferred_decisions_charge_nothing_witness :
  chain_quiet demo_world (decide demo_app paying_request demo_world).2.
Proof.
  exact (proj1 (deferred_decisions_charge_nothing demo_app paying_request demo_world _ _ eq_refl
    demo_decides)).
Defined.

Lemma validated_gateway_always_decides_witness :
  validate demo_config = Ok () ∧
  ∃ d w', decide demo_app (demo_request ∅ "/x" Immediate) demo_world = (Some d, w').
Proof.
  assert (Hv : validate demo_config = Ok ()) by (vm_compute; reflexivity).
  split; [exact Hv|].
  apply (validated_gateway_always_decides demo_app (demo_request ∅ "/x" Immediate) demo_world Hv).
  vm_compute. congruence.
Defined.

Lemma replay_ttl_outlasts_the_window_witness : 60 < replay_ttl 60 ∧ replay_ttl 60 = 600.
Proof.
  split; [|reflexivity].
  exact (proj1 (replay_ttl_outlasts_the_window 60 ltac:(unfold u64_max; lia))).
Defined.

(** Sessions are not scoped to path prices.  A session is bound to the
    policy name Envoy sent, and there is none when prices are set by path
    prefix: a session bought where a request costs 10000 is accepted where it
    costs 50000. *)
Theorem path_priced_sessions_are_not_scoped :
  let bought := demo_request paying_headers "/x" Immediate in
  let after := decide demo_app bought demo_world in
  let token := match after.1 with Some (Allow _ _ (Some t) _ _ _) => t | _ => "" end in
  let used := demo_request {[ HEADER_PAYMENT_SESSION := token ]} "/sui.rpc.v2.Ledger" Immediate in
  (requirements demo_app bought).(pr_amount) = "10000" ∧
  (requirements demo_app used).(pr_amount) = "50000" ∧
  match (decide demo_app used after.2).1 with
  | Some (Allow t payer _ None None _) => t = Paid ∧ payer = Some "0xdeadbeef"
  | _ => False
  end.
Proof.
  intros bought after token used. split; [vm_compute; reflexivity|].
  split; [vm_compute; reflexivity|]. subst bought after token used. vm_compute. by split.
Qed.
