(* ===== verification/ExtProc.v ===== *)
(** * The [ext_proc] filter: settle after the upstream ([src/ext_proc.rs])

    One stream per HTTP request: the request phase decides and verifies, the
    response phase settles, and only when the upstream succeeded.  The stream
    keeps a [StreamState] between the phases.  How long a phase took is an
    argument, in tenths of a millisecond, as it is printed. *)

From Stdlib Require Import Ascii.
From S2P Require Import Prelude RustStr Platform IpAddr Session Redis Config Json X402 Sui.
From S2P Require Import Facilitator Stores World Auth.
From S2P Require RateLimit Breaker.
From stdpp Require Import options.
#[local] Open Scope Z_scope.

Record StreamState := mkStream {
  pending : option PendingPayment;
  st_policy : option string;
  st_path : string;
  st_meter : Meter;
  decide_ms : Z
}.

Definition StreamState_default : StreamState :=
  {| pending := None; st_policy := None; st_path := ""; st_meter := MeterUnknown; decide_ms := 0 |}.

Definition HEADER_SERVER_TIMING : string := "server-timing".

Definition server_timing (phases : list (string * Z)) : string :=
  join ", " ((λ '(name, ms), name +:+ ";dur=" +:+ u_to_string (ms / 10) +:+ "." +:+
                             u_to_string (ms mod 10)) <$> phases).

(** [append_action: OVERWRITE_IF_EXISTS_OR_ADD]. *)
Definition header (key value : string) : HeaderOption :=
  {| h_name := key; h_value := value; h_action := Some OverwriteIfExistsOrAdd |}.

Record HeaderMutation := mkMutation { set_headers : list HeaderOption; remove_headers : list string }.

Inductive ProcessingResponse :=
| RequestHeadersReply (mutation : option HeaderMutation)
| ResponseHeadersReply (mutation : option HeaderMutation)
| ImmediateReply (status : Z) (mutation : HeaderMutation) (body : Value)
| NoReply.

Definition continue_with_removals (headers : list HeaderOption) (remove : list string) :
  option HeaderMutation :=
  match headers, remove with
  | [], [] => None
  | _, _ => Some {| set_headers := headers; remove_headers := remove |}
  end.
Definition continue_with (headers : list HeaderOption) : option HeaderMutation :=
  continue_with_removals headers [].

(** ** [String::from_utf8_lossy] *)

Definition REPLACEMENT : string := of_chars (ascii_of_N <$> [239; 191; 189]%N).
Definition between (lo hi : Z) (c : ascii) : bool := (lo <=? byte_of c) && (byte_of c <=? hi).
Definition continuation : ascii → bool := between 128 191.
(** May the second byte follow the first of a three or four byte character? *)
Definition second_of_three (a b : ascii) : bool :=
  (between 224 224 a && between 160 191 b) || (between 225 236 a && continuation b) ||
  (between 237 237 a && between 128 159 b) || (between 238 239 a && continuation b).
Definition second_of_four (a b : ascii) : bool :=
  (between 240 240 a && between 144 191 b) || (between 241 243 a && continuation b) ||
  (between 244 244 a && between 128 143 b).

Fixpoint from_utf8_lossy (s : string) : string :=
  match s with
  | EmptyString => EmptyString
  | String a s1 =>
      if byte_of a <? 128 then String a (from_utf8_lossy s1)
      else
      match s1 with
      | String b s2 =>
          if between 194 223 a && continuation b then String a (String b (from_utf8_lossy s2))
          else if second_of_three a b then
            match s2 with
            | String c s3 =>
                if continuation c then String a (String b (String c (from_utf8_lossy s3)))
                else REPLACEMENT +:+ from_utf8_lossy s2
            | EmptyString => REPLACEMENT
            end
          else if second_of_four a b then
            match s2 with
            | String c s3 =>
                if continuation c then
                  match s3 with
                  | String d s4 =>
                      if continuation d
                      then String a (String b (String c (String d (from_utf8_lossy s4))))
                      else REPLACEMENT +:+ from_utf8_lossy s3
                  | EmptyString => REPLACEMENT
                  end
                else REPLACEMENT +:+ from_utf8_lossy s2
            | EmptyString => REPLACEMENT
            end
          else REPLACEMENT +:+ from_utf8_lossy s1
      | EmptyString => REPLACEMENT
      end
  end.

(** A header as Envoy sends it: key, value, raw value. *)
Definition WireHeaders : Type := list (string * string * string).

(** Collected in order, so the last of equal names stands. *)
Definition header_map (headers : option WireHeaders) : Headers :=
  fold_left (λ m '(key, value, raw),
    <[to_ascii_lowercase key := if is_empty raw then value else from_utf8_lossy raw]> m)
    (unwrap_or headers []) ∅.

Definition settlement_unavailable (path : string) : ProcessingResponse :=
  let grpc := starts_with "/sui.rpc.v2." path || starts_with "/grpc." path in
  let body := Json.Object
    [("error", Str "settlement_unavailable");
     ("message", Str "Payments are temporarily refused because settlement is failing. The free tier is unaffected. Try again shortly.")] in
  ImmediateReply (if grpc then 200 else 503)
    {| set_headers :=
         [header "retry-after" "30";
          header "content-type" (if grpc then "application/grpc" else "application/json")] ++
         (if grpc then [header "grpc-status" "14";
                        header "grpc-message" "settlement%20unavailable"] else []);
       remove_headers := [] |}
    body.

Definition grpc_timeout_for (meter : Meter) (view : option Headers) : option string :=
  match meter with
  | MeterSession _ _ expires_in_secs =>
      if is_grpc_request view then Some (u_to_string (Z.max expires_in_secs 1) +:+ "S") else None
  | _ => None
  end.

Definition ext_resource_url (map : Headers) (path : string) : string :=
  let authority := unwrap_or (or_else (map !! "x-forwarded-host") (map !! ":authority")) "" in
  if is_empty authority then path
  else
    let scheme := match or_else (map !! "x-forwarded-proto") (map !! ":scheme") with
                  | Some s => if is_empty s then "https" else s
                  | None => "https"
                  end in
    scheme +:+ "://" +:+ authority +:+ path.

(** ** Attributes *)

Inductive PbValue := PbString (s : string) | PbOther.
Definition Attributes : Type := gmap string (gmap string PbValue).

(** [values().find_map(..)] for a string field. *)
Definition find_field (attributes : Attributes) (field : string) : option string :=
  head (omap (λ kv : string * gmap string PbValue,
                match kv.2 !! field with Some (PbString s) => Some s | _ => None end)
             (map_to_list attributes)).

Definition parse_host (address : string) : option IpAddr :=
  let host := match rsplit_once ":" address with Some (h, _) => h | None => address end in
  parse_ip (trim_end_matches "]" (trim_start_matches "[" host)).

Definition client_ip_from_attributes (attributes : Attributes) : option IpAddr :=
  find_field attributes "source.address" ≫= parse_host.

Definition DQ : ascii := "034"%char.
Definition quoted (s : string) : string := String DQ (s +:+ String DQ "").

Definition parse_policy_from_text_format (text : string) : option string :=
  after_key ← split_nth1 ("key: " +:+ quoted "x402_policy") text;
  after_marker ← split_nth1 "string_value:" after_key;
  '(_, rest) ← split_once_char DQ after_marker;
  '(value, _) ← split_once_char DQ rest;
  if is_empty value then None else Some value.

Definition policy_from_attributes (attributes : Attributes) : option string :=
  find_field attributes "xds.route_metadata" ≫= parse_policy_from_text_format.

Definition is_success (status : string) : bool :=
  match parse_u16 status with Some code => (200 <=? code) && (code <? 300) | None => false end.

(** ** The two phases *)

Definition meter_set (m : Meter) : list HeaderOption := (λ '(k, v), header k v) <$> meter_headers m.

Section Phases.
Context `{!Codecs, !Json, !SuiSdk} {S L N : Type}
  `{!SuiNode N, !SessionBackend S, !RateBackend L}.
Context (app : App).

Definition request_of (map : Headers) (client_ip : option IpAddr) (policy : option string) :
  Request :=
  let path := unwrap_or (map !! ":path") "" in
  {| headers := Some map; client_ip := client_ip; path := path; policy := policy;
     resource_url := ext_resource_url map path; settle_policy := Deferred |}.

(** What the request phase replies to a decision, and keeps. *)
Definition allow_reply (r : Request) (tier : Tier) (payer : option string) (meter : Meter) :
  ProcessingResponse :=
  RequestHeadersReply
    (continue_with_removals
       ([header HEADER_TIER (tier_str tier)] ++
        match payer with Some p => [header HEADER_PAYER p] | None => [] end ++
        match grpc_timeout_for meter r.(headers) with
        | Some t => [header "grpc-timeout" t]
        | None => []
        end)
       [HEADER_PAYMENT_SIGNATURE; HEADER_PAYMENT_SESSION]).

Definition deny_reply (challenge : PaymentRequired) (receipt : option SettlementResponse)
    (meter : Meter) (elapsed : Z) : ProcessingResponse :=
  ImmediateReply 402
    {| set_headers :=
         [header HEADER_PAYMENT_REQUIRED (encode_header (json_of_required challenge))] ++
         match receipt with
         | Some s => [header HEADER_PAYMENT_RESPONSE (receipt_header s)]
         | None => []
         end ++
         meter_set meter ++
         [header HEADER_SERVER_TIMING (server_timing [("x402-decide", elapsed)]);
          header "content-type" "application/json"];
       remove_headers := [] |}
    (json_of_required challenge).

(** [None]: the limiter panicked, which ends the stream. *)
Definition handle_request_headers (st : StreamState) (hs : option WireHeaders)
    (client_ip : option IpAddr) (policy : option string) (elapsed : Z) :
  M (World S L N) (option (ProcessingResponse * StreamState)) :=
  let map := header_map hs in
  let r := request_of map client_ip policy in
  breaker <-- breaker_state (unwrap_or policy DEFAULT_POLICY_LABEL) ;;;
  if negb (Breaker.accepts_payment breaker) && is_some_b (header_get r.(headers) HEADER_PAYMENT_SIGNATURE)
  then
    emit PAYMENTS [("outcome", "breaker_open"); ("code", Breaker.as_str breaker);
                   ("mode", "deferred")] ;;;
    ret (Some (settlement_unavailable r.(path), st))
  else
  decision <-- decide app r ;;;
  ret match decision with
      | None => None
      | Some (Allow tier payer _ _ pending meter) =>
          Some (allow_reply r tier payer meter,
                {| pending := pending; st_policy := policy; st_path := r.(path);
                   st_meter := meter; decide_ms := elapsed |})
      | Some (Deny challenge receipt meter) => Some (deny_reply challenge receipt meter elapsed, st)
      end.

Definition taken (st : StreamState) : StreamState :=
  {| pending := None; st_policy := st_policy st; st_path := st_path st; st_meter := st_meter st;
     decide_ms := decide_ms st |}.

(** The response when nothing is settled. *)
Definition unsettled_reply (st : StreamState) : ProcessingResponse :=
  ResponseHeadersReply
    (continue_with (meter_set st.(st_meter) ++
       [header HEADER_SERVER_TIMING (server_timing [("x402-decide", decide_ms st)])])).

Definition not_free_meter (h : HeaderOption) : bool :=
  negb (starts_with "x-x402-free-" h.(h_name)).

(** After a settlement: breaker, session, metrics, headers. *)
Definition settled_phase (st : StreamState) (mutations : list HeaderOption)
    (settlement : SettlementResponse) : M (World S L N) (list HeaderOption) :=
  let tier := (policy_for app.(config) st.(st_path) st.(st_policy)).(paid_tier) in
  record_success (unwrap_or st.(st_policy) DEFAULT_POLICY_LABEL) ;;;
  token <-- match settlement.(sr_payer) with
            | None => ret None
            | Some payer => create_session payer st.(st_policy) tier.(paid_quota) tier.(duration_secs)
            end ;;;
  emit PAYMENTS [("outcome", "settled"); ("code", "ok"); ("mode", "deferred")] ;;;
  (if is_some_b token then emit SESSIONS [("event", "created")] else ret tt) ;;;
  ret (match token with
       | Some t =>
           List.filter not_free_meter (mutations ++ [header HEADER_PAYMENT_SESSION t]) ++
           meter_set (MeterSession tier.(paid_quota) tier.(paid_quota) tier.(duration_secs))
       | None => mutations
       end ++
       [header HEADER_PAYMENT_RESPONSE (receipt_header (grant_session settlement token tier))]).

Definition failed_phase (st : StreamState) (mutations : list HeaderOption) (e : FacilitatorError) :
  M (World S L N) (list HeaderOption) :=
  record_failure (unwrap_or st.(st_policy) DEFAULT_POLICY_LABEL) ;;;
  emit SETTLEMENT_AFTER_SERVE_FAILURES [("code", code e)] ;;;
  emit PAYMENTS [("outcome", "settle_failed_after_serve"); ("code", code e); ("mode", "deferred")] ;;;
  ret (mutations ++
       [header HEADER_PAYMENT_RESPONSE (receipt_header (failure_receipt app.(facilitator) (code e)))]).

Definition outcome_phase (st : StreamState) (mutations : list HeaderOption)
    (settled : result SettlementResponse FacilitatorError) : M (World S L N) (list HeaderOption) :=
  match settled with
  | Ok s => settled_phase st mutations s
  | Err e => failed_phase st mutations e
  end.

(** Give the payment back. *)
Definition discard (p : PendingPayment) : M (World S L N) () :=
  match p.(pd_payment_id) with Some id => release_payment id | None => ret tt end.

Definition handle_response_headers (st : StreamState) (hs : option WireHeaders) (elapsed : Z) :
  M (World S L N) (ProcessingResponse * StreamState) :=
  match st.(pending) with
  | None => ret (unsettled_reply st, taken st)
  | Some p =>
      let status := unwrap_or (header_map hs !! ":status") "" in
      if negb (is_success status) then
        discard p ;;;
        ret (unsettled_reply st, taken st)
      else
      settled <-- on_chain (settle app.(facilitator) p.(pd_payload) p.(pd_requirements)) ;;;
      emit SETTLEMENT_SECONDS [] ;;;
      let mutations := meter_set st.(st_meter) ++
        [header HEADER_SERVER_TIMING
           (server_timing [("x402-decide", decide_ms st); ("x402-settle", elapsed)])] in
      mutations <-- outcome_phase st mutations settled ;;;
      ret (ResponseHeadersReply (continue_with mutations), taken st)
  end.

(** ** The stream *)

Inductive Phase :=
| RequestHeaders (hs : option WireHeaders)
| ResponseHeaders (hs : option WireHeaders)
| OtherPhase.
Record Message := mkMessage { attributes : Attributes; phase : Phase; took : Z }.

Definition handle (st : StreamState) (m : Message) :
  M (World S L N) (option (ProcessingResponse * StreamState)) :=
  match m.(phase) with
  | RequestHeaders hs =>
      handle_request_headers st hs (client_ip_from_attributes m.(attributes))
        (policy_from_attributes m.(attributes)) m.(took)
  | ResponseHeaders hs => out <-- handle_response_headers st hs m.(took) ;;; ret (Some out)
  | OtherPhase => ret (Some (NoReply, st))
  end.

(** The messages of one stream, until it ends. *)
Fixpoint process (st : StreamState) (ms : list Message) : M (World S L N) (list ProcessingResponse) :=
  match ms with
  | [] => ret []
  | m :: ms =>
      out <-- handle st m ;;;
      match out with
      | None => ret []
      | Some (reply, st) => replies <-- process st ms ;;; ret (reply :: replies)
      end
  end.
End Phases.

(** ** Counting broadcasts *)

Definition is_execute (c : Call) : bool := match c with CallExecute _ => true | _ => false end.
Definition executions {S L N} (w : World S L N) : nat :=
  length (List.filter is_execute (w_chain w).(calls)).

Definition pending_count (st : StreamState) : nat := if is_some_b (pending st) then 1%nat else 0%nat.

Definition is_request (m : Message) : bool :=
  match m.(phase) with RequestHeaders _ => true | _ => false end.
Definition is_delivered (m : Message) : bool :=
  match m.(phase) with
  | ResponseHeaders hs => is_success (unwrap_or (header_map hs !! ":status") "")
  | _ => false
  end.
Definition count (f : Message → bool) (ms : list Message) : nat := length (List.filter f ms).

(** ** Lemmas *)

Lemma filter_no_execute l : no_execute l → List.filter is_execute l = [].
Proof.
  induction l as [|c l IH]; intros Hn; [done|]. cbn.
  assert (no_execute l) as Hl by (intros tb Hin; apply (Hn tb); set_solver).
  destruct c as [| | |tb|]; cbn; auto. exfalso. apply (Hn tb). set_solver.
Qed.

Lemma quiet_executions {S L N} (w w' : World S L N) :
  chain_quiet w w' → executions w' = executions w.
Proof.
  intros (l & Hl & Hn). unfold executions. rewrite Hl, List.filter_app, (filter_no_execute l) by done.
  by rewrite app_nil_r.
Qed.

Section PhaseLemmas.
#[local] Set Default Proof Using "Type*".
Context `{!Codecs, !Json, !SuiSdk} {S L N : Type}
  `{!SuiNode N, !SessionBackend S, !RateBackend L}.
Context (app : App).

Abbreviation W := (World S L N).

(** The chain is touched by [on_chain] only. *)
Definition same_chain (w w' : W) : Prop := w_chain w' = w_chain w.
#[export] Instance same_chain_preorder : PreOrder same_chain.
Proof. split; unfold same_chain; [done | intros w1 w2 w3; congruence]. Qed.

Lemma same_now : keeps same_chain now_epoch_secs.
Proof. by intros w. Qed.
Lemma same_draw : keeps same_chain draw.
Proof. by intros w. Qed.
Lemma same_emit n l : keeps same_chain (emit n l).
Proof. by intros w. Qed.
Lemma same_sessions {A} (f : M S A) : keeps same_chain (on_sessions f).
Proof. apply keeps_on_sessions; [apply _|]. by intros w s _. Qed.
Lemma same_breaker {A} (f : M Breaker.SettlementBreaker A) : keeps same_chain (on_breaker f).
Proof. apply keeps_on_breaker; [apply _|]. by intros w b. Qed.
Lemma same_create p pol q d : keeps same_chain (create_session p pol q d).
Proof.
  apply keeps_bind; [apply _|apply same_draw|]. intros.
  apply keeps_bind; [apply _|apply same_now|]. intros. apply same_sessions.
Qed.
Lemma same_record f : keeps same_chain (now <-- now_epoch_secs ;;; on_breaker (f now)) (A := ()).
Proof. apply keeps_bind; [apply _|apply same_now|]. intros. apply same_breaker. Qed.
Lemma same_state p : keeps same_chain (breaker_state p).
Proof. apply keeps_bind; [apply _|apply same_now|]. intros. apply same_breaker. Qed.

#[local] Hint Resolve same_now same_draw same_emit same_sessions same_breaker same_create
  same_state : x402.

Lemma same_settled st mu s : keeps same_chain (settled_phase app st mu s).
Proof. unfold settled_phase, record_success. cbv zeta. keep. Qed.
Lemma same_failed st mu e : keeps same_chain (failed_phase app st mu e).
Proof. unfold failed_phase, record_failure. keep. Qed.
Lemma same_outcome st mu o : keeps same_chain (outcome_phase app st mu o).
Proof. destruct o; [apply same_settled | apply same_failed]. Qed.
Lemma same_discard p : keeps same_chain (discard p).
Proof. unfold discard, release_payment. keep. Qed.

(** The request phase broadcasts nothing. *)
Lemma request_phase_quiet st hs ip pol e :
  keeps chain_quiet (handle_request_headers app st hs ip pol e).
Proof.
  unfold handle_request_headers. cbv zeta.
  apply keeps_bind; [apply _| |].
  { intros w. pose proof (same_state (unwrap_or pol DEFAULT_POLICY_LABEL) w) as Hs.
    unfold chain_quiet. rewrite Hs. reflexivity. }
  intros b. case_match.
  - apply keeps_bind; [apply _|apply quiet_emit|]. intros. apply keeps_ret. apply _.
  - apply keeps_bind; [apply _|by apply decide_deferred_quiet|]. intros. apply keeps_ret. apply _.
Qed.

Lemma settle_executions p r (w : W) :
  (executions (on_chain (settle app.(facilitator) p r) w).2 ≤ executions w + 1)%nat.
Proof.
  unfold on_chain, executions. destruct (settle _ p r (w_chain w)) as [o c] eqn:Es.
  cbn [snd w_chain].
  destruct (settle_calls _ _ _ _ _ _ Es) as [(l & -> & Hn) | (l & tb & -> & Hn)].
  - rewrite List.filter_app, (filter_no_execute l) by done. rewrite app_nil_r. lia.
  - rewrite !List.filter_app, (filter_no_execute l) by done. rewrite !length_app. cbn. lia.
Qed.

(** The response phase: at most one broadcast, and none unless a verified
    payment was waiting and the upstream delivered. *)
Lemma response_phase_executions st hs e (w : W) :
  let '((_, st'), w') := handle_response_headers app st hs e w in
  pending st' = None ∧
  (executions w' ≤ executions w +
     (if is_some_b (pending st) then if is_success (unwrap_or (header_map hs !! ":status") "") then 1 else 0
      else 0))%nat.
Proof.
  unfold handle_response_headers. destruct (pending st) as [p|] eqn:Ep; [|by split; [|lia]].
  cbv zeta. destruct (is_success _) eqn:Es; cbn [negb].
  - unfold bind at 1. pose proof (settle_executions (pd_payload p) (pd_requirements p) w) as Hx.
    destruct (on_chain _ w) as [o w1]. cbn [snd] in Hx. unfold bind at 1, emit.
    set (w2 := mkWorld _ _ _ _ _ _ _ _ _). set (mu := _ ++ _).
    assert (executions w2 = executions w1) as Hx2 by done.
    unfold bind, ret.
    pose proof (same_outcome st mu o w2) as Hk. destruct (outcome_phase app st mu o w2) as [mu' w3].
    cbn [snd] in Hk. split; [done|]. unfold executions in *. rewrite Hk. cbn. lia.
  - unfold bind, ret. pose proof (same_discard p w) as Hk. destruct (discard p w) as [u w1].
    cbn [snd] in Hk. split; [done|]. unfold executions. rewrite Hk. lia.
Qed.
End PhaseLemmas.

(** *** Deciding is blind to the breaker *)

Section Blind.
#[local] Set Default Proof Using "Type*".
Context `{!Codecs, !Json, !SuiSdk} {S L N : Type}
  `{!SuiNode N, !SessionBackend S, !RateBackend L}.

Definition with_breaker (b : Breaker.SettlementBreaker) (w : World S L N) : World S L N :=
  mkWorld (w_clock w) (w_tick w) (w_entropy w) (w_draws w) b (w_sessions w) (w_limiter w)
    (w_chain w) (w_metrics w).

Definition blind {A} (c : M (World S L N) A) : Prop :=
  ∀ b w, c (with_breaker b w) = ((c w).1, with_breaker b (c w).2).

Lemma blind_ret {A} (a : A) : blind (ret a).
Proof. done. Qed.
Lemma blind_bind {A B} (c : M (World S L N) A) (k : A → M (World S L N) B) :
  blind c → (∀ a, blind (k a)) → blind (bind c k).
Proof. intros Hc Hk b w. unfold bind. rewrite Hc. destruct (c w) as [a w']. cbn. apply Hk. Qed.

Lemma blind_now : blind now_epoch_secs.
Proof. done. Qed.
Lemma blind_draw : blind draw.
Proof. done. Qed.
Lemma blind_emit n l : blind (emit n l).
Proof. done. Qed.
Lemma blind_sessions {A} (f : M S A) : blind (on_sessions f).
Proof. intros b w. unfold on_sessions. cbn. by destruct (f (w_sessions w)). Qed.
Lemma blind_limiter {A} (f : L → option (A * L)) : blind (on_limiter f).
Proof. intros b w. unfold on_limiter. cbn. by destruct (f (w_limiter w)) as [[]|]. Qed.
Lemma blind_chain {A} (f : M (Chain N) A) : blind (on_chain f).
Proof. intros b w. unfold on_chain. cbn. by destruct (f (w_chain w)). Qed.
Lemma blind_consume t p : blind (consume t p).
Proof. apply blind_bind; [apply blind_now|]. intros. apply blind_sessions. Qed.
Lemma blind_create a p q d : blind (create_session a p q d).
Proof.
  apply blind_bind; [apply blind_draw|]. intros.
  apply blind_bind; [apply blind_now|]. intros. apply blind_sessions.
Qed.
Lemma blind_claim i t : blind (claim_payment i t).
Proof. apply blind_bind; [apply blind_now|]. intros. apply blind_sessions. Qed.
Lemma blind_check l i m win : blind (check_rate l i m win).
Proof. apply blind_bind; [apply blind_now|]. intros. apply blind_limiter. Qed.

#[local] Hint Resolve @blind_ret blind_now blind_emit blind_chain blind_consume blind_create
  blind_claim blind_check : x402.

Lemma decide_blind app r : blind (decide app r).
Proof.
  unfold decide, try_session, payment_stage, claim_stage, deferred_stage, immediate_stage,
    free_stage, count_rejected. cbv zeta.
  repeat first [ solve [auto with x402] | apply blind_bind; [|intros ?] | case_match ].
Qed.

(** A reading of the breaker's state changes the clock and the breaker. *)
Lemma breaker_state_eq p b (w : World S L N) :
  ∃ s b', breaker_state p (with_breaker b w) = (s, with_breaker b' (now_epoch_secs w).2) ∧
    (s, b') = Breaker.state_at p (w_clock w (w_tick w)) b.
Proof.
  unfold breaker_state, bind, now_epoch_secs, on_breaker. cbn.
  destruct (Breaker.state_at p (w_clock w (w_tick w)) b) as [s b']. by exists s, b'.
Qed.

Lemma with_own_breaker (w : World S L N) : with_breaker (w_breaker w) w = w.
Proof. by destruct w. Qed.
End Blind.

(** ** Properties *)

Section Properties.
#[local] Set Default Proof Using "Type*".
Context `{!Codecs, !Json, !SuiSdk} {S L N : Type}
  `{!SuiNode N, !SessionBackend S, !RateBackend L}.
Context (app : App).

(** C10: A stream charges at most once, and only for what was delivered.
    Whatever messages a stream carries, the transactions it broadcasts are no
    more than the request phases it had and no more than the successful
    response phases. *)
Theorem stream_charges_only_for_delivery (ms : list Message) (w w' : World S L N)
    (replies : list ProcessingResponse)
    (Hrun : process app StreamState_default ms w = (replies, w')) :
  (executions w' ≤ executions w + Nat.min (count is_request ms) (count is_delivered ms))%nat.
Proof.
  assert (∀ st w, let '(_, w') := process app st ms w in
    (executions w' ≤ executions w + pending_count st + count is_request ms)%nat ∧
    (executions w' ≤ executions w + count is_delivered ms)%nat) as Hinv.
  { clear. induction ms as [|m ms IH]; intros st w; [cbn; lia|]. cbn [process].
    unfold count in *. cbn [List.filter]. unfold bind at 1.
    assert (let '(out, w1) := handle app st m w in
      match out with
      | Some (_, st1) =>
          (executions w1 + pending_count st1 ≤ executions w + pending_count st +
             (if is_request m then 1 else 0))%nat ∧
          (executions w1 ≤ executions w + (if is_delivered m then 1 else 0))%nat
      | None => executions w1 = executions w
      end) as Hstep.
    { unfold handle, is_request, is_delivered. destruct (phase m) as [hs|hs|]; [..|cbn; lia].
      - pose proof (request_phase_quiet app st hs (client_ip_from_attributes (attributes m))
          (policy_from_attributes (attributes m)) (took m) w) as Hq.
        destruct (handle_request_headers _ _ _ _ _ _ w) as [[[rep st1]|] w1]; cbn [snd] in Hq;
          apply quiet_executions in Hq; [|done]. unfold pending_count.
        destruct (is_some_b (pending st)), (is_some_b (pending st1)); lia.
      - pose proof (response_phase_executions app st hs (took m) w) as Hx. unfold bind, ret.
        destruct (handle_response_headers app st hs (took m) w) as [[rep st1] w1].
        destruct Hx as [Hp Hx]. unfold pending_count. rewrite Hp. cbn [is_some_b].
        destruct (is_some_b (pending st)), (is_success _); lia. }
    destruct (handle app st m w) as [[[rep st1]|] w1].
    - destruct Hstep as [H1' H2']. specialize (IH st1 w1). unfold bind, ret.
      destruct (process app st1 ms w1) as [reps w2]. destruct IH as [IH1 IH2].
      destruct (is_request m), (is_delivered m); cbn [length] in *; lia.
    - cbn [ret]. unfold ret. rewrite Hstep. lia. }
  specialize (Hinv StreamState_default w). rewrite Hrun in Hinv. cbn in Hinv. lia.
Qed.

(** C35: A failed upstream costs the client nothing.  When the response is not
    a success the verified payment is dropped: no call to the chain, the
    claim is released so the same signature can be presented again, and
    nothing else changes. *)
Theorem failed_upstream_is_never_charged (st : StreamState) (hs : option WireHeaders) (e : Z)
    (p : PendingPayment) (w : World S L N) (Hp : pending st = Some p)
    (Hs : is_success (unwrap_or (header_map hs !! ":status") "") = false) :
  handle_response_headers app st hs e w =
    ((unsettled_reply st, taken st), (discard p w).2) ∧
  w_chain (discard p w).2 = w_chain w ∧ w_breaker (discard p w).2 = w_breaker w ∧
  ∀ id, p.(pd_payment_id) = Some id →
    w_sessions (discard p w).2 = (session_release id (w_sessions w)).2.
Proof.
  unfold handle_response_headers. rewrite Hp. cbv zeta. rewrite Hs. cbn [negb].
  unfold bind, ret, discard. destruct (pd_payment_id p) as [id|]; cbn; [|by split_and!].
  unfold release_payment, on_sessions. destruct (session_release id (w_sessions w)) as [u s] eqn:Er.
  cbn. split_and!; [done..|]. intros id' [= <-]. by rewrite Er.
Qed.

(** An outage of settlement refuses payments before they are touched.
    While the breaker of the policy does not accept payments, a request that
    presents one gets 503 (gRPC: a 200 with status 14): it is not claimed,
    not verified, and no free request is spent. *)
Theorem open_breaker_refuses_untouched (st : StreamState) (hs : option WireHeaders)
    (ip : option IpAddr) (pol : option string) (e : Z) (w : World S L N)
    (s : Breaker.BreakerState)
    (Hs : (Breaker.state_at (unwrap_or pol DEFAULT_POLICY_LABEL) (w_clock w (w_tick w))
             (w_breaker w)).1 = s)
    (Hopen : Breaker.accepts_payment s = false)
    (Hpay : is_some_b (header_get (Some (header_map hs)) HEADER_PAYMENT_SIGNATURE) = true) :
  ∃ w', handle_request_headers app st hs ip pol e w =
      (Some (settlement_unavailable (unwrap_or (header_map hs !! ":path") ""), st), w') ∧
    w_sessions w' = w_sessions w ∧ w_chain w' = w_chain w ∧ w_limiter w' = w_limiter w ∧
    w_metrics w' = w_metrics w ++ [mkMetric PAYMENTS
      [("outcome", "breaker_open"); ("code", Breaker.as_str s); ("mode", "deferred")]].
Proof.
  unfold handle_request_headers. cbv zeta. unfold bind at 1.
  destruct (breaker_state_eq (unwrap_or pol DEFAULT_POLICY_LABEL) (w_breaker w) w)
    as (s' & b' & Heq & Hst).
  rewrite with_own_breaker in Heq. rewrite Heq. rewrite <- Hst in Hs. cbn [fst] in Hs. subst s'.
  cbn [request_of headers]. rewrite Hopen, Hpay. cbn [negb andb].
  unfold bind, emit, ret. eexists. split; [reflexivity|]. by split_and!.
Qed.

(** The free tier does not depend on settlement.  A request that presents
    no payment gets the same answer whatever state the breakers are in. *)
Theorem free_requests_ignore_the_breaker (st : StreamState) (hs : option WireHeaders)
    (ip : option IpAddr) (pol : option string) (e : Z) (b : Breaker.SettlementBreaker)
    (w : World S L N)
    (Hpay : header_get (Some (header_map hs)) HEADER_PAYMENT_SIGNATURE = None) :
  (handle_request_headers app st hs ip pol e (with_breaker b w)).1
  = (handle_request_headers app st hs ip pol e w).1.
Proof.
  assert (∀ b, (handle_request_headers app st hs ip pol e (with_breaker b w)).1 =
    match (decide app (request_of (header_map hs) ip pol) (now_epoch_secs w).2).1 with
    | None => None
    | Some (Allow tier payer _ _ pending meter) =>
        Some (allow_reply (request_of (header_map hs) ip pol) tier payer meter,
              {| pending := pending; st_policy := pol;
                 st_path := (request_of (header_map hs) ip pol).(path);
                 st_meter := meter; decide_ms := e |})
    | Some (Deny challenge receipt meter) => Some (deny_reply challenge receipt meter e, st)
    end) as Hb.
  { intros b1. unfold handle_request_headers. cbv zeta. unfold bind at 1.
    destruct (breaker_state_eq (unwrap_or pol DEFAULT_POLICY_LABEL) b1 w) as (s & b2 & -> & _).
    cbn [request_of headers]. rewrite Hpay. cbn [is_some_b]. rewrite andb_false_r.
    unfold bind, ret. rewrite decide_blind.
    destruct (decide app _ (now_epoch_secs w).2) as [o w2]. cbn [fst snd].
    by destruct o as [[]|]. }
  rewrite Hb. rewrite <- (with_own_breaker w) at 2. by rewrite Hb.
Qed.

(** A session is only granted for money that moved.  If the response phase
    hands out a session token, a payment was pending, the upstream
    succeeded, and settling that payment on its terms succeeded. *)
Theorem session_only_after_settlement (st st' : StreamState) (hs : option WireHeaders) (e : Z)
    (w w' : World S L N) (mu : HeaderMutation) (h : HeaderOption)
    (Hr : handle_response_headers app st hs e w = ((ResponseHeadersReply (Some mu), st'), w'))
    (Hin : h ∈ mu.(set_headers)) (Hname : h.(h_name) = HEADER_PAYMENT_SESSION) :
  ∃ p s payer, pending st = Some p ∧
    is_success (unwrap_or (header_map hs !! ":status") "") = true ∧
    (settle app.(facilitator) p.(pd_payload) p.(pd_requirements) (w_chain w)).1 = Ok s ∧
    s.(sr_payer) = Some payer.
Proof.
  assert (∀ m, h ∉ meter_set m) as Hmeter.
  { intros m Hm. destruct m; cbn in Hm; set_unfold in Hm; destruct_or?; by subst h. }
  assert (∀ t, h ∉ [header HEADER_SERVER_TIMING t]) as Htime.
  { intros t Ht. set_unfold in Ht. destruct_or?; by subst h. }
  assert (∀ t, h ∉ [header HEADER_PAYMENT_RESPONSE t]) as Hresp.
  { intros t Ht. set_unfold in Ht. destruct_or?; by subst h. }
  assert (∀ l, continue_with l = Some mu → h ∈ l) as Hl.
  { intros l. unfold continue_with, continue_with_removals. by destruct l; intros [= <-]. }
  unfold handle_response_headers in Hr. destruct (pending st) as [p|] eqn:Ep; cycle 1.
  { injection Hr as Hmu _ _. apply Hl in Hmu. apply elem_of_app in Hmu as [?|?];
      [by edestruct Hmeter | by edestruct Htime]. }
  cbv zeta in Hr. destruct (is_success _) eqn:Es; cbn [negb] in Hr; cycle 1.
  { unfold bind, ret in Hr. destruct (discard p w). injection Hr as Hmu _ _. apply Hl in Hmu.
    apply elem_of_app in Hmu as [?|?];
      [by edestruct Hmeter | by edestruct Htime]. }
  unfold bind at 1, on_chain in Hr.
  destruct (settle _ _ _ (w_chain w)) as [[s|err] c] eqn:Eset; cycle 1.
  { exfalso. unfold outcome_phase, failed_phase, record_failure, bind, emit, ret, now_epoch_secs,
      on_breaker in Hr. cbn in Hr. injection Hr as Hmu _ _. apply Hl in Hmu.
    rewrite !elem_of_app in Hmu. naive_solver. }
  exists p, s. destruct (sr_payer s) as [payer|] eqn:Epay; [exists payer; by rewrite Eset|]. exfalso.
  unfold outcome_phase, settled_phase, record_success, bind, emit, ret, now_epoch_secs,
    on_breaker in Hr. rewrite Epay in Hr. cbn in Hr. injection Hr as Hmu _ _. apply Hl in Hmu.
  rewrite !elem_of_app in Hmu. naive_solver.
Qed.
End Properties.

Lemma response_feeds_breaker `{!Codecs, !Json, !SuiSdk} {S L N : Type}
    `{!SuiNode N, !SessionBackend S, !RateBackend L} (app : App) (st : StreamState)
    (hs : option WireHeaders) (e : Z) (w : World S L N) :
  let label := unwrap_or st.(st_policy) DEFAULT_POLICY_LABEL in
  let now := w_clock w (w_tick w) in
  w_breaker (handle_response_headers app st hs e w).2 =
    match pending st with
    | Some p =>
        if is_success (unwrap_or (header_map hs !! ":status") "") then
          match (settle app.(facilitator) p.(pd_payload) p.(pd_requirements) (w_chain w)).1 with
          | Ok _ => Breaker.record_success label now (w_breaker w)
          | Err _ => Breaker.record_failure label now (w_breaker w)
          end
        else w_breaker w
    | None => w_breaker w
    end.
Proof.
  cbv zeta. unfold handle_response_headers. destruct (pending st) as [p|]; [|done]. cbv zeta.
  destruct (is_success _); cbn [negb]; cycle 1.
  { unfold bind, ret, discard, release_payment, on_sessions. destruct (pd_payment_id p); [|done].
    by destruct (session_release _ _). }
  unfold bind at 1, on_chain. destruct (settle _ _ _ (w_chain w)) as [[s|err] c]; cbn [fst].
  - unfold outcome_phase, settled_phase, record_success, create_session, bind, emit, ret,
      now_epoch_secs, draw, on_breaker, on_sessions. cbn.
    destruct (sr_payer s); [|done]. cbn. destruct (session_create _ _ _ _ _ _ _) as [[tok|] s'];
      reflexivity.
  - reflexivity.
Qed.

(** Every settlement reaches the breaker, once.  The response phase records
    a success when the settlement succeeded and a failure when it failed,
    under the policy of the request, and records nothing when it did not
    settle. *)
Theorem settlements_feed_the_breaker `{!Codecs, !Json, !SuiSdk} {S L N : Type}
    `{!SuiNode N, !SessionBackend S, !RateBackend L} (app : App) (st : StreamState)
    (hs : option WireHeaders) (e : Z) (w : World S L N) :
  let label := unwrap_or st.(st_policy) DEFAULT_POLICY_LABEL in
  let now := w_clock w (w_tick w) in
  w_breaker (handle_response_headers app st hs e w).2 =
    match pending st with
    | Some p =>
        if is_success (unwrap_or (header_map hs !! ":status") "") then
          match (settle app.(facilitator) p.(pd_payload) p.(pd_requirements) (w_chain w)).1 with
          | Ok _ => Breaker.record_success label now (w_breaker w)
          | Err _ => Breaker.record_failure label now (w_breaker w)
          end
        else w_breaker w
    | None => w_breaker w
    end.
Proof. apply response_feeds_breaker. Qed.

(** The payer header of an unpaid request is the client's own.  On the free
    tier [ext_proc] neither sets nor removes [x-x402-payer], so what the client
    sent reaches the upstream; [ext_authz] overwrites it. *)
Theorem free_requests_keep_a_forged_payer (r : Request) (m : Meter) :
  ∃ mu, allow_reply r Free None m = RequestHeadersReply (Some mu) ∧
    (HEADER_PAYER ∉ (h_name <$> mu.(set_headers))) ∧ (HEADER_PAYER ∉ mu.(remove_headers)).
Proof.
  eexists. split; [reflexivity|]. cbn [set_headers remove_headers].
  split; [|unfold HEADER_PAYER, HEADER_PAYMENT_SIGNATURE, HEADER_PAYMENT_SESSION; set_solver].
  unfold HEADER_PAYER. destruct (grpc_timeout_for m (headers r)); cbn; set_solver.
Qed.

(** Only a 2xx counts as delivery: the status must be a number from 200 to
    299, and nothing else charges. *)
Theorem only_2xx_is_delivery (status : string) :
  is_success status = true ↔ ∃ n, parse_u16 status = Some n ∧ 200 ≤ n ≤ 299.
Proof.
  unfold is_success. destruct (parse_u16 status) as [n|]; [|split; [done|naive_solver]].
  rewrite andb_true_iff, Z.leb_le, Z.ltb_lt. split.
  - intros [? ?]. exists n. split; [done|lia].
  - intros (? & [= <-] & ? & ?). lia.
Qed.

(** C38: Every denial of the decision can be acted on, in both filters.  A denial
    carries the challenge in [PAYMENT-REQUIRED], which decodes to exactly what was
    decided, and a receipt when there is one.  [ext_authz] answers gRPC clients
    with status 200 and [grpc-status] 8, everyone else with 402 and the challenge
    as the body.  [ext_proc] answers every client the same, 402 with the
    challenge as a JSON body and no [grpc-status], also one that speaks gRPC, so
    the README's trailers-only framing is [ext_authz]'s alone.  (A denial for an
    open breaker is a 503 and no challenge: [settlement_unavailable].) *)
Theorem denials_carry_the_challenge `{!Codecs, !CodecLaws, !Json, !JsonLaws} (c : PaymentRequired)
    (receipt : option SettlementResponse) (m : Meter) (ip : option IpAddr) (grpc : bool) (e : Z)
    (Hw : wire_required c) (Hj : json_ok (json_of_required c)) :
  ∃ enc, decode_header required_of_json enc = Ok c ∧
    (∃ status hs body msg,
      decision_to_response (Deny c receipt m) ip grpc = CheckDenied status hs body msg ∧
      add_header HEADER_PAYMENT_REQUIRED enc ∈ hs ∧
      (∀ s, receipt = Some s → add_header HEADER_PAYMENT_RESPONSE (receipt_header s) ∈ hs) ∧
      (if grpc then status = 200 ∧ add_header "grpc-status" "8" ∈ hs
       else status = 402 ∧ body = Some (json_of_required c))) ∧
    (∃ mu, deny_reply c receipt m e = ImmediateReply 402 mu (json_of_required c) ∧
      header HEADER_PAYMENT_REQUIRED enc ∈ mu.(set_headers) ∧
      (∀ s, receipt = Some s → header HEADER_PAYMENT_RESPONSE (receipt_header s) ∈ mu.(set_headers)) ∧
      header "content-type" "application/json" ∈ mu.(set_headers) ∧
      "grpc-status" ∉ (h_name <$> mu.(set_headers))).
Proof.
  exists (encode_header (json_of_required c)).
  split; [apply header_roundtrip; [done | by apply required_roundtrip]|]. split.
  - destruct grpc; eexists _, _, _, _; (split; [reflexivity|]).
    all: split_and!; [| |done|]; try done.
    all: try (intros s ->); set_solver.
  - eexists. split; [reflexivity|]. cbn [set_headers]. split_and!; [set_solver|intros s ->; set_solver|set_solver|].
    unfold HEADER_PAYMENT_REQUIRED, HEADER_PAYMENT_RESPONSE, HEADER_SERVER_TIMING.
    destruct receipt, m; cbn; set_solver.
Qed.

(** ** The properties at concrete inputs *)

Definition demo_attributes : Attributes :=
  {[ "envoy.filters.http.ext_proc" := {[ "source.address" := PbString "203.0.113.7:5000" ]} ]}.
Definition paying_wire : option WireHeaders :=
  Some [(":path", "/x", ""); (HEADER_PAYMENT_SIGNATURE, encode_header (json_of_payload demo_payload), "")].
Definition free_wire : option WireHeaders := Some [(":path", "", "/x")].
Definition status_wire (s : string) : option WireHeaders := Some [(":status", s, "")].
Definition request_message (hs : option WireHeaders) : Message := mkMessage demo_attributes (RequestHeaders hs) 12.
Definition response_message (s : string) : Message := mkMessage ∅ (ResponseHeaders (status_wire s)) 34.
Definition demo_stream : list Message := [request_message paying_wire; response_message "200"].

Definition demo_challenge : PaymentRequired := challenge demo_app paying_request "pay up".

Lemma denials_carry_the_challenge_witness :
  ∃ enc, decode_header required_of_json enc = Ok demo_challenge ∧
    (∃ status hs body msg,
      decision_to_response (Deny demo_challenge None MeterUnknown) None true = CheckDenied status hs body msg ∧
      add_header HEADER_PAYMENT_REQUIRED enc ∈ hs ∧ status = 200 ∧ add_header "grpc-status" "8" ∈ hs) ∧
    ∃ mu, deny_reply demo_challenge None MeterUnknown 12 = ImmediateReply 402 mu (json_of_required demo_challenge) ∧
      "grpc-status" ∉ (h_name <$> mu.(set_headers)).
Proof.
  destruct (denials_carry_the_challenge demo_challenge None MeterUnknown None true 12)
    as (enc & Henc & (status & hs & body & msg & Hd & Hin & _ & Hg) & mu & Hmu & _ & _ & _ & Hno).
  - split; [vm_compute; split; congruence| |discriminate].
    repeat constructor; vm_compute; congruence.
  - unfold demo_challenge, challenge, challenge_extensions. demo_json.
  - exists enc. split; [exact Henc|]. split.
    + exists status, hs, body, msg. exact (conj Hd (conj Hin Hg)).
    + exists mu. exact (conj Hmu Hno).
Defined.

Lemma stream_charges_only_for_delivery_witness :
  executions (process demo_app StreamState_default demo_stream demo_world).2 = 1%nat ∧
  (executions (process demo_app StreamState_default demo_stream demo_world).2
   ≤ executions demo_world + Nat.min (count is_request demo_stream) (count is_delivered demo_stream))%nat.
Proof.
  split; [vm_compute; reflexivity|].
  exact (stream_charges_only_for_delivery demo_app demo_stream demo_world _ _ (surjective_pairing _)).
Defined.

Definition demo_pending : PendingPayment :=
  {| pd_payload := demo_payload; pd_requirements := demo_requirements; pd_payment_id := Some "tx" |}.
Definition waiting : StreamState :=
  {| pending := Some demo_pending; st_policy := None; st_path := "/x"; st_meter := MeterUnknown;
     decide_ms := 12 |}.

Lemma failed_upstream_is_never_charged_witness :
  w_chain (discard demo_pending demo_world).2 = demo_chain ∧
  handle_response_headers demo_app waiting (status_wire "500") 34 demo_world
    = ((unsettled_reply waiting, taken waiting), (discard demo_pending demo_world).2).
Proof.
  destruct (failed_upstream_is_never_charged demo_app waiting (status_wire "500") 34 demo_pending
    demo_world eq_refl) as (Heq & Hc & _); [vm_compute; reflexivity|].
  exact (conj Hc Heq).
Defined.

(** Five failed settlements under the default policy, a second apart. *)
Definition tripped : Breaker.SettlementBreaker :=
  fold_left (λ b t, Breaker.record_failure "default" t b)
    [1699999990; 1699999991; 1699999992; 1699999993; 1699999994] Breaker.new.

Lemma open_breaker_refuses_untouched_witness :
  ∃ w', handle_request_headers demo_app StreamState_default paying_wire (Some (V4 203 0 113 7)) None 12
          (with_breaker tripped demo_world)
        = (Some (settlement_unavailable "/x", StreamState_default), w') ∧
    w_sessions w' = w_sessions demo_world.
Proof.
  destruct (open_breaker_refuses_untouched demo_app StreamState_default paying_wire
    (Some (V4 203 0 113 7)) None 12 (with_breaker tripped demo_world) Breaker.Open)
    as (w' & Heq & Hs & _); [vm_compute; reflexivity..|].
  exists w'. exact (conj Heq Hs).
Defined.

Lemma free_requests_ignore_the_breaker_witness :
  (handle_request_headers demo_app StreamState_default free_wire (Some (V4 203 0 113 7)) None 12
     (with_breaker tripped demo_world)).1
  = (handle_request_headers demo_app StreamState_default free_wire (Some (V4 203 0 113 7)) None 12
       demo_world).1.
Proof.
  apply (free_requests_ignore_the_breaker demo_app StreamState_default free_wire
    (Some (V4 203 0 113 7)) None 12 tripped demo_world). vm_compute. reflexivity.
Defined.

(** The response that settles the waiting payment. *)
Definition settled_response :=
  handle_response_headers demo_app waiting (status_wire "200") 34 demo_world.
Definition settled_mutation : HeaderMutation :=
  match settled_response.1.1 with
  | ResponseHeadersReply (Some mu) => mu
  | _ => mkMutation [] []
  end.
Definition granted_header : HeaderOption :=
  unwrap_or (List.find (λ h, String.eqb h.(h_name) HEADER_PAYMENT_SESSION) settled_mutation.(set_headers))
    (header "" "").

Lemma session_only_after_settlement_witness :
  ∃ p s payer, pending waiting = Some p ∧
    is_success (unwrap_or (header_map (status_wire "200") !! ":status") "") = true ∧
    (settle demo_facilitator p.(pd_payload) p.(pd_requirements) (w_chain demo_world)).1 = Ok s ∧
    s.(sr_payer) = Some payer.
Proof.
  assert (Hr : settled_response
    = ((ResponseHeadersReply (Some settled_mutation), settled_response.1.2), settled_response.2)).
  { assert (settled_response.1.1 = ResponseHeadersReply (Some settled_mutation)) as <-
      by (vm_compute; reflexivity).
    by destruct settled_response as [[]]. }
  assert (Hin : granted_header ∈ settled_mutation.(set_headers)).
  { apply list_elem_of_In. apply (List.find_some (λ h, String.eqb h.(h_name) HEADER_PAYMENT_SESSION)).
    vm_compute. reflexivity. }
  apply (session_only_after_settlement demo_app waiting settled_response.1.2 (status_wire "200") 34
    demo_world settled_response.2 settled_mutation granted_header Hr Hin).
  vm_compute. reflexivity.
Defined.

(** A free request can use up the probe.  The half-open state is claimed by
    whichever request asks first, and a request without a payment records no
    outcome: once the cooldown is over a single free request leaves the policy
    refusing payments, here still an hour later. *)
Theorem free_request_takes_the_probe :
  let ip := Some (V4 203 0 113 7) in
  let at_time t w := mkWorld (λ _, t) (w_tick w) (w_entropy w) (w_draws w) (w_breaker w)
                       (w_sessions w) (w_limiter w) (w_chain w) (w_metrics w) in
  let send hs w := handle_request_headers demo_app StreamState_default hs ip None 12 w in
  let cooled := at_time 1700000060 (with_breaker tripped demo_world) in
  let served w := match (send paying_wire w).1 with
                  | Some (RequestHeadersReply _, _) => true
                  | _ => false
                  end in
  served cooled = true ∧ served (at_time 1700003660 (send free_wire cooled).2) = false.
Proof. split; vm_compute; reflexivity. Qed.
