(* ===== verification/FacilitatorApi.v ===== *)
(** * The facilitator HTTP interface ([src/facilitator_api.rs])

    [POST /verify], [POST /settle], [GET /supported] and [GET /policies] over
    the same facilitator, session store and configuration as the gateway.
    Routing and JSON extraction are axum's. *)

From Stdlib Require Import Ascii Sorting.Sorted.
From S2P Require Import Prelude RustStr Platform IpAddr Session Redis Config Json X402 Sui.
From S2P Require Import Facilitator Stores World Auth.
From S2P Require RateLimit Breaker.
From stdpp Require Import options.
#[local] Open Scope Z_scope.

Record PolicyView := mkView {
  pv_name : string; pv_amount : string; pv_asset : string; pv_pay_to : string; pv_network : string;
  pv_description : string; pv_free_requests : Z; pv_free_window_secs : Z; pv_session_quota : Z;
  pv_session_duration_secs : Z
}.

Definition policy_view (c : Config) (name : string) : PolicyView :=
  let r := policy_for c "" (Some name) in
  {| pv_name := name; pv_amount := r.(payment).(amount); pv_asset := r.(payment).(asset);
     pv_pay_to := r.(payment).(pay_to); pv_network := r.(payment).(network);
     pv_description := r.(payment).(description);
     pv_free_requests := r.(free_tier).(max_requests);
     pv_free_window_secs := r.(free_tier).(free_window_secs);
     pv_session_quota := r.(paid_tier).(paid_quota);
     pv_session_duration_secs := r.(paid_tier).(duration_secs) |}.

(** [sort_by(|a, b| a.name.cmp(&b.name))]: a stable insertion. *)
Fixpoint insert_by_name (v : PolicyView) (l : list PolicyView) : list PolicyView :=
  match l with
  | [] => [v]
  | x :: l' => if String.leb v.(pv_name) x.(pv_name) then v :: l else x :: insert_by_name v l'
  end.
Definition sort_by_name (l : list PolicyView) : list PolicyView := foldr insert_by_name [] l.

Definition policies_view (c : Config) : list PolicyView :=
  sort_by_name (policy_view c ∘ fst <$> map_to_list c.(policies)).

(** A 400: the machine-readable reason, and the detail of [x-x402-detail]. *)
Inductive ApiResponse (A : Type) := ApiOk (a : A) | BadRequest (reason detail : string).
Arguments ApiOk {A} a.
Arguments BadRequest {A} reason detail.

Definition check_version (r : FacilitatorRequest) : result () (string * string) :=
  if negb (r.(fr_x402_version) =? X402_VERSION)
  then Err ("invalid_x402_version",
            "request declares x402Version " +:+ u_to_string r.(fr_x402_version) +:+
            ", this facilitator speaks " +:+ u_to_string X402_VERSION)
  else Ok ().

Section Handlers.
Context `{!Codecs, !Json, !SuiSdk} {S L N : Type} `{!SuiNode N, !SessionBackend S, !RateBackend L}.
Context (f : Facilitator).

Definition api_verify (r : FacilitatorRequest) : M (World S L N) (ApiResponse VerifyResponse) :=
  match check_version r with
  | Err (reason, detail) => ret (BadRequest reason detail)
  | Ok _ =>
      verified <-- on_chain (verify f r.(fr_payload) r.(fr_requirements)) ;;;
      ret (ApiOk match verified with
                 | Ok payer => mkVerifyResponse true None (Some payer)
                 | Err e => mkVerifyResponse false (Some (code e)) None
                 end)
  end.

(** The claim of [/settle]: the error when it cannot be used. *)
Definition api_claim (r : FacilitatorRequest) : M (World S L N) (option FacilitatorError) :=
  match payment_id r.(fr_payload) with
  | None => ret None
  | Some id =>
      claim <-- claim_payment id (replay_ttl r.(fr_requirements).(pr_max_timeout_seconds)) ;;;
      ret match claim with
          | Fresh => None
          | Replay first_seen => Some (ReplayError first_seen)
          | ClaimBackend => Some ReplayCacheUnavailable
          end
  end.

Definition api_settle (r : FacilitatorRequest) : M (World S L N) (ApiResponse SettlementResponse) :=
  match check_version r with
  | Err (reason, detail) => ret (BadRequest reason detail)
  | Ok _ =>
      refused <-- api_claim r ;;;
      match refused with
      | Some e => ret (ApiOk (failure_receipt f (code e)))
      | None =>
          settled <-- on_chain (settle f r.(fr_payload) r.(fr_requirements)) ;;;
          match settled with
          | Ok receipt => ret (ApiOk receipt)
          | Err e =>
              match payment_id r.(fr_payload) with
              | Some id => release_payment id
              | None => ret tt
              end ;;;
              ret (ApiOk (failure_receipt f (code e)))
          end
      end
  end.

Definition api_supported : SupportedResponse := supported f.
End Handlers.

(** ** Lemmas *)

Lemma insert_by_name_perm v l : insert_by_name v l ≡ₚ v :: l.
Proof.
  induction l as [|x l IH]; [done|]. cbn. destruct (String.leb _ _); [done|].
  rewrite IH. apply Permutation_swap.
Qed.

Lemma sort_by_name_perm l : sort_by_name l ≡ₚ l.
Proof. induction l as [|v l IH]; [done|]. cbn. by rewrite insert_by_name_perm, IH. Qed.

Definition name_le (a b : PolicyView) : Prop := String.leb a.(pv_name) b.(pv_name) = true.

Lemma insert_by_name_sorted v l :
  Sorted name_le l → Sorted name_le (insert_by_name v l).
Proof.
  induction 1 as [|x l Hs IH Hx]; cbn; [by repeat constructor|].
  destruct (String.leb (pv_name v) (pv_name x)) eqn:E; [by repeat constructor|].
  constructor; [done|]. assert (name_le x v) as Hxv.
  { unfold name_le. destruct (String.leb_total (pv_name v) (pv_name x)) as [?|?]; [congruence|done]. }
  destruct l as [|y l]; cbn; [by constructor|].
  destruct (String.leb (pv_name v) (pv_name y)); constructor; [done|]. by inversion Hx.
Qed.

(** ** Properties *)

(** [/policies] is the price list, in order: one row for each configured
    policy and no other, each with the terms a request under that policy is
    given, sorted by name. *)
Theorem policies_lists_the_terms_in_force (c : Config) :
  Sorted name_le (policies_view c) ∧
  ∀ v, v ∈ policies_view c ↔
    ∃ name, is_unknown_policy c name = false ∧ v = policy_view c name.
Proof.
  split.
  - unfold policies_view, sort_by_name. induction (policy_view c ∘ fst <$> _) as [|v l IH]; cbn;
      [constructor|]. by apply insert_by_name_sorted.
  - intros v. unfold policies_view. rewrite sort_by_name_perm, list_elem_of_fmap.
    unfold is_unknown_policy. split.
    + intros ([name o] & -> & Hin). apply elem_of_map_to_list in Hin. exists name.
      split; [|done]. rewrite Hin. by apply bool_decide_eq_false.
    + intros (name & Hn & ->). apply bool_decide_eq_false in Hn.
      destruct (policies c !! name) as [o|] eqn:E; [|done]. exists (name, o).
      split; [done|]. by apply elem_of_map_to_list.
Qed.

Section Properties.
#[local] Set Default Proof Using "Type*".
Context `{!Codecs, !Json, !SuiSdk} {S L N : Type} `{!SuiNode N, !SessionBackend S, !RateBackend L}.
Context (f : Facilitator).

(** [/verify] changes nothing.  It claims nothing, stores nothing and
    broadcasts nothing, and it says a payment is valid exactly when the
    facilitator verifies it, naming the payer it recovered. *)
Theorem api_verify_is_read_only (r : FacilitatorRequest) (w w' : World S L N)
    (a : ApiResponse VerifyResponse) (Hr : api_verify f r w = (a, w')) :
  w_sessions w' = w_sessions w ∧ chain_quiet w w' ∧
  (∀ v, a = ApiOk v → v.(vr_is_valid) = true →
     ∃ payer, (verify f r.(fr_payload) r.(fr_requirements) (w_chain w)).1 = Ok payer ∧
       v.(vr_payer) = Some payer).
Proof.
  unfold api_verify in Hr. destruct (check_version r) as [u|[reason detail]].
  - unfold bind, on_chain, ret in Hr.
    pose proof (Facilitator.facilitator_verify_quiet f (fr_payload r) (fr_requirements r) (w_chain w)) as Hq.
    destruct (verify _ _ _ (w_chain w)) as [o c]. injection Hr as <- <-. cbn [fst snd] in *.
    split_and!; [done|done|]. intros v [= <-]. destruct o; [|done]. cbn. eauto.
  - injection Hr as <- <-. split_and!; [done|reflexivity|done].
Qed.

(** A payment spent at the gateway cannot be spent through [/settle].
    While the claim the gateway made is held (for no longer than this caller
    asks for), [/settle] answers with a failure receipt, makes no call to
    the chain, and leaves the claim held. *)
Theorem api_settle_refuses_a_held_payment `{!SingleUse S} (r : FacilitatorRequest) (id : string)
    (t0 ttl : Z) (w w' : World S L N) (a : ApiResponse SettlementResponse)
    (Hver : r.(fr_x402_version) = X402_VERSION) (Hid : payment_id r.(fr_payload) = Some id)
    (Hheld : held id t0 ttl (w_sessions w)) (Htime : timely t0 ttl w)
    (Httl : ttl ≤ replay_ttl r.(fr_requirements).(pr_max_timeout_seconds))
    (Hr : api_settle f r w = (a, w')) :
  w_chain w' = w_chain w ∧ held id t0 ttl (w_sessions w') ∧
  ∃ s, a = ApiOk s ∧ s.(sr_success) = false ∧ s.(sr_transaction) = "".
Proof.
  unfold api_settle, check_version in Hr. rewrite Hver in Hr.
  change (negb (X402_VERSION =? X402_VERSION)) with false in Hr. cbv iota in Hr.
  unfold api_claim in Hr. rewrite Hid in Hr. unfold bind at 1 2 in Hr.
  set (ttl' := replay_ttl _) in *.
  pose proof (held_claim_refused id t0 ttl ttl' w Htime Hheld Httl) as Hne.
  pose proof (guards_claim id t0 ttl id ttl' Httl w) as (_ & _ & Hh & _).
  pose proof (claim_payment_eq id ttl' w) as (_ & _ & _ & _ & Hc).
  destruct (claim_payment id ttl' w) as [c w1]. cbn [fst snd] in *. specialize (Hh Htime Hheld).
  destruct c; [done|..]; unfold ret in Hr; injection Hr as <- <-;
    (split_and!; [done..|eexists; by split_and!]).
Qed.

(** [/settle] gives the payment back when settling fails, also when the
    failure was reported after the broadcast: the claim is released whatever
    the error. *)
Theorem api_settle_releases_on_any_failure (r : FacilitatorRequest) (id : string)
    (w w1 : World S L N) (e : FacilitatorError)
    (Hver : r.(fr_x402_version) = X402_VERSION) (Hid : payment_id r.(fr_payload) = Some id)
    (Hclaim : claim_payment id (replay_ttl r.(fr_requirements).(pr_max_timeout_seconds)) w
              = (Fresh, w1))
    (Hfail : (settle f r.(fr_payload) r.(fr_requirements) (w_chain w1)).1 = Err e) :
  (api_settle f r w).1 = ApiOk (failure_receipt f (code e)) ∧
  w_sessions (api_settle f r w).2 = (session_release id (w_sessions w1)).2.
Proof.
  unfold api_settle, check_version. rewrite Hver.
  change (negb (X402_VERSION =? X402_VERSION)) with false. cbv iota.
  unfold api_claim. rewrite Hid. unfold bind, ret. rewrite Hclaim.
  unfold on_chain. destruct (settle _ _ _ (w_chain w1)) as [o c]. cbn [fst] in Hfail. subst o.
  unfold release_payment, on_sessions. cbn. by destruct (session_release id (w_sessions w1)).
Qed.
End Properties.

(** ** The properties at concrete inputs *)

Definition demo_api_request : FacilitatorRequest :=
  {| fr_x402_version := 2; fr_payload := demo_payload; fr_requirements := demo_requirements |}.

Lemma api_verify_is_read_only_witness :
  w_sessions (api_verify demo_facilitator demo_api_request demo_world).2 = w_sessions demo_world ∧
  ∃ payer, (verify demo_facilitator demo_payload demo_requirements (w_chain demo_world)).1 = Ok payer ∧
    Some "0xdeadbeef" = Some payer.
Proof.
  destruct (api_verify_is_read_only demo_facilitator demo_api_request demo_world _ _
    (surjective_pairing _)) as (Hs & _ & Hv).
  split; [exact Hs|].
  apply (Hv (mkVerifyResponse true None (Some "0xdeadbeef"))); [vm_compute; reflexivity|reflexivity].
Defined.

(** The world after the gateway has let the payment through. *)
Definition served_world := (decide demo_app paying_request demo_world).2.

Lemma api_settle_refuses_a_held_payment_witness :
  w_chain (api_settle demo_facilitator demo_api_request served_world).2 = w_chain served_world ∧
  ∃ s, (api_settle demo_facilitator demo_api_request served_world).1 = ApiOk s ∧
    s.(sr_success) = false ∧ s.(sr_transaction) = "".
Proof.
  assert (Hid : payment_id demo_api_request.(fr_payload) = Some demo_id) by (vm_compute; reflexivity).
  assert (Hheld : held demo_id 1700000000 600 (w_sessions served_world)) by (vm_compute; reflexivity).
  assert (Htime : timely 1700000000 600 served_world).
  { intros i _.
    assert (Hg : 0 ≤ gateway_ttl demo_app) by (vm_compute; congruence).
    pose proof (proj1 (guards_decide demo_app demo_id 0 0 paying_request Hg demo_world)) as Hc.
    unfold served_world. rewrite Hc. cbn [w_clock demo_world]. lia. }
  assert (Httl : 600 ≤ replay_ttl demo_api_request.(fr_requirements).(pr_max_timeout_seconds))
    by (vm_compute; congruence).
  destruct (api_settle_refuses_a_held_payment demo_facilitator demo_api_request demo_id 1700000000
    600 served_world _ _ eq_refl Hid Hheld Htime Httl (surjective_pairing _)) as (Hc & _ & Hs).
  exact (conj Hc Hs).
Defined.

(** The coin is spent elsewhere between verification and execution. *)
Definition spent_world :=
  mkWorld (w_clock demo_world) 0 (w_entropy demo_world) 0 Breaker.new (w_sessions demo_world)
    (w_limiter demo_world) {| node := true : DemoNode.t; calls := [] |} [].

Lemma api_settle_releases_on_any_failure_witness :
  (api_settle demo_facilitator demo_api_request spent_world).1
    = ApiOk (failure_receipt demo_facilitator "invalid_transaction_state").
Proof.
  refine (proj1 (api_settle_releases_on_any_failure demo_facilitator demo_api_request demo_id
    spent_world (claim_payment demo_id 600 spent_world).2 (StaleInput "0xc01" 7 (Some 8))
    eq_refl _ _ _)).
  - vm_compute. reflexivity.
  - assert ((claim_payment demo_id 600 spent_world).1 = Fresh) as <- by (vm_compute; reflexivity).
    apply surjective_pairing.
  - vm_compute. reflexivity.
Defined.
