(* ===== verification/Main.v ===== *)
(** * Startup and the background sweep ([src/main.rs])

    What [main] does before it serves: load, check the key, connect, compare
    the chain, build the stores; what it listens on; and the sweep it runs every
    minute.  Parsing the command line, logging and the servers are left out. *)

From Stdlib Require Import Ascii.
From S2P Require Import Prelude RustStr Platform IpAddr Session Redis Config Json X402 Sui.
From S2P Require Import Facilitator Stores World Auth.
From S2P Require RateLimit Breaker.
From stdpp Require Import options.
#[local] Open Scope Z_scope.

Inductive StartupError :=
| BadConfig (e : ConfigError)
| NoFullnode (e : FacilitatorError)
| WrongChain (e : FacilitatorError)
| NoRedis.

Record Service (R : Type) := mkService {
  sv_app : App;
  sv_sessions : SessionStore R;
  sv_limiter : RateLimiter R
}.
Arguments mkService {R} _ _ _.
Arguments sv_app {R} _.
Arguments sv_sessions {R} _.
Arguments sv_limiter {R} _.

(** [--listen] overrides the configured address. *)
Definition with_listen (listen : option SocketAddr) (c : Config) : Config :=
  {| listen_addr := unwrap_or listen (listen_addr c); metrics_listen_addr := metrics_listen_addr c;
     facilitator_api_listen_addr := facilitator_api_listen_addr c; sui_grpc_url := sui_grpc_url c;
     sui_chain := sui_chain c; verification_mode := verification_mode c;
     cfg_payment := cfg_payment c; policies := policies c; routes := routes c;
     cfg_free_tier := cfg_free_tier c; cfg_paid_tier := cfg_paid_tier c; store := store c;
     session_hmac_secret := session_hmac_secret c |}.

Section Startup.
Context `{!Codecs, !Json, !SuiSdk} {N R : Type} `{!SuiNode N}.

(** The in-memory stores sweep the replay cache after a session's lifetime. *)
Definition build_stores (c : Config) (key : bytes) (connect : string → option (R * R)) :
  option (SessionStore R * RateLimiter R) :=
  match c.(store).(backend) with
  | Memory =>
      Some (MemorySessions (Session.new key c.(cfg_paid_tier).(duration_secs)),
            MemoryLimiter RateLimit.new)
  | Config.Redis =>
      '(s, l) ← connect c.(store).(redis_url);
      Some (RedisSessions (mkRedisSessions s key []), RedisLimiter (mkRedisLimiter l []))
  end.

(** [file]: the parsed configuration file; [connect]: two connections to a
    Redis server, when it can be reached. *)
Definition startup (file : result Config ConfigError) (env : string → option string)
    (listen : option SocketAddr) (connect : string → option (R * R)) :
  M (Chain N) (result (Service R) StartupError) :=
  config <-! ret (map_err BadConfig (load file env)) ;;;
  let config := with_listen listen config in
  key <-! ret (map_err BadConfig (hmac_key config)) ;;;
  f <-! ret (map_err NoFullnode
               (Facilitator.new config.(verification_mode) config.(sui_grpc_url)
                  config.(cfg_payment).(network))) ;;;
  checked <-- verify_chain f config.(sui_chain) ;;;
  _ <-! ret (map_err WrongChain checked) ;;;
  match build_stores config key connect with
  | None => ret (Err NoRedis)
  | Some (sessions, limiter) =>
      ret (Ok {| sv_app := {| config := config; facilitator := f |};
                 sv_sessions := sessions; sv_limiter := limiter |})
  end.
End Startup.

(** What [main] listens on once it serves: both filters on the configured
    address, the metrics and the facilitator's interface where they are
    configured and the address can be had ([binds]).  Only the filters' address
    is essential; a port that is taken costs the others, not the gateway. *)
Inductive Surface :=
| Filters (addr : SocketAddr)
| FacilitatorInterface (addr : SocketAddr)
| MetricsExporter (addr : SocketAddr).

Inductive MainError :=
| NotStarted (e : StartupError)
| NotServing (addr : SocketAddr).

Definition optional_surface (binds : SocketAddr → bool) (s : SocketAddr → Surface)
    (addr : option SocketAddr) : list Surface :=
  match addr with Some a => if binds a then [s a] else [] | None => [] end.

Definition main_surfaces (binds : SocketAddr → bool) (c : Config) : result (list Surface) MainError :=
  let metrics := optional_surface binds MetricsExporter c.(metrics_listen_addr) in
  let api := optional_surface binds FacilitatorInterface c.(facilitator_api_listen_addr) in
  if binds c.(listen_addr) then Ok (metrics ++ api ++ [Filters c.(listen_addr)])
  else Err (NotServing c.(listen_addr)).

(** All of [main] (src/main.rs), up to the serving itself. *)
Definition gateway_main `{!Codecs, !Json, !SuiSdk} {N R : Type} `{!SuiNode N}
    (file : result Config ConfigError) (env : string → option string) (listen : option SocketAddr)
    (connect : string → option (R * R)) (binds : SocketAddr → bool) :
  M (Chain N) (result (Service R * list Surface) MainError) :=
  svc <-- startup file env listen connect ;;;
  ret (svc <-? map_err NotStarted svc ;;
       surfaces <-? main_surfaces binds svc.(sv_app).(config) ;;
       Ok (svc, surfaces)).

(** One tick of the background sweep. *)
Definition sweep {S L N} `{!SessionBackend S, !RateBackend L} : M (World S L N) (Z * Z) :=
  expired_sessions <-- cleanup_sessions ;;;
  idle_ips <-- cleanup_limiter ;;;
  ret (expired_sessions, idle_ips).

(** ** Properties *)

Lemma runnable_with_listen `{!Codecs} listen c : runnable c → runnable (with_listen listen c).
Proof. by intros [? ? ? ? ? ? ?]. Qed.

(** What a startup that succeeds has done: each of its steps, in order. *)
Lemma startup_inv `{!Codecs, !Json, !SuiSdk} {N R : Type} `{!SuiNode N}
    file env listen (connect : string → option (R * R)) (w w' : Chain N) (s : Service R) :
  startup file env listen connect w = (Ok s, w') →
  let c := s.(sv_app).(config) in
  runnable c ∧
  (∃ key, hmac_key c = Ok key ∧ build_stores c key connect = Some (s.(sv_sessions), s.(sv_limiter))) ∧
  Facilitator.new c.(verification_mode) c.(sui_grpc_url) c.(cfg_payment).(network) = Ok s.(sv_app).(facilitator) ∧
  ∃ checked, verify_chain s.(sv_app).(facilitator) c.(sui_chain) w = (Ok checked, w').
Proof.
  intros Hs. unfold startup in Hs.
  apply bind_ok_inv in Hs as (c & w0 & [= Hc <-] & Hs).
  apply map_err_ok in Hc. unfold load in Hc. destruct file as [c0|]; [|done].
  apply question_ok in Hc as [Hval [= <-]].
  set (c := with_listen listen (with_env env c0)) in *. cbv zeta in Hs.
  assert (runnable c) as Hrun by by apply runnable_with_listen, validate_ok. clearbody c.
  apply bind_ok_inv in Hs as (key & w1 & [= Hkey <-] & Hs). apply map_err_ok in Hkey.
  apply bind_ok_inv in Hs as (f & w2 & [= Hf <-] & Hs). apply map_err_ok in Hf.
  unfold bind at 1 in Hs. destruct (verify_chain f (sui_chain c) w) as [checked w3] eqn:Hv.
  apply bind_ok_inv in Hs as (ck & w4 & [= Hck <-] & Hs). apply map_err_ok in Hck as ->.
  destruct (build_stores c key connect) as [[ss ll]|] eqn:Hb; [|done]. injection Hs as <- <-.
  cbn [sv_app config facilitator sv_sessions sv_limiter]. split_and!; [done|by exists key|done|by exists ck].
Qed.

Lemma startup_mode `{!Codecs, !Json, !SuiSdk} {N R : Type} `{!SuiNode N}
    file env listen (connect : string → option (R * R)) (w w' : Chain N) (s : Service R) :
  startup file env listen connect w = (Ok s, w') →
  s.(sv_app).(facilitator).(mode) = s.(sv_app).(config).(verification_mode).
Proof.
  intros (_ & _ & Hf & _)%startup_inv. unfold Facilitator.new in Hf.
  destruct (verification_mode _); [by injection Hf as <-|].
  destruct (Sui.connect _); [|done]. by injection Hf as <-.
Qed.

(** The stores as [startup] leaves them: new in memory, connected in Redis. *)
Definition as_built {R} (connect : string → option (R * R)) (key : bytes) (s : Service R) : Prop :=
  let c := s.(sv_app).(config) in
  match c.(store).(backend) with
  | Memory =>
      s.(sv_sessions) = MemorySessions {| codec := key; replay_retention_secs := c.(cfg_paid_tier).(duration_secs);
                                          sessions := ∅; seen_payments := ∅ |} ∧
      s.(sv_limiter) = MemoryLimiter ∅
  | Config.Redis => ∃ db dl, connect c.(store).(redis_url) = Some (db, dl) ∧
      s.(sv_sessions) = RedisSessions (mkRedisSessions db key []) ∧
      s.(sv_limiter) = RedisLimiter (mkRedisLimiter dl [])
  end.

Lemma startup_stores `{!Codecs, !Json, !SuiSdk} {N R : Type} `{!SuiNode N}
    file env listen (connect : string → option (R * R)) (w w' : Chain N) (s : Service R) :
  startup file env listen connect w = (Ok s, w') →
  ∃ key, usable_key s.(sv_app).(config).(session_hmac_secret) key ∧ as_built connect key s.
Proof.
  intros (_ & (key & Hkey%hmac_key_ok & Hb) & _)%startup_inv. exists key. split; [done|].
  unfold build_stores in Hb. unfold as_built. destruct (backend _).
  - by injection Hb as <- <-.
  - destruct (connect _) as [[db dl]|]; [|done]. injection Hb as <- <-. by exists db, dl.
Qed.

(** C40: What starts is sound.  A service that starts runs on a configuration
    that passes every check; its stores are made with the bytes that the
    configured secret decodes to, at least 32 of them and not the published
    placeholder (as it is written); in memory they are new, nothing sold, nothing claimed and no
    request counted, and the sweep keeps claims as long as sessions; in Redis
    they are the connections to the configured server, with whatever it held.
    The node reports the configured chain or none.  Starting asks the node
    which chain it serves and broadcasts nothing. *)
Theorem startup_is_sound `{!Codecs, !Json, !SuiSdk} {N R : Type} `{!SuiNode N}
    (file : result Config ConfigError) (env : string → option string) (listen : option SocketAddr)
    (connect : string → option (R * R)) (w w' : Chain N) (s : Service R)
    (Hs : startup file env listen connect w = (Ok s, w')) :
  let c := s.(sv_app).(config) in
  runnable c ∧ quiet w w' ∧ s.(sv_app).(facilitator).(mode) = c.(verification_mode) ∧
  (∃ key, usable_key c.(session_hmac_secret) key ∧ (32 ≤ length key)%nat ∧ as_built connect key s) ∧
  (c.(verification_mode) = SuiGrpc →
   ∃ reported, (node_service_info w.(node)).1 = Ok reported ∧
     ∀ chain, reported = Some chain → trim chain ≠ "" →
       eq_ignore_ascii_case (trim chain) (trim c.(sui_chain)) = true).
Proof.
  intros c. pose proof (startup_mode _ _ _ _ _ _ _ Hs) as Hmode. fold c in Hmode.
  pose proof (startup_stores _ _ _ _ _ _ _ Hs) as (key & Hkey & Hb). fold c in Hkey.
  apply startup_inv in Hs as (Hrun & _ & Hf & checked & Hv). fold c in Hrun, Hf, Hv.
  assert (quiet w w' ∧ (verification_mode c = SuiGrpc → ∃ reported,
     (node_service_info w.(node)).1 = Ok reported ∧
     ∀ chain, reported = Some chain → trim chain ≠ "" →
       eq_ignore_ascii_case (trim chain) (trim c.(sui_chain)) = true)) as [Hquiet Hchain].
  { unfold Facilitator.new in Hf. unfold verify_chain in Hv.
    destruct (verification_mode c); cbn in Hf.
    - injection Hf as Hf. rewrite <- Hf in Hv. cbn [sui] in Hv. by injection Hv as _ <-.
    - destruct (Sui.connect _) as [[]|]; [|done]. injection Hf as Hf. rewrite <- Hf in Hv. cbn [sui] in Hv.
      apply bind_ok_inv in Hv as (rep & w5 & Hrep & Hv).
      unfold reported_chain, bind in Hrep. rewrite rpc_eq in Hrep. unfold ret in Hrep, Hv.
      injection Hrep as Hrep <-. apply map_err_ok in Hrep. injection Hv as Hck <-. split.
      + exists [CallServiceInfo]. split; [done|]. intros tb. set_solver.
      + intros _. exists rep. split; [done|]. intros chain -> Hne.
        unfold check_chain in Hck. cbn in Hck. rewrite (proj2 (is_empty_false _)) in Hck by done.
        by destruct (eq_ignore_ascii_case _ _). }
  split_and!; [done..| |done]. exists key. split; [done|]. split; [by destruct Hkey|done].
Qed.

(** Only the filters' port is essential.  [main] serves exactly when the startup
    succeeds and the filters' address can be had; whether the metrics or the
    facilitator's interface can be served decides only about them, and neither
    is served unless it is configured. *)
Theorem only_the_filters_port_is_essential `{!Codecs, !Json, !SuiSdk} {N R : Type} `{!SuiNode N}
    (file : result Config ConfigError) (env : string → option string) (listen : option SocketAddr)
    (connect : string → option (R * R)) (binds : SocketAddr → bool) (w w' : Chain N)
    (svc : Service R) (Hs : startup file env listen connect w = (Ok svc, w')) :
  let c := svc.(sv_app).(config) in
  (binds c.(listen_addr) = false →
     gateway_main file env listen connect binds w = (Err (NotServing c.(listen_addr)), w')) ∧
  (binds c.(listen_addr) = true → ∃ surfaces,
     gateway_main file env listen connect binds w = (Ok (svc, surfaces), w') ∧
     Filters c.(listen_addr) ∈ surfaces ∧
     (∀ a, MetricsExporter a ∈ surfaces ↔ c.(metrics_listen_addr) = Some a ∧ binds a = true) ∧
     (∀ a, FacilitatorInterface a ∈ surfaces ↔ c.(facilitator_api_listen_addr) = Some a ∧ binds a = true)).
Proof.
  intros c. unfold gateway_main, bind. rewrite Hs. cbn [map_err]. unfold ret, main_surfaces. fold c.
  split; intros ->; [done|]. eexists. split; [done|].
  assert (∀ (f : SocketAddr → Surface) o x, x ∈ optional_surface binds f o ↔
    ∃ a, o = Some a ∧ binds a = true ∧ x = f a) as Hin.
  { intros f [a|] x; cbn.
    - destruct (binds a) eqn:E; rewrite ?list_elem_of_singleton, ?elem_of_nil.
      + split; [by intros ->; exists a|by intros (? & [= <-] & _ & ->)].
      + split; [done|]. intros (? & [= <-] & Hb & _). congruence.
    - rewrite elem_of_nil. split; [done|]. by intros (? & ? & _). }
  split; [set_solver|].
  split; intros a; rewrite !elem_of_app, !Hin, list_elem_of_singleton;
    (split; [intros [(a' & Ha & Hb & [= <-])|[(a' & Ha & Hb & [= <-])|[=]]]; by split|intros [Ha Hb]]).
  - left. by exists a.
  - right. left. by exists a.
Qed.

(** A sweep leaves claims alone when records are kept long enough.  With a
    retention no shorter than the lifetime of claims, a sweep during a claim's
    life does not lose it. *)
Theorem sweep_keeps_claims `{!Codecs} {R N : Type} `{!RedisCommands R, !RedisLaws R}
    (id : string) (t0 ttl : Z) (s : MemorySessionStore) (w : World (SessionStore R) (RateLimiter R) N)
    (Hs : w_sessions w = MemorySessions s) (Hret : ttl ≤ s.(replay_retention_secs))
    (Htime : timely t0 ttl w) (Hheld : held id t0 ttl (w_sessions w)) :
  held id t0 ttl (w_sessions (sweep w).2).
Proof.
  assert (w_sessions (sweep w).2 =
    MemorySessions (cleanup_expired_at (w_clock w (w_tick w)) s).2) as ->.
  { unfold sweep, cleanup_sessions, cleanup_limiter, bind, now_epoch_secs, on_sessions, on_limiter, ret.
    cbn. rewrite Hs. cbn. by destruct (match w_limiter w with MemoryLimiter l => _ | _ => _ end). }
  rewrite Hs in Hheld. cbn [held enum_single_use memory_single_use] in *. rewrite lookup_seen, Hheld.
  specialize (Htime (w_tick w) ltac:(done)). rewrite sat_sub_ge by lia.
  by rewrite (proj2 (Z.ltb_lt _ _)) by lia.
Qed.

(** ** The properties at concrete inputs *)

Definition no_env : string → option string := λ _, None.
Definition no_redis : string → option (Db.t * Db.t) := λ _, None.
Definition demo_service : Service Db.t :=
  {| sv_app := {| config := with_listen None (with_env no_env demo_config);
                  facilitator := demo_facilitator |};
     sv_sessions := MemorySessions (Session.new
       (match hmac_key demo_config with Ok k => k | Err _ => [] end) 3600);
     sv_limiter := MemoryLimiter RateLimit.new |}.

Lemma startup_is_sound_witness :
  runnable (with_listen None (with_env no_env demo_config)) ∧
  (∃ key, usable_key demo_secret key ∧ (32 ≤ length key)%nat ∧
    sv_sessions demo_service = MemorySessions (Session.new key 3600)) ∧
  ∃ reported, (node_service_info (N := DemoNode.t) false).1 = Ok reported ∧
    ∀ chain, reported = Some chain → trim chain ≠ "" →
      eq_ignore_ascii_case (trim chain) (trim "testnet") = true.
Proof.
  assert (H : startup (N := DemoNode.t) (Ok demo_config) no_env None no_redis demo_chain
    = (Ok demo_service, mkChain (false : DemoNode.t) [CallServiceInfo])) by (vm_compute; reflexivity).
  destruct (startup_is_sound _ _ _ _ _ _ _ H) as (Hr & _ & _ & (key & Hk & Hl & Hs & _) & Hc).
  split; [exact Hr|]. split; [exact (ex_intro _ key (conj Hk (conj Hl Hs)))|exact (Hc eq_refl)].
Defined.

Lemma sweep_keeps_claims_witness :
  held "tx" 1700000000 600
    (w_sessions (sweep (mkWorld (w_clock demo_world) 0 (w_entropy demo_world) 0 Breaker.new
       (MemorySessions (R := Db.t) (with_seen demo_store {[ "tx" := 1700000000 ]}))
       (w_limiter demo_world) demo_chain [])).2).
Proof.
  apply (sweep_keeps_claims "tx" 1700000000 600 (with_seen demo_store {[ "tx" := 1700000000 ]}));
    [reflexivity | vm_compute; congruence | | vm_compute; reflexivity].
  intros i _. cbn. lia.
Defined.

(** A valid configuration that sells sessions of one minute. *)
Definition brief_config : Config :=
  {| listen_addr := listen_addr demo_config; metrics_listen_addr := None;
     facilitator_api_listen_addr := None; sui_grpc_url := sui_grpc_url demo_config;
     sui_chain := "testnet"; verification_mode := SuiGrpc; cfg_payment := demo_payment;
     policies := ∅; routes := []; cfg_free_tier := cfg_free_tier demo_config;
     cfg_paid_tier := {| paid_quota := 10; duration_secs := 60 |};
     store := store demo_config; session_hmac_secret := demo_secret |}.

(** A sweep can reopen a claim.  The in-memory store that [main] builds
    keeps replay records for the lifetime of a session, not of a claim: with
    sessions of one minute a payment claimed for ten minutes is fresh again
    after the first sweep past the minute. *)
Theorem a_sweep_can_reopen_a_claim :
  validate brief_config = Ok () ∧
  let ttl := replay_ttl brief_config.(cfg_payment).(max_timeout_seconds) in
  ttl = 600 ∧
  match build_stores brief_config demo_key no_redis with
  | Some (s, _) =>
      let '(first, s) := session_claim 1700000000 "tx" ttl s in
      let '(_, swept) := session_cleanup 1700000060 s in
      first = Fresh ∧ (session_claim 1700000061 "tx" ttl s).1 = Replay 1700000000 ∧
      (session_claim 1700000061 "tx" ttl swept).1 = Fresh
  | None => False
  end.
Proof. vm_compute. by split_and!. Qed.
