(* ===== verification/Program.v ===== *)
(** * Handlers as programs of operations

    A handler runs on a thread of its own and shares the state with all the
    others: what is atomic is one operation on a store, the breaker or the
    chain, not the handler.  A [Prog] is the tree of operations a handler
    performs, each answered before it goes on.  [run] performs it on a world
    without interruption; [wp] follows who owns a payment through it,
    whatever the answers. *)

From S2P Require Import Prelude RustStr Platform IpAddr Session Config Json X402 Sui.
From S2P Require Import Facilitator Stores World.
From S2P Require RateLimit Breaker.
From stdpp Require Import options.
#[local] Open Scope Z_scope.

(** An operation with the clock reading and random bytes it takes. *)
Inductive Op :=
| Now
| Emit (name : string) (labels : list (string * string))
| Consume (token : string) (policy : option string)
| CreateSession (payer : string) (policy : option string) (quota ttl : Z)
| ClaimPayment (id : string) (ttl : Z)
| ReleasePayment (id : string)
| CleanupSessions
| CleanupLimiter
| CheckRate (label : string) (ip : IpAddr) (max window : Z)
| StateAt (policy : string)
| RecordSuccess (policy : string)
| RecordFailure (policy : string)
| Verify (p : PaymentPayload) (r : PaymentRequirements)
| Settle (p : PaymentPayload) (r : PaymentRequirements).

Definition Answer (o : Op) : Type :=
  match o with
  | Now | CleanupSessions | CleanupLimiter => Z
  | Consume _ _ => SessionOutcome
  | CreateSession _ _ _ _ => option string
  | ClaimPayment _ _ => PaymentClaim
  | CheckRate _ _ _ _ => option RateLimit.Allowance
  | StateAt _ => Breaker.BreakerState
  | Verify _ _ => result string FacilitatorError
  | Settle _ _ => result SettlementResponse FacilitatorError
  | Emit _ _ | ReleasePayment _ | RecordSuccess _ | RecordFailure _ => ()
  end.

Inductive Prog (A : Type) :=
| Return (a : A)
| Do (o : Op) (k : Answer o → Prog A).
Arguments Return {A} a.
Arguments Do {A} o k.

Definition call (o : Op) : Prog (Answer o) := Do o Return.

Fixpoint prog_bind {A B} (k : A → Prog B) (p : Prog A) : Prog B :=
  match p with
  | Return a => k a
  | Do o k' => Do o (λ x, prog_bind k (k' x))
  end.
#[export] Instance prog_mret : MRet Prog := @Return.
#[export] Instance prog_mbind : MBind Prog := @prog_bind.

Definition when (b : bool) (p : Prog ()) : Prog () := if b then p else Return tt.

(** ** Uninterrupted *)

Section Run.
Context `{!Codecs, !Json, !SuiSdk} {S L N : Type}
  `{!SuiNode N, !SessionBackend S, !RateBackend L}.
Context (f : Facilitator).

Definition exec (o : Op) : M (World S L N) (Answer o) :=
  match o with
  | Now => now_epoch_secs
  | Emit name labels => emit name labels
  | Consume token policy => consume token policy
  | CreateSession payer policy quota ttl => create_session payer policy quota ttl
  | ClaimPayment id ttl => claim_payment id ttl
  | ReleasePayment id => release_payment id
  | CleanupSessions => cleanup_sessions
  | CleanupLimiter => cleanup_limiter
  | CheckRate label ip max window => check_rate label ip max window
  | StateAt policy => breaker_state policy
  | RecordSuccess policy => record_success policy
  | RecordFailure policy => record_failure policy
  | Verify p r => on_chain (verify f p r)
  | Settle p r => on_chain (settle f p r)
  end.

Fixpoint run {A} (p : Prog A) : M (World S L N) A :=
  match p with
  | Return a => ret a
  | Do o k => bind (exec o) (λ x, run (k x))
  end.

Lemma run_bind {A B} (p : Prog A) (k : A → Prog B) w :
  run (p ≫= k) w = bind (run p) (λ a, run (k a)) w.
Proof.
  revert w. induction p as [a|o k' IH]; intros w; [done|].
  change (bind (exec o) (λ x, run (k' x ≫= k)) w
          = bind (bind (exec o) (λ x, run (k' x))) (λ a, run (k a)) w).
  rewrite bind_assoc. unfold bind at 1 2. destruct (exec o w) as [x w']. apply IH.
Qed.

Lemma bind_ext {W A B} (c c' : M W A) (k k' : A → M W B) w :
  c w = c' w → (∀ a w', k a w' = k' a w') → bind c k w = bind c' k' w.
Proof. unfold bind. intros -> Hk. destruct (c' w). apply Hk. Qed.
End Run.

(** ** Whatever comes in between

    A discipline gives each thread a ghost: what it may ask for, what it may
    be told, and what the ghost is after that.  [wp] follows the ghost through
    a program, whatever others do between two operations. *)
Record Discipline := mkDiscipline {
  ghost : Type;
  may : Op → ghost → Prop;
  told : ∀ o, Answer o → Prop;
  after : ∀ o, ghost → Answer o → ghost
}.

Section Wp.
Context (D : Discipline).

Fixpoint wp {A} (p : Prog A) (g : ghost D) (Q : A → ghost D → Prop) : Prop :=
  match p with
  | Return a => Q a g
  | Do o k => may D o g ∧ ∀ x, told D o x → wp (k x) (after D o g x) Q
  end.

Lemma wp_bind {A B} (p : Prog A) (k : A → Prog B) g Q :
  wp p g (λ a g, wp (k a) g Q) → wp (p ≫= k) g Q.
Proof.
  revert g. induction p as [a|o k' IH]; intros g; [done|].
  intros [Ho Hk]. split; [done|]. intros x Hx. by apply IH, Hk.
Qed.

Lemma wp_mono {A} (p : Prog A) g (P Q : A → ghost D → Prop) :
  wp p g P → (∀ a g, P a g → Q a g) → wp p g Q.
Proof.
  intros Hp HPQ. revert g Hp. induction p as [a|o k IH]; intros g; [apply HPQ|].
  intros [Ho Hk]. split; [done|]. intros x Hx. by apply IH, Hk.
Qed.

(** An operation that is always allowed and changes no ghost. *)
Definition inert (o : Op) : Prop := ∀ g, may D o g ∧ ∀ x, told D o x → after D o g x = g.
End Wp.

(** A program that asks for nothing outside [P]. *)
Fixpoint only {A} (P : Op → Prop) (p : Prog A) : Prop :=
  match p with Return _ => True | Do o k => P o ∧ ∀ x, only P (k x) end.

Lemma only_bind {A B} P (p : Prog A) (k : A → Prog B) :
  only P p → (∀ a, only P (k a)) → only P (p ≫= k).
Proof.
  intros Hp Hk. induction p as [a|o k' IH]; [apply Hk|].
  destruct Hp as [Ho Hp]. split; [done|]. intros x. by apply IH.
Qed.

Lemma only_when P b p : only P p → only P (when b p).
Proof. by destruct b. Qed.

Lemma only_mono {A} (P P' : Op → Prop) (p : Prog A) : (∀ o, P o → P' o) → only P p → only P' p.
Proof. intros HP Hp. induction p as [a|o k IH]; [done|]. destruct Hp as [Ho Hp]. split; auto. Qed.

Lemma wp_inert {A} D (p : Prog A) g (Q : A → ghost D → Prop) :
  only (inert D) p → (∀ a, Q a g) → wp D p g Q.
Proof.
  intros Hp HQ. induction p as [a|o k IH]; [apply HQ|]. destruct Hp as [Ho Hp].
  destruct (Ho g) as [Hmay Hafter]. split; [done|]. intros x Hx. rewrite Hafter by done. by apply IH.
Qed.

Lemma wp_when D b p g (Q : () → ghost D → Prop) :
  only (inert D) p → Q tt g → wp D (when b p) g Q.
Proof. intros Hp HQ. destruct b; [|done]. apply wp_inert; [done|]. by intros []. Qed.

Lemma wp_call D o g (Q : Answer o → ghost D → Prop) :
  inert D o → (∀ x, told D o x → Q x g) → wp D (call o) g Q.
Proof. intros Ho HQ. destruct (Ho g) as [Hm Ha]. split; [done|]. intros x Hx. cbn. rewrite Ha by done. auto. Qed.

(** A discipline that only looks at what is asked, with nothing to remember. *)
Definition plain (P : Op → Prop) : Discipline := {|
  ghost := (); may o _ := P o; told _ _ := True; after _ _ _ := tt |}.

Lemma wp_plain {A} P (p : Prog A) g (Q : A → () → Prop) :
  only P p → (∀ a, Q a tt) → wp (plain P) p g Q.
Proof.
  intros Hp HQ. revert g Hp. induction p as [a|o k IH]; intros [] Hp; [apply HQ|].
  destruct Hp as [Ho Hp]. split; [done|]. intros x _. by apply IH.
Qed.

Lemma only_anything {A} (p : Prog A) : only (λ _, True) p.
Proof. induction p as [a|o k IH]; [done|]. by split. Qed.

(** Walk a program by its binds and branches. *)
Ltac walk :=
  repeat match goal with
  | |- only _ (_ ≫= _) => apply only_bind; [|intros ?]
  | |- only _ (call _) => split; [|intros ?; exact I]
  | |- only _ (when _ _) => apply only_when
  | |- only _ (Return _) => exact I
  | |- only _ (match ?x with _ => _ end) => destruct x
  end.

(** An operation that a concrete discipline lets pass. *)
Ltac inert := solve [intros ?; split; [exact I|by intros]].

(** Through a program by its binds and branches; what is not [inert] and the
    results are left to prove. *)
Ltac books :=
  repeat match goal with
  | |- wp _ (_ ≫= _) _ _ => apply wp_bind
  | |- wp _ (call _) _ _ => apply wp_call; [inert|intros ? ?]
  | |- wp _ (when _ _) _ _ => apply wp_when; [walk; inert|]
  | |- wp _ (match ?x with _ => _ end) _ _ => destruct x
  | |- wp _ (Return _) _ _ => cbn [wp]
  | _ => progress cbv beta
  end.

(** What an operation does to the world, by its cases. *)
Ltac unfold_ops :=
  unfold consume, create_session, claim_payment, release_payment, cleanup_sessions, cleanup_limiter,
    check_rate, breaker_state, record_success, record_failure, bind, now_epoch_secs, draw,
    on_sessions, on_limiter, on_breaker, on_chain, emit, ret in *.
