(* ===== verification/Handlers.v ===== *)
(** * The handlers as programs ([src/auth.rs], [src/ext_proc.rs], [src/facilitator_api.rs])

    Every handler again, as the [Prog] of the operations it performs on the
    shared state, with the theorem that performing it without interruption is
    the handler of [Auth], [ExtProc], [FacilitatorApi] and [Main].  [Concurrent]
    interrupts them. *)

From S2P Require Import Prelude RustStr Platform IpAddr Session Redis Config Json X402 Sui.
From S2P Require Import Facilitator Stores World Auth ExtProc FacilitatorApi Main Program.
From S2P Require RateLimit Breaker.
From stdpp Require Import options.
#[local] Open Scope Z_scope.

(** ** The decision *)

Section Decision.
Context `{!Codecs, !Json, !SuiSdk}.
Context (app : App).

Definition try_session_prog (r : Request) (token : string) : Prog (option Decision) :=
  outcome ← call (Consume token r.(policy));
  match outcome with
  | Accepted payer remaining quota expires_at =>
      _ ← call (Emit SESSIONS [("event", "accepted")]);
      _ ← call (Emit REQUESTS [("tier", "paid"); ("decision", "allow");
                               ("policy", policy_label r.(policy))]);
      now ← call Now;
      Return (Some (Allow Paid (Some payer) None None None
                      (MeterSession remaining quota (sat_sub expires_at now))))
  | Rejected reason =>
      _ ← call (Emit SESSION_REJECTIONS [("reason", session_rejection_label reason)]);
      _ ← when (bool_decide (reason = Backend)) (call (Emit STORE_ERRORS [("store", "session")]));
      Return None
  end.

Definition count_rejected_prog (e : FacilitatorError) : Prog () :=
  call (Emit PAYMENTS [("outcome", "rejected"); ("code", code e); ("mode", mode_l app)]).

Definition claim_prog (r : Request) (p : PaymentPayload) : Prog (option FacilitatorError) :=
  match payment_id p with
  | None => Return None
  | Some id =>
      let window := (requirements app r).(pr_max_timeout_seconds) in
      claim ← call (ClaimPayment id (replay_ttl window));
      _ ← call (Emit REPLAY_CLAIMS [("outcome", replay_claim_label claim)]);
      _ ← when (bool_decide (claim = ClaimBackend)) (call (Emit STORE_ERRORS [("store", "replay")]));
      match claim with
      | Fresh => Return None
      | Replay first_seen =>
          now ← call Now;
          let age := sat_sub now first_seen in
          Return (Some (if window <? age then AuthorizationExpired first_seen window
                        else ReplayError first_seen))
      | ClaimBackend => Return (Some ReplayCacheUnavailable)
      end
  end.

Definition deferred_prog (r : Request) (p : PaymentPayload) : Prog Decision :=
  verified ← call (Verify p (requirements app r));
  _ ← call (Emit VERIFICATION_SECONDS [("mode", mode_l app)]);
  match verified with
  | Ok payer =>
      _ ← call (Emit PAYMENTS [("outcome", "verified"); ("code", "ok"); ("mode", mode_l app)]);
      Return (Allow Paid (Some payer) None None
                (Some {| pd_payload := p; pd_requirements := requirements app r;
                         pd_payment_id := payment_id p |}) MeterUnknown)
  | Err e => _ ← count_rejected_prog e; Return (rejected app r e)
  end.

(** A session for the payer the receipt names. *)
Definition mint_prog (payer policy : option string) (t : PaidTierConfig) : Prog (option string) :=
  match payer with
  | None => Return None
  | Some payer => call (CreateSession payer policy t.(paid_quota) t.(duration_secs))
  end.

Definition immediate_prog (r : Request) (p : PaymentPayload) : Prog Decision :=
  let tier := (resolved app r).(paid_tier) in
  settled ← call (Settle p (requirements app r));
  match settled with
  | Ok settlement =>
      token ← mint_prog settlement.(sr_payer) r.(policy) tier;
      _ ← call (Emit PAYMENTS [("outcome", "settled"); ("code", "ok"); ("mode", mode_l app)]);
      _ ← when (is_some_b token) (call (Emit SESSIONS [("event", "created")]));
      Return (Allow Paid settlement.(sr_payer) token (Some (grant_session settlement token tier)) None
                (new_session_meter token tier))
  | Err e => _ ← count_rejected_prog e; Return (rejected app r e)
  end.

Definition payment_prog (r : Request) (decoded : result PaymentPayload HeaderDecodeError) :
  Prog Decision :=
  match decoded with
  | Err e =>
      Return (refuse app r ("malformed payment-signature header: " +:+ decode_error_text e)
                "invalid_payload")
  | Ok p =>
      refused ← claim_prog r p;
      match refused with
      | Some e => Return (rejected app r e)
      | None => match r.(settle_policy) with
                | Deferred => deferred_prog r p
                | Immediate => immediate_prog r p
                end
      end
  end.

Definition free_prog (r : Request) : Prog (option Decision) :=
  match r.(client_ip) with
  | None =>
      Return (Some (Deny (challenge app r "client address unavailable; free tier cannot be metered")
                      None MeterUnknown))
  | Some ip =>
      let t := (resolved app r).(free_tier) in
      allowance ← call (CheckRate (resolved app r).(label) ip t.(max_requests) t.(free_window_secs));
      match allowance with
      | None => Return None
      | Some a =>
          let meter := MeterFree (RateLimit.remaining a) (RateLimit.limit a) (RateLimit.reset_secs a) in
          if RateLimit.allowed a then
            _ ← call (Emit RATE_LIMIT [("outcome", "allowed")]);
            _ ← call (Emit REQUESTS [("tier", "free"); ("decision", "allow");
                                     ("policy", policy_label r.(policy))]);
            Return (Some (Allow Free None None None None meter))
          else
            _ ← call (Emit RATE_LIMIT [("outcome", "denied")]);
            _ ← call (Emit REQUESTS [("tier", "free"); ("decision", "challenge");
                                     ("policy", policy_label r.(policy))]);
            Return (Some (Deny (challenge app r
                                  "free tier rate limit exceeded; pay to unlock a higher limit")
                            None meter))
      end
  end.

Definition session_prog (r : Request) : Prog (option Decision) :=
  match session_token r with Some token => try_session_prog r token | None => Return None end.

Definition decide_prog (r : Request) : Prog (option Decision) :=
  served ← session_prog r;
  match served with
  | Some d => Return (Some d)
  | None =>
      match presented_payment r with
      | Some decoded => d ← payment_prog r decoded; Return (Some d)
      | None => free_prog r
      end
  end.

(** The [ext_authz] callout. *)
Definition check_prog (c : CheckRequest) : Prog (option CheckResponse) :=
  let r := check_request c in
  decision ← decide_prog r;
  Return (fmap (M := option)
            (λ d, decision_to_response d r.(client_ip) (is_grpc_request r.(headers))) decision).
End Decision.

(** ** The stream *)

Section Stream.
Context `{!Codecs, !Json, !SuiSdk}.
Context (app : App).

Definition request_prog (st : StreamState) (hs : option WireHeaders) (client_ip : option IpAddr)
    (policy : option string) (elapsed : Z) : Prog (option (ProcessingResponse * StreamState)) :=
  let r := request_of (header_map hs) client_ip policy in
  breaker ← call (StateAt (unwrap_or policy DEFAULT_POLICY_LABEL));
  if negb (Breaker.accepts_payment breaker) && is_some_b (header_get r.(headers) HEADER_PAYMENT_SIGNATURE)
  then
    _ ← call (Emit PAYMENTS [("outcome", "breaker_open"); ("code", Breaker.as_str breaker);
                             ("mode", "deferred")]);
    Return (Some (settlement_unavailable r.(path), st))
  else
  decision ← decide_prog app r;
  Return match decision with
         | None => None
         | Some (Allow tier payer _ _ pending meter) =>
             Some (allow_reply r tier payer meter,
                   {| pending := pending; st_policy := policy; st_path := r.(path);
                      st_meter := meter; decide_ms := elapsed |})
         | Some (Deny challenge receipt meter) => Some (deny_reply challenge receipt meter elapsed, st)
         end.

Definition settled_prog (st : StreamState) (mutations : list HeaderOption)
    (settlement : SettlementResponse) : Prog (list HeaderOption) :=
  let tier := (policy_for app.(config) st.(st_path) st.(st_policy)).(paid_tier) in
  _ ← call (RecordSuccess (unwrap_or st.(st_policy) DEFAULT_POLICY_LABEL));
  token ← mint_prog settlement.(sr_payer) st.(st_policy) tier;
  _ ← call (Emit PAYMENTS [("outcome", "settled"); ("code", "ok"); ("mode", "deferred")]);
  _ ← when (is_some_b token) (call (Emit SESSIONS [("event", "created")]));
  Return (match token with
          | Some t =>
              List.filter not_free_meter (mutations ++ [header HEADER_PAYMENT_SESSION t]) ++
              meter_set (MeterSession tier.(paid_quota) tier.(paid_quota) tier.(duration_secs))
          | None => mutations
          end ++
          [header HEADER_PAYMENT_RESPONSE (receipt_header (grant_session settlement token tier))]).

Definition failed_prog (st : StreamState) (mutations : list HeaderOption) (e : FacilitatorError) :
  Prog (list HeaderOption) :=
  _ ← call (RecordFailure (unwrap_or st.(st_policy) DEFAULT_POLICY_LABEL));
  _ ← call (Emit SETTLEMENT_AFTER_SERVE_FAILURES [("code", code e)]);
  _ ← call (Emit PAYMENTS [("outcome", "settle_failed_after_serve"); ("code", code e);
                           ("mode", "deferred")]);
  Return (mutations ++
          [header HEADER_PAYMENT_RESPONSE (receipt_header (failure_receipt app.(facilitator) (code e)))]).

Definition outcome_prog (st : StreamState) (mutations : list HeaderOption)
    (settled : result SettlementResponse FacilitatorError) : Prog (list HeaderOption) :=
  match settled with Ok s => settled_prog st mutations s | Err e => failed_prog st mutations e end.

Definition release_prog (id : option string) : Prog () :=
  match id with Some id => call (ReleasePayment id) | None => Return tt end.

Definition response_prog (st : StreamState) (hs : option WireHeaders) (elapsed : Z) :
  Prog (ProcessingResponse * StreamState) :=
  match st.(pending) with
  | None => Return (unsettled_reply st, taken st)
  | Some p =>
      if negb (is_success (unwrap_or (header_map hs !! ":status") "")) then
        _ ← release_prog p.(pd_payment_id);
        Return (unsettled_reply st, taken st)
      else
      settled ← call (Settle p.(pd_payload) p.(pd_requirements));
      _ ← call (Emit SETTLEMENT_SECONDS []);
      let mutations := meter_set st.(st_meter) ++
        [header HEADER_SERVER_TIMING
           (server_timing [("x402-decide", decide_ms st); ("x402-settle", elapsed)])] in
      mutations ← outcome_prog st mutations settled;
      Return (ResponseHeadersReply (continue_with mutations), taken st)
  end.

Definition message_prog (st : StreamState) (m : Message) :
  Prog (option (ProcessingResponse * StreamState)) :=
  match m.(phase) with
  | RequestHeaders hs =>
      request_prog st hs (client_ip_from_attributes m.(attributes))
        (policy_from_attributes m.(attributes)) m.(took)
  | ResponseHeaders hs => out ← response_prog st hs m.(took); Return (Some out)
  | OtherPhase => Return (Some (NoReply, st))
  end.
End Stream.

(** ** The facilitator's interface and the sweep *)

Section Api.
Context `{!Codecs, !Json, !SuiSdk}.
Context (f : Facilitator).

Definition api_verify_prog (r : FacilitatorRequest) : Prog (ApiResponse VerifyResponse) :=
  match check_version r with
  | Err (reason, detail) => Return (BadRequest reason detail)
  | Ok _ =>
      verified ← call (Verify r.(fr_payload) r.(fr_requirements));
      Return (ApiOk match verified with
                    | Ok payer => mkVerifyResponse true None (Some payer)
                    | Err e => mkVerifyResponse false (Some (code e)) None
                    end)
  end.

Definition api_claim_prog (r : FacilitatorRequest) : Prog (option FacilitatorError) :=
  match payment_id r.(fr_payload) with
  | None => Return None
  | Some id =>
      claim ← call (ClaimPayment id (replay_ttl r.(fr_requirements).(pr_max_timeout_seconds)));
      Return match claim with
             | Fresh => None
             | Replay first_seen => Some (ReplayError first_seen)
             | ClaimBackend => Some ReplayCacheUnavailable
             end
  end.

Definition api_settle_prog (r : FacilitatorRequest) : Prog (ApiResponse SettlementResponse) :=
  match check_version r with
  | Err (reason, detail) => Return (BadRequest reason detail)
  | Ok _ =>
      refused ← api_claim_prog r;
      match refused with
      | Some e => Return (ApiOk (failure_receipt f (code e)))
      | None =>
          settled ← call (Settle r.(fr_payload) r.(fr_requirements));
          match settled with
          | Ok receipt => Return (ApiOk receipt)
          | Err e =>
              _ ← release_prog (payment_id r.(fr_payload));
              Return (ApiOk (failure_receipt f (code e)))
          end
      end
  end.
End Api.

Definition sweep_prog : Prog (Z * Z) :=
  expired_sessions ← call CleanupSessions;
  idle_ips ← call CleanupLimiter;
  Return (expired_sessions, idle_ips).

(** ** Performed without interruption, they are the handlers *)

Section Faithful.
#[local] Set Default Proof Using "Type*".
Context `{!Codecs, !Json, !SuiSdk} {S L N : Type}
  `{!SuiNode N, !SessionBackend S, !RateBackend L}.
Context (app : App).

Abbreviation W := (World S L N).
Abbreviation run := (run (S := S) (L := L) (N := N) app.(facilitator)).

Lemma run_when b p (w : W) : run (when b p) w = (if b then run p else ret tt) w.
Proof. by destruct b. Qed.

Lemma run_call o (w : W) : run (call o) w = exec app.(facilitator) o w.
Proof. cbn [run call]. unfold bind, ret. by destruct (exec _ o w). Qed.

(** One program step at a time, on both sides. *)
Ltac step :=
  repeat first
    [ reflexivity
    | rewrite run_bind; apply bind_ext; [|intros ? ?]
    | match goal with |- Program.run _ (call ?o) ?w = _ => exact (run_call o w) end
    | rewrite run_when
    | case_match; try discriminate ].

Lemma run_try_session r tok w : run (try_session_prog r tok) w = try_session r tok w.
Proof. unfold try_session_prog, try_session. step. Qed.

Lemma run_claim r p w : run (claim_prog app r p) w = claim_stage app r p w.
Proof. unfold claim_prog, claim_stage. step. Qed.

Lemma run_rejected e w : run (count_rejected_prog app e) w = count_rejected app e w.
Proof. unfold count_rejected_prog, count_rejected. step. Qed.

Lemma run_deferred r p w : run (deferred_prog app r p) w = deferred_stage app r p w.
Proof. unfold deferred_prog, deferred_stage. step; apply run_rejected. Qed.

Lemma run_immediate r p w : run (immediate_prog app r p) w = immediate_stage app r p w.
Proof. unfold immediate_prog, immediate_stage, mint_prog. step; apply run_rejected. Qed.

Lemma run_payment r d w : run (payment_prog app r d) w = payment_stage app r d w.
Proof.
  unfold payment_prog, payment_stage.
  step; auto using run_claim, run_deferred, run_immediate.
Qed.

Lemma run_free r w : run (free_prog app r) w = free_stage app r w.
Proof. unfold free_prog, free_stage. step. Qed.

Theorem decide_prog_runs r w : run (decide_prog app r) w = decide app r w.
Proof.
  unfold decide_prog, decide, session_prog.
  step; auto using run_try_session, run_payment, run_free.
Qed.

Lemma check_prog_runs c w : run (check_prog app c) w = check app c w.
Proof. unfold check_prog, check. step. apply decide_prog_runs. Qed.

(** *** The stream *)

Lemma run_request st hs ip pol e w :
  run (request_prog app st hs ip pol e) w = handle_request_headers app st hs ip pol e w.
Proof. unfold request_prog, handle_request_headers. step; apply decide_prog_runs. Qed.

Lemma run_outcome st mu o w : run (outcome_prog app st mu o) w = outcome_phase app st mu o w.
Proof.
  destruct o; [unfold outcome_prog, settled_prog, mint_prog, outcome_phase, settled_phase
              |unfold outcome_prog, failed_prog, outcome_phase, failed_phase]; step.
Qed.

Lemma run_response st hs e w : run (response_prog app st hs e) w = handle_response_headers app st hs e w.
Proof.
  unfold response_prog, handle_response_headers, release_prog, discard. step; apply run_outcome.
Qed.

(** A message of a stream is its program. *)
Theorem message_prog_runs st m w : run (message_prog app st m) w = handle app st m w.
Proof. unfold message_prog, handle. step; auto using run_request, run_response. Qed.

(** *** The facilitator's interface and the sweep *)

Lemma api_verify_prog_runs r w :
  run (api_verify_prog r) w = api_verify app.(facilitator) r w.
Proof. unfold api_verify_prog, api_verify. step. Qed.

Lemma run_api_claim r w : run (api_claim_prog r) w = api_claim r w.
Proof. unfold api_claim_prog, api_claim. step. Qed.

Lemma api_settle_prog_runs r w :
  run (api_settle_prog app.(facilitator) r) w = api_settle app.(facilitator) r w.
Proof.
  unfold api_settle_prog, api_settle, release_prog. step; apply run_api_claim.
Qed.

Lemma sweep_prog_runs w : run sweep_prog w = sweep w.
Proof. unfold sweep_prog, sweep. step. Qed.
End Faithful.
