(* ===== verification/Schedule.v ===== *)
(** * Handlers that interrupt each other

    The server as its threads see it: each open [ext_proc] stream waits for a
    message or is inside the handler of one, each callout and request is inside
    its handler, and the sweep inside its tick.  One step is one operation of
    one of them, in any order; any of them may be dropped between two
    operations (a client that hangs up, a stream reset, a panic).  [play] runs a
    schedule of such steps and records what happened; [Rule] is how an
    invariant is proved of every schedule. *)

From S2P Require Import Prelude RustStr Platform IpAddr Session Redis Config Json X402 Sui.
From S2P Require Import Facilitator Stores World Auth ExtProc FacilitatorApi Main Program Handlers.
From S2P Require RateLimit Breaker.
From stdpp Require Import options.
#[local] Open Scope Z_scope.

(** How a handler ends: the payment it used, if any, and the stream it leaves
    open.  A payment is used when a response that it pays for is delivered,
    when a callout lets a request through on it, and when [/settle] settles it. *)
Record Outcome := mkOutcome { o_used : option string; o_next : option StreamState }.
Definition done_with (used : option string) : Outcome := mkOutcome used None.

Inductive Task :=
| Waiting (st : StreamState)
| Running (p : Prog Outcome).

(** Nobody is inside a handler. *)
Definition resting (t : Task) : Prop := match t with Waiting _ => True | Running _ => False end.

(** The shared state and what is open. *)
Record Server (S L N : Type) := mkServer { shared : World S L N; tasks : gmap nat Task }.
Arguments mkServer {S L N} _ _.
Arguments shared {S L N} _.
Arguments tasks {S L N} _.

(** What may happen next. *)
Inductive Choice :=
| Open (n : nat)
| Deliver (n : nat) (m : Message)
| StartCallout (n : nat) (c : CheckRequest)
| StartVerify (n : nat) (r : FacilitatorRequest)
| StartSettle (n : nat) (r : FacilitatorRequest)
| StartSweep (n : nat)
| Step (n : nat)
| Drop (n : nat).

(** What a step did: an operation and its answer, or the end of a handler and
    the payment it used. *)
Inductive Event :=
| Did (o : Op) (x : Answer o)
| Ended (used : option string).

(** The payment a stream holds, and the one a request presents. *)
Definition waiting_for (st : StreamState) : option string := st.(pending) ≫= pd_payment_id.

Section Server.
Context `{!Codecs, !Json, !SuiSdk} {S L N : Type}
  `{!SuiNode N, !SessionBackend S, !RateBackend L}.
Context (app : App).

Definition payment_of (r : Request) : option string :=
  match presented_payment r with Some (Ok p) => payment_id p | _ => None end.

Definition message_task (st : StreamState) (m : Message) : Prog Outcome :=
  out ← message_prog app st m;
  Return (mkOutcome (if is_delivered m then waiting_for st else None)
            (match out with Some (_, st) => Some st | None => None end)).

Definition callout_task (c : CheckRequest) : Prog Outcome :=
  let r := check_request c in
  decision ← decide_prog app r;
  Return (done_with (if served_by_payment decision then payment_of r else None)).

Definition verify_task (r : FacilitatorRequest) : Prog Outcome :=
  _ ← api_verify_prog r; Return (done_with None).

Definition settled_by (r : FacilitatorRequest) (a : ApiResponse SettlementResponse) : option string :=
  match a with
  | ApiOk s => if s.(sr_success) then payment_id r.(fr_payload) else None
  | BadRequest _ _ => None
  end.

Definition settle_task (r : FacilitatorRequest) : Prog Outcome :=
  a ← api_settle_prog app.(facilitator) r; Return (done_with (settled_by r a)).

Definition sweep_task : Prog Outcome := _ ← sweep_prog; Return (done_with None).

(** What a choice that opens something opens. *)
Definition opened (c : Choice) : option (nat * Task) :=
  match c with
  | Open n => Some (n, Waiting StreamState_default)
  | StartCallout n c => Some (n, Running (callout_task c))
  | StartVerify n r => Some (n, Running (verify_task r))
  | StartSettle n r => Some (n, Running (settle_task r))
  | StartSweep n => Some (n, Running sweep_task)
  | _ => None
  end.

(** A new task under a free number. *)
Definition start (n : nat) (t : Task) (srv : Server S L N) : Server S L N :=
  match tasks srv !! n with
  | None => mkServer (shared srv) (<[n := t]> (tasks srv))
  | Some _ => srv
  end.

(** What a finished task leaves. *)
Definition leave (n : nat) (out : Outcome) (T : gmap nat Task) : gmap nat Task :=
  match o_next out with Some st => <[n := Waiting st]> T | None => delete n T end.

(** One step: what it did, if anything, and the state after it.  What cannot
    happen does nothing. *)
Definition advance (c : Choice) : M (Server S L N) (option Event) := λ srv,
  match c with
  | Deliver n m =>
      (None, match tasks srv !! n with
             | Some (Waiting st) => mkServer (shared srv) (<[n := Running (message_task st m)]> (tasks srv))
             | _ => srv
             end)
  | Step n =>
      match tasks srv !! n with
      | Some (Running (Do o k)) =>
          let '(x, w) := exec app.(facilitator) o (shared srv) in
          (Some (Did o x), mkServer w (<[n := Running (k x)]> (tasks srv)))
      | Some (Running (Return out)) =>
          (Some (Ended (o_used out)), mkServer (shared srv) (leave n out (tasks srv)))
      | _ => (None, srv)
      end
  | Drop n => (None, mkServer (shared srv) (delete n (tasks srv)))
  | _ => (None, match opened c with Some (n, t) => start n t srv | None => srv end)
  end.

Fixpoint play (cs : list Choice) (srv : Server S L N) : list Event * Server S L N :=
  match cs with
  | [] => ([], srv)
  | c :: cs => let '(e, srv) := advance c srv in
               let '(es, srv) := play cs srv in (option_list e ++ es, srv)
  end.

Lemma play_app cs cs' (srv : Server S L N) :
  play (cs ++ cs') srv =
    let '(es, srv1) := play cs srv in
    let '(es', srv2) := play cs' srv1 in (es ++ es', srv2).
Proof.
  revert srv. induction cs as [|c cs IH]; intros srv; cbn [play Datatypes.app].
  - by destruct (play cs' srv).
  - destruct (advance c srv) as [u srv1]. rewrite IH.
    destruct (play cs srv1) as [us srv2]. destruct (play cs' srv2) as [us' srv3].
    by rewrite app_assoc.
Qed.
End Server.

Definition steps (n k : nat) : list Choice := replicate k (Step n).

(** The payments used in a run, and how often one was. *)
Definition used_by (es : list Event) : list string :=
  omap (λ e, match e with Ended u => u | Did _ _ => None end) es.
Definition uses (id : string) (l : list string) : nat := length (List.filter (String.eqb id) l).

(** How many events of a run are of a kind. *)
Definition tally (f : Event → bool) (es : list Event) : nat := length (List.filter f es).

Lemma tally_app f es es' : tally f (es ++ es') = (tally f es + tally f es')%nat.
Proof. unfold tally. by rewrite List.filter_app, length_app. Qed.
Lemma tally_one f e : tally f [e] = if f e then 1%nat else 0%nat.
Proof. unfold tally. cbn. by destruct (f e). Qed.

Definition count_if (b : bool) : Z := if b then 1 else 0.
Lemma tally_next f h e : Z.of_nat (tally f (h ++ [e])) = Z.of_nat (tally f h) + count_if (f e).
Proof. rewrite tally_app, tally_one. unfold count_if. destruct (f e); lia. Qed.

(** ** Proving an invariant of every schedule

    Each task carries a ghost of a [Discipline] ([outside] when nothing is open
    under its number).  [Good] relates what happened so far, the ghosts and the
    shared state.  It must survive an operation that the discipline allows, the
    end of a handler, and a drop; every handler must keep the discipline. *)
Section Rule.
#[local] Set Default Proof Using "Type*".
Context `{!Codecs, !Json, !SuiSdk} {S L N : Type}
  `{!SuiNode N, !SessionBackend S, !RateBackend L}.
Context (app : App) (D : Discipline) (outside : ghost D).
Context (waits : StreamState → ghost D → Prop) (ends : Outcome → ghost D → Prop).
Context (fair : Choice → Prop) (Good : list Event → (nat → ghost D) → World S L N → Prop).

(** The ghost of [n] changes. *)
Definition put {G} (n : nat) (g : G) (own : nat → G) : nat → G :=
  λ n', if base.decide (n' = n) then g else own n'.

Lemma put_eq {G} n (g : G) own : put n g own n = g.
Proof using. unfold put. by rewrite decide_True by done. Qed.
Lemma put_ne {G} n (g : G) own n' : n' ≠ n → put n g own n' = own n'.
Proof using. intros. unfold put. by rewrite decide_False by done. Qed.

Definition task_ok (g : ghost D) (t : Task) : Prop :=
  match t with Waiting st => waits st g | Running p => wp D p g ends end.

(** What is to be proved of one program, discipline and invariant. *)
Record Rule : Prop := {
  rule_message n m st g :
    fair (Deliver n m) → waits st g → wp D (message_task app st m) g ends;
  rule_opened c n t : fair c → opened app c = Some (n, t) → task_ok outside t;
  rule_op h own n o x w w' :
    Good h own w → may D o (own n) → exec app.(facilitator) o w = (x, w') →
    told D o x ∧ Good (h ++ [Did o x]) (put n (after D o (own n) x) own) w';
  rule_end h own n out w :
    Good h own w → ends out (own n) →
    ∃ g, (∀ st, o_next out = Some st → waits st g) ∧ Good (h ++ [Ended (o_used out)]) (put n g own) w;
  rule_drop h own n w : Good h own w → Good h (put n outside own) w
}.

Definition Inv (h : list Event) (own : nat → ghost D) (srv : Server S L N) : Prop :=
  Good h own (shared srv) ∧ map_Forall (λ n t, task_ok (own n) t) (tasks srv).

Lemma tasks_put n g own t (T : gmap nat Task) :
  task_ok g t → map_Forall (λ n t, task_ok (own n) t) T →
  map_Forall (λ n' t, task_ok (put n g own n') t) (<[n := t]> T).
Proof using.
  intros Hok Ht n' t'. rewrite lookup_insert_Some. intros [[<- <-]|[Hne Hl]].
  - by rewrite put_eq.
  - rewrite put_ne by done. by apply Ht.
Qed.

Lemma tasks_drop n g own (T : gmap nat Task) :
  map_Forall (λ n t, task_ok (own n) t) T →
  map_Forall (λ n' t, task_ok (put n g own n') t) (delete n T).
Proof using.
  intros Ht n' t'. rewrite lookup_delete_Some. intros [Hne Hl].
  rewrite put_ne by done. by apply Ht.
Qed.

Context (HR : Rule).

Lemma open_keeps h own n t srv :
  Inv h own srv → task_ok outside t → ∃ own', Inv h own' (start n t srv).
Proof.
  intros [Hg Ht] Hok. unfold start. destruct (tasks srv !! n); [by exists own|].
  exists (put n outside own). split; [by apply (rule_drop HR)|]. by apply tasks_put.
Qed.

Lemma step_keeps h own n srv :
  Inv h own srv →
  ∃ own', Inv (h ++ option_list (advance app (Step n) srv).1) own' (advance app (Step n) srv).2.
Proof.
  intros [Hg Ht]. cbn [advance]. destruct (tasks srv !! n) as [[st|[out|o k]]|] eqn:E; cbn [fst snd];
    try (exists own; by rewrite app_nil_r).
  - destruct (rule_end HR h own n out (shared srv) Hg (Ht _ _ E)) as (g & Hnext & Hg').
    exists (put n g own). split; [done|]. unfold leave. cbn [tasks].
    destruct (o_next out) as [st|]; [apply tasks_put; [by apply Hnext|done]|by apply tasks_drop].
  - destruct (Ht _ _ E) as [Hmay Hk]. destruct (exec _ o (shared srv)) as [x w'] eqn:Hx.
    destruct (rule_op HR h own n o x _ w' Hg Hmay Hx) as [Htold Hg']. cbn [fst snd option_list].
    eexists. split; [exact Hg'|]. apply tasks_put; [by apply Hk|done].
Qed.

Lemma advance_keeps h own c srv :
  Inv h own srv → fair c →
  ∃ own', Inv (h ++ option_list (advance app c srv).1) own' (advance app c srv).2.
Proof.
  intros Hi Hf. pose proof Hi as [Hg Ht].
  assert (∀ n t, opened app c = Some (n, t) → ∃ own', Inv (h ++ []) own' (start n t srv)) as Hstart.
  { intros n t Ho. rewrite app_nil_r. apply (open_keeps h own); [done|]. by apply (rule_opened HR c n). }
  destruct c as [n|n m|n c|n r|n r|n|n|n]; try by apply Hstart.
  - cbn [advance fst snd option_list]. rewrite app_nil_r.
    destruct (tasks srv !! n) as [[st|p]|] eqn:E; [|by exists own..].
    exists own. split; [done|]. intros n' t'. cbn [tasks]. rewrite lookup_insert_Some.
    intros [[<- <-]|[_ Hl]]; [|by apply Ht]. apply (rule_message HR n); [done|]. by apply (Ht _ _ E).
  - by apply (step_keeps h own).
  - cbn [advance fst snd option_list]. rewrite app_nil_r. exists (put n outside own).
    split; [by apply (rule_drop HR)|]. by apply tasks_drop.
Qed.

(** The invariant holds of every schedule. *)
Lemma play_keeps h own cs srv :
  Inv h own srv → Forall fair cs →
  ∃ own', Inv (h ++ (play app cs srv).1) own' (play app cs srv).2.
Proof.
  intros Hi Hf. revert h own srv Hi. induction Hf as [|c cs Hc _ IH]; intros h own srv Hi; cbn [play].
  { exists own. by rewrite app_nil_r. }
  destruct (advance_keeps h own c srv Hi Hc) as [own1 Hi1].
  destruct (advance app c srv) as [e srv1]. cbn [fst snd] in Hi1.
  destruct (IH _ _ _ Hi1) as [own2 Hi2]. destruct (play app cs srv1) as [es srv2].
  exists own2. cbn [fst snd]. by rewrite app_assoc.
Qed.
End Rule.
