(* ===== verification/Concurrent.v ===== *)
(** * One payment, however the handlers interleave

    Who owns a payment, over every schedule of [Schedule]: a thread comes to
    hold it by a fresh claim, gives it back by a release, and spends it by
    settling it.  The replay cache makes the holder unique; the handlers keep
    to the discipline. *)

From S2P Require Import Prelude RustStr Platform IpAddr Session Redis Config Json X402 Sui.
From S2P Require Import Facilitator Stores World Auth ExtProc FacilitatorApi Main Program Handlers Schedule.
From S2P Require RateLimit Breaker.
From stdpp Require Import options.
#[local] Open Scope Z_scope.

(** Callers of [/settle] who ask the replay cache for at least the lifetime the
    gateway asks for. *)
Definition lasting_request (app : App) (r : FacilitatorRequest) : Prop :=
  gateway_ttl app ≤ replay_ttl r.(fr_requirements).(pr_max_timeout_seconds).
Definition lasting_choice (app : App) (c : Choice) : Prop :=
  match c with StartSettle _ r => lasting_request app r | _ => True end.

(** What a thread has to do with the payment. *)
Inductive Stake := Outside | Holding | Spent.
#[export] Instance Stake_eq_dec : EqDecision Stake.
Proof. solve_decision. Defined.

Section Ownership.
Context `{!Codecs}.

(** A pending payment is recorded under its own identity. *)
Definition matched (st : StreamState) : Prop :=
  ∀ p, pending st = Some p → pd_payment_id p = payment_id p.(pd_payload).

(** A stream at rest that does not hold the payment. *)
Definition idle (id : string) (t : Task) : Prop :=
  match t with Waiting st => matched st ∧ waiting_for st ≠ Some id | Running _ => False end.

(** The events that use the payment, and that settle it. *)
Definition uses_payment (id : string) (e : Event) : bool :=
  match e with Ended u => bool_decide (u = Some id) | Did _ _ => false end.
Definition settles_payment (id : string) (e : Event) : bool :=
  match e with
  | Did (Settle p _) (Ok _) => bool_decide (payment_id p = Some id)
  | _ => false
  end.

(** A claim must ask for a lifetime of at least [ttl]; only the holder may give
    the payment back or settle it. *)
Definition ownership (id : string) (ttl : Z) : Discipline := {|
  ghost := Stake;
  may o g :=
    match o with
    | ClaimPayment _ ttl' => ttl ≤ ttl'
    | ReleasePayment id' => id' = id → g = Holding
    | Settle p _ => payment_id p = Some id → g = Holding
    | _ => True
    end;
  told _ _ := True;
  after o g :=
    match o with
    | ClaimPayment id' _ => λ c, if bool_decide (id' = id ∧ c = Fresh) then Holding else g
    | ReleasePayment id' => λ _, if bool_decide (id' = id) then Outside else g
    | Settle p _ => λ x, if bool_decide (payment_id p = Some id) && is_ok x then Spent else g
    | _ => λ _, g
    end
|}.
End Ownership.

(** ** The ledger

    [k] uses and [s] settlements so far; [c] says that the payment is claimed. *)
Record ledger (k s : nat) (own : nat → Stake) (c : Prop) : Prop := {
  led_one n n' : own n ≠ Outside → own n' ≠ Outside → n = n';
  led_used : k = 0%nat ∨ (k = 1%nat ∧ ∀ n, own n = Outside);
  led_settled : s = 0%nat ∨ (s = 1%nat ∧ ∀ n, own n ≠ Holding);
  led_claimed : k = 1%nat ∨ s = 1%nat ∨ (∃ n, own n ≠ Outside) → c
}.

Lemma ledger_start c : ledger 0 0 (λ _, Outside) c.
Proof. split; try (by left); [done|]. by intros [?|[?|[n Hn]]]. Qed.

(** A task's stake is what it was or less. *)
Lemma ledger_lower k s own (c c' : Prop) n g :
  ledger k s own c → (c → c') → g = Outside ∨ g = own n → ledger k s (put n g own) c'.
Proof.
  intros [Ho Hu Hs Hc] Hcc Hg.
  assert (∀ n', put n g own n' = Outside ∨ put n g own n' = own n') as Hle.
  { intros n'. destruct (base.decide (n' = n)) as [->|Hne]; [by rewrite put_eq|right; by apply put_ne]. }
  split.
  - intros n1 n2 H1 H2. destruct (Hle n1) as [?|E1], (Hle n2) as [?|E2]; try done.
    apply Ho; by rewrite <- ?E1, <- ?E2.
  - destruct Hu as [?|[? Hu]]; [by left|]. right. split; [done|]. intros n'.
    destruct (Hle n') as [?|E]; [done|]. rewrite E. apply Hu.
  - destruct Hs as [?|[? Hs]]; [by left|]. right. split; [done|]. intros n'.
    destruct (Hle n') as [E|E]; rewrite E; [done|apply Hs].
  - intros [?|[?|[n' Hn']]]; apply Hcc, Hc; auto. right. right. exists n'.
    intros Hout. destruct (Hle n') as [E|E]; congruence.
Qed.

(** While the payment is unclaimed there is nothing in the books. *)
Lemma ledger_unclaimed k s own (c : Prop) :
  ledger k s own c → ¬ c → k = 0%nat ∧ s = 0%nat ∧ ∀ n, own n = Outside.
Proof.
  intros [Ho Hu Hs Hc] Hno. split_and!.
  - destruct Hu as [?|[? _]]; [done|]. destruct Hno. auto.
  - destruct Hs as [?|[? _]]; [done|]. destruct Hno. auto.
  - intros n. destruct (base.decide (own n = Outside)); [done|]. destruct Hno. eauto.
Qed.

(** While a task holds it, nobody else does and it is neither used nor settled. *)
Lemma ledger_holding k s own c n :
  ledger k s own c → own n = Holding →
  k = 0%nat ∧ s = 0%nat ∧ ∀ n', n' ≠ n → own n' = Outside.
Proof.
  intros [Ho Hu Hs Hc] Hn. split_and!.
  - destruct Hu as [?|[_ Hu]]; [done|]. by rewrite Hu in Hn.
  - destruct Hs as [?|[_ Hs]]; [done|]. by apply Hs in Hn.
  - intros n' Hne. destruct (base.decide (own n' = Outside)); [done|].
    destruct Hne. apply Ho; [done|by rewrite Hn].
Qed.

Lemma put_outside own n g n' :
  (∀ n', n' ≠ n → own n' = Outside) → put n g own n' ≠ Outside → n' = n.
Proof.
  intros Hout. destruct (base.decide (n' = n)) as [|Hne]; [done|]. rewrite put_ne by done. by rewrite Hout.
Qed.

Lemma ledger_fresh k s own (c c' : Prop) n :
  ledger k s own c → ¬ c → c' → ledger k s (put n Holding own) c'.
Proof.
  intros Hl Hno Hc'. destruct (ledger_unclaimed _ _ _ _ Hl Hno) as (-> & -> & Hout).
  split; [|by left..|done]. intros n1 n2 H1 H2.
  by rewrite (put_outside own n Holding n1), (put_outside own n Holding n2).
Qed.

Lemma ledger_release k s own (c c' : Prop) n :
  ledger k s own c → own n = Holding → ledger k s (put n Outside own) c'.
Proof.
  intros Hl Hn. destruct (ledger_holding _ _ _ _ _ Hl Hn) as (-> & -> & Hout).
  assert (∀ n', put n Outside own n' = Outside) as Hall.
  { intros n'. destruct (base.decide (n' = n)) as [->|Hne]; [apply put_eq|rewrite put_ne by done; auto]. }
  split; [|by left..|].
  - intros n1 n2. by rewrite Hall.
  - intros [?|[?|[n' Hn']]]; try done. by rewrite Hall in Hn'.
Qed.

Lemma ledger_settle k s own (c c' : Prop) n :
  ledger k s own c → (c → c') → own n = Holding → ledger k (s + 1) (put n Spent own) c'.
Proof.
  intros Hl Hcc Hn. destruct (ledger_holding _ _ _ _ _ Hl Hn) as (-> & -> & Hout). split.
  - intros n1 n2 H1 H2. by rewrite (put_outside own n Spent n1), (put_outside own n Spent n2).
  - by left.
  - right. split; [done|]. intros n'.
    destruct (base.decide (n' = n)) as [->|Hne]; [by rewrite put_eq|rewrite put_ne by done; by rewrite Hout].
  - intros _. apply Hcc, (led_claimed _ _ _ _ Hl). right. right. exists n. by rewrite Hn.
Qed.

Lemma ledger_use k s own c n :
  ledger k s own c → own n ≠ Outside → ledger (k + 1) s (put n Outside own) c.
Proof.
  intros Hl Hn. pose proof (ledger_lower _ _ _ _ c n Outside Hl (λ x, x) (or_introl eq_refl)) as [_ _ Hs _].
  destruct Hl as [Ho Hu Hs' Hc].
  assert (k = 0%nat) as -> by (destruct Hu as [?|[_ Hu]]; [done|by rewrite Hu in Hn]).
  assert (∀ n', put n Outside own n' = Outside) as Hall.
  { intros n'. destruct (base.decide (n' = n)) as [->|Hne]; [apply put_eq|]. rewrite put_ne by done.
    destruct (base.decide (own n' = Outside)); [done|]. destruct Hne. by apply Ho. }
  split; [|right; split; [done|exact Hall]|exact Hs|].
  - intros n1 n2. by rewrite Hall.
  - intros _. apply Hc. eauto.
Qed.

(** ** The claim on one payment *)

Section Window.
#[local] Set Default Proof Using "Type*".
Context `{!Codecs, !Json, !SuiSdk} {S L N : Type}
  `{!SuiNode N, !SessionBackend S, !SingleUse S, !RateBackend L}.
Context (app : App) (id : string) (start : Z).

Abbreviation W := (World S L N).
Abbreviation ttl := (gateway_ttl app).

(** The readings to come are between [start] and the end of a claim made then. *)
Definition in_window (w : W) : Prop :=
  (∀ i, is_u64 (w_clock w i)) ∧ (∀ i j, (i ≤ j)%nat → w_clock w i ≤ w_clock w j) ∧
  start ≤ w_clock w (w_tick w) ∧ (∀ i, w_clock w i < start + ttl).

Definition claimed (w : W) : Prop :=
  ∃ t0, start ≤ t0 ≤ w_clock w (w_tick w) ∧ held id t0 ttl (w_sessions w).

(** What every operation does, whatever it releases. *)
Definition onward (w w' : W) : Prop :=
  w_clock w' = w_clock w ∧ (w_tick w ≤ w_tick w')%nat ∧
  (retains ttl (w_sessions w) → retains ttl (w_sessions w')).

(** What it does when it does not release [id]. *)
Definition spares (w w' : W) : Prop := ∀ t0, guards id t0 ttl w w'.

Lemma guards_onward id' t0 w w' : guards id' t0 ttl w w' → onward w w'.
Proof. by intros (? & ? & _ & ?). Qed.

Lemma spares_onward w w' : spares w w' → onward w w'.
Proof. intros Hs. exact (guards_onward _ _ _ _ (Hs 0)). Qed.

(** A release spares every other payment, and so goes onward. *)
Lemma onward_release id' w : onward w (release_payment id' w).2.
Proof.
  apply (guards_onward ("-" +:+ id') 0), guards_release.
  intros Heq. apply (f_equal String.length) in Heq. cbn in Heq. lia.
Qed.

Lemma in_window_onward w w' : onward w w' → in_window w → in_window w'.
Proof.
  intros (Hc & Ht & _) (Hu & Hmono & Hs & He). unfold in_window. rewrite Hc.
  split_and!; [done|done| |done]. specialize (Hmono _ _ Ht). lia.
Qed.

Lemma in_window_timely t0 w :
  in_window w → start ≤ t0 ≤ w_clock w (w_tick w) → timely t0 ttl w.
Proof.
  intros (_ & Hmono & _ & He) Ht0 i Hi. specialize (Hmono _ _ Hi). specialize (He i). lia.
Qed.

Lemma claimed_spared w w' : spares w w' → in_window w → claimed w → claimed w'.
Proof.
  intros Hs Hw (t0 & Ht0 & Hh). destruct (Hs t0) as (Hc & Ht & Hg & _). exists t0. split.
  - rewrite Hc. destruct Hw as (_ & Hmono & _). specialize (Hmono _ _ Ht). lia.
  - apply Hg; [by apply in_window_timely|done].
Qed.

Lemma claimed_refused ttl' w :
  in_window w → ttl ≤ ttl' → claimed w → (claim_payment id ttl' w).1 ≠ Fresh.
Proof.
  intros Hw Httl (t0 & Ht0 & Hh). eapply held_claim_refused; [|done|done].
  by apply in_window_timely.
Qed.

(** A claim that is fresh was not held, and is from then on. *)
Lemma fresh_claim ttl' w w' :
  in_window w → ttl ≤ ttl' → claim_payment id ttl' w = (Fresh, w') → ¬ claimed w ∧ claimed w'.
Proof.
  intros Hw Httl Hc. split.
  { intros Hcl. apply (claimed_refused ttl' w Hw Httl Hcl). by rewrite Hc. }
  pose proof (claim_payment_eq id ttl' w) as (Hres & Hsess & Hclk & Htick & _).
  rewrite Hc in *. cbn [fst snd] in *.
  destruct Hw as (Hu & Hmono & Hs & _). set (now := w_clock w (w_tick w)) in *.
  exists now. rewrite Hclk, Htick. split; [split; [done|apply Hmono; lia]|].
  apply (held_weaken _ _ _ _ _ Httl). rewrite Hsess.
  apply (claim_holds _ _ _ (w_sessions w)); [apply Hu| |].
  - assert (0 < ttl) by apply replay_ttl_pos. lia.
  - rewrite Hres. apply surjective_pairing.
Qed.

(** *** One operation *)

Context (f : Facilitator).

Abbreviation own := (ownership id ttl).

Definition releases (o : Op) : Prop := match o with ReleasePayment id' => id' = id | _ => False end.
#[local] Instance releases_dec o : base.Decision (releases o).
Proof. destruct o; cbn; apply _. Defined.

Lemma guards_cleanup_limiter t0 : keeps (guards id t0 ttl) (cleanup_limiter (S := S) (L := L) (N := N)).
Proof. unfold cleanup_limiter. keep. Qed.

Lemma exec_spares o g (w : W) :
  may own o g → ¬ releases o → retains ttl (w_sessions w) → spares w (exec f o w).2.
Proof.
  intros Ho Hno Hr t0. destruct o; cbn [exec releases may ownership] in *.
  7: by apply sweep_guards.
  all: match goal with |- ?R ?w (?c ?w).2 => enough (keeps R c) as Hk by exact (Hk w) end.
  all: auto using guards_cleanup_limiter with x402.
Qed.

(** What an operation does to the claim and to the stake of who performs it. *)
Inductive effect (o : Op) (x : Answer o) (g : Stake) (w w' : W) : Stake → Prop :=
| effect_none : settles_payment id (Did o x) = false → spares w w' → effect o x g w w' g
| effect_claim : settles_payment id (Did o x) = false → ¬ claimed w → claimed w' →
    effect o x g w w' Holding
| effect_release : settles_payment id (Did o x) = false → g = Holding → effect o x g w w' Outside
| effect_settle : settles_payment id (Did o x) = true → g = Holding → spares w w' →
    effect o x g w w' Spent.

Lemma exec_effect o g (w w' : W) x :
  in_window w → retains ttl (w_sessions w) → may own o g → exec f o w = (x, w') →
  onward w w' ∧ effect o x g w w' (after own o g x).
Proof.
  intros Hw Hr Ho Hx.
  destruct (base.decide (releases o)) as [Hrel|Hno].
  - destruct o; try done. cbn in Hrel. subst. pose proof (onward_release id w) as Hon. cbn in Hx.
    rewrite Hx in Hon. split; [done|]. cbn. rewrite bool_decide_eq_true_2 by done.
    apply effect_release; [done|]. by apply Ho.
  - pose proof (exec_spares o g w Ho Hno Hr) as Hs. rewrite Hx in Hs.
    split; [by apply spares_onward|].
    destruct o as [| | | |id' ttl'|id'| | | | | | | |p r]; try by apply effect_none.
    + cbn [exec may after ownership] in *. case_bool_decide as E; [|by apply effect_none].
      destruct E as [-> ->]. destruct (fresh_claim ttl' w w' Hw Ho Hx). by apply effect_claim.
    + cbn in Hno |- *. rewrite bool_decide_eq_false_2 by done. by apply effect_none.
    + cbn [may after ownership] in *. destruct (bool_decide (payment_id p = Some id) && is_ok x) eqn:E.
      * apply andb_true_iff in E as [Hid Hok]. destruct x; [|done].
        apply effect_settle; [done| |done]. apply bool_decide_eq_true in Hid. by apply Ho.
      * apply effect_none; [|done]. cbn. destruct x; [|done]. by rewrite andb_true_r in E.
Qed.
End Window.

(** ** Every handler keeps the books

    Whatever the operations of a handler answer, it claims for long enough,
    settles and releases only what it holds, and ends up holding what it
    keeps. *)
Section Books.
#[local] Set Default Proof Using "Type*".
Context `{!Codecs, !Json, !SuiSdk}.
Context (app : App) (id : string).

Abbreviation own := (ownership id (gateway_ttl app)).
Abbreviation wp := (wp own).

Definition waits (st : StreamState) (g : Stake) : Prop :=
  matched st ∧ (waiting_for st = Some id → g = Holding).

Definition ends (out : Outcome) (g : Stake) : Prop :=
  (o_used out = Some id → g ≠ Outside) ∧
  ∀ st, o_next out = Some st → waits st g ∧ (waiting_for st = Some id → o_used out ≠ Some id).

Lemma ends_nothing used g : (used = Some id → g ≠ Outside) → ends (done_with used) g.
Proof. by split. Qed.

(** Operations that have no part in it. *)
Definition bystander (o : Op) : Prop :=
  match o with ClaimPayment _ _ | ReleasePayment _ | Settle _ _ => False | _ => True end.

Lemma wp_quiet {A} (p : Prog A) g (Q : A → Stake → Prop) :
  only bystander p → (∀ a, Q a g) → wp p g Q.
Proof.
  intros Hp HQ. apply (wp_inert own); [|done]. revert Hp. apply only_mono.
  intros o Ho g'. by destruct o.
Qed.

#[local] Ltac quiet := walk; exact I.

Lemma wp_claim r p g :
  wp (claim_prog app r p) g (λ e g', (g = Holding → g' = Holding) ∧
    (e = None → payment_id p = Some id → g' = Holding)).
Proof.
  unfold claim_prog. destruct (payment_id p) as [id'|]; [|by split].
  cbv zeta. rewrite requirements_ttl. apply wp_bind. split; [cbn; lia|]. intros c _. cbn [wp after ownership].
  set (g' := if bool_decide _ then _ else _).
  assert (g = Holding → g' = Holding) as Hk by (intros ->; subst g'; by case_match).
  books; (split; [done|]); try done.
  intros _ [= ->]. subst g'. by rewrite bool_decide_eq_true_2.
Qed.

(** A decision holds or has spent the payment it is made on, and what it keeps
    pending is that payment. *)
Definition decided (r : Request) (g : Stake) (o : option Auth.Decision) (g' : Stake) : Prop :=
  (settle_policy r = Deferred → g = Holding → g' = Holding) ∧
  match o with
  | Some (Allow _ _ _ settlement pending _) =>
      (is_some_b settlement || is_some_b pending = true → payment_of r = Some id → g' ≠ Outside) ∧
      ∀ p, pending = Some p → pd_payment_id p = payment_of r ∧
        pd_payment_id p = payment_id (pd_payload p) ∧ (payment_of r = Some id → g' = Holding)
  | _ => True
  end.

Lemma decided_kept r g d :
  match d with
  | Some (Allow _ _ _ (Some _) _ _) | Some (Allow _ _ _ _ (Some _) _) => False
  | _ => True
  end → decided r g d g.
Proof. intros Hd. split; [done|]. by destruct d as [[? ? ? [] [] ?|]|]. Qed.

Lemma wp_deferred r p g :
  payment_of r = payment_id p → (payment_id p = Some id → g = Holding) →
  wp (deferred_prog app r p) g (λ d, decided r g (Some d)).
Proof.
  intros Hp Hg. unfold deferred_prog, count_rejected_prog. books; (split; [done|]); [|done]. cbn.
  rewrite Hp. split; [by intros _ ->%Hg|]. intros q [= <-]. by split_and!.
Qed.

Lemma wp_immediate r p g :
  payment_of r = payment_id p → settle_policy r = Immediate → (payment_id p = Some id → g = Holding) →
  wp (immediate_prog app r p) g (λ d, decided r g (Some d)).
Proof.
  intros Hp Hi Hg. unfold immediate_prog, mint_prog, count_rejected_prog. cbv zeta.
  apply wp_bind. split; [done|]. intros x _. cbn [wp after ownership].
  set (g' := if bool_decide _ && _ then _ else _).
  assert (payment_id p = Some id → g' ≠ Outside) as Hg'.
  { intros E. subst g'. rewrite (Hg E). by case_match. }
  books; (split; [by rewrite Hi|]); cbn; by rewrite ?Hp.
Qed.

Lemma wp_payment r d g :
  presented_payment r = Some d → wp (payment_prog app r d) g (λ d, decided r g (Some d)).
Proof.
  intros Hd. unfold payment_prog. destruct d as [p|e]; [|by split].
  assert (payment_of r = payment_id p) as Hp by (unfold payment_of; by rewrite Hd).
  apply wp_bind. eapply wp_mono; [apply wp_claim|]. cbv beta. intros [e|] g' [Ho Hf]; [by split|].
  specialize (Hf eq_refl). destruct (settle_policy r) eqn:Es.
  - eapply wp_mono; [by apply wp_immediate|]. intros d' g'' [? ?]. split; [by rewrite Es|done].
  - eapply wp_mono; [by apply wp_deferred|]. intros d' g'' [? ?]. split; auto.
Qed.

Lemma wp_session r g : wp (session_prog r) g (λ o g', g' = g ∧ decided r g o g).
Proof.
  unfold session_prog, try_session_prog. books; (split; [done|]); by apply decided_kept.
Qed.

Lemma wp_free r g : wp (free_prog app r) g (decided r g).
Proof. unfold free_prog. cbv zeta. books; by apply decided_kept. Qed.

Lemma wp_decide r g : wp (decide_prog app r) g (decided r g).
Proof.
  unfold decide_prog. apply wp_bind. eapply wp_mono; [apply wp_session|]. cbv beta.
  intros [d|] g' [-> Hd]; [done|]. destruct (presented_payment r) as [d|] eqn:Ed; [|apply wp_free].
  apply wp_bind. eapply wp_mono; [by apply wp_payment|]. done.
Qed.

(** *** The tasks *)

Lemma wp_callout c g : wp (callout_task app c) g ends.
Proof.
  unfold callout_task. cbv zeta. apply wp_bind. eapply wp_mono; [apply wp_decide|].
  intros o g' [_ Hd]. apply ends_nothing. unfold served_by_payment.
  destruct o as [[t y k s p m|]|]; try done. destruct (_ || _) eqn:E; [|done]. by apply Hd.
Qed.

Lemma wp_verify r g : wp (verify_task r) g ends.
Proof.
  apply wp_bind. apply wp_quiet; [unfold api_verify_prog; quiet|]. intros a. by apply ends_nothing.
Qed.

Lemma wp_sweep g : wp sweep_task g ends.
Proof. unfold sweep_task, sweep_prog. books. by apply ends_nothing. Qed.

Lemma wp_settle r : lasting_request app r → wp (settle_task app r) Outside ends.
Proof.
  intros Hl. unfold settle_task, api_settle_prog, api_claim_prog, release_prog. apply wp_bind.
  destruct (check_version r) as [|[reason detail]]; [|by apply ends_nothing]. apply wp_bind.
  destruct (payment_id (fr_payload r)) as [id'|] eqn:Eid; cycle 1.
  { apply wp_bind. split; [cbn; by rewrite Eid|]. intros x _.
    books; apply ends_nothing; cbn; rewrite ?Eid; by case_match. }
  apply wp_bind. split; [done|]. intros c _. cbn [wp after ownership].
  destruct c as [|first|]; [|rewrite bool_decide_eq_false_2 by naive_solver; by apply ends_nothing..].
  set (g := if bool_decide _ then _ else _).
  assert (Some id' = Some id → g = Holding) as Hg.
  { intros [= ->]. subst g. by rewrite bool_decide_eq_true_2. }
  apply wp_bind. split; [cbn; by rewrite Eid|]. intros x _. cbn [wp after ownership]. rewrite Eid.
  destruct x as [receipt|e]; cbn [is_ok].
  - apply ends_nothing. cbn. rewrite Eid. case_match; [|done]. intros E. rewrite (Hg E).
    by case_match.
  - rewrite andb_false_r. split; [cbn; intros ->; by apply Hg|]. intros u _. by apply ends_nothing.
Qed.

Lemma wp_request st hs ip pol e used g :
  waits st g → used ≠ Some id →
  wp (out ← request_prog app st hs ip pol e;
      Return (mkOutcome used (match out with Some (_, st) => Some st | None => None end))) g ends.
Proof.
  intros [Hm Hw] Hu. assert (∀ g', g' = g → ends (mkOutcome used (Some st)) g') as Hsame.
  { intros g' ->. split; [done|]. intros st' [= <-]. by split. }
  unfold request_prog. cbv zeta. set (r := request_of _ _ _).
  apply wp_bind, wp_bind. apply wp_call; [inert|]. intros b _.
  destruct (_ && _); [books; by apply Hsame|].
  apply wp_bind. eapply wp_mono; [apply wp_decide|].
  intros d g' [Hk Hd]. cbn [wp]. destruct d as [[t y k s p m|]|].
  - destruct Hd as [_ Hp]. split; [done|]. intros st' [= <-]. unfold waits, matched, waiting_for. cbn.
    split; [|done]. split; [by intros q ->; apply (Hp q)|]. destruct p as [q|]; [|done]. cbn. intros E.
    destruct (Hp q eq_refl) as (Heq & _ & Hh). apply Hh. by rewrite <- Heq.
  - split; [done|]. intros st' [= <-]. split; [|done]. split; [done|]. intros E. by apply Hk, Hw.
  - by apply ends_nothing.
Qed.

Lemma wp_response st hs e g :
  waits st g →
  wp (response_prog app st hs e) g (λ out g',
    ends (mkOutcome (if is_success (unwrap_or (header_map hs !! ":status") "") then waiting_for st
                     else None) (Some out.2)) g').
Proof.
  intros [Hm Hw]. unfold response_prog, release_prog, waiting_for in *.
  assert (∀ used g', (used = Some id → g' ≠ Outside) → ends (mkOutcome used (Some (taken st))) g')
    as Htaken.
  { intros used g' Hu. split; [done|]. intros st' [= <-]. unfold waits, matched, waiting_for. by cbn. }
  destruct (pending st) as [p|] eqn:Ep.
  2: { cbn [wp]. apply Htaken. cbn. by case_match. }
  specialize (Hm p Ep). cbn [mbind option_bind] in *.
  destruct (is_success _) eqn:Es; cbn [negb].
  - apply wp_bind. split; [cbn; rewrite <- Hm; done|]. intros o _. cbn [wp after ownership].
    rewrite <- Hm. set (g' := if bool_decide _ && _ then _ else _).
    assert (pd_payment_id p = Some id → g' ≠ Outside) as Hg'.
    { intros E. subst g'. rewrite (Hw E). by case_match. }
    unfold outcome_prog, settled_prog, failed_prog, mint_prog. cbv zeta.
    books; cbn [snd]; by apply Htaken.
  - apply wp_bind. destruct (pd_payment_id p) as [id'|]; [|by apply Htaken].
    split; [cbn; intros ->; by apply Hw|]. intros u _. by apply Htaken.
Qed.

Lemma wp_message st m g : waits st g → wp (message_task app st m) g ends.
Proof.
  intros Hw. unfold message_task, message_prog, is_delivered.
  destruct (phase m) as [hs|hs|].
  - by apply wp_request.
  - apply wp_bind, wp_bind. eapply wp_mono; [by apply wp_response|]. by intros [reply st'] g'.
  - split; [done|]. intros st' [= <-]. by split.
Qed.
End Books.

(** ** The invariant *)

Section Invariant.
#[local] Set Default Proof Using "Type*".
Context `{!Codecs, !Json, !SuiSdk} {S L N : Type}
  `{!SuiNode N, !SessionBackend S, !SingleUse S, !RateBackend L}.
Context (app : App) (id : string) (t0 : Z).

Abbreviation ttl := (gateway_ttl app).

Definition Booked (h : list Event) (own : nat → Stake) (w : World S L N) : Prop :=
  in_window app t0 w ∧ retains ttl (w_sessions w) ∧
  ledger (tally (uses_payment id) h) (tally (settles_payment id) h) own (claimed app id t0 w).

Lemma tally_step f (h : list Event) e :
  tally f (h ++ [e]) = (tally f h + if f e then 1 else 0)%nat.
Proof. by rewrite tally_app, tally_one. Qed.

Lemma ownership_rule : Rule app (ownership id ttl) Outside (waits id) (ends id) (lasting_choice app) Booked.
Proof.
  split.
  - intros n m st g _. apply wp_message.
  - intros [n|n m|n c|n r|n r|n|n|n] n' t Hl [= <- <-]; cbn [task_ok].
    + by split.
    + apply wp_callout.
    + apply wp_verify.
    + by apply wp_settle.
    + apply wp_sweep.
  - intros h own n o x w w' (Hw & Hr & Hl) Hmay Hx. split; [done|].
    destruct (exec_effect app id t0 app.(facilitator) o _ w w' x Hw Hr Hmay Hx) as [Hon He].
    split; [by apply (in_window_onward app t0 w)|]. split; [by apply Hon|].
    rewrite !tally_step, Nat.add_0_r.
    destruct He as [E Hs|E Hno Hyes|E Hg|E Hg Hs]; rewrite E, ?Nat.add_0_r.
    + apply (ledger_lower _ _ _ _ _ _ _ Hl); [by apply claimed_spared|by right].
    + by apply (ledger_fresh _ _ _ (claimed app id t0 w)).
    + by apply (ledger_release _ _ _ (claimed app id t0 w)).
    + apply (ledger_settle _ _ _ _ _ _ Hl); [by apply claimed_spared|done].
  - intros h own n out w (Hw & Hr & Hl) [Hused Hnext].
    set (g := if bool_decide (o_next out ≫= waiting_for = Some id) then Holding else Outside).
    exists g. split.
    + intros st Hst. destruct (Hnext st Hst) as [[Hm Hh] _]. split; [done|]. intros Hwf. subst g.
      rewrite Hst. cbn. by rewrite bool_decide_eq_true_2.
    + split; [done|]. split; [done|]. rewrite !tally_step, Nat.add_0_r. cbn [uses_payment].
      case_bool_decide as Hu.
      * assert (g = Outside) as ->; [|by apply ledger_use, Hused].
        subst g. case_bool_decide as Hn; [|done].
        destruct (o_next out) as [st|] eqn:Est; [|done]. by destruct (Hnext st eq_refl) as [_ []].
      * rewrite Nat.add_0_r. apply (ledger_lower _ _ _ _ _ _ _ Hl); [done|].
        subst g. case_bool_decide as Hn; [right|by left].
        destruct (o_next out) as [st|] eqn:Est; [|done]. symmetry. by apply (Hnext st).
  - intros h own n w (Hw & Hr & Hl). split; [done|]. split; [done|].
    apply (ledger_lower _ _ _ _ _ _ _ Hl); [done|by left].
Qed.

Lemma uses_tally es : uses id (used_by es) = tally (uses_payment id) es.
Proof using.
  unfold uses, used_by, tally. induction es as [|[o x|[u|]] es IH]; cbn; try done.
  destruct (String.eqb_spec id u) as [->|Hne].
  - rewrite bool_decide_eq_true_2 by done. cbn. by rewrite IH.
  - by rewrite bool_decide_eq_false_2 by congruence.
Qed.

Lemma booked_once cs (srv : Server S L N) :
  in_window app t0 (shared srv) → retains ttl (w_sessions (shared srv)) →
  map_Forall (λ _ t, idle id t) (tasks srv) → Forall (lasting_choice app) cs →
  (uses id (used_by (play app cs srv).1) ≤ 1)%nat ∧
  (tally (settles_payment id) (play app cs srv).1 ≤ 1)%nat.
Proof.
  intros Hw Hr Hidle Hcs.
  destruct (play_keeps app _ _ _ _ _ _ ownership_rule [] (λ _, Outside) cs srv) as (own & (_ & _ & Hl) & _).
  - split; [split; [done|]; split; [done|apply ledger_start]|].
    intros n t Hn. specialize (Hidle n t Hn). destruct t as [st|p]; [|done].
    destruct Hidle as [Hm Hne]. by split.
  - done.
  - rewrite uses_tally. destruct Hl as [_ [?|[? _]] [?|[? _]] _]; cbn [Datatypes.app] in *; lia.
Qed.
End Invariant.

(** ** Properties *)

Section Properties.
#[local] Set Default Proof Using "Type*".
Context `{!Codecs, !Json, !SuiSdk} {S L N : Type}
  `{!SuiNode N, !SessionBackend S, !SingleUse S, !RateBackend L}.
Context (app : App).

(** C1: One payment buys one thing, however the handlers interleave.  Streams
    of [ext_proc], callouts of [ext_authz], requests to the facilitator's
    interface and sweeps run at once, each advancing one operation at a time in
    any order and each able to be dropped between two; upstreams fail and give
    payments back to be tried again.  As long as the clock does not run
    backwards and the run ends within a claim's lifetime, a payment pays for at
    most one of a delivered response, a request let through, and a settlement
    through [/settle], and is settled at most once.  The store must keep records
    for that lifetime, and callers of [/settle] ask for it. *)
Theorem one_payment_buys_once_interleaved (id : string) (cs : list Choice) (srv : Server S L N)
    (Hu : ∀ i, is_u64 (w_clock (shared srv) i))
    (Hmono : ∀ i j, (i ≤ j)%nat → w_clock (shared srv) i ≤ w_clock (shared srv) j)
    (Hend : ∀ i, w_clock (shared srv) i < w_clock (shared srv) (w_tick (shared srv)) + gateway_ttl app)
    (Hkept : retains (gateway_ttl app) (w_sessions (shared srv)))
    (Hcalls : Forall (lasting_choice app) cs)
    (Hfresh : map_Forall (λ _ t, idle id t) (tasks srv)) :
  (uses id (used_by (play app cs srv).1) ≤ 1)%nat ∧
  (tally (settles_payment id) (play app cs srv).1 ≤ 1)%nat.
Proof. by apply (booked_once app id (w_clock (shared srv) (w_tick (shared srv)))). Qed.
End Properties.

(** ** The property at a concrete input *)

Definition demo_server : Server (SessionStore Db.t) (RateLimiter Db.t) DemoNode.t :=
  mkServer demo_world ∅.

(** Two streams go for one payment, an operation each in turn; the first wins
    it and its upstream fails.  A third stream starts while the payment is given
    back, wins it, and spends it around a sweep; the second is dropped. *)
Definition scuffle : list Choice :=
  [Open 0; Open 1; Deliver 0 (request_message paying_wire); Deliver 1 (request_message paying_wire)] ++
  mjoin (replicate 8 [Step 0; Step 1]) ++
  [Deliver 0 (response_message "500"); Open 2; Deliver 2 (request_message paying_wire); Step 2; Step 0] ++
  steps 2 7 ++ [StartSweep 3; Step 3; Drop 1; Deliver 2 (response_message "200")] ++
  mjoin (replicate 9 [Step 2; Step 3]).

Lemma one_payment_buys_once_interleaved_witness :
  uses demo_id (used_by (play demo_app scuffle demo_server).1) = 1%nat ∧
  executions (shared (play demo_app scuffle demo_server).2) = 1%nat ∧
  (tally (settles_payment demo_id) (play demo_app scuffle demo_server).1 ≤ 1)%nat.
Proof.
  split; [vm_compute; reflexivity|]. split; [vm_compute; reflexivity|].
  assert (gateway_ttl demo_app = 600) as Httl by (vm_compute; reflexivity).
  assert (∀ i, 1700000000 ≤ w_clock demo_world i ≤ 1700000100) as Hclk.
  { intros i. cbn. pose proof (Nat.le_min_r i 100). lia. }
  apply (one_payment_buys_once_interleaved demo_app demo_id scuffle demo_server).
  - intros i. specialize (Hclk i). change (is_u64 (w_clock demo_world i)).
    unfold is_u64, u64_max. lia.
  - intros i j Hij. change (w_clock demo_world i ≤ w_clock demo_world j). cbn.
    pose proof (Nat.min_le_compat_r i j 100 Hij). lia.
  - intros i. rewrite Httl. specialize (Hclk i).
    change (w_clock demo_world i < 1700000000 + 600). lia.
  - rewrite Httl. vm_compute. congruence.
  - repeat constructor.
  - apply map_Forall_empty.
Defined.
