(* ===== verification/Metrics.v ===== *)
(** * The metrics and their labels ([src/metrics.rs])

    What is installed with the exporter: the buckets of the latency histograms
    and a description for every metric.  The module promises that the label
    space is closed; [label_schema] is that promise, metric by metric, and
    every handler keeps it whatever the schedule. *)

From S2P Require Import Prelude RustStr Platform IpAddr Session Redis Config Json X402 Sui.
From S2P Require Import Facilitator Stores World Auth ExtProc FacilitatorApi Main Program.
From S2P Require Import Handlers Schedule Concurrent.
From S2P Require RateLimit Breaker.
From stdpp Require Import options.
#[local] Open Scope Z_scope.

Inductive Kind := Counter | Histogram.
Record Description := mkDescription { d_name : string; d_kind : Kind; d_text : string }.

Definition describe : list Description :=
  [mkDescription REQUESTS Counter "Authorization decisions, by tier, decision and policy.";
   mkDescription PAYMENTS Counter
     "Payment attempts, by outcome, standard x402 error code and verification mode.";
   mkDescription VERIFICATION_SECONDS Histogram
     "Time to verify a payment, including any fullnode RPC.";
   mkDescription SETTLEMENT_SECONDS Histogram "Time to settle a payment on chain.";
   mkDescription SESSIONS Counter "Session lifecycle events (created, accepted).";
   mkDescription SESSION_REJECTIONS Counter "Presented session tokens that were refused, by reason.";
   mkDescription REPLAY_CLAIMS Counter
     "Replay-cache claims, by outcome (fresh, replay, backend error).";
   mkDescription RATE_LIMIT Counter "Free-tier decisions, by outcome.";
   mkDescription SETTLEMENT_AFTER_SERVE_FAILURES Counter
     "ALERT: the upstream served the request but settlement then failed. The resource was delivered unpaid.";
   mkDescription STORE_ERRORS Counter
     "ALERT: the session/replay store was unreachable. Requests are failing closed, so paying clients are being turned away."].

(** Upper bounds in milliseconds, for the metrics with the suffix. *)
Definition buckets : list Z := [5; 10; 25; 50; 100; 250; 500; 1000; 2500; 5000; 10000].
Definition ends_with (suffix s : string) : bool := starts_with (srev suffix) (srev s).
Definition has_buckets (name : string) : bool := ends_with "_seconds" name.

(** ** The closed label sets *)

Definition standard_codes : list string :=
  ["invalid_x402_version"; "invalid_scheme"; "invalid_network"; "invalid_payment_requirements";
   "invalid_payload"; "invalid_transaction_state"; "unexpected_verify_error";
   "unexpected_settle_error"].
Definition mode_labels : list string := ["stub"; "sui-grpc"].

(** The labels of a metric, in order, each with the values it may take; the
    policies are those the proxy names, and none at all is [default]. *)
Definition label_schema (policies : list string) (name : string) :
  option (list (string * list string)) :=
  if bool_decide (name = REQUESTS) then
    Some [("tier", ["free"; "paid"]); ("decision", ["allow"; "challenge"]);
          ("policy", "default" :: policies)]
  else if bool_decide (name = PAYMENTS) then
    Some [("outcome", ["verified"; "settled"; "rejected"; "breaker_open"; "settle_failed_after_serve"]);
          ("code", "ok" :: "open" :: standard_codes); ("mode", "deferred" :: mode_labels)]
  else if bool_decide (name = VERIFICATION_SECONDS) then Some [("mode", mode_labels)]
  else if bool_decide (name = SETTLEMENT_SECONDS) then Some []
  else if bool_decide (name = SESSIONS) then Some [("event", ["created"; "accepted"])]
  else if bool_decide (name = SESSION_REJECTIONS) then
    Some [("reason", ["malformed"; "expired"; "unknown"; "wrong_policy"; "quota_exhausted"; "backend"])]
  else if bool_decide (name = REPLAY_CLAIMS) then
    Some [("outcome", ["fresh"; "replay"; "backend_error"])]
  else if bool_decide (name = RATE_LIMIT) then Some [("outcome", ["allowed"; "denied"])]
  else if bool_decide (name = SETTLEMENT_AFTER_SERVE_FAILURES) then Some [("code", standard_codes)]
  else if bool_decide (name = STORE_ERRORS) then Some [("store", ["session"; "replay"])]
  else None.

Definition within (policies : list string) (m : Metric) : Prop :=
  ∃ schema, label_schema policies (m_name m) = Some schema ∧
    Forall2 (λ l s, l.1 = s.1 ∧ l.2 ∈ s.2) (m_labels m) schema.

(** The policy a choice brings in, from the proxy's own configuration. *)
Definition policy_of_choice (c : Choice) : option string :=
  match c with
  | Deliver _ m => policy_from_attributes m.(attributes)
  | StartCallout _ c => (check_request c).(policy)
  | _ => None
  end.

(** ** Lemmas *)

Definition labelled (policies : list string) (o : Op) : Prop :=
  match o with Emit name labels => within policies (mkMetric name labels) | _ => True end.

Lemma code_standard e : code e ∈ standard_codes.
Proof. destruct e; cbn; set_solver. Qed.
Lemma mode_label_in m : mode_label m ∈ mode_labels.
Proof. destruct m; set_solver. Qed.
Lemma rejection_label_in r :
  session_rejection_label r ∈
    ["malformed"; "expired"; "unknown"; "wrong_policy"; "quota_exhausted"; "backend"].
Proof. destruct r; set_solver. Qed.
Lemma claim_label_in c : replay_claim_label c ∈ ["fresh"; "replay"; "backend_error"].
Proof. destruct c; set_solver. Qed.

#[local] Hint Resolve code_standard mode_label_in rejection_label_in claim_label_in
  list_elem_of_here list_elem_of_further : x402.

Lemma label_schema_described policies name schema :
  label_schema policies name = Some schema → ∃ d, d ∈ describe ∧ d_name d = name.
Proof.
  unfold label_schema, describe. intros Hs.
  repeat (case_bool_decide; [subst; eexists (mkDescription _ _ _); split; [|reflexivity]; eauto 20 with x402|]).
  done.
Qed.

Section Labels.
#[local] Set Default Proof Using "Type*".
Context `{!Codecs, !Json, !SuiSdk}.
Context (app : App) (policies : list string).

Abbreviation ok := (only (labelled policies)).

(** An emission has the keys of its metric, and values of their sets. *)
#[local] Ltac emission :=
  match goal with
  | |- labelled _ (Emit _ _) =>
      eexists; split; [reflexivity|]; cbn [m_labels]; repeat apply Forall2_cons_2;
        try apply Forall2_nil_2; (split; [reflexivity|]); cbn [fst snd]; eauto 10 with x402
  | |- labelled _ _ => exact I
  end.

Lemma talk_session r : policy_label r.(policy) ∈ "default" :: policies → ok (session_prog r).
Proof. intros Hp. unfold session_prog, try_session_prog. walk; emission. Qed.

Lemma talk_payment r d : ok (payment_prog app r d).
Proof.
  unfold payment_prog, claim_prog, deferred_prog, immediate_prog, mint_prog, count_rejected_prog, mode_l.
  cbv zeta. walk; emission.
Qed.

Lemma talk_free r : policy_label r.(policy) ∈ "default" :: policies → ok (free_prog app r).
Proof. intros Hp. unfold free_prog. cbv zeta. walk; emission. Qed.

Lemma talk_decide r : policy_label r.(policy) ∈ "default" :: policies → ok (decide_prog app r).
Proof.
  intros Hp. unfold decide_prog. apply only_bind; [by apply talk_session|]. intros d.
  destruct d; [exact I|]. destruct (presented_payment r); [|by apply talk_free].
  apply only_bind; [apply talk_payment|]. by intros.
Qed.

Lemma policy_label_in p : (∀ n, p = Some n → n ∈ policies) → policy_label p ∈ "default" :: policies.
Proof. intros Hp. destruct p as [n|]; cbn; [right; by apply Hp|left]. Qed.

Lemma talk_message st m :
  (∀ n, policy_from_attributes m.(attributes) = Some n → n ∈ policies) → ok (message_task app st m).
Proof.
  intros Hp. unfold message_task, message_prog. apply only_bind; [|by intros].
  destruct (phase m) as [hs|hs|]; [| |exact I].
  - unfold request_prog. cbv zeta. apply only_bind; [by split|]. intros b.
    destruct (Breaker.accepts_payment b) eqn:Eb; cbn [negb andb]; cycle 1.
    + destruct (is_some_b _).
      * destruct b; try discriminate. walk; emission.
      * apply only_bind; [|by intros]. by apply talk_decide, policy_label_in.
    + apply only_bind; [|by intros]. by apply talk_decide, policy_label_in.
  - apply only_bind; [|by intros]. unfold response_prog, release_prog, outcome_prog, settled_prog.
    unfold failed_prog, mint_prog. cbv zeta. walk; emission.
Qed.

Lemma talk_callout c :
  (∀ n, (check_request c).(policy) = Some n → n ∈ policies) → ok (callout_task app c).
Proof.
  intros Hp. unfold callout_task. cbv zeta. apply only_bind; [|by intros].
  by apply talk_decide, policy_label_in.
Qed.

Lemma talk_calls r :
  ok (verify_task r) ∧ ok (settle_task app r) ∧ ok sweep_task.
Proof.
  unfold verify_task, api_verify_prog, settle_task, api_settle_prog, api_claim_prog, release_prog.
  unfold sweep_task, sweep_prog. split_and!; walk; exact I.
Qed.
End Labels.

(** *** Through a schedule *)

Section Schedule.
#[local] Set Default Proof Using "Type*".
Context `{!Codecs, !Json, !SuiSdk} {S L N : Type}
  `{!SuiNode N, !SessionBackend S, !RateBackend L}.
Context (app : App) (policies : list string).

(** An operation emits itself or nothing. *)
Definition emitted (o : Op) : list Metric :=
  match o with Emit name labels => [mkMetric name labels] | _ => [] end.

Lemma exec_metrics o (w : World S L N) :
  w_metrics (exec app.(facilitator) o w).2 = w_metrics w ++ emitted o.
Proof.
  destruct o; cbn [exec emitted]; rewrite ?app_nil_r; unfold_ops; cbn;
    repeat case_match; simplify_eq; done.
Qed.

Abbreviation labelling := (plain (labelled policies)).

Definition at_rest_talks (t : Task) : Prop :=
  match t with Waiting _ => True | Running p => only (labelled policies) p end.

Definition named (c : Choice) : Prop := ∀ p, policy_of_choice c = Some p → p ∈ policies.

Lemma labelling_rule :
  Rule app labelling tt (λ _ _, True) (λ _ _, True) named
    (λ _ _ (w : World S L N), Forall (within policies) (w_metrics w)).
Proof.
  split.
  - intros n m st g Hm _. apply wp_plain; [|done]. by apply talk_message.
  - intros [n|n m|n c|n r|n r|n|n|n] n' t Hp [= <- <-]; [done|apply wp_plain; [|done]..].
    + by apply talk_callout.
    + apply (talk_calls app policies r).
    + apply (talk_calls app policies r).
    + unfold sweep_task, sweep_prog. walk; exact I.
  - intros h own n o x w w' Hm Ho Hx. split; [done|].
    pose proof (exec_metrics o w) as Hw. rewrite Hx in Hw. cbn in Hw. rewrite Hw.
    apply Forall_app. split; [done|]. destruct o; try apply Forall_nil_2. by apply Forall_singleton.
  - intros h own n out w Hm _. by exists tt.
  - done.
Qed.
End Schedule.

(** ** Properties *)

(** The buckets are for the histograms: of the metrics described, exactly the
    histograms have the suffix, every counter ends in [_total], and all are in
    the namespace. *)
Theorem names_follow_the_conventions d (Hd : d ∈ describe) :
  starts_with "x402_" (d_name d) = true ∧
  match d_kind d with
  | Counter => ends_with "_total" (d_name d) = true ∧ has_buckets (d_name d) = false
  | Histogram => has_buckets (d_name d) = true
  end.
Proof.
  revert d Hd. apply Forall_forall. unfold describe. by repeat constructor.
Qed.

Lemma names_follow_the_conventions_witness :
  mkDescription SETTLEMENT_SECONDS Histogram "Time to settle a payment on chain." ∈ describe ∧
  has_buckets SETTLEMENT_SECONDS = true.
Proof.
  split; [do 3 right; left|].
  apply (names_follow_the_conventions
           (mkDescription SETTLEMENT_SECONDS Histogram "Time to settle a payment on chain.")).
  do 3 right. left.
Defined.

(** C20: The label space is closed.  Whatever clients send and however the
    handlers interleave, every metric emitted is one of those described, with
    exactly its labels, and each label takes its value from a fixed set: tiers,
    outcomes, error codes, modes, and the policies the proxy names.  No payer,
    address, session or digest of a client reaches a time series. *)
Theorem metrics_stay_described_and_bounded `{!Codecs, !Json, !SuiSdk} {S L N : Type}
    `{!SuiNode N, !SessionBackend S, !RateBackend L} (app : App) (policies : list string)
    (cs : list Choice) (srv : Server S L N)
    (Hpolicies : Forall (λ c, ∀ p, policy_of_choice c = Some p → p ∈ policies) cs)
    (Hrest : map_Forall (λ _ t, at_rest_talks policies t) (tasks srv))
    (Hbefore : Forall (within policies) (w_metrics (shared srv))) :
  Forall (λ m, within policies m ∧ ∃ d, d ∈ describe ∧ d_name d = m_name m)
    (w_metrics (shared (play app cs srv).2)).
Proof.
  destruct (play_keeps app _ _ _ _ _ _ (labelling_rule app policies) [] (λ _, tt) cs srv) as (_ & Hm & _).
  { split; [done|]. intros n t Hn. specialize (Hrest n t Hn). destruct t; [done|]. by apply wp_plain. }
  { done. }
  eapply Forall_impl; [done|]. intros m Hw. split; [done|].
  destruct Hw as (schema & Hs & _). by apply (label_schema_described policies _ schema).
Qed.

(** ** The property at a concrete input *)

(** The scuffle of [Concurrent], and a callout under the policy [api]. *)
Definition named_callout : CheckRequest :=
  mkCheck None (Some "203.0.113.7") None {[POLICY_CONTEXT_KEY := "api"]}.
Definition chatter : list Choice := scuffle ++ StartCallout 9 named_callout :: steps 9 4.

Lemma metrics_stay_described_and_bounded_witness :
  last (w_metrics (shared (play demo_app chatter demo_server).2)) =
    Some (mkMetric REQUESTS [("tier", "free"); ("decision", "allow"); ("policy", "api")]) ∧
  Forall (λ m, within ["api"] m ∧ ∃ d, d ∈ describe ∧ d_name d = m_name m)
    (w_metrics (shared (play demo_app chatter demo_server).2)).
Proof.
  split; [vm_compute; reflexivity|].
  apply (metrics_stay_described_and_bounded demo_app ["api"] chatter demo_server).
  - assert (Forall (λ o, o = None ∨ o = Some "api") (policy_of_choice <$> chatter)) as Hall.
    { assert (policy_of_choice <$> chatter = replicate (length scuffle) None ++ Some "api" :: replicate 4 None)
        as -> by (vm_compute; reflexivity).
      apply Forall_app. split; [apply Forall_replicate; by left|].
      apply Forall_cons. split; [by right|]. apply Forall_replicate. by left. }
    rewrite Forall_fmap in Hall. apply (Forall_impl _ _ _ Hall).
    intros c Hc p Hp. cbn in Hc. rewrite Hp in Hc. destruct Hc as [|[= ->]]; [done|]. constructor.
  - apply map_Forall_empty.
  - apply List.Forall_nil.
Defined.
