(* ===== verification/Gateway.v ===== *)
(** * The running gateway, a handler at a time

    Everything [main] serves, over one shared state: any number of [ext_proc]
    streams whose messages come in any order, [ext_authz] callouts, the
    facilitator's interface and the sweep.  An [Event] is one of them, and its
    handler is performed whole; [serve] performs a sequence of events and lists
    the payments they used.  Each such run is a schedule of [Schedule]. *)

From S2P Require Import Prelude RustStr Platform IpAddr Session Redis Config Json X402 Sui.
From S2P Require Import Facilitator Stores World Auth ExtProc FacilitatorApi Main Program Handlers Schedule.
From S2P Require Import Concurrent.
From S2P Require RateLimit Breaker.
From stdpp Require Import options.
#[local] Open Scope Z_scope.

Inductive Event :=
| OpenStream (s : nat)
| Arrive (s : nat) (m : Message)
| CloseStream (s : nat)
| Callout (c : CheckRequest)
| VerifyCall (r : FacilitatorRequest)
| SettleCall (r : FacilitatorRequest)
| SweepTick.

(** The shared state and the state of each open stream. *)
Record Gateway (S L N : Type) := mkGateway {
  shared : World S L N; streams : gmap nat StreamState }.
Arguments mkGateway {S L N} _ _.
Arguments shared {S L N} _.
Arguments streams {S L N} _.

Section Gateway.
Context `{!Codecs, !Json, !SuiSdk} {S L N : Type}
  `{!SuiNode N, !SessionBackend S, !RateBackend L}.
Context (app : App).

(** One event: the payment it used, if any, and the state after it.  A payment
    is used when a response that it pays for is delivered, when a callout lets
    a request through on it, and when [/settle] settles it.  A message on a
    stream that is not open does nothing; a panic ends its stream. *)
Definition act (e : Event) : M (Gateway S L N) (option string) := λ g,
  match e with
  | OpenStream s => (None, mkGateway (shared g) (<[s := StreamState_default]> (streams g)))
  | CloseStream s => (None, mkGateway (shared g) (delete s (streams g)))
  | Arrive s m =>
      match streams g !! s with
      | None => (None, g)
      | Some st =>
          let '(out, w) := handle app st m (shared g) in
          (if is_delivered m then waiting_for st else None,
           mkGateway w match out with
                       | Some (_, st) => <[s := st]> (streams g)
                       | None => delete s (streams g)
                       end)
      end
  | Callout c =>
      let r := check_request c in
      (if served_by_payment (decide app r (shared g)).1 then payment_of r else None,
       mkGateway (check app c (shared g)).2 (streams g))
  | VerifyCall r =>
      (None, mkGateway (api_verify app.(facilitator) r (shared g)).2 (streams g))
  | SettleCall r =>
      let '(a, w) := api_settle app.(facilitator) r (shared g) in
      (match a with
       | ApiOk s => if s.(sr_success) then payment_id r.(fr_payload) else None
       | BadRequest _ _ => None
       end, mkGateway w (streams g))
  | SweepTick => (None, mkGateway (sweep (shared g)).2 (streams g))
  end.

Fixpoint serve (es : list Event) (g : Gateway S L N) : list string * Gateway S L N :=
  match es with
  | [] => ([], g)
  | e :: es => let '(u, g) := act e g in
               let '(us, g) := serve es g in (option_list u ++ us, g)
  end.
End Gateway.

Definition lasting (app : App) (e : Event) : Prop :=
  match e with SettleCall r => lasting_request app r | _ => True end.

(** ** A handler performed whole is a schedule *)

Section Schedule.
#[local] Set Default Proof Using "Type*".
Context `{!Codecs, !Json, !SuiSdk} {S L N : Type}
  `{!SuiNode N, !SessionBackend S, !RateBackend L}.
Context (app : App).

Abbreviation G := (Gateway S L N).
Abbreviation run := (Program.run (S := S) (L := L) (N := N) app.(facilitator)).

(** The gateway as a server at rest. *)
Definition at_rest (g : G) : Server S L N := mkServer (shared g) (Waiting <$> streams g).

(** Played in the gateway's terms: the uses of payments and the state. *)
Definition outcome_of (r : list Schedule.Event * Server S L N) : list string * Server S L N :=
  (used_by r.1, r.2).

Lemma outcome_app cs cs' (srv : Server S L N) :
  outcome_of (play app (cs ++ cs') srv) =
    let '(us, srv1) := outcome_of (play app cs srv) in
    let '(us', srv2) := outcome_of (play app cs' srv1) in (us ++ us', srv2).
Proof.
  unfold outcome_of. rewrite play_app. destruct (play app cs srv) as [us srv1]. cbn [fst snd].
  destruct (play app cs' srv1) as [us' srv2]. cbn [fst snd]. unfold used_by. by rewrite omap_app.
Qed.

Lemma outcome_silent c cs (srv srv1 : Server S L N) :
  advance app c srv = (None, srv1) → outcome_of (play app (c :: cs) srv) = outcome_of (play app cs srv1).
Proof. intros Hc. cbn [play]. rewrite Hc. by destruct (play app cs srv1). Qed.

Lemma steps_finish n (p : Prog Outcome) T (w : World S L N) :
  T !! n = Some (Running p) →
  ∃ k, outcome_of (play app (steps n k) (mkServer w T)) =
    let '(out, w') := run p w in (option_list (o_used out), mkServer w' (leave n out T)).
Proof.
  revert T w. induction p as [out|o c IH]; intros T w Hn.
  - exists 1%nat. unfold outcome_of. cbn. rewrite Hn. cbn. by destruct (o_used out).
  - cbn [Program.run]. unfold bind. destruct (exec _ o w) as [x w1] eqn:Hx.
    destruct (IH x (<[n := Running (c x)]> T) w1 (lookup_insert_eq _ _ _)) as [k Hk].
    exists (1 + k)%nat. unfold outcome_of in *. cbn [steps Nat.add replicate play].
    unfold advance. cbn [tasks Schedule.shared]. rewrite Hn, Hx. unfold steps in Hk.
    destruct (play app (replicate k (Step n)) _) as [es srv]. cbn [fst snd option_list] in *.
    destruct (run (c x) w1) as [out w2]. injection Hk as Hu ->. f_equal; [exact Hu|]. unfold leave.
    destruct (o_next out); [by rewrite insert_insert_eq|by rewrite delete_insert_eq].
Qed.

(** A free number. *)
Definition spare (g : G) : nat := base.fresh (dom (streams g)).
Lemma spare_free g : (Waiting <$> streams g) !! spare g = None.
Proof.
  unfold spare.
  by rewrite lookup_fmap, (proj1 (not_elem_of_dom _ _) (is_fresh (dom (streams g)))).
Qed.

Lemma run_then {A} (p : Prog A) (g : A → Outcome) w :
  run (x ← p; Return (g x)) w = (λ '(x, w'), (g x, w')) (run p w).
Proof. rewrite run_bind. unfold bind. by destruct (run p w). Qed.

Lemma steps_lasting n k : Forall (lasting_choice app) (steps n k).
Proof. by apply Forall_replicate. Qed.

(** A call from its start to its end, under a free number. *)
Lemma call_schedule {A} (c : nat → Choice) (p : Prog A) (used : A → option string) (g : G) :
  lasting_choice app (c (spare g)) →
  (∀ n (srv : Server S L N),
     advance app (c n) srv = (None, start n (Running (a ← p; Return (done_with (used a)))) srv)) →
  ∃ cs, Forall (lasting_choice app) cs ∧
    outcome_of (play app cs (at_rest g)) =
      let '(a, w') := run p (shared g) in (option_list (used a), at_rest (mkGateway w' (streams g))).
Proof.
  intros Hl Hc. pose proof (spare_free g) as Hn. set (n := spare g) in *. set (t := a ← p; Return (done_with (used a))) in *.
  destruct (steps_finish n t (<[n := Running t]> (Waiting <$> streams g)) (shared g)
              (lookup_insert_eq _ _ _)) as [k Hk].
  exists (c n :: steps n k). split; [constructor; [done|apply steps_lasting]|].
  erewrite outcome_silent by apply Hc. unfold start, at_rest. cbn [tasks Schedule.shared].
  rewrite Hn, Hk. unfold t. rewrite run_then.
  destruct (run p (shared g)) as [a w']. cbn [o_used done_with option_list Datatypes.app]. unfold leave.
  cbn [o_next done_with]. by rewrite delete_insert_id.
Qed.

Lemma act_schedule e g :
  lasting app e →
  ∃ cs, Forall (lasting_choice app) cs ∧
    outcome_of (play app cs (at_rest g)) = let '(u, g') := act app e g in (option_list u, at_rest g').
Proof.
  intros Hl. destruct e as [s|s m|s|c|r|r|]; cbn [act].
  - exists [Drop s; Open s]. split; [by repeat constructor|]. cbn. unfold start, at_rest. cbn.
    by rewrite lookup_delete_eq, insert_delete_eq, fmap_insert.
  - destruct (streams g !! s) as [st|] eqn:Es; [|by exists []].
    assert (tasks (at_rest g) !! s = Some (Waiting st)) as Ht by (cbn; by rewrite lookup_fmap, Es).
    destruct (steps_finish s (message_task app st m) (<[s := Running (message_task app st m)]>
                (tasks (at_rest g))) (shared g) (lookup_insert_eq _ _ _)) as [k Hk].
    exists (Deliver s m :: steps s k). split; [constructor; [done|apply steps_lasting]|].
    erewrite outcome_silent by (cbn [advance]; by rewrite Ht).
    change (Schedule.shared (at_rest g)) with (shared g). rewrite Hk.
    unfold message_task. rewrite run_then, message_prog_runs.
    destruct (handle app st m (shared g)) as [out w']. cbn [o_used option_list]. f_equal.
    unfold leave, at_rest. cbn [o_next shared streams tasks].
    destruct out as [[reply st']|];
      [by rewrite insert_insert_eq, fmap_insert|by rewrite delete_insert_eq, fmap_delete].
  - exists [Drop s]. split; [by repeat constructor|]. cbn. unfold at_rest. cbn. by rewrite fmap_delete.
  - destruct (call_schedule (λ n, StartCallout n c) (decide_prog app (check_request c))
      (λ d, if served_by_payment d then payment_of (check_request c) else None) g)
      as (cs & Hcs & Hp); [done..|].
    exists cs. split; [done|]. rewrite Hp, decide_prog_runs. unfold check, bind, ret.
    by destruct (decide app (check_request c) (shared g)).
  - destruct (call_schedule (λ n, StartVerify n r) (api_verify_prog r) (λ _, None) g)
      as (cs & Hcs & Hp); [done..|].
    exists cs. split; [done|]. rewrite Hp, api_verify_prog_runs. by destruct (api_verify _ r (shared g)).
  - destruct (call_schedule (λ n, StartSettle n r) (api_settle_prog app.(facilitator) r) (settled_by r) g)
      as (cs & Hcs & Hp); [done..|].
    exists cs. split; [done|]. rewrite Hp, api_settle_prog_runs. by destruct (api_settle _ r (shared g)).
  - destruct (call_schedule (λ n, StartSweep n) sweep_prog (λ _, None) g) as (cs & Hcs & Hp); [done..|].
    exists cs. split; [done|]. rewrite Hp, sweep_prog_runs. by destruct (sweep (shared g)).
Qed.
End Schedule.

(** ** Properties *)

Section Properties.
#[local] Set Default Proof Using "Type*".
Context `{!Codecs, !Json, !SuiSdk} {S L N : Type}
  `{!SuiNode N, !SessionBackend S, !SingleUse S, !RateBackend L}.
Context (app : App).

(** Performing handlers whole is one of the ways they interleave: every run of
    the gateway is a schedule of the server, with the same uses of payments and
    the same state at its end. *)
Theorem serve_is_a_schedule (es : list Event) (g : Gateway S L N) (Hcalls : Forall (lasting app) es) :
  ∃ cs, Forall (lasting_choice app) cs ∧
    outcome_of (play app cs (at_rest g)) = let '(us, g') := serve app es g in (us, at_rest g').
Proof.
  revert g. induction Hcalls as [|e es He _ IH]; intros g; [by exists []|].
  destruct (act_schedule app e g He) as (cs & Hcs & Hp). cbn [serve].
  destruct (act app e g) as [u g1]. destruct (IH g1) as (cs' & Hcs' & Hp').
  destruct (serve app es g1) as [us g2]. exists (cs ++ cs'). split; [by apply Forall_app|].
  by rewrite outcome_app, Hp, Hp'.
Qed.

(** One payment buys one thing, when each message, callout and request is
    handled whole and they come in any order. *)
Theorem one_payment_buys_once (id : string) (es : list Event) (g : Gateway S L N)
    (Hu : ∀ i, is_u64 (w_clock (shared g) i))
    (Hmono : ∀ i j, (i ≤ j)%nat → w_clock (shared g) i ≤ w_clock (shared g) j)
    (Hend : ∀ i, w_clock (shared g) i < w_clock (shared g) (w_tick (shared g)) + gateway_ttl app)
    (Hkept : retains (gateway_ttl app) (w_sessions (shared g)))
    (Hcalls : Forall (lasting app) es)
    (Hfresh : map_Forall (λ _ st, matched st ∧ waiting_for st ≠ Some id) (streams g)) :
  (uses id (serve app es g).1 ≤ 1)%nat.
Proof.
  destruct (serve_is_a_schedule es g Hcalls) as (cs & Hcs & Hp).
  destruct (booked_once app id (w_clock (shared g) (w_tick (shared g))) cs (at_rest g)) as [Hb _];
    try done.
  - intros n t. cbn. rewrite lookup_fmap. destruct (streams g !! n) as [st|] eqn:E; [|done].
    intros [= <-]. exact (Hfresh n st E).
  - unfold outcome_of in Hp. destruct (serve app es g) as [us g']. cbn. by injection Hp as <- _.
Qed.
End Properties.

(** ** The property at a concrete input *)

Definition demo_gateway : Gateway (SessionStore Db.t) (RateLimiter Db.t) DemoNode.t :=
  mkGateway demo_world ∅.

(** Two streams race with one payment; the first wins it, its upstream fails,
    and a third spends it. *)
Definition race : list Event :=
  [OpenStream 0; OpenStream 1; Arrive 0 (request_message paying_wire);
   Arrive 1 (request_message paying_wire); Arrive 0 (response_message "500"); SweepTick;
   OpenStream 2; Arrive 2 (request_message paying_wire); Arrive 1 (response_message "200");
   Arrive 2 (response_message "200"); CloseStream 2].

Lemma one_payment_buys_once_witness :
  uses demo_id (serve demo_app race demo_gateway).1 = 1%nat ∧
  executions (shared (serve demo_app race demo_gateway).2) = 1%nat ∧
  (uses demo_id (serve demo_app race demo_gateway).1 ≤ 1)%nat.
Proof.
  split; [vm_compute; reflexivity|]. split; [vm_compute; reflexivity|].
  assert (gateway_ttl demo_app = 600) as Httl by (vm_compute; reflexivity).
  assert (∀ i, 1700000000 ≤ w_clock demo_world i ≤ 1700000100) as Hclk.
  { intros i. cbn. pose proof (Nat.le_min_r i 100). lia. }
  apply (one_payment_buys_once demo_app demo_id race demo_gateway).
  - intros i. specialize (Hclk i). change (is_u64 (w_clock demo_world i)).
    unfold is_u64, u64_max. lia.
  - intros i j Hij. change (w_clock demo_world i ≤ w_clock demo_world j). cbn.
    pose proof (Nat.min_le_compat_r i j 100 Hij). lia.
  - intros i. rewrite Httl. specialize (Hclk i).
    change (w_clock demo_world i < 1700000000 + 600). lia.
  - rewrite Httl. vm_compute. congruence.
  - repeat constructor.
  - apply map_Forall_empty.
Defined.
