(* ===== verification/Typing.v ===== *)
(** * Types the state keeps

    What the Rust types and the code's own discipline promise of the state,
    as an invariant: counters and times are [u64], a session never has more
    left than it was sold, the breaker remembers a bounded number of outcomes
    and probes only while it is open.  The backends promise it through the
    classes [TypedSessions] and [TypedLimiter]; handlers are checked against
    those, an operation at a time, so it holds however they interleave. *)

From S2P Require Import Prelude RustStr Float64 Platform IpAddr Session Redis Config Json X402 Sui.
From S2P Require Import Facilitator Stores World Auth ExtProc FacilitatorApi Main Program Handlers.
From S2P Require Import Schedule Concurrent.
From S2P Require RateLimit Breaker.
From stdpp Require Import options.
#[local] Open Scope Z_scope.

(** ** The promises of the backends *)

Definition outcome_ok (o : SessionOutcome) : Prop :=
  match o with
  | Accepted _ remaining quota expires_at => 0 ≤ remaining < quota ∧ is_u64 quota ∧ is_u64 expires_at
  | Rejected _ => True
  end.
Definition claim_ok (c : PaymentClaim) : Prop :=
  match c with Replay first_seen => is_u64 first_seen | _ => True end.

Class TypedSessions (S : Type) `{!SessionBackend S} := {
  sessions_ok : S → Prop;
  typed_consume now tok pol s : is_u64 now → sessions_ok s →
    sessions_ok (session_consume now tok pol s).2 ∧ outcome_ok (session_consume now tok pol s).1;
  typed_create now raw p pol q ttl s : is_u64 now → is_u64 q → is_u64 ttl → sessions_ok s →
    sessions_ok (session_create now raw p pol q ttl s).2;
  typed_claim now id ttl s : is_u64 now → sessions_ok s →
    sessions_ok (session_claim now id ttl s).2 ∧ claim_ok (session_claim now id ttl s).1;
  typed_release id s : sessions_ok s → sessions_ok (session_release id s).2;
  typed_sweep now s : sessions_ok s → sessions_ok (session_cleanup now s).2
}.

Definition allowance_ok (a : RateLimit.Allowance) : Prop :=
  0 ≤ RateLimit.remaining a ≤ RateLimit.limit a ∧ is_u64 (RateLimit.limit a) ∧
  is_u64 (RateLimit.reset_secs a).

Class TypedLimiter (L : Type) `{!RateBackend L} := {
  limiter_ok : L → Prop;
  typed_check now label ip max w l a l' : is_u64 now → is_u64 max → is_u64 w → limiter_ok l →
    rate_check now label ip max w l = Some (a, l') → limiter_ok l' ∧ allowance_ok a;
  typed_idle now l : limiter_ok l → limiter_ok (rate_cleanup now l).2
}.

(** ** The backends in memory keep them *)

Definition session_ok (x : Session) : Prop :=
  0 ≤ x.(quota_remaining) ≤ x.(quota) ∧ is_u64 x.(quota) ∧ is_u64 x.(expires_at).
Definition store_ok (s : MemorySessionStore) : Prop :=
  map_Forall (λ _, session_ok) s.(sessions) ∧ map_Forall (λ _, is_u64) s.(seen_payments).

Lemma sat_add_u64 a b : is_u64 a → is_u64 b → is_u64 (sat_add a b).
Proof. unfold is_u64, sat_add, u64_max. lia. Qed.
Lemma sat_sub_u64 a b : is_u64 a → 0 ≤ b → is_u64 (sat_sub a b).
Proof. unfold is_u64, sat_sub. lia. Qed.

Section MemoryTypes.
#[local] Set Default Proof Using "Type*".
Context `{!Codecs}.

#[export] Instance memory_typed_sessions : TypedSessions MemorySessionStore.
Proof.
  refine {| sessions_ok := store_ok |};
    cbn [session_consume session_create session_claim session_release session_cleanup memory_sessions].
  - intros now tok pol s Hnow Hs.
    destruct (consume_at tok pol now s) as [[p r q e|why] s'] eqn:E; cbn [fst snd].
    2: { apply consume_rejected_same in E as ->. done. }
    destruct Hs as [Hs Hseen]. revert E. unfold consume_at, spend_one.
    destruct (Session.verify _ _ _) as [c|]; [|done].
    destruct (sessions s !! c_session_id c) as [x|] eqn:Ex; [|done].
    destruct (_ <=? _); [done|]. destruct (negb _); [done|].
    pose proof (Hs _ _ Ex) as (Hq & Hu & He).
    destruct (Z.eqb_spec (quota_remaining x) 0); intros [= <- <- <- <- <-].
    split; [|by cbn; split_and!; (lia || done)]. split; [|done].
    apply map_Forall_insert_2; [|done]. split_and!; cbn; (lia || done).
  - intros now raw p pol q ttl s Hnow Hq Httl [Hs Hseen]. cbn. split; [|done].
    apply map_Forall_insert_2; [|done].
    split_and!; cbn; try (unfold is_u64 in *; lia). by apply sat_add_u64.
  - intros now id ttl s Hnow [Hs Hseen]. unfold claim_payment_at.
    destruct (seen_payments s !! id) as [t|] eqn:Et; [destruct (_ <=? _)|]; cbn;
      (split; [split; [done|]|]); cbn;
      first [exact I | exact Hseen | by apply map_Forall_insert_2 | by apply (Hseen id)].
  - intros id s [Hs Hseen]. split; [done|]. cbn. by apply map_Forall_delete.
  - intros now s [Hs Hseen]. split; cbn.
    + intros k x [Hx _]%map_lookup_filter_Some. by apply (Hs k).
    + intros k x [Hx _]%map_lookup_filter_Some. by apply (Hseen k).
Defined.

Definition window_ok (e : RateLimit.Window) : Prop :=
  is_u64 (RateLimit.start e) ∧ is_u64 (RateLimit.current e) ∧ is_u64 (RateLimit.previous e) ∧
  is_u64 (RateLimit.window_secs e).

Lemma window_start_u64 now w : is_u64 now → is_u64 w → 0 < w → is_u64 (RateLimit.window_start_of now w).
Proof.
  unfold RateLimit.window_start_of, is_u64. intros Hn Hw Hp.
  pose proof (Z.mod_pos_bound now w Hp). pose proof (Z.mod_le now w). lia.
Qed.

Lemma check_entry_ok e max w now :
  is_u64 now → is_u64 max → is_u64 w → 0 < w → window_ok e →
  window_ok (RateLimit.check_entry e max w now).2 ∧ allowance_ok (RateLimit.check_entry e max w now).1.
Proof.
  intros Hn Hm Hw Hp (H1' & H2' & H3' & H4').
  pose proof (window_start_u64 now w Hn Hw Hp) as Hws.
  assert (is_u64 0) as H0' by (unfold is_u64, u64_max; lia).
  unfold RateLimit.check_entry. cbv zeta.
  set (e' := RateLimit.roll _ _ _).
  assert (window_ok e') as He'.
  { subst e'. unfold RateLimit.roll. destruct (_ <? _); [|by split_and!].
    split_and!; cbn; try done. by destruct (_ =? _). }
  clearbody e'. destruct (f64_ge _ _); cbn [fst snd].
  - split; [done|]. split_and!; cbn; (done || (unfold is_u64 in *; lia) || apply wrap64_range).
  - split.
    + destruct He' as (? & ? & ? & ?). split_and!; cbn; try done. apply wrap64_range.
    + split_and!; cbn; try done; try apply wrap64_range;
        unfold RateLimit.remaining_after, sat_sub, f64_as_u64, is_u64 in *; lia.
Qed.

#[export] Instance memory_typed_limiter : TypedLimiter RateLimit.MemoryRateLimiter.
Proof.
  refine {| limiter_ok := map_Forall (λ _, window_ok) |}; cbn [rate_check rate_cleanup memory_limiter].
  - intros now label ip max w l a l' Hn Hm Hw Hl. unfold RateLimit.check_at.
    destruct (Z.ltb_spec 0 w) as [Hp|]; cbn [negb]; [|done].
    set (e := unwrap_or _ _).
    assert (window_ok e) as He.
    { subst e. destruct (l !! _) as [x|] eqn:Ex; [by apply (Hl _ _ Ex)|].
      split_and!; cbn; try (unfold is_u64, u64_max; lia); [by apply window_start_u64|done]. }
    destruct (check_entry_ok e max w now Hn Hm Hw Hp He) as [H1' H2'].
    destruct (RateLimit.check_entry e max w now) as [a0 e0]. intros [= <- <-].
    split; [by apply map_Forall_insert_2|done].
  - intros now l Hl k x [Hx _]%map_lookup_filter_Some. by apply (Hl k).
Defined.
End MemoryTypes.

(** The program's enums, on their in-memory side: what a Redis server stores is
    not the program's. *)
Section EnumTypes.
#[local] Set Default Proof Using "Type*".
Context `{!Codecs} {R : Type} `{!RedisCommands R}.

#[export] Instance enum_typed_sessions : TypedSessions (SessionStore R).
Proof.
  refine {| sessions_ok := λ s, match s with MemorySessions s => sessions_ok s | _ => False end |};
    cbn [session_consume session_create session_claim session_release session_cleanup enum_sessions].
  - intros now tok pol [s|s] Hn Hs; [|done]. unfold dispatch. rewrite via_eq. cbn [fst snd]. by apply typed_consume.
  - intros now raw p pol q ttl [s|s] Hn Hq Ht Hs; [|done]. unfold dispatch. rewrite via_eq. cbn [fst snd].
    by apply (typed_create now raw p pol q ttl).
  - intros now id ttl [s|s] Hn Hs; [|done]. unfold dispatch. rewrite via_eq. cbn [fst snd]. by apply typed_claim.
  - intros id [s|s] Hs; [|done]. unfold dispatch. rewrite via_eq. cbn [fst snd]. by apply (typed_release id).
  - intros now [s|s] Hs; [|done]. unfold dispatch. rewrite via_eq. cbn [fst snd]. by apply (typed_sweep now).
Defined.

#[export] Instance enum_typed_limiter : TypedLimiter (RateLimiter R).
Proof.
  refine {| limiter_ok := λ l, match l with MemoryLimiter l => limiter_ok l | _ => False end |};
    cbn [rate_check rate_cleanup enum_limiter].
  - intros now label ip max w [l|l] a l' Hn Hm Hw Hl; [|done].
    destruct (rate_check now label ip max w l) as [[a0 l0]|] eqn:E; [|done].
    intros [= <- <-]. by eapply typed_check in E.
  - intros now [l|l] Hl; [|done]. rewrite via_eq. cbn [fst snd]. by apply (typed_idle now).
Defined.
End EnumTypes.

(** ** The world *)

Definition breaker_window_ok (w : Breaker.Window) : Prop :=
  (length (Breaker.outcomes w) ≤ Breaker.WINDOW)%nat ∧
  (∀ t, Breaker.opened_at w = Some t → is_u64 t) ∧
  (Breaker.probing w = true → is_Some (Breaker.opened_at w)).
Definition breaker_ok (b : Breaker.SettlementBreaker) : Prop := map_Forall (λ _, breaker_window_ok) b.

Definition meter_ok (m : Meter) : Prop :=
  match m with
  | MeterFree remaining limit reset => 0 ≤ remaining ≤ limit ∧ is_u64 limit ∧ is_u64 reset
  | MeterSession remaining quota expires => 0 ≤ remaining ≤ quota ∧ is_u64 quota ∧ is_u64 expires
  | MeterUnknown => True
  end.

Definition decision_meter (d : Decision) : Meter :=
  match d with Allow _ _ _ _ _ m | Deny _ _ m => m end.

(** What the configuration's integers are in Rust. *)
Definition config_ok (c : Config) : Prop :=
  ∀ path pol, let p := policy_for c path pol in
    is_u64 p.(paid_tier).(paid_quota) ∧ is_u64 p.(paid_tier).(duration_secs) ∧
    is_u64 p.(free_tier).(max_requests) ∧ is_u64 p.(free_tier).(free_window_secs).

Definition paid_ok (t : PaidTierConfig) : Prop := is_u64 t.(paid_quota) ∧ is_u64 t.(duration_secs).
Definition free_ok (t : FreeTierConfig) : Prop := is_u64 t.(max_requests) ∧ is_u64 t.(free_window_secs).
Definition override_ok (o : PaymentOverride) : Prop :=
  (∀ t, o.(ov_free_tier) = Some t → free_ok t) ∧ (∀ t, o.(ov_paid_tier) = Some t → paid_ok t).
Record config_typed (c : Config) : Prop := {
  ct_free : free_ok c.(cfg_free_tier);
  ct_paid : paid_ok c.(cfg_paid_tier);
  ct_policies : map_Forall (λ _, override_ok) c.(policies);
  ct_routes : Forall (λ r, override_ok r.(overrides)) c.(routes)
}.

Lemma config_typed_ok c : config_typed c → config_ok c.
Proof.
  intros [Hf Hp Hpol Hr] path pol. rewrite policy_for_unfold. cbv zeta.
  set (base := mkResolved _ _ _ _).
  assert (∀ o l, override_ok o →
    let r := apply_to o base in
    let p := mkResolved l (payment r) (free_tier r) (paid_tier r) in
    is_u64 p.(paid_tier).(paid_quota) ∧ is_u64 p.(paid_tier).(duration_secs) ∧
    is_u64 p.(free_tier).(max_requests) ∧ is_u64 p.(free_tier).(free_window_secs)) as Ho.
  { intros o l [Hof Hop]. cbv zeta. unfold apply_to. cbn [paid_tier free_tier base].
    destruct (ov_paid_tier o) as [t|], (ov_free_tier o) as [t'|]; cbn;
      repeat match goal with
             | H : ∀ t, Some ?x = Some t → _ |- _ => specialize (H x eq_refl)
             end; unfold free_ok, paid_ok in *; by destruct_and?. }
  destruct (pol ≫= _) as [[n o]|] eqn:Eo.
  - apply Ho. destruct pol as [m|]; [|done]. cbn in Eo.
    destruct (policies c !! m) eqn:Em; [|done]. simplify_eq/=. by apply (Hpol n).
  - destruct (longest path (routes c)) as [r|] eqn:Er.
    + apply Ho. apply max_by_key_elem, matching_In in Er as [Hin _].
      rewrite Forall_forall in Hr. by apply Hr.
    + by destruct Hf, Hp.
Qed.

Lemma breaker_window_default : breaker_window_ok Breaker.Window_default.
Proof. split_and!; cbn; [lia|done|done]. Qed.

Lemma window_ok_of b p : breaker_ok b → breaker_window_ok (Breaker.window b p).
Proof.
  intros Hb. unfold Breaker.window. destruct (b !! p) as [w|] eqn:E; [by apply (Hb p)|].
  apply breaker_window_default.
Qed.

Lemma state_at_ok p now b : breaker_ok b → breaker_ok (Breaker.state_at p now b).2.
Proof.
  intros Hb. pose proof (window_ok_of b p Hb) as Hw. rewrite Breaker.state_at_snd.
  apply map_Forall_insert_2; [|done]. unfold Breaker.state_window.
  destruct (Breaker.opened_at _) as [t|] eqn:Et; [|done].
  destruct (_ <? _); [done|]. destruct (Breaker.probing _); [done|].
  destruct Hw as (Hl & Ho & _). split_and!; cbn; [done| |by eexists]. intros t' [= <-]. by apply Ho.
Qed.

Lemma pop_excess_length l : (length (Breaker.pop_excess l) ≤ Breaker.WINDOW)%nat.
Proof.
  induction l as [|x l IH]; cbn [Breaker.pop_excess]; [unfold Breaker.WINDOW; cbn; lia|].
  destruct (Nat.ltb_spec Breaker.WINDOW (length (x :: l))); [done|lia].
Qed.

Lemma record_at_ok p failed now b : is_u64 now → breaker_ok b → breaker_ok (Breaker.record_at p failed now b).
Proof.
  intros Hn Hb. unfold Breaker.record_at. apply map_Forall_insert_2; [|done].
  unfold Breaker.record_window. destruct failed; cbn [negb]; [|apply breaker_window_default].
  pose proof (pop_excess_length (Breaker.outcomes (Breaker.window b p) ++ [true])).
  destruct (Breaker.opened_at _); split_and!; cbn; try done.
  - by intros t' [= <-].
  - destruct (Breaker.over_threshold _); [by intros t' [= <-]|done].
Qed.

Section World.
#[local] Set Default Proof Using "Type*".
Context `{!Codecs, !Json, !SuiSdk} {S L N : Type} `{!SuiNode N}.
Context `{!SessionBackend S, !TypedSessions S, !RateBackend L, !TypedLimiter L}.

Record world_ok (w : World S L N) : Prop := {
  wo_clock : ∀ i, is_u64 (w_clock w i);
  wo_breaker : breaker_ok (w_breaker w);
  wo_sessions : sessions_ok (w_sessions w);
  wo_limiter : limiter_ok (w_limiter w)
}.

(** A handler is well typed with answers in [Q]. *)
Definition wt {A} (c : M (World S L N) A) (Q : A → Prop) : Prop :=
  ∀ w, world_ok w → world_ok (c w).2 ∧ Q (c w).1.

Lemma wt_ret {A} (a : A) (Q : A → Prop) : Q a → wt (ret a) Q.
Proof. by intros Ha w Hw. Qed.

Lemma wt_bind {A B} (c : M (World S L N) A) (k : A → M (World S L N) B) P Q :
  wt c P → (∀ a, P a → wt (k a) Q) → wt (bind c k) Q.
Proof.
  intros Hc Hk w Hw. unfold bind. destruct (Hc w Hw) as [Hw' Ha].
  destruct (c w) as [a w']. cbn [fst snd] in *. by apply (Hk a Ha).
Qed.

Lemma wt_weaken {A} (c : M (World S L N) A) (P Q : A → Prop) : wt c P → (∀ a, P a → Q a) → wt c Q.
Proof. intros Hc HPQ w Hw. destruct (Hc w Hw). auto. Qed.

Lemma wt_now : wt now_epoch_secs is_u64.
Proof. intros w [Hc Hb Hs Hl]. by split; [split|apply Hc]. Qed.
Lemma wt_draw : wt draw (λ _, True).
Proof. intros w [Hc Hb Hs Hl]. by split; [split|]. Qed.
Lemma wt_emit n l : wt (emit n l) (λ _, True).
Proof. intros w [Hc Hb Hs Hl]. by split; [split|]. Qed.
Lemma wt_chain {A} (f : M (Chain N) A) : wt (on_chain f) (λ _, True).
Proof.
  intros w [Hc Hb Hs Hl]. unfold on_chain. destruct (f (w_chain w)). by split; [split|].
Qed.
Lemma wt_sessions {A} (f : M S A) (Q : A → Prop) :
  (∀ s, sessions_ok s → sessions_ok (f s).2 ∧ Q (f s).1) → wt (on_sessions f) Q.
Proof.
  intros Hf w [Hc Hb Hs Hl]. unfold on_sessions. destruct (Hf _ Hs) as [Hs' HQ].
  destruct (f (w_sessions w)). by split; [split|].
Qed.
Lemma wt_breaker {A} (f : M Breaker.SettlementBreaker A) :
  (∀ b, breaker_ok b → breaker_ok (f b).2) → wt (on_breaker f) (λ _, True).
Proof.
  intros Hf w [Hc Hb Hs Hl]. unfold on_breaker. specialize (Hf _ Hb).
  destruct (f (w_breaker w)). by split; [split|].
Qed.

Lemma wt_consume tok pol : wt (consume tok pol) outcome_ok.
Proof.
  eapply wt_bind; [apply wt_now|]. intros now Hn. apply wt_sessions. intros s Hs. by apply typed_consume.
Qed.
Lemma wt_create p pol q ttl : is_u64 q → is_u64 ttl → wt (create_session p pol q ttl) (λ _, True).
Proof.
  intros Hq Ht. eapply wt_bind; [apply wt_draw|]. intros raw _.
  eapply wt_bind; [apply wt_now|]. intros now Hn. apply wt_sessions.
  intros s Hs. split; [|done]. by apply (typed_create now raw p pol q ttl).
Qed.
Lemma wt_claim id ttl : wt (claim_payment id ttl) claim_ok.
Proof.
  eapply wt_bind; [apply wt_now|]. intros now Hn. apply wt_sessions. intros s Hs. by apply typed_claim.
Qed.
Lemma wt_release id : wt (release_payment id) (λ _, True).
Proof. apply wt_sessions. intros s Hs. split; [|done]. by apply (typed_release id). Qed.
Lemma wt_cleanup_sessions : wt cleanup_sessions (λ _, True).
Proof.
  eapply wt_bind; [apply wt_now|]. intros now Hn. apply wt_sessions.
  intros s Hs. split; [|done]. by apply (typed_sweep now).
Qed.
Lemma wt_limiter {A} (f : L → option (A * L)) (Q : A → Prop) :
  (∀ l a l', limiter_ok l → f l = Some (a, l') → limiter_ok l' ∧ Q a) →
  wt (on_limiter f) (λ o, ∀ a, o = Some a → Q a).
Proof.
  intros Hf w Hw. pose proof Hw as [Hc Hb Hs Hl]. unfold on_limiter.
  destruct (f (w_limiter w)) as [[a l']|] eqn:E; cbn [fst snd]; [|done].
  destruct (Hf _ _ _ Hl E) as [Hl' HQ]. split; [by split|]. by intros ? [= <-].
Qed.
Lemma wt_cleanup_limiter : wt cleanup_limiter (λ _, True).
Proof.
  eapply wt_bind; [apply wt_now|]. intros now Hn.
  eapply wt_bind; [apply (wt_limiter _ (λ _, True))|].
  - intros l a l' Hl [= Heq]. split; [|done]. pose proof (typed_idle now l Hl) as Hi. by rewrite Heq in Hi.
  - intros o _. by apply wt_ret.
Qed.
Lemma wt_check label ip max w :
  is_u64 max → is_u64 w → wt (check_rate label ip max w) (λ o, ∀ a, o = Some a → allowance_ok a).
Proof.
  intros Hm Hw. eapply wt_bind; [apply wt_now|]. intros now Hn. apply wt_limiter.
  intros l a l' Hl Hc. by apply (typed_check now label ip max w l a l').
Qed.
Lemma wt_breaker_state p : wt (breaker_state p) (λ _, True).
Proof.
  eapply wt_bind; [apply wt_now|]. intros now Hn. apply wt_breaker. intros b. apply state_at_ok.
Qed.
Lemma wt_success p : wt (record_success p) (λ _, True).
Proof.
  eapply wt_bind; [apply wt_now|]. intros now Hn. apply wt_breaker. intros b. by apply record_at_ok.
Qed.
Lemma wt_failure p : wt (record_failure p) (λ _, True).
Proof.
  eapply wt_bind; [apply wt_now|]. intros now Hn. apply wt_breaker. intros b. by apply record_at_ok.
Qed.
End World.

(** ** The discipline

    What the arguments of an operation must be, and what its answers are. *)
Definition typing : Discipline := {|
  ghost := ();
  may o _ :=
    match o with
    | CreateSession _ _ q ttl => is_u64 q ∧ is_u64 ttl
    | CheckRate _ _ max w => is_u64 max ∧ is_u64 w
    | _ => True
    end;
  told o :=
    match o with
    | Now => is_u64
    | Consume _ _ => outcome_ok
    | ClaimPayment _ _ => claim_ok
    | CheckRate _ _ _ _ => λ x, ∀ a, x = Some a → allowance_ok a
    | _ => λ _, True
    end;
  after _ g _ := g
|}.

Section Operations.
#[local] Set Default Proof Using "Type*".
Context `{!Codecs, !Json, !SuiSdk} {S L N : Type} `{!SuiNode N}.
Context `{!SessionBackend S, !TypedSessions S, !RateBackend L, !TypedLimiter L}.

Lemma exec_typed f o (w : World S L N) :
  may typing o () → world_ok w → world_ok (exec f o w).2 ∧ told typing o (exec f o w).1.
Proof.
  intros Hmay Hw. revert w Hw. change (wt (exec f o) (told typing o)).
  destruct o; cbn [exec told may typing] in *; try destruct Hmay;
    first [apply wt_now|apply wt_emit|apply wt_consume|by apply wt_create|apply wt_claim|apply wt_release
          |apply wt_cleanup_sessions|apply wt_cleanup_limiter|by apply wt_check|apply wt_breaker_state
          |apply wt_success|apply wt_failure|apply wt_chain].
Qed.
End Operations.

(** ** The handlers *)

Section Handlers.
#[local] Set Default Proof Using "Type*".
Context `{!Codecs, !Json, !SuiSdk}.
Context (app : App) (Happ : config_ok app.(config)).

Abbreviation wp := (wp typing).

Definition decided (o : option Decision) : Prop := ∀ d, o = Some d → meter_ok (decision_meter d).

Lemma well_typed_session r g : wp (session_prog r) g (λ o _, decided o).
Proof using.
  unfold session_prog, try_session_prog. books; try done.
  intros d [= <-]. cbn in *. destruct_and?. unfold is_u64, sat_sub in *. split_and!; lia.
Qed.

Lemma well_typed_claim r p g : wp (claim_prog app r p) g (λ _ _, True).
Proof using. unfold claim_prog. cbv zeta. by books. Qed.

Lemma well_typed_mint payer pol path policy g :
  wp (mint_prog payer pol (policy_for app.(config) path policy).(paid_tier)) g (λ _ _, True).
Proof.
  unfold mint_prog. destruct payer; [|done]. split; [|by intros].
  destruct (Happ path policy) as (Hq & Hd & _). by split.
Qed.

Lemma well_typed_payment r decoded g : wp (payment_prog app r decoded) g (λ d _, meter_ok (decision_meter d)).
Proof.
  unfold payment_prog. destruct decoded as [p|e]; [|done]. apply wp_bind.
  eapply wp_mono; [apply well_typed_claim|]. intros [e|] g' _; [done|].
  destruct (settle_policy r); [unfold immediate_prog|unfold deferred_prog]; unfold count_rejected_prog;
    cbv zeta.
  2: by books.
  apply wp_bind, wp_call; [inert|]. intros [s|e] _; [|by books].
  apply wp_bind. eapply wp_mono; [apply well_typed_mint|]. intros tok g'' _. books.
  destruct (Happ (path r) (policy r)) as (Hq & Hd & _). cbn. unfold new_session_meter.
  destruct tok; [|done]. cbn. unfold is_u64 in *. unfold resolved. lia.
Qed.

Lemma well_typed_free r g : wp (free_prog app r) g (λ o _, decided o).
Proof.
  unfold free_prog. destruct (Happ (path r) (policy r)) as (_ & _ & Hm & Hw).
  destruct (client_ip r) as [ip|]; [|by intros d [= <-]].
  apply wp_bind. split; [done|]. intros [a|] Ha; [|done]. cbn in Ha.
  destruct (Ha a eq_refl) as (Hr & Hl & Hs). cbn [wp]. books; intros d [= <-]; exact (conj Hr (conj Hl Hs)).
Qed.

Lemma well_typed_decide r g : wp (decide_prog app r) g (λ o _, decided o).
Proof.
  unfold decide_prog. apply wp_bind. eapply wp_mono; [apply well_typed_session|].
  intros [d|] g' Hd; [done|]. destruct (presented_payment r) as [decoded|]; [|apply well_typed_free].
  apply wp_bind. eapply wp_mono; [apply well_typed_payment|]. intros d g'' Hm. by intros ? [= <-].
Qed.

(** *** The tasks *)

Definition stream_ok (st : StreamState) : Prop := meter_ok (st_meter st).
Definition leaves_ok (out : Outcome) (_ : ()) : Prop := ∀ st, o_next out = Some st → stream_ok st.

Lemma well_typed_callout c g : wp (callout_task app c) g leaves_ok.
Proof.
  unfold callout_task. cbv zeta. apply wp_bind. eapply wp_mono; [apply well_typed_decide|]. by intros o g' _.
Qed.

Lemma well_typed_calls r g : wp (verify_task r) g leaves_ok ∧ wp (settle_task app r) g leaves_ok.
Proof using.
  unfold verify_task, settle_task, api_verify_prog, api_settle_prog, api_claim_prog, release_prog.
  split; by books.
Qed.

Lemma well_typed_sweep g : wp sweep_task g leaves_ok.
Proof using. unfold sweep_task, sweep_prog. by books. Qed.

Lemma well_typed_message st m g : stream_ok st → wp (message_task app st m) g leaves_ok.
Proof.
  intros Hst. assert (∀ u g, leaves_ok (mkOutcome u (Some st)) g) as Hsame by (by intros u [] st' [= <-]).
  unfold message_task, message_prog. apply wp_bind. destruct (phase m) as [hs|hs|].
  - unfold request_prog. cbv zeta. books; try apply Hsame. eapply wp_mono; [apply well_typed_decide|].
    intros o g' Ho. cbn. destruct o as [[t p k s q m'|c r m']|]; [|done|by intros ? [=]].
    intros st' [= <-]. exact (Ho _ eq_refl).
  - apply wp_bind. assert (∀ u g, leaves_ok (mkOutcome u (Some (taken st))) g) as Htaken.
    { by intros u [] st' [= <-]. }
    unfold response_prog, release_prog. cbv zeta. books; try apply Htaken.
    unfold outcome_prog, settled_prog, failed_prog. cbv zeta. books; try apply Htaken.
    eapply wp_mono; [apply well_typed_mint|]. intros tok g' _. books; apply Htaken.
  - apply Hsame.
Qed.
End Handlers.

(** ** Properties *)

Section Properties.
#[local] Set Default Proof Using "Type*".
Context `{!Codecs, !Json, !SuiSdk} {S L N : Type} `{!SuiNode N}.
Context `{!SessionBackend S, !TypedSessions S, !RateBackend L, !TypedLimiter L}.
Context (app : App).

(** The state is typed, and so is what is open: a stream's meter, and whatever
    a handler that is under way will leave. *)
Record server_ok (srv : Server S L N) : Prop := {
  shared_ok : world_ok (shared srv);
  tasks_ok : map_Forall (λ _ t, match t with
                                | Waiting st => stream_ok st
                                | Running p => Program.wp typing p () leaves_ok
                                end) (tasks srv)
}.

Lemma typing_rule :
  config_ok app.(config) →
  Rule app typing () (λ st _, stream_ok st) leaves_ok (λ _, True) (λ _ _ (w : World S L N), world_ok w).
Proof.
  intros Happ. split.
  - intros n m st g _. by apply well_typed_message.
  - intros [n|n m|n c|n r|n r|n|n|n] n' t _ [= <- <-]; cbn [task_ok].
    + done.
    + by apply well_typed_callout.
    + apply (well_typed_calls app r).
    + apply (well_typed_calls app r).
    + apply well_typed_sweep.
  - intros h own n o x w w' Hw Hmay Hx. destruct (own n).
    pose proof (exec_typed app.(facilitator) o w Hmay Hw) as [Hw' Htold]. rewrite Hx in *. by split.
  - intros h own n out w Hw Hout. by exists ().
  - done.
Qed.

Lemma server_stays_ok (cs : list Choice) (srv : Server S L N) :
  config_ok app.(config) → server_ok srv → server_ok (play app cs srv).2.
Proof.
  intros Happ [Hw Ht].
  destruct (play_keeps app _ _ _ _ _ _ (typing_rule Happ) [] (λ _, ()) cs srv) as (own & Hw' & Ht').
  - split; [done|]. exact Ht.
  - by apply Forall_true.
  - split; [done|]. intros n t Hn. specialize (Ht' n t Hn). destruct t as [st|p]; [exact Ht'|].
    cbn [task_ok] in Ht'. by destruct (own n).
Qed.

End Properties.

(** ** The program with its stores in memory *)

(** The typed state, with nothing left to a backend to say. *)
Record typed_world {R N : Type} (w : World (SessionStore R) (RateLimiter R) N) : Prop := {
  tw_clock : ∀ i, is_u64 (w_clock w i);
  tw_breaker : map_Forall (λ _, breaker_window_ok) (w_breaker w);
  tw_sessions : ∃ s, w_sessions w = MemorySessions s ∧
    map_Forall (λ _ x, 0 ≤ x.(quota_remaining) ≤ x.(quota) ∧ is_u64 x.(quota) ∧ is_u64 x.(expires_at)) s.(sessions) ∧
    map_Forall (λ _, is_u64) s.(seen_payments);
  tw_limiter : ∃ l, w_limiter w = MemoryLimiter l ∧ map_Forall (λ _, window_ok) l
}.

(** And what a stream that waits will report of a meter. *)
Definition typed_server {R N : Type} (srv : Server (SessionStore R) (RateLimiter R) N) : Prop :=
  typed_world (shared srv) ∧ ∀ n st, tasks srv !! n = Some (Waiting st) → meter_ok (st_meter st).

Section InMemory.
#[local] Set Default Proof Using "Type*".
Context `{!Codecs, !Json, !SuiSdk} {R N : Type} `{!SuiNode N, !RedisCommands R}.

Lemma typed_world_ok (w : World (SessionStore R) (RateLimiter R) N) : typed_world w ↔ world_ok w.
Proof.
  split.
  - intros [Hc Hb (s & Hs & Hx & Hy) (l & Hl & Hw)]. split; [done|done| |].
    + rewrite Hs. by split.
    + by rewrite Hl.
  - intros [Hc Hb Hs Hl]. split; [done|done| |].
    + destruct (w_sessions w) as [s|s]; [|done]. exists s. by destruct Hs.
    + destruct (w_limiter w) as [l|l]; [|done]. by exists l.
Qed.

Lemma stays_typed app (cs : list Choice) (srv : Server (SessionStore R) (RateLimiter R) N) :
  config_typed app.(config) → typed_server srv →
  (∀ n p, tasks srv !! n ≠ Some (Running p)) → typed_server (play app cs srv).2.
Proof.
  intros Happ [Hw Hm] Hrest.
  destruct (server_stays_ok app cs srv (config_typed_ok _ Happ)) as [Hw' Ht'].
  { split; [by apply typed_world_ok|]. intros n [st|p] Hn; [by apply (Hm n)|by apply Hrest in Hn]. }
  split; [by apply typed_world_ok|]. intros n st Hn. exact (Ht' n _ Hn).
Qed.

(** C19: The state stays well typed, with the stores in memory.  From a state in
    which no handler is under way, whatever streams, callouts, facilitator
    requests and sweeps are opened, and however their handlers interleave, the
    state keeps the types of the program: both stores are still the in-memory
    ones; every session has no more left than was sold; quotas, deadlines, the
    times of claims and the limiter's four numbers are [u64]; each breaker
    window remembers at most [WINDOW] outcomes and probes only while it is
    open; and the meter that a stream will report is in range.  The clock gives
    [u64]s and the configuration's numbers fit their types.  (What a Redis
    server holds is not the program's, and not covered.) *)
Theorem state_stays_well_typed (app : App) (cs : list Choice)
    (srv : Server (SessionStore R) (RateLimiter R) N)
    (Happ : config_typed app.(config)) (Hsrv : typed_server srv)
    (Hrest : ∀ n p, tasks srv !! n ≠ Some (Running p)) :
  typed_server (play app cs srv).2.
Proof. by apply stays_typed. Qed.
End InMemory.

(** ** The properties at concrete inputs *)

Lemma demo_config_typed : config_typed demo_config.
Proof.
  assert (is_u64 0 ∧ is_u64 5 ∧ is_u64 60 ∧ is_u64 1000 ∧ is_u64 3600) as (? & ? & ? & ? & ?)
    by (unfold is_u64, u64_max; lia).
  split.
  - by split.
  - by split.
  - repeat (apply map_Forall_insert_2; [by split|]). apply map_Forall_empty.
  - repeat constructor; cbn; done.
Qed.

Lemma demo_world_typed : typed_world (N := DemoNode.t) demo_world.
Proof.
  split.
  - intros i. cbn. unfold is_u64, u64_max. lia.
  - apply map_Forall_empty.
  - exists demo_store. split; [done|]. split; apply map_Forall_empty.
  - exists RateLimit.new. split; [done|]. apply map_Forall_empty.
Qed.

Lemma state_stays_well_typed_witness :
  executions (shared (play demo_app scuffle demo_server).2) = 1%nat ∧
  typed_server (play demo_app scuffle demo_server).2.
Proof.
  split; [vm_compute; reflexivity|].
  apply (state_stays_well_typed demo_app scuffle demo_server demo_config_typed).
  - split; [apply demo_world_typed|]. intros n st. cbn. by rewrite lookup_empty.
  - intros n p. cbn. by rewrite lookup_empty.
Defined.
