(* ===== verification/Spending.v ===== *)
(** * A session is never oversold, on either backend

    Whatever streams and callouts do at once, the requests accepted on one
    session are no more than it had left.  A store is [Spendable]: it can bound
    what is left on a session, an accepted request takes one from the bound, and
    nothing adds to it but the sale of a session under that very identifier.
    The token names the session; whether it is authentic is the store's to say. *)

From Stdlib Require Import Ascii.
From S2P Require Import Prelude RustStr Platform IpAddr Session Redis Config Json X402 Sui.
From S2P Require Import Facilitator Stores World Auth ExtProc FacilitatorApi Main Program Handlers.
From S2P Require Import Schedule Concurrent.
From S2P Require RateLimit Breaker.
From stdpp Require Import options.
#[local] Open Scope Z_scope.

(** ** The promise of a store *)

(** The session a token names. *)
Definition named (token : string) : option string :=
  match split_on ":" (trim token) with [_; _; sid; _] => Some sid | _ => None end.

Definition spends_on (sid token : string) (o : SessionOutcome) : bool :=
  match o with Accepted _ _ _ _ => bool_decide (named token = Some sid) | Rejected _ => false end.
Definition spent_on (sid token : string) (o : SessionOutcome) : Z := count_if (spends_on sid token o).

(** [covers sid n s]: session [sid] can buy no more than [n] requests. *)
Class Spendable (S : Type) `{!Codecs, !SessionBackend S} := {
  covers : string → Z → S → Prop;
  covers_nonneg sid n s : covers sid n s → 0 ≤ n;
  covers_consume sid n now tok pol s : covers sid n s →
    covers sid (n - spent_on sid tok (session_consume now tok pol s).1) (session_consume now tok pol s).2;
  covers_create sid n now raw p pol q ttl s : new_session_id raw ≠ sid → covers sid n s →
    covers sid n (session_create now raw p pol q ttl s).2;
  covers_claim sid n now id ttl s : covers sid n s → covers sid n (session_claim now id ttl s).2;
  covers_release sid n id s : covers sid n s → covers sid n (session_release id s).2;
  covers_cleanup sid n now s : covers sid n s → covers sid n (session_cleanup now s).2;
  (* a sale covers its quota *)
  covers_sold now raw p pol q ttl s tok s' : 0 ≤ q ≤ 2 ^ 53 →
    session_create now raw p pol q ttl s = (Some tok, s') → covers (new_session_id raw) q s'
}.

Lemma verify_named `{!Codecs} key tok now c :
  Session.verify key tok now = Ok c → named tok = Some (c_session_id c).
Proof.
  unfold Session.verify, named. repeat case_match; try done. by intros [= <-].
Qed.

(** ** The store in memory keeps it *)

Section Memory.
#[local] Set Default Proof Using "Type*".
Context `{!Codecs}.

#[export] Instance memory_spendable : Spendable MemorySessionStore.
Proof.
  refine {| covers := λ sid n s, 0 ≤ n ∧ ∀ x, s.(sessions) !! sid = Some x → 0 ≤ quota_remaining x ≤ n |};
    cbn [session_consume session_create session_claim session_release session_cleanup memory_sessions].
  - by intros sid n s [].
  - intros sid n now tok pol s [Hn Hs]. unfold spent_on, count_if.
    destruct (consume_at tok pol now s) as [[p r q e|why] s'] eqn:E; cbn [fst snd spends_on].
    + apply consume_accepted_inv in E as (c & x & Hv & Hx & _ & _ & Hne & _ & -> & _ & _ & ->).
      rewrite (verify_named _ _ _ _ Hv). cbn [sessions with_sessions].
      case_bool_decide as Hsid.
      * injection Hsid as <-. specialize (Hs x Hx). split; [lia|]. intros y.
        rewrite lookup_insert_eq. intros [= <-]. cbn. lia.
      * rewrite lookup_insert_ne by congruence. rewrite Z.sub_0_r. by split.
    + apply consume_rejected_same in E as ->. rewrite Z.sub_0_r. by split.
  - intros sid n now raw p pol q ttl s Hne [Hn Hs]. split; [done|]. intros x. cbn.
    rewrite lookup_insert_ne by done. apply Hs.
  - intros sid n now id ttl s Hs. by rewrite claim_sessions.
  - by intros sid n id s Hs.
  - intros sid n now s [Hn Hs]. split; [done|]. intros x. rewrite lookup_live.
    destruct (sessions s !! sid) as [y|]; [|done]. case_match; [|done]. intros [= <-]. by apply Hs.
  - intros now raw p pol q ttl s tok s' Hq. cbn. intros [= _ <-]. split; [lia|]. intros x. cbn.
    rewrite lookup_insert_eq. intros [= <-]. cbn. lia.
Defined.
End Memory.

(** ** So does the shared one

    The quota is a field of the session's hash, whatever the time it is looked
    up at: commands on other keys leave it, the scripts' [HINCRBY] takes one. *)
Section Redis.
#[local] Set Default Proof Using "Type*".
Context `{!Codecs} {R : Type} `{!RedisCommands R, !RedisLaws R}.

Definition field_covers (sid : string) (n : Z) (r : R) : Prop :=
  0 ≤ n ≤ 2 ^ 53 ∧
  ∀ t v, redis_hget t (key sid) "quota" r = Some v → ∃ m, v = u_to_string m ∧ 0 ≤ m ≤ n.

Lemma field_covers_same sid n r r' :
  (∀ t, redis_hget t (key sid) "quota" r' = redis_hget t (key sid) "quota" r) →
  field_covers sid n r → field_covers sid n r'.
Proof using. intros Heq [Hn Hr]. split; [done|]. intros t v. rewrite Heq. apply Hr. Qed.

Lemma session_key_ne sid sid' : sid ≠ sid' → key sid ≠ key sid'.
Proof using. intros Hne Heq. by apply append_inj_l in Heq. Qed.

Lemma field_covers_le sid n n' r : n ≤ n' ≤ 2 ^ 53 → field_covers sid n r → field_covers sid n' r.
Proof using.
  intros Hn' [Hn Hr]. split; [lia|]. intros t v Hv. destruct (Hr t v Hv) as (m & -> & Hm).
  exists m. split; [done|lia].
Qed.

(** The script of a request takes one when it does not fail, on its own session. *)
Lemma spend_script_covers sid n t sid' pol r reply r' :
  field_covers sid n r → SPEND_SCRIPT t (key sid') pol r = (reply, r') →
  (r' = r ∧ ∀ x, reply = Some x → x.1.1 = -1 ∨ x.1.1 = -2 ∨ x.1.1 = -3) ∨
  (sid' ≠ sid ∧ field_covers sid n r') ∨ (sid' = sid ∧ field_covers sid (n - 1) r').
Proof.
  intros Hc. unfold SPEND_SCRIPT.
  destruct (redis_hget t (key sid') "payer" r) as [payer|]; [|intros [= <- <-]; left; split; [done|]; intros x [= <-]; auto].
  destruct (negb _); [intros [= <- <-]; left; split; [done|]; intros x [= <-]; auto|].
  destruct (redis_hget t (key sid') "quota" r) as [v|] eqn:Ev; cbn [mbind option_bind];
    [|intros [= <- <-]; left; split; [done|]; intros x [= <-]; auto].
  destruct (tonumber v) as [q|] eqn:Eq; [|intros [= <- <-]; left; split; [done|]; intros x [= <-]; auto].
  destruct (Z.leb_spec q 0); intros [= <- <-]; [left; split; [done|]; intros x [= <-]; auto|]. right.
  destruct (base.decide (sid' = sid)) as [->|Hne]; [right|left]; (split; [done|]).
  - destruct Hc as [Hn Hr]. destruct (Hr t v Ev) as (m & -> & Hm).
    rewrite tonumber_print in Eq by lia. injection Eq as <-. split; [lia|].
    intros t' v' Hv'. apply (hget_hincrby_at t t' _ _ m) in Hv' as ->; [|done|unfold i64_max; lia..].
    exists (m - 1). split; [f_equal; lia|lia].
  - eapply field_covers_same; [|exact Hc]. intros t'. by apply hget_hincrby_key, session_key_ne.
Qed.

Lemma redis_consume_covers sid n ks link now tok pol r :
  field_covers sid n r →
  field_covers sid (n - spent_on sid tok (redis_consume ks link now now tok pol r).1)
    (redis_consume ks link now now tok pol r).2.
Proof.
  intros Hc. unfold redis_consume. destruct (Session.verify _ _ _) as [c|why] eqn:Ev; cycle 1.
  { cbn. by rewrite Z.sub_0_r. }
  apply verify_named in Ev. pose proof Hc as [Hn _].
  set (script := SPEND_SCRIPT _ _ _). destruct (script r) as [reply r1] eqn:Es.
  pose proof (spend_script_covers _ _ _ _ _ _ _ _ Hc Es) as Hs.
  assert (field_covers sid n r1) as Hweak.
  { destruct Hs as [[-> _]|[[_ ?]|[_ ?]]]; [done..|]. by apply (field_covers_le sid (n - 1)); [lia|]. }
  destruct link; cbn [invoke]; rewrite ?Es; cbn [fst snd];
    [|cbn; by rewrite Z.sub_0_r|cbn; by rewrite Z.sub_0_r].
  destruct reply as [[[k payer] granted]|]; cycle 1.
  { cbn. by rewrite Z.sub_0_r. }
  cbn [fst snd]. unfold spent_on, count_if. destruct Hs as [[-> Hr]|[[Hne ?]|[_ ?]]].
  - specialize (Hr _ eq_refl). cbn in Hr. destruct Hr as [->|[->| ->]]; cbn; by rewrite Z.sub_0_r.
  - repeat case_match; try (by rewrite Z.sub_0_r); cbn [spends_on] in *; simplify_eq.
    rewrite Ev in *. case_bool_decide; congruence.
  - assert (∀ b : bool, field_covers sid (n - (if b then 1 else 0)) r1) as Hb.
    { intros []; [done|]. by rewrite Z.sub_0_r. }
    apply Hb.
Qed.

(** A stored session is covered by its quota, whenever it is looked up. *)
Lemma store_session_covers t sid payer pol q ttl r :
  0 ≤ q ≤ 2 ^ 53 → field_covers sid q (store_session t (key sid) payer pol q ttl r).
Proof.
  intros Hq. split; [done|]. intros t' v Hv. exists q. split; [|lia]. unfold store_session in Hv.
  assert (∀ t' v r, redis_hget t' (key sid) "quota" (redis_hset t (key sid) "policy" (unwrap_or pol "")
    (redis_hset t (key sid) "granted" (u_to_string q) (redis_hset t (key sid) "quota" (u_to_string q) r)))
    = Some v → v = u_to_string q) as Hset.
  { intros u w r0 Hw. do 2 (apply hget_hset_ne_at in Hw; [|done]). by apply hget_hset_at in Hw. }
  by apply hget_expire_at in Hv as [Hv|Hv]; apply Hset in Hv.
Qed.

Lemma store_session_other t sid sid' n payer pol q ttl r :
  sid' ≠ sid → field_covers sid n r → field_covers sid n (store_session t (key sid') payer pol q ttl r).
Proof.
  intros Hne. apply field_covers_same. intros t'. unfold store_session.
  by rewrite hget_expire_key, !hget_hset_key by (by apply session_key_ne).
Qed.

(** Claims and releases leave the hashes alone. *)
Lemma claim_keeps_fields sid f t now id ttl s :
  redis_hget t (key sid) f (rs_db (over_link (λ k, redis_claim_payment k now now id ttl) s).2)
  = redis_hget t (key sid) f (rs_db s).
Proof.
  destruct (over_link_db (λ k, redis_claim_payment k now now id ttl) s) as (k & _ & ->).
  unfold redis_claim_payment, invoke, CLAIM_SCRIPT.
  assert (REDIS_REPLAY_PREFIX +:+ id ≠ key sid) as Hne by discriminate.
  destruct k; try done; destruct (redis_get _ _ _); cbn; try done; destruct (redis_refuses_ex _ _ _); cbn; try done;
    repeat case_match; cbn; by rewrite ?hget_set_ex_key.
Qed.

Lemma release_keeps_fields sid f t id s :
  redis_hget t (key sid) f (rs_db (over_link (λ k r, (tt, redis_release_payment k id r)) s).2)
  = redis_hget t (key sid) f (rs_db s).
Proof.
  destruct (over_link_db (λ k r, (tt, redis_release_payment k id r)) s) as (k & _ & ->).
  unfold redis_release_payment. assert (REDIS_REPLAY_PREFIX +:+ id ≠ key sid) as Hne by discriminate.
  destruct k; cbn [snd]; try done; by apply hget_del_key.
Qed.

#[export] Instance redis_spendable : Spendable (RedisSessionStore R).
Proof.
  refine {| covers := λ sid n s, field_covers sid n s.(rs_db) |};
    cbn [session_consume session_create session_claim session_release session_cleanup redis_sessions].
  - by intros sid n s [[? _] _].
  - intros sid n now tok pol s Hc.
    destruct (over_link_db (λ k, redis_consume (rs_key s) k now now tok pol) s) as (k & -> & ->).
    by apply redis_consume_covers.
  - intros sid n now raw p pol q ttl s Hne Hc.
    destruct (over_link_db (λ k, redis_create_session (rs_key s) k now now p pol q ttl raw) s) as (k & _ & ->).
    unfold redis_create_session. destruct k; cbn [snd]; try done; by apply store_session_other.
  - intros sid n now id ttl s Hc. eapply field_covers_same; [|exact Hc]. intros t. apply claim_keeps_fields.
  - intros sid n id s Hc. eapply field_covers_same; [|exact Hc]. intros t. apply release_keeps_fields.
  - by intros sid n now s Hc.
  - intros now raw p pol q ttl s tok s' Hq Hs.
    destruct (over_link_db (λ k, redis_create_session (rs_key s) k now now p pol q ttl raw) s) as (k & H1 & H2).
    rewrite Hs in H1, H2. cbn [fst snd] in *. rewrite H2. unfold redis_create_session in *.
    destruct k; try done. by apply store_session_covers.
Defined.

(** The program's enum, on either side. *)
#[export] Instance enum_spendable : Spendable (SessionStore R).
Proof.
  refine {| covers := λ sid n s,
              match s with MemorySessions s => covers sid n s | RedisSessions s => covers sid n s end |};
    cbn [session_consume session_create session_claim session_release session_cleanup enum_sessions];
    unfold dispatch.
  - intros sid n [s|s]; apply covers_nonneg.
  - intros sid n now tok pol [s|s] Hc; rewrite via_eq; by apply covers_consume.
  - intros sid n now raw p pol q ttl [s|s] Hne Hc; rewrite via_eq; by apply covers_create.
  - intros sid n now id ttl [s|s] Hc; rewrite via_eq; by apply covers_claim.
  - intros sid n id [s|s] Hc; rewrite via_eq; by apply covers_release.
  - intros sid n now [s|s] Hc; rewrite via_eq; by apply covers_cleanup.
  - intros now raw p pol q ttl [s|s] tok s' Hq; rewrite via_eq; intros [= Ht <-];
      apply (covers_sold now raw p pol q ttl s tok); (done || rewrite <- Ht; apply surjective_pairing).
Defined.
End Redis.

(** ** The invariant *)

Definition spent_event (sid : string) (e : Event) : bool :=
  match e with Did (Consume tok _) o => spends_on sid tok o | _ => false end.

Section Invariant.
#[local] Set Default Proof Using "Type*".
Context `{!Codecs, !Json, !SuiSdk} {S L N : Type}
  `{!SuiNode N, !SessionBackend S, !Spendable S, !RateBackend L}.
Context (app : App) (sid : string) (n : Z).

(** The random identifiers to come are not this one. *)
Definition unrepeated (w : World S L N) : Prop :=
  ∀ i, (w_draws w ≤ i)%nat → new_session_id (w_entropy w i) ≠ sid.

Definition Covered (h : list Event) (_ : nat → ()) (w : World S L N) : Prop :=
  unrepeated w ∧ covers sid (n - Z.of_nat (tally (spent_event sid) h)) (w_sessions w).

Lemma exec_covers f o (w w' : World S L N) x m :
  unrepeated w → covers sid m (w_sessions w) → exec f o w = (x, w') →
  unrepeated w' ∧ covers sid (m - count_if (spent_event sid (Did o x))) (w_sessions w').
Proof.
  intros Hu Hc Hx.
  assert (∀ s, covers sid m s → covers sid (m - count_if false) s) as Hid
    by (intros s; cbn [count_if]; by rewrite Z.sub_0_r).
  destruct o; cbn [exec spent_event] in *; unfold_ops; cbn in Hx.
  all: repeat case_match; simplify_eq; try (split; [done|by apply Hid]).
  all: match goal with
       | E : session_consume ?t ?k ?p ?s = _ |- _ => pose proof (covers_consume sid m t k p s Hc) as Hm
       | E : session_create ?t ?r ?p ?o ?q ?d ?s = _ |- _ =>
           pose proof (covers_create sid m t r p o q d s (Hu _ (Nat.le_refl _)) Hc) as Hm
       | E : session_claim ?t ?i ?d ?s = _ |- _ => pose proof (covers_claim sid m t i d s Hc) as Hm
       | E : session_release ?i ?s = _ |- _ => pose proof (covers_release sid m i s Hc) as Hm
       | E : session_cleanup ?t ?s = _ |- _ => pose proof (covers_cleanup sid m t s Hc) as Hm
       end.
  all: match goal with E : ?c (w_sessions _) = _ |- _ => rewrite E in Hm end; cbn [fst snd] in Hm.
  all: (split; [intros i Hi; cbn in *; apply Hu; lia|cbn [w_sessions]]).
  all: first [exact Hm | by apply Hid].
Qed.

Lemma covered_rule :
  Rule app (plain (λ _, True)) tt (λ _ _, True) (λ _ _, True) (λ _, True) Covered.
Proof.
  split.
  - intros k m st g _ _. apply wp_plain; [apply only_anything|done].
  - intros c k [st|p] _ _; [done|]. apply wp_plain; [apply only_anything|done].
  - intros h own k o x w w' [Hu Hc] _ Hx. split; [done|].
    destruct (exec_covers app.(facilitator) o w w' x _ Hu Hc Hx) as [Hu' Hc'].
    split; [done|]. rewrite tally_next. by rewrite Z.sub_add_distr.
  - intros h own k out w [Hu Hc] _. exists tt. split; [done|]. split; [done|].
    rewrite tally_next. cbn [spent_event count_if]. by rewrite Z.add_0_r.
  - done.
Qed.
End Invariant.

(** A sale that gives a token out covers the session with the quota it was sold
    with: from there on [covered_rule] counts. *)
Lemma sale_covers `{!Codecs, !Json, !SuiSdk} {S L N : Type}
    `{!SuiNode N, !SessionBackend S, !Spendable S, !RateBackend L}
    f payer pol q ttl tok (w w' : World S L N) :
  0 ≤ q ≤ 2 ^ 53 → exec f (CreateSession payer pol q ttl) w = (Some tok, w') →
  covers (new_session_id (w_entropy w (w_draws w))) q (w_sessions w').
Proof.
  intros Hq Hx. cbn [exec] in Hx. unfold_ops. cbn in Hx.
  destruct (session_create _ _ _ _ _ _ _) as [o s] eqn:E. injection Hx as -> <-. cbn [w_sessions].
  by eapply covers_sold.
Qed.
