(* ===== verification/Revenue.v ===== *)
(** * Nothing is served on credit

    What a gateway gives away on sessions against what it is paid, over every
    schedule of [Schedule].  A store of sessions is [Metered]: it can bound the
    requests that are left on all it sold, an accepted request takes one from
    the bound, and only a sale adds to it.  Both backends are.  A handler sells a
    session only with the credit of a settlement that succeeded. *)

From S2P Require Import Prelude RustStr Platform IpAddr Session Redis Config Json X402 Sui.
From S2P Require Import Facilitator Stores World Auth ExtProc FacilitatorApi Main Program Handlers.
From S2P Require Import Schedule Concurrent Spending.
From S2P Require RateLimit Breaker.
From stdpp Require Import options.
#[local] Open Scope Z_scope.

(** ** The promise of a store *)

Definition accepts (o : SessionOutcome) : Z := match o with Accepted _ _ _ _ => 1 | Rejected _ => 0 end.

(** [owes most n s]: the sessions of [s] can buy no more than [n] requests
    together; it can count quotas up to [most]. *)
Class Metered (S : Type) `{!SessionBackend S} := {
  owes : Z → Z → S → Prop;
  owes_nonneg most n s : owes most n s → 0 ≤ n;
  owes_le most n n' s : n ≤ n' → owes most n s → owes most n' s;
  owes_consume most n now tok pol s : owes most n s →
    owes most (n - accepts (session_consume now tok pol s).1) (session_consume now tok pol s).2;
  owes_create most n now raw p pol q ttl s : 0 ≤ q ≤ most → owes most n s →
    owes most (n + q) (session_create now raw p pol q ttl s).2;
  owes_claim most n now id ttl s : owes most n s → owes most n (session_claim now id ttl s).2;
  owes_release most n id s : owes most n s → owes most n (session_release id s).2;
  owes_cleanup most n now s : owes most n s → owes most n (session_cleanup now s).2
}.

(** ** The store in memory keeps it *)

(** The sum of a measure over a map. *)
Section Total.
Context {A : Type} (f : A → Z).

Definition total (m : gmap string A) : Z := map_fold (λ _ x n, f x + n) 0 m.

Lemma total_empty : total ∅ = 0.
Proof. apply map_fold_empty. Qed.

Lemma total_fresh k x m : m !! k = None → total (<[k := x]> m) = f x + total m.
Proof. intros Hk. unfold total. rewrite map_fold_insert_L; [done| |done]. intros. lia. Qed.

Lemma total_delete k x m : m !! k = Some x → total m = f x + total (delete k m).
Proof.
  intros Hk. rewrite <- (insert_delete_id m k x Hk) at 1. apply total_fresh, lookup_delete_eq.
Qed.

Lemma total_insert k x m :
  total (<[k := x]> m) = f x + total m - match m !! k with Some y => f y | None => 0 end.
Proof.
  rewrite (total_delete k x) by apply lookup_insert_eq. rewrite delete_insert_eq.
  destruct (m !! k) as [y|] eqn:E; [rewrite (total_delete k y m) by done|rewrite delete_id by done]; lia.
Qed.

Lemma total_nonneg m : map_Forall (λ _ x, 0 ≤ f x) m → 0 ≤ total m.
Proof.
  induction m as [|k x m Hk Hfold IH] using map_first_key_ind; [by rewrite total_empty|].
  rewrite map_Forall_insert by done. intros [Hx Hm]. rewrite total_fresh by done. specialize (IH Hm). lia.
Qed.

Lemma total_filter (P : string * A → Prop) `{!∀ x, base.Decision (P x)} m :
  map_Forall (λ _ x, 0 ≤ f x) m → total (filter P m) ≤ total m.
Proof.
  induction m as [|k x m Hk Hfold IH] using map_first_key_ind; [by rewrite map_filter_empty|].
  rewrite map_Forall_insert by done. intros [Hx Hm]. specialize (IH Hm). rewrite total_fresh by done.
  destruct (base.decide (P (k, x))) as [Hp|Hp].
  - rewrite map_filter_insert_True by done. rewrite total_fresh; [lia|].
    apply map_lookup_filter_None. by left.
  - rewrite map_filter_insert_False, delete_id by done. lia.
Qed.
End Total.

Section Memory.
#[local] Set Default Proof Using "Type*".
Context `{!Codecs}.

Definition memory_owes (n : Z) (s : MemorySessionStore) : Prop :=
  map_Forall (λ _ x, 0 ≤ quota_remaining x) s.(sessions) ∧ total quota_remaining s.(sessions) ≤ n.

#[export] Instance memory_metered : Metered MemorySessionStore.
Proof.
  refine {| owes := λ _, memory_owes |};
    cbn [session_consume session_create session_claim session_release session_cleanup memory_sessions].
  - intros _ n s [Hs Hn]. pose proof (total_nonneg quota_remaining _ Hs). lia.
  - intros _ n n' s Hle [Hs Hn]. split; [done|lia].
  - intros _ n now tok pol s [Hs Hn].
    destruct (consume_at tok pol now s) as [[p r q e|why] s'] eqn:E; cbn [fst snd accepts].
    + apply consume_accepted_inv in E as (c & x & _ & Hx & _ & _ & Hne & _ & -> & _ & _ & ->).
      assert (0 ≤ quota_remaining x) by apply (Hs _ _ Hx). unfold memory_owes. cbn [sessions with_sessions]. split.
      * apply map_Forall_insert_2; [cbn; lia|done].
      * rewrite total_insert, Hx. cbn [quota_remaining set_remaining]. lia.
    + apply consume_rejected_same in E as ->. split; [done|lia].
  - intros most n now raw p pol q ttl s Hq [Hs Hn]. cbn. split; [apply map_Forall_insert_2; [cbn; lia|done]|].
    cbn. rewrite total_insert. destruct (sessions s !! _) as [y|] eqn:Hy; cbn [quota_remaining]; [|lia].
    assert (0 ≤ quota_remaining y) by apply (Hs _ _ Hy). lia.
  - intros _ n now id ttl s Hs. unfold memory_owes. by rewrite claim_sessions.
  - by intros _ n id s Hs.
  - intros _ n now s [Hs Hn]. unfold memory_owes. cbn [cleanup_expired_at snd with_seen with_sessions sessions].
    split; [intros k x [Hx _]%map_lookup_filter_Some; by apply (Hs k)|].
    etrans; [by apply total_filter|done].
Defined.
End Memory.

(** ** So does the shared one

    A ledger of what is left on each session in Redis: what it does not list has
    no quota at any time. *)
Section Redis.
#[local] Set Default Proof Using "Type*".
Context `{!Codecs} {R : Type} `{!RedisCommands R, !RedisLaws R}.

Definition lists (m : gmap string Z) (r : R) : Prop :=
  ∀ sid, match m !! sid with
         | Some k => field_covers sid k r
         | None => ∀ t, redis_hget t (key sid) "quota" r = None
         end.
Definition redis_owes (n : Z) (r : R) : Prop := ∃ m, lists m r ∧ total id m ≤ n.

Lemma lists_nonneg m r : lists m r → map_Forall (λ _ k, 0 ≤ id k) m.
Proof using. intros Hm sid k Hk. specialize (Hm sid). rewrite Hk in Hm. destruct Hm as [[? _] _]. done. Qed.

Lemma lists_same m r r' :
  (∀ sid t, redis_hget t (key sid) "quota" r' = redis_hget t (key sid) "quota" r) → lists m r → lists m r'.
Proof using.
  intros Heq Hm sid. specialize (Hm sid). destruct (m !! sid).
  - eapply field_covers_same; [|done]. intros t. apply Heq.
  - intros t. by rewrite Heq.
Qed.

Lemma lists_update m r r' sid k :
  (∀ sid' t, sid' ≠ sid → redis_hget t (key sid') "quota" r' = redis_hget t (key sid') "quota" r) →
  field_covers sid k r' → lists m r → lists (<[sid := k]> m) r'.
Proof using.
  intros Heq Hk Hm sid'. destruct (base.decide (sid = sid')) as [<-|Hne].
  - by rewrite lookup_insert_eq.
  - rewrite lookup_insert_ne by done. specialize (Hm sid'). destruct (m !! sid').
    + eapply field_covers_same; [|done]. intros t. by apply Heq.
    + intros t. by rewrite Heq.
Qed.

(** A request on a session the ledger does not list fails. *)
Lemma spend_script_unlisted t sid pol r :
  (∀ t, redis_hget t (key sid) "quota" r = None) →
  ∃ n who, SPEND_SCRIPT t (key sid) pol r = (Some (n, who, 0), r) ∧ (n = -1 ∨ n = -2 ∨ n = -3).
Proof using.
  intros Hnone. unfold SPEND_SCRIPT. rewrite Hnone. cbn [mbind option_bind].
  destruct (redis_hget t (key sid) "payer" r); [destruct (negb _)|]; eauto 10.
Qed.

Lemma spend_script_elsewhere t t' sid sid' pol r :
  sid' ≠ sid →
  redis_hget t' (key sid') "quota" (SPEND_SCRIPT t (key sid) pol r).2 = redis_hget t' (key sid') "quota" r.
Proof.
  intros Hne. unfold SPEND_SCRIPT. repeat case_match; try done. cbn [snd].
  by apply hget_hincrby_key, session_key_ne.
Qed.

(** One request, whatever the link does: the ledger pays for what is accepted. *)
Lemma redis_consume_owes n ks link now tok pol r :
  redis_owes n r →
  redis_owes (n - accepts (redis_consume ks link now now tok pol r).1)
    (redis_consume ks link now now tok pol r).2.
Proof.
  intros (m & Hm & Hn). unfold redis_consume. destruct (Session.verify _ _ _) as [c|why]; cycle 1.
  { exists m. cbn. split; [done|lia]. }
  set (sid := c_session_id c). set (script := SPEND_SCRIPT _ _ _).
  destruct (script r) as [reply r1] eqn:Es.
  assert (redis_owes (n - 0) r) as Hkeep by (exists m; split; [done|lia]).
  pose proof (Hm sid) as Hsid. destruct (m !! sid) as [k|] eqn:Ek; cycle 1.
  { destruct (spend_script_unlisted now sid (unwrap_or pol "") r Hsid) as (x & who & Hs & Hx).
    fold script in Hs. rewrite Hs in Es. injection Es as <- <-.
    destruct link; cbn [invoke]; rewrite ?Hs; try exact Hkeep.
    destruct Hx as [->|[->| ->]]; exact Hkeep. }
  destruct (spend_script_covers sid k _ _ _ _ _ _ Hsid Es) as [[-> Hneg]|[[? _]|[_ Hk]]]; [|done|].
  - destruct link; cbn [invoke]; rewrite ?Es; try exact Hkeep.
    destruct reply as [[[x who] q]|]; [|exact Hkeep]. specialize (Hneg _ eq_refl). cbn in Hneg.
    destruct Hneg as [->|[->| ->]]; exact Hkeep.
  - assert (lists (<[sid := k - 1]> m) r1) as Hm'.
    { apply (lists_update m r); [|done..]. intros sid' t Hne.
      pose proof (spend_script_elsewhere now t sid sid' (unwrap_or pol "") r Hne) as He.
      fold script in He. by rewrite Es in He. }
    assert (∀ d, d ≤ 1 → redis_owes (n - d) r1) as Htaken.
    { intros d Hd. eexists. split; [exact Hm'|]. rewrite total_insert, Ek. unfold id in *. lia. }
    destruct link; cbn [invoke]; rewrite ?Es; cbn [fst snd]; [|exact Hkeep|by apply Htaken].
    destruct reply as [[[x who] q]|]; [|by apply Htaken]. apply Htaken. repeat case_match; done.
Qed.

Lemma store_session_owes most n t sid payer pol q ttl r :
  0 ≤ q ≤ most → most ≤ 2 ^ 53 → redis_owes n r → redis_owes (n + q) (store_session t (key sid) payer pol q ttl r).
Proof.
  intros Hq Hmost (m & Hm & Hn). exists (<[sid := q]> m). split.
  - apply (lists_update m r); [|by apply store_session_covers; lia|done].
    intros sid' t' Hne. unfold store_session. pose proof (session_key_ne sid sid' (not_eq_sym Hne)).
    by rewrite hget_expire_key, !hget_hset_key by done.
  - rewrite total_insert. destruct (m !! sid) as [k|] eqn:Ek; unfold id in *; [|lia].
    pose proof (lists_nonneg m r Hm sid k Ek) as Hk. unfold id in Hk. lia.
Qed.

#[export] Instance redis_metered : Metered (RedisSessionStore R).
Proof.
  refine {| owes := λ most n s, most ≤ 2 ^ 53 ∧ redis_owes n s.(rs_db) |};
    cbn [session_consume session_create session_claim session_release session_cleanup redis_sessions].
  - intros _ n s [_ (m & Hm & Hn)]. pose proof (total_nonneg id m (lists_nonneg _ _ Hm)). lia.
  - intros most n n' s Hle [Hmost (m & Hm & Hn)]. split; [done|]. exists m. split; [done|lia].
  - intros most n now tok pol s [Hmost Hs]. split; [done|].
    destruct (over_link_db (λ k, redis_consume (rs_key s) k now now tok pol) s) as (k & -> & ->).
    by apply redis_consume_owes.
  - intros most n now raw p pol q ttl s Hq [Hmost Hs]. split; [done|].
    destruct (over_link_db (λ k, redis_create_session (rs_key s) k now now p pol q ttl raw) s) as (k & _ & ->).
    unfold redis_create_session. destruct k; cbn [snd]; try by apply (store_session_owes most).
    destruct Hs as (m & Hm & Hn). exists m. split; [done|lia].
  - intros most n now id ttl s [Hmost (m & Hm & Hn)]. split; [done|]. exists m. split; [|done].
    eapply lists_same; [|exact Hm]. intros sid t. apply claim_keeps_fields.
  - intros most n id s [Hmost (m & Hm & Hn)]. split; [done|]. exists m. split; [|done].
    eapply lists_same; [|exact Hm]. intros sid t. apply release_keeps_fields.
  - done.
Defined.

(** The program's enum, on either side. *)
#[export] Instance enum_metered : Metered (SessionStore R).
Proof.
  refine {| owes := λ most n s,
              match s with MemorySessions s => owes most n s | RedisSessions s => owes most n s end |};
    cbn [session_consume session_create session_claim session_release session_cleanup enum_sessions];
    unfold dispatch.
  - intros most n [s|s]; apply owes_nonneg.
  - intros most n n' [s|s]; apply owes_le.
  - intros most n now tok pol [s|s] Hs; rewrite via_eq; by apply owes_consume.
  - intros most n now raw p pol q ttl [s|s] Hq Hs; rewrite via_eq; by apply owes_create.
  - intros most n now id ttl [s|s] Hs; rewrite via_eq; by apply owes_claim.
  - intros most n id [s|s] Hs; rewrite via_eq; by apply owes_release.
  - intros most n now [s|s] Hs; rewrite via_eq; by apply owes_cleanup.
Defined.
End Redis.

(** ** Credit *)

(** The events of the accounts. *)
Definition accepted_event (e : Event) : bool :=
  match e with Did (Consume _ _) (Accepted _ _ _ _) => true | _ => false end.
Definition sold_event (e : Event) : bool :=
  match e with Did (CreateSession _ _ _ _) _ => true | _ => false end.
Definition settled_event (e : Event) : bool :=
  match e with Did (Settle _ _) (Ok _) => true | _ => false end.

(** The quota of some policy of the configuration. *)
Definition on_offer (app : App) (q : Z) : Prop :=
  ∃ path pol, q = (policy_for app.(config) path pol).(paid_tier).(paid_quota).

(** A settlement that succeeds is a credit; a session costs one. *)
Definition credit (app : App) : Discipline := {|
  ghost := bool;
  may o g := match o with CreateSession _ _ q _ => g = true ∧ on_offer app q | _ => True end;
  told _ _ := True;
  after o g :=
    match o with
    | CreateSession _ _ _ _ => λ _, false
    | Settle _ _ => λ x, g || is_ok x
    | _ => λ _, g
    end
|}.

Section Credit.
#[local] Set Default Proof Using "Type*".
Context `{!Codecs, !Json, !SuiSdk}.
Context (app : App).

Abbreviation wp := (wp (credit app)).

Lemma sells_mint payer pol path policy g (Q : option string → bool → Prop) :
  g = true → (∀ x g, Q x g) →
  wp (mint_prog payer pol (policy_for app.(config) path policy).(paid_tier)) g Q.
Proof.
  intros -> HQ. unfold mint_prog. destruct payer; [|apply HQ]. split; [|intros x _; apply HQ]. split; [done|].
  by eexists _, _.
Qed.

(** What sells nothing earns its result with any ghost. *)
#[local] Ltac nothing_sold := apply wp_inert; [walk; inert|intros ?].

Lemma sells_payment r d g (Q : Auth.Decision → bool → Prop) :
  (∀ d g, Q d g) → wp (payment_prog app r d) g Q.
Proof.
  intros HQ. unfold payment_prog. destruct d as [p|e]; [|apply HQ].
  apply wp_bind. unfold claim_prog. cbv zeta. nothing_sold. destruct a; [apply HQ|].
  unfold deferred_prog, immediate_prog, count_rejected_prog. cbv zeta.
  destruct (settle_policy r); [|nothing_sold; apply HQ].
  apply wp_bind. split; [exact I|]. intros [s|e] _; cbn [after credit is_ok]; [|by books].
  apply wp_bind, sells_mint; [by rewrite orb_true_r|]. intros tok g'. books; apply HQ.
Qed.

Lemma sells_decide r g (Q : option Auth.Decision → bool → Prop) :
  (∀ d g, Q d g) → wp (decide_prog app r) g Q.
Proof.
  intros HQ. unfold decide_prog, session_prog, try_session_prog. apply wp_bind. nothing_sold.
  destruct a; [apply HQ|]. destruct (presented_payment r).
  - apply wp_bind, sells_payment. intros d g'. apply HQ.
  - unfold free_prog. cbv zeta. nothing_sold. apply HQ.
Qed.

(** Every handler sells on credit only. *)
Lemma sells_message st m g : wp (message_task app st m) g (λ _ _, True).
Proof.
  unfold message_task, message_prog. apply wp_bind. destruct (phase m) as [hs|hs|]; [| |done].
  - unfold request_prog. cbv zeta. apply wp_bind, wp_call; [inert|]. intros b _.
    destruct (_ && _); [by books|]. apply wp_bind, sells_decide. by intros.
  - apply wp_bind. unfold response_prog, release_prog. cbv zeta.
    destruct (pending st) as [p|]; [|done]. destruct (negb _); [by books|].
    apply wp_bind. split; [exact I|]. intros x _. cbn [after credit].
    apply wp_bind, wp_call; [inert|]. intros [] _. apply wp_bind.
    destruct x as [s|e]; cbn [is_ok outcome_prog]; [|unfold failed_prog; by books].
    unfold settled_prog. cbv zeta. apply wp_bind, wp_call; [inert|]. intros [] _.
    apply wp_bind, sells_mint; [by rewrite orb_true_r|]. intros tok g'. by books.
Qed.

Lemma sells_calls r g :
  wp (verify_task r) g (λ _ _, True) ∧ wp (settle_task app r) g (λ _ _, True).
Proof.
  unfold verify_task, settle_task, api_verify_prog, api_settle_prog, api_claim_prog, release_prog.
  split; books; try done. all: split; [exact I|]; intros ? _; by books.
Qed.
End Credit.

(** ** One operation's accounts *)

Section Accounts.
#[local] Set Default Proof Using "Type*".
Context `{!Codecs, !Json, !SuiSdk} {S L N : Type}
  `{!SuiNode N, !SessionBackend S, !Metered S, !RateBackend L}.
Context (f : Facilitator).

Abbreviation W := (World S L N).

(** What a session sold by this operation adds. *)
Definition sale (o : Op) : Z := match o with CreateSession _ _ q _ => q | _ => 0 end.

Lemma exec_sessions o (w w' : W) x most n :
  0 ≤ sale o ≤ most → owes most n (w_sessions w) → exec f o w = (x, w') →
  owes most (n + sale o - count_if (accepted_event (Did o x))) (w_sessions w').
Proof.
  intros Hq Hs Hx.
  assert (∀ s, owes most n s → owes most (n + 0 - count_if false) s) as Hid
    by (intros s; apply owes_le; cbn; lia).
  destruct o; cbn [exec sale accepted_event] in *.
  all: unfold_ops; cbn in Hx.
  all: repeat case_match; simplify_eq; cbn [w_sessions]; try by apply Hid.
  all: match goal with
       | E : session_consume ?t ?k ?p ?s = _ |- _ => pose proof (owes_consume most n t k p s Hs) as Hm
       | E : session_create ?t ?r ?p ?o ?q ?d ?s = _ |- _ =>
           pose proof (owes_create most n t r p o q d s Hq Hs) as Hm
       | E : session_claim ?t ?i ?d ?s = _ |- _ => pose proof (owes_claim most n t i d s Hs) as Hm
       | E : session_release ?i ?s = _ |- _ => pose proof (owes_release most n i s Hs) as Hm
       | E : session_cleanup ?t ?s = _ |- _ => pose proof (owes_cleanup most n t s Hs) as Hm
       end.
  all: match goal with E : ?c (w_sessions _) = _ |- _ => rewrite E in Hm end; cbn [fst snd accepts] in Hm.
  all: (eapply owes_le; [|exact Hm]); cbn [count_if]; lia.
Qed.

Lemma exec_same_chain o (w : W) :
  match o with Verify _ _ | Settle _ _ => True | _ => w_chain (exec f o w).2 = w_chain w end.
Proof using.
  destruct o; cbn [exec]; try done; unfold_ops; cbn;
    repeat case_match; simplify_eq; done.
Qed.

(** A settlement that succeeds on the chain has broadcast. *)
Lemma settled_broadcasts p r (w w' : W) s :
  f.(mode) = SuiGrpc → on_chain (settle f p r) w = (Ok s, w') → executions w' = (executions w + 1)%nat.
Proof using.
  intros Hmode Hx. unfold on_chain in Hx. destruct (settle f p r (w_chain w)) as [o c] eqn:Es.
  injection Hx as -> <-. unfold executions. cbn [w_chain].
  destruct (settled_payment_has_a_replay_key f p r _ _ s Hmode Es) as (tb & t & l & _ & _ & -> & Hn & _).
  rewrite !List.filter_app, (filter_no_execute l), !length_app by done. cbn. lia.
Qed.

Lemma settle_broadcasts p r (w : W) :
  (executions w ≤ executions (on_chain (settle f p r) w).2)%nat.
Proof using.
  unfold on_chain, executions. destruct (settle f p r (w_chain w)) as [o c] eqn:Es. cbn [snd w_chain].
  destruct (settle_calls _ _ _ _ _ _ Es) as [(l & -> & _)|(l & tb & -> & _)];
    rewrite List.filter_app, length_app; lia.
Qed.

Lemma exec_broadcasts o (w w' : W) x :
  f.(mode) = SuiGrpc → exec f o w = (x, w') →
  Z.of_nat (executions w) + count_if (settled_event (Did o x)) ≤ Z.of_nat (executions w').
Proof using.
  intros Hmode Hx. pose proof (exec_same_chain o w) as Hsame.
  destruct o as [| | | | | | | | | | | |p r|p r]; cbn [settled_event count_if];
    try (rewrite Hx in Hsame; cbn [snd] in Hsame; unfold executions; rewrite Hsame; lia).
  - pose proof (facilitator_verify_quiet f p r (w_chain w)) as (l & Hl & Hn).
    cbn [exec] in Hx. unfold on_chain in Hx. destruct (verify f p r (w_chain w)) as [o c].
    injection Hx as <- <-. unfold executions. cbn [w_chain snd] in *. rewrite Hl.
    rewrite List.filter_app, length_app. lia.
  - cbn [exec] in Hx. destruct x as [s|e]; cbn [count_if].
    + rewrite (settled_broadcasts p r w w' s) by done. lia.
    + pose proof (settle_broadcasts p r w) as Hb. rewrite Hx in Hb. cbn in Hb. lia.
Qed.
End Accounts.

(** ** The invariant *)

(** The ghost of [n] becomes [g], [d] more credits than before at most. *)
Lemma credits_put (C : gset nat) own n g (d : Z) :
  (∀ n, own n = true ↔ n ∈ C) → count_if g ≤ count_if (own n) + d →
  ∃ C' : gset nat, (∀ n', put n g own n' = true ↔ n' ∈ C') ∧
    Z.of_nat (size C') ≤ Z.of_nat (size C) + d.
Proof.
  intros HC Hg.
  assert (∀ C' : gset nat, (n ∈ C' ↔ g = true) → (∀ n', n' ≠ n → n' ∈ C' ↔ n' ∈ C) →
    ∀ n', put n g own n' = true ↔ n' ∈ C') as Hput.
  { intros C' Hn Hother n'. destruct (base.decide (n' = n)) as [->|Hne]; [by rewrite put_eq|].
    rewrite put_ne by done. by rewrite HC, Hother. }
  pose proof (HC n) as Hn. destruct (own n), g; cbn in Hg.
  - exists C. split; [apply Hput; tauto|lia].
  - exists (C ∖ {[n]}). split; [apply Hput; [set_solver|intros; set_solver]|].
    assert ({[n]} ⊆ C) as Hsub by set_solver. pose proof (subseteq_size _ _ Hsub) as Hsize.
    rewrite size_difference, size_singleton in * by done. lia.
  - exists ({[n]} ∪ C). split; [apply Hput; [set_solver|intros; set_solver]|].
    rewrite size_union, size_singleton by set_solver. lia.
  - exists C. split; [apply Hput; tauto|lia].
Qed.

Lemma on_offer_default app : on_offer app (policy_for app.(config) "" None).(paid_tier).(paid_quota).
Proof. by eexists _, _. Qed.

Section Invariant.
#[local] Set Default Proof Using "Type*".
Context `{!Codecs, !Json, !SuiSdk} {S L N : Type}
  `{!SuiNode N, !SessionBackend S, !Metered S, !RateBackend L}.
Context (app : App) (dearest before : Z) (broadcast : nat).
Context (Hoffer : ∀ q, on_offer app q → 0 ≤ q ≤ dearest).

Abbreviation accepted h := (Z.of_nat (tally accepted_event h)).
Abbreviation sold h := (Z.of_nat (tally sold_event h)).
Abbreviation settled h := (Z.of_nat (tally settled_event h)).

(** [C] are the tasks with credit. *)
Definition Balanced (h : list Event) (own : nat → bool) (w : World S L N) : Prop :=
  (∃ C : gset nat, (∀ n, own n = true ↔ n ∈ C) ∧ sold h + Z.of_nat (size C) ≤ settled h) ∧
  owes dearest (before + dearest * sold h - accepted h) (w_sessions w) ∧
  (app.(facilitator).(mode) = SuiGrpc →
     Z.of_nat broadcast + settled h ≤ Z.of_nat (executions w)).

Lemma credit_rule :
  Rule app (credit app) false (λ _ _, True) (λ _ _, True) (λ _, True) Balanced.
Proof.
  split.
  - intros n m st g _ _. apply sells_message.
  - intros [n|n m|n c|n r|n r|n|n|n] n' t _ [= <- <-]; cbn [task_ok]; [done|..].
    + unfold callout_task. cbv zeta. apply wp_bind, sells_decide. by intros.
    + apply sells_calls.
    + apply sells_calls.
    + unfold sweep_task, sweep_prog. by books.
  - intros h own n o x w w' ((C & HC & Hsold) & Hs & Hchain) Hmay Hx. split; [done|].
    assert (0 ≤ sale o ≤ dearest * count_if (sold_event (Did o x))) as Hsale.
    { destruct o; cbn in Hmay |- *; try lia. destruct Hmay as [_ Hq]. apply Hoffer in Hq. lia. }
    assert (sale o ≤ dearest) as Hmost.
    { destruct o; cbn in Hmay |- *; try (pose proof (Hoffer _ (on_offer_default app)); lia).
      destruct Hmay as [_ Hq]. apply Hoffer in Hq. lia. }
    pose proof (exec_sessions app.(facilitator) o w w' x dearest _ ltac:(lia) Hs Hx) as Hs'.
    assert (count_if (after (credit app) o (own n) x) ≤ count_if (own n) +
      (count_if (settled_event (Did o x)) - count_if (sold_event (Did o x)))) as Hghost.
    { destruct o; cbn in Hmay |- *; try lia; [by destruct Hmay as [-> _]|].
      destruct (own n), x; cbn; lia. }
    destruct (credits_put C own n _ _ HC Hghost) as (C' & HC' & Hsize).
    split_and!; [exists C'; split; [done|]|..]; rewrite ?tally_next.
    + lia.
    + eapply owes_le; [|exact Hs']. lia.
    + intros Hmode. pose proof (exec_broadcasts app.(facilitator) o w w' x Hmode Hx).
      specialize (Hchain Hmode). lia.
  - intros h own n out w ((C & HC & Hsold) & Hs & Hchain) _. exists false. split; [done|].
    assert (count_if false ≤ count_if (own n) + 0) as Hg by (cbn; destruct (own n); cbn; lia).
    destruct (credits_put C own n _ _ HC Hg) as (C' & HC' & Hsize).
    split_and!; [exists C'; split; [done|]|..]; rewrite !tally_next; cbn; try lia.
    + eapply owes_le; [|exact Hs]. lia.
    + intros Hm. specialize (Hchain Hm). lia.
  - intros h own n w ((C & HC & Hsold) & Hs & Hchain).
    assert (count_if false ≤ count_if (own n) + 0) as Hg by (cbn; destruct (own n); cbn; lia).
    destruct (credits_put C own n _ _ HC Hg) as (C' & HC' & Hsize).
    split_and!; [exists C'; split; [done|lia]|done..].
Qed.
End Invariant.

(** ** Properties *)

(** Every quota the configuration lists. *)
Definition quotas (c : Config) : list Z :=
  c.(cfg_paid_tier).(paid_quota) :: omap (λ o, paid_quota <$> o.(ov_paid_tier)) (overrides_of c).

Lemma on_offer_listed app q : on_offer app q → q ∈ quotas app.(config).
Proof.
  intros (path & pol & ->). unfold quotas.
  destruct (policy_for_tiers app.(config) path pol) as [[_ ->]|(o & Ho & _ & ->)]; [left|].
  destruct (ov_paid_tier o) as [t|] eqn:Et; [right|left]. cbn. apply list_elem_of_omap.
  exists o. split; [done|]. by rewrite Et.
Qed.

Lemma balanced_sum `{!Codecs} {S L N : Type} `{!SessionBackend S, !Metered S}
    app dearest before broadcast h own (w : World S L N) :
  Forall (λ q, 0 ≤ q ≤ dearest) (quotas app.(config)) → Balanced app dearest before broadcast h own w →
  (tally sold_event h ≤ tally settled_event h)%nat ∧
  owes dearest (before + dearest * Z.of_nat (tally sold_event h) - Z.of_nat (tally accepted_event h)) (w_sessions w) ∧
  (app.(facilitator).(mode) = SuiGrpc →
     Z.of_nat (tally accepted_event h) ≤ before + dearest * Z.of_nat (executions w - broadcast)).
Proof.
  intros Hquotas ((C & _ & Hsold) & Hs & Hchain). pose proof (owes_nonneg _ _ _ Hs) as Hpos.
  split; [lia|]. split; [done|]. intros Hmode. specialize (Hchain Hmode).
  assert (0 ≤ dearest) by (inversion Hquotas; lia).
  assert (dearest * Z.of_nat (tally sold_event h) ≤ dearest * Z.of_nat (executions w - broadcast));
    [apply Z.mul_le_mono_nonneg_l; lia|lia].
Qed.

(** The accounts are balanced where nothing has happened yet. *)
Lemma balanced_start `{!Codecs} {S L N : Type} `{!SessionBackend S, !Metered S}
    app dearest before (w : World S L N) :
  owes dearest before (w_sessions w) → Balanced app dearest before (executions w) [] (λ _, false) w.
Proof.
  intros Hs. split_and!; [exists ∅; split; [set_solver|by rewrite size_empty]| |];
    unfold tally; cbn [List.filter length]; [|lia].
  eapply owes_le; [|exact Hs]. lia.
Qed.

Lemma listed_offer app dearest :
  Forall (λ q, 0 ≤ q ≤ dearest) (quotas app.(config)) → ∀ q, on_offer app q → 0 ≤ q ≤ dearest.
Proof. intros Hquotas q Hq%on_offer_listed. rewrite Forall_forall in Hquotas. by apply Hquotas. Qed.

Lemma credit_balance `{!Codecs, !Json, !SuiSdk} {S L N : Type}
    `{!SuiNode N, !SessionBackend S, !Metered S, !RateBackend L}
    (app : App) (dearest before : Z) (cs : list Choice) (srv : Server S L N)
    (Hquotas : Forall (λ q, 0 ≤ q ≤ dearest) (quotas app.(config)))
    (Howes : owes dearest before (w_sessions (shared srv)))
    (Hrest : map_Forall (λ _ t, resting t) (tasks srv)) :
  let h := (play app cs srv).1 in
  let w := shared srv in
  let w' := shared (play app cs srv).2 in
  (tally sold_event h ≤ tally settled_event h)%nat ∧
  owes dearest (before + dearest * Z.of_nat (tally sold_event h) - Z.of_nat (tally accepted_event h)) (w_sessions w') ∧
  (app.(facilitator).(mode) = SuiGrpc →
     Z.of_nat (tally accepted_event h) ≤ before + dearest * Z.of_nat (executions w' - executions w)).
Proof.
  intros h w w'.
  destruct (play_keeps app _ _ _ _ _ _ (credit_rule app dearest before (executions w) (listed_offer _ _ Hquotas))
    [] (λ _, false) cs srv) as (own & Hb & _).
  - split; [by apply balanced_start|by intros n t Ht; specialize (Hrest n t Ht); destruct t].
  - by apply Forall_true.
  - by eapply balanced_sum.
Qed.

(** C2: Nothing is served on credit.  However the handlers interleave and
    wherever they are dropped, each session sold has a settlement of its own
    that succeeded before it; if the sessions of the store could buy [before]
    requests when the run began, then afterwards they can buy no more than that
    and a dearest quota for each session sold, less the requests accepted; and
    so, when payments settle on the chain, the requests served on sessions are
    covered by what was left before and one dearest quota for each transaction
    broadcast.  This holds of both backends. *)
Theorem nothing_is_served_on_credit `{!Codecs, !Json, !SuiSdk} {S L N : Type}
    `{!SuiNode N, !SessionBackend S, !Metered S, !RateBackend L}
    (app : App) (dearest before : Z) (cs : list Choice) (srv : Server S L N)
    (Hquotas : Forall (λ q, 0 ≤ q ≤ dearest) (quotas app.(config)))
    (Howes : owes dearest before (w_sessions (shared srv)))
    (Hrest : map_Forall (λ _ t, resting t) (tasks srv)) :
  let h := (play app cs srv).1 in
  let w := shared srv in
  let w' := shared (play app cs srv).2 in
  (tally sold_event h ≤ tally settled_event h)%nat ∧
  owes dearest (before + dearest * Z.of_nat (tally sold_event h) - Z.of_nat (tally accepted_event h)) (w_sessions w') ∧
  (app.(facilitator).(mode) = SuiGrpc →
     Z.of_nat (tally accepted_event h) ≤ before + dearest * Z.of_nat (executions w' - executions w)).
Proof. by apply credit_balance. Qed.

(** *** At a concrete input *)

(** The scuffle sells a session; two callouts then use it, one dropped. *)
Definition sold_tokens (h : list Event) : list string :=
  omap (λ e, match e with Did (CreateSession _ _ _ _) x => x | _ => None end) h.
Definition sold_token : string :=
  unwrap_or (head (sold_tokens (play demo_app scuffle demo_server).1)) "".
Definition holder_callout : CheckRequest :=
  mkCheck (Some {[HEADER_PAYMENT_SESSION := sold_token]}) (Some "203.0.113.7") None ∅.
Definition spree : list Choice :=
  scuffle ++ [StartCallout 8 holder_callout; StartCallout 9 holder_callout; Step 8; Step 9; Drop 8] ++ steps 9 3.

Lemma nothing_is_served_on_credit_witness :
  let h := (play demo_app spree demo_server).1 in
  (tally sold_event h, tally settled_event h, tally accepted_event h) = (1, 1, 2)%nat ∧
  (tally sold_event h ≤ tally settled_event h)%nat ∧
  2 ≤ 0 + 1000 * 1.
Proof.
  cbv zeta. assert (tally accepted_event (play demo_app spree demo_server).1 = 2%nat) as Hacc
    by (vm_compute; reflexivity).
  assert (executions (shared (play demo_app spree demo_server).2) - executions (shared demo_server) = 1)%nat
    as Hexec by (vm_compute; reflexivity).
  split; [vm_compute; reflexivity|].
  destruct (nothing_is_served_on_credit demo_app 1000 0 spree demo_server) as (Hsold & _ & Hpaid).
  - assert (quotas (config demo_app) = [1000]) as -> by (vm_compute; reflexivity).
    apply Forall_singleton. lia.
  - split; [apply map_Forall_empty|discriminate].
  - apply map_Forall_empty.
  - split; [exact Hsold|]. specialize (Hpaid eq_refl). rewrite Hacc, Hexec in Hpaid. exact Hpaid.
Defined.
