(* ===== verification/Allowance.v ===== *)
(** * The free allowance holds

    However many streams and callouts ask for the free tier at once, and
    whatever is swept in between, one window lets through no more requests of
    one client under one policy than the policy allows.  A limiter is [Counted]:
    it keeps a count per key and window, an admission adds at least one and
    finds it below the limit, and nothing else takes from it.  Both backends
    are. *)

From S2P Require Import Prelude RustStr Platform IpAddr Session Redis Config Json X402 Sui.
From S2P Require Import Facilitator Stores World Auth ExtProc FacilitatorApi Main Program Handlers.
From S2P Require Import Schedule Concurrent.
From S2P Require RateLimit Breaker.
From stdpp Require Import options.
#[local] Open Scope Z_scope.

(** ** The promise of a limiter

    For a key, the window [[ws, ws + w)] and the limit [max] it is asked with.  It
    may charge more than it admits (a reply can be lost), never less. *)
Definition charge (a : RateLimit.Allowance) : Z := if RateLimit.allowed a then 1 else 0.

Class Counted (L : Type) `{!RateBackend L} := {
  in_order : string → Z → Z → Z → L → Prop;              (* key, ws, w, max *)
  charged : string → Z → L → Z;
  charged_nonneg k ws w max l : in_order k ws w max l → 0 ≤ charged k ws l;
  counted_check now label ip max ws w l a l' :
    0 < w → 2 * w ≤ u64_max → 0 ≤ max → RateLimit.window_start_of now w = ws →
    in_order (RateLimit.key_for label ip) ws w max l →
    rate_check now label ip max w l = Some (a, l') →
    let k := RateLimit.key_for label ip in
    in_order k ws w max l' ∧ charged k ws l + charge a ≤ charged k ws l' ∧
    (RateLimit.allowed a = true → charged k ws l < max);
  counted_other k now label ip max' w' ws w max l a l' :
    k ≠ RateLimit.key_for label ip → 0 < w → in_order k ws w max l →
    rate_check now label ip max' w' l = Some (a, l') →
    in_order k ws w max l' ∧ charged k ws l' = charged k ws l;
  counted_sweep k now ws w max l :
    0 < w → 2 * w ≤ u64_max → 0 ≤ ws ≤ now → now < ws + w → in_order k ws w max l →
    in_order k ws w max (rate_cleanup now l).2 ∧ charged k ws (rate_cleanup now l).2 = charged k ws l
}.

(** ** The limiter in memory keeps it *)

Definition entry_in_order (ws w : Z) (e : RateLimit.Window) : Prop :=
  0 ≤ RateLimit.current e ∧ RateLimit.start e ≤ ws ∧ RateLimit.window_secs e = w.
Definition entry_charged (ws : Z) (e : RateLimit.Window) : Z :=
  if RateLimit.start e =? ws then RateLimit.current e else 0.

Lemma check_entry_counted e max w now a e' :
  0 < w → 0 ≤ max ≤ u64_max → 0 ≤ RateLimit.current e →
  RateLimit.start e ≤ RateLimit.window_start_of now w →
  RateLimit.check_entry e max w now = (a, e') →
  let ws := RateLimit.window_start_of now w in
  entry_in_order ws w e' ∧ entry_charged ws e' = entry_charged ws e + charge a ∧
  (RateLimit.allowed a = true → entry_charged ws e < max).
Proof.
  intros Hw Hmax Hc Hs Ha ws. set (r := RateLimit.roll e ws w).
  assert (RateLimit.start r = ws ∧ RateLimit.current r = entry_charged ws e ∧ RateLimit.window_secs r = w)
    as (Hrs & Hrc & Hrw).
  { unfold r, RateLimit.roll, entry_charged. fold ws in Hs.
    destruct (Z.ltb_spec (RateLimit.start e) ws), (Z.eqb_spec (RateLimit.start e) ws); cbn; lia. }
  assert (0 ≤ entry_charged ws e) as Hpos by (unfold entry_charged; case_match; lia).
  unfold charge. destruct (RateLimit.allowed a) eqn:Eal.
  - destruct (RateLimit.admitted_below _ _ _ _ _ _ Ha Eal) as [Hlt ->]. fold ws r in Hlt |- *.
    unfold entry_in_order. cbn [RateLimit.bump RateLimit.current RateLimit.start RateLimit.window_secs].
    unfold entry_charged at 1. cbn [RateLimit.bump RateLimit.start RateLimit.current].
    rewrite Hrs, Z.eqb_refl, u64_add_small by lia. split_and!; lia.
  - destruct (RateLimit.denied_state _ _ _ _ _ _ Ha Eal) as [-> _]. fold ws r.
    unfold entry_in_order. unfold entry_charged at 1. rewrite Hrs, Z.eqb_refl. split_and!; (lia || done).
Qed.

Section Memory.
#[local] Set Default Proof Using "Type*".

#[export] Instance memory_counted : Counted RateLimit.MemoryRateLimiter.
Proof.
  refine {| in_order := λ k ws w max l, max ≤ u64_max ∧ ∀ e, l !! k = Some e → entry_in_order ws w e;
            charged := λ k ws l, match l !! k with Some e => entry_charged ws e | None => 0 end |};
    cbn [rate_check rate_cleanup memory_limiter].
  - intros k ws w max l [_ Hl]. destruct (l !! k) as [e|]; [|done]. destruct (Hl e eq_refl) as (Hc & _).
    unfold entry_charged. case_match; lia.
  - intros now label ip max ws w l a l' Hw _ Hmax Hws [Hm Hl]. unfold RateLimit.check_at.
    rewrite (proj2 (Z.ltb_lt 0 w)) by done. cbn [negb].
    set (k := RateLimit.key_for label ip) in *.
    set (e := unwrap_or (l !! k) _). destruct (RateLimit.check_entry e max w now) as [a0 e'] eqn:Ec.
    intros [= <- <-]. subst ws.
    assert (0 ≤ RateLimit.current e ∧ RateLimit.start e ≤ RateLimit.window_start_of now w ∧
      entry_charged (RateLimit.window_start_of now w) e =
        match l !! k with Some e => entry_charged (RateLimit.window_start_of now w) e | None => 0 end)
      as (Hc & Hs & Hch).
    { subst e. destruct (l !! k) as [e|]; cbn [unwrap_or].
      - by destruct (Hl e eq_refl) as (? & ? & _).
      - split; [done|]. split; [done|]. unfold entry_charged. by case_match. }
    destruct (check_entry_counted e max w now a0 e' Hw ltac:(lia) Hc Hs Ec) as (Ho & Hcount & Hlt).
    rewrite lookup_insert_eq, <- Hch. split_and!; [done| |lia|done]. by intros ? [= <-].
  - intros k now label ip max' w' ws w max l a l' Hne _ Hl. unfold RateLimit.check_at.
    destruct (negb _); [done|]. destruct (RateLimit.check_entry _ _ _ _) as [a0 e'].
    intros [= <- <-]. by rewrite lookup_insert_ne.
  - intros k now ws w max l Hw Hw2 Hws Hnow [Hm Hl]. rewrite RateLimit.lookup_cleanup.
    destruct (l !! k) as [e|] eqn:Ek; [|done]. destruct (Hl e eq_refl) as (Hc & Hs & Hsecs).
    destruct (RateLimit.keeps_idle now e) eqn:Ei; [split; [split; [done|by intros ? [= <-]]|done]|].
    split; [done|]. unfold entry_charged. destruct (Z.eqb_spec (RateLimit.start e) ws) as [E|]; [|done].
    unfold RateLimit.keeps_idle in Ei. apply Z.leb_gt in Ei.
    rewrite Hsecs, u64_mul_small in Ei by lia. unfold sat_sub in Ei. lia.
Defined.
End Memory.

(** ** So does the shared one

    Its counters live in the keys of the windows.  Lua's doubles are exact up
    to [2 ^ 53]; a check whose reply is lost is charged and not admitted. *)
Section Redis.
#[local] Set Default Proof Using "Type*".
Context {R : Type} `{!RedisCommands R, !RedisLaws R}.

Definition stored_count (k : string) (ws : Z) (r : R) : Z :=
  unwrap_or (parse_digits (unwrap_or (redis_get ws (counter_key k ws) r) "0")) 0.
Definition counter_in_order (k : string) (ws w max : Z) (r : R) : Prop :=
  max ≤ 2 ^ 53 ∧ w ≤ 2 ^ 52 ∧ counts k ws w (stored_count k ws r) r.

Lemma counts_stored k ws w n r : 0 < w → counts k ws w n r → stored_count k ws r = n.
Proof using.
  intros Hw [Hn Hg]. unfold stored_count. rewrite Hg by lia. by rewrite parse_digits_print by lia.
Qed.

Lemma redis_check_counted k now label ip max ws w r a r' :
  RateLimit.key_for label ip = k → 0 < w → RateLimit.window_start_of now w = ws →
  counter_in_order k ws w max r →
  ∀ link, redis_check_at link now label ip max w now r = Some (a, r') →
  counter_in_order k ws w max r' ∧ stored_count k ws r + charge a ≤ stored_count k ws r' ∧
  (RateLimit.allowed a = true → stored_count k ws r < max).
Proof.
  intros <- Hw Hws (Hm & Hw2 & Hc) link. unfold redis_check_at.
  rewrite (proj2 (Z.ltb_lt 0 w)) by done. cbn [negb]. rewrite Hws.
  set (k := RateLimit.key_for label ip) in *. set (n := stored_count k ws r) in *.
  assert (ws ≤ now < ws + w) as Hnow.
  { rewrite <- Hws. unfold RateLimit.window_start_of. pose proof (Z.mod_pos_bound now w Hw). lia. }
  assert (w ≤ u64_mul w 2) as Httl by (rewrite u64_mul_small by (unfold u64_max; lia); lia).
  set (check := CHECK_SCRIPT _ _ _ _ _ _). destruct (check r) as [reply r1] eqn:Es.
  assert (counter_in_order k ws w max r ∧ n + 0 ≤ stored_count k ws r ∧ (false = true → n < max)) as Hkeep.
  { split; [done|]. split; [subst n; lia|done]. }
  destruct (check_script_counts now k ws w n _ _ _ _ _ _ _ Hc Hnow Hm Httl Es) as [[-> Hr]|[Hlt Hc']].
  - destruct link; cbn [invoke]; rewrite ?Es; intros [= <- <-]; unfold charge; try exact Hkeep.
    destruct reply as [[f rest]|]; [|exact Hkeep]. specialize (Hr _ eq_refl). cbn in Hr. subst f. exact Hkeep.
  - pose proof (counts_stored k ws w _ _ Hw Hc') as Hn.
    assert (counter_in_order k ws w max r1) as Ho by (split; [done|split; [done|by rewrite Hn]]).
    destruct link; cbn [invoke]; rewrite ?Es; intros [= <- <-]; unfold charge; try exact Hkeep.
    + rewrite Hn. split_and!; [done|case_match; lia|done].
    + rewrite Hn. split_and!; [done|cbn; lia|done].
Qed.

#[export] Instance redis_counted : Counted (RedisRateLimiter R).
Proof.
  refine {| in_order := λ k ws w max l, counter_in_order k ws w max l.(rl_db);
            charged := λ k ws l, stored_count k ws l.(rl_db) |};
    cbn [rate_check rate_cleanup redis_limiter]; [| | |done].
  - intros k ws w max l (_ & _ & [? _] & _). lia.
  - intros now label ip max ws w l a l' Hw _ Hmax Hws Hl. destruct (next_link _) as [link ks].
    destruct (redis_check_at _ _ _ _ _ _ _ _) as [[a0 r]|] eqn:E; [|done]. intros [= <- <-].
    by apply (redis_check_counted _ now label ip max ws w _ _ _ eq_refl Hw Hws Hl link).
  - intros k now label ip max' w' ws w max l a l' Hne Hw. destruct (next_link _) as [link ks].
    destruct (redis_check_at _ _ _ _ _ _ _ _) as [[a0 r]|] eqn:E; [|done]. intros Hl [= <- <-]. cbn [rl_db].
    assert (∀ t, redis_get t (counter_key k ws) r = redis_get t (counter_key k ws) l.(rl_db)) as Heq
      by (intros t; by eapply redis_check_other).
    destruct Hl as (Hm & Hw2 & Hc). assert (stored_count k ws r = stored_count k ws (rl_db l)) as Hs
      by (unfold stored_count; by rewrite Heq).
    split; [|done]. split; [done|]. split; [done|]. rewrite Hs. by eapply counts_other.
Defined.

(** The program's enum, on either side. *)
#[export] Instance enum_counted : Counted (RateLimiter R).
Proof.
  refine {| in_order := λ k ws w max l,
              match l with MemoryLimiter l => in_order k ws w max l | RedisLimiter l => in_order k ws w max l end;
            charged := λ k ws l, match l with MemoryLimiter l => charged k ws l | RedisLimiter l => charged k ws l end |};
    cbn [rate_check rate_cleanup enum_limiter].
  - intros k ws w max [l|l] Hl; by apply (charged_nonneg k ws w max).
  - intros now label ip max ws w [l|l] a l' Hw Hw2 Hmax Hws Hl;
      destruct (rate_check now label ip max w l) as [[a0 l0]|] eqn:E; try done; intros [= <- <-];
      by apply (counted_check now label ip max ws w l a0 l0).
  - intros k now label ip max' w' ws w max [l|l] a l' Hne Hw Hl;
      destruct (rate_check now label ip max' w' l) as [[a0 l0]|] eqn:E; try done; intros [= <- <-];
      by apply (counted_other k now label ip max' w' ws w max l a0 l0).
  - intros k now ws w max [l|l] Hw Hw2 Hws Hnow Hl; rewrite via_eq; cbn [snd]; by apply counted_sweep.
Defined.
End Redis.

(** ** The invariant *)

(** An admission of a client to the free tier of a policy. *)
Definition admission (label : string) (ip : IpAddr) (e : Event) : bool :=
  match e with
  | Did (CheckRate l i _ _) (Some a) =>
      bool_decide (RateLimit.key_for l i = RateLimit.key_for label ip) && RateLimit.allowed a
  | _ => false
  end.

Section Invariant.
#[local] Set Default Proof Using "Type*".
Context `{!Codecs, !Json, !SuiSdk} {S L N : Type}
  `{!SuiNode N, !SessionBackend S, !RateBackend L, !Counted L}.
Context (app : App) (label : string) (ip : IpAddr) (max w ws : Z).
Context (Hw : 0 < w) (Hw2 : 2 * w ≤ u64_max) (Hmax : 0 ≤ max) (Hws : 0 ≤ ws).
Context (Hpolicy : ∀ path pol i, let p := policy_for app.(config) path pol in
  RateLimit.key_for (p.(Config.label)) i = RateLimit.key_for label ip →
  p.(free_tier) = {| max_requests := max; free_window_secs := w |}).

Abbreviation k := (RateLimit.key_for label ip).

(** Whoever asks about this key asks with this limit and window. *)
Definition same_terms (o : Op) : Prop :=
  match o with
  | CheckRate l i m w' => RateLimit.key_for l i = k → m = max ∧ w' = w
  | _ => True
  end.

Definition in_window (wd : World S L N) : Prop :=
  ∀ i, (w_tick wd ≤ i)%nat → RateLimit.window_start_of (w_clock wd i) w = ws.

Lemma exec_clock f o (wd : World S L N) :
  w_clock (exec f o wd).2 = w_clock wd ∧ (w_tick wd ≤ w_tick (exec f o wd).2)%nat.
Proof using.
  destruct o; cbn [exec]; unfold_ops; cbn; repeat case_match; simplify_eq; cbn; split; (done || lia).
Qed.

Lemma in_window_exec f o (wd : World S L N) : in_window wd → in_window (exec f o wd).2.
Proof using.
  intros Hin i Hi. destruct (exec_clock f o wd) as [Hc Ht]. rewrite Hc. apply Hin. lia.
Qed.

Lemma window_now now : RateLimit.window_start_of now w = ws → ws ≤ now < ws + w.
Proof.
  unfold RateLimit.window_start_of. pose proof (Z.mod_pos_bound now w Hw). lia.
Qed.

(** What an operation does to the count. *)
Lemma exec_counted f o (wd wd' : World S L N) x :
  in_window wd → in_order k ws w max (w_limiter wd) → same_terms o → exec f o wd = (x, wd') →
  let n := if admission label ip (Did o x) then 1%nat else 0%nat in
  in_order k ws w max (w_limiter wd') ∧
  charged k ws (w_limiter wd) + Z.of_nat n ≤ charged k ws (w_limiter wd') ∧
  (n = 1%nat → charged k ws (w_limiter wd) < max).
Proof.
  intros Hin Ho Hterms Hx. pose proof (Hin _ (Nat.le_refl _)) as Hnow.
  destruct o; cbn [exec admission same_terms] in *; unfold_ops; cbn in Hx.
  8: { destruct (rate_cleanup _ _) as [idle l'] eqn:E. injection Hx as <- <-. cbn [w_limiter].
       pose proof (window_now _ Hnow) as [Hge Hlt].
       pose proof (counted_sweep k _ ws w max (w_limiter wd) Hw Hw2 (conj Hws Hge) Hlt Ho) as [H1' H2'].
       rewrite E in H1', H2'. cbn in H1', H2'. split_and!; [done|lia|done]. }
  8: { destruct (rate_check _ _ _ _ _ _) as [[a l']|] eqn:E; injection Hx as <- <-; cbn [w_limiter];
         [|split_and!; [done|lia|done]].
       case_bool_decide as Hkey; cbn [andb].
       - destruct (Hterms Hkey) as [-> ->]. rewrite <- Hkey in *.
         destruct (counted_check _ _ _ _ ws _ _ _ _ Hw Hw2 Hmax Hnow Ho E) as (H1' & H2' & H3').
         unfold charge in H2'. destruct (RateLimit.allowed a); split_and!; (done || lia || auto).
       - destruct (counted_other k _ _ _ _ _ ws w max _ _ _ (not_eq_sym Hkey) Hw Ho E) as [H1' H2'].
         split_and!; [done|lia|done]. }
  all: repeat case_match; simplify_eq; cbn [w_limiter]; (split_and!; [done|lia|done]).
Qed.

(** *** The handlers *)

#[local] Ltac no_check := walk; exact I.

Lemma asks_free r : only same_terms (free_prog app r).
Proof.
  unfold free_prog. cbv zeta. walk; try exact I. intros Hkey. unfold resolved in *.
  by rewrite (Hpolicy _ _ _ Hkey).
Qed.

Lemma asks_decide r : only same_terms (decide_prog app r).
Proof.
  unfold decide_prog. apply only_bind; [unfold session_prog, try_session_prog; no_check|]. intros d.
  destruct d; [exact I|]. destruct (presented_payment r); [|apply asks_free].
  apply only_bind; [|by intros]. unfold payment_prog, claim_prog, deferred_prog, immediate_prog.
  unfold mint_prog, count_rejected_prog. cbv zeta. no_check.
Qed.

Lemma asks_message st m : only same_terms (message_task app st m).
Proof.
  unfold message_task, message_prog. apply only_bind; [|by intros].
  destruct (phase m) as [hs|hs|]; [| |exact I].
  - unfold request_prog. cbv zeta. apply only_bind; [by split|]. intros b. destruct (_ && _); [no_check|].
    apply only_bind; [apply asks_decide|by intros].
  - apply only_bind; [|by intros]. unfold response_prog, release_prog, outcome_prog, settled_prog.
    unfold failed_prog, mint_prog. cbv zeta. no_check.
Qed.

Lemma asks_opened c n p : opened app c = Some (n, Running p) → only same_terms p.
Proof.
  destruct c; intros [= <- <-].
  - unfold callout_task. cbv zeta. apply only_bind; [apply asks_decide|by intros].
  - unfold verify_task, api_verify_prog. no_check.
  - unfold settle_task, api_settle_prog, api_claim_prog, release_prog. no_check.
  - unfold sweep_task, sweep_prog. no_check.
Qed.

(** *** The count of admissions, from [c0] on *)

Context (c0 : Z).

Definition Counting (h : list Event) (_ : nat → ()) (wd : World S L N) : Prop :=
  let n := tally (admission label ip) h in
  in_window wd ∧ in_order k ws w max (w_limiter wd) ∧
  c0 + Z.of_nat n ≤ charged k ws (w_limiter wd) ∧ (n = 0%nat ∨ c0 + Z.of_nat n ≤ max).

Lemma counting_rule :
  Rule app (plain same_terms) tt (λ _ _, True) (λ _ _, True) (λ _, True) Counting.
Proof.
  split.
  - intros n m st g _ _. apply wp_plain; [apply asks_message|done].
  - intros c n [st|p] _ Ho; [done|]. apply wp_plain; [by apply (asks_opened c n)|done].
  - intros h own n o x wd wd' (Hin & Ho & Hc & Hle) Hmay Hx. split; [done|].
    destruct (exec_counted app.(facilitator) o wd wd' x Hin Ho Hmay Hx) as (Ho' & Hc' & Hlt).
    pose proof (in_window_exec app.(facilitator) o wd Hin) as Hin'. rewrite Hx in Hin'.
    unfold Counting. rewrite tally_app, tally_one. split_and!; [done|done|lia|].
    destruct (admission label ip (Did o x)); [specialize (Hlt eq_refl); right; lia|].
    rewrite Nat.add_0_r. done.
  - intros h own n out wd Hc _. exists tt. split; [done|]. unfold Counting.
    by rewrite tally_app, tally_one, Nat.add_0_r.
  - done.
Qed.
End Invariant.

(** ** Properties *)

(** The free allowance holds.  However the streams and callouts of one
    window interleave, with sessions, payments and sweeps among them, the
    limiter (in memory or in Redis, whatever its connection loses) admits no
    more requests of one client (an IPv4 address, an IPv6 /64) under one policy
    than that policy's limit, less what it had already charged in the window.
    The policy must not share its label with one of other terms. *)
Theorem free_allowance_holds `{!Codecs, !Json, !SuiSdk} {S L N : Type}
    `{!SuiNode N, !SessionBackend S, !RateBackend L, !Counted L}
    (app : App) (label : string) (ip : IpAddr) (max w ws : Z) (cs : list Choice) (srv : Server S L N)
    (Hw : 0 < w) (Hw2 : 2 * w ≤ u64_max) (Hmax : 0 ≤ max) (Hws : 0 ≤ ws)
    (Hpolicy : ∀ path pol i, let p := policy_for app.(config) path pol in
       RateLimit.key_for p.(Config.label) i = RateLimit.key_for label ip →
       p.(free_tier) = {| max_requests := max; free_window_secs := w |})
    (Hwindow : ∀ i, (w_tick (shared srv) ≤ i)%nat →
       RateLimit.window_start_of (w_clock (shared srv) i) w = ws)
    (Horder : in_order (RateLimit.key_for label ip) ws w max (w_limiter (shared srv)))
    (Hrest : map_Forall (λ _ t, resting t) (tasks srv)) :
  Z.of_nat (tally (admission label ip) (play app cs srv).1) ≤
    Z.max 0 (max - charged (RateLimit.key_for label ip) ws (w_limiter (shared srv))).
Proof.
  set (c0 := charged _ _ _).
  destruct (play_keeps app _ _ _ _ _ _ (counting_rule app label ip max w ws Hw Hw2 Hmax Hws Hpolicy c0)
    [] (λ _, tt) cs srv) as (own & (_ & _ & _ & Hle) & _).
  - split; [|by intros n t Ht; specialize (Hrest n t Ht); destruct t].
    split_and!; [done|done| |by left]. unfold tally. cbn [List.filter length]. subst c0. lia.
  - by apply Forall_true.
  - cbn [Datatypes.app] in Hle. lia.
Qed.

(** *** At a concrete input *)

Lemma no_free_override c path pol :
  Forall (λ o, ov_free_tier o = None) (overrides_of c) → free_tier (policy_for c path pol) = cfg_free_tier c.
Proof.
  intros Hall. destruct (policy_for_tiers c path pol) as [[-> _]|(o & Ho & -> & _)]; [done|].
  rewrite Forall_forall in Hall. by rewrite (Hall o Ho).
Qed.

(** Seven callouts of one client at one moment, in lockstep, a sweep among
    them: five get in. *)
Definition frozen_server : Server (SessionStore Db.t) (RateLimiter Db.t) DemoNode.t :=
  mkServer (mkWorld (λ _, 1700000000) 0 (w_entropy demo_world) 0 Breaker.new (w_sessions demo_world)
    (w_limiter demo_world) demo_chain []) ∅.
Definition anonymous_callout : CheckRequest := mkCheck None (Some "203.0.113.7") None ∅.
Definition rush : list Choice :=
  ((λ n, StartCallout n anonymous_callout) <$> seq 0 7) ++ [StartSweep 7] ++
  mjoin (replicate 4 (Step <$> seq 0 8)).

Lemma free_allowance_holds_witness :
  tally (admission DEFAULT_POLICY_LABEL (V4 203 0 113 7)) (play demo_app rush frozen_server).1 = 5%nat ∧
  Z.of_nat (tally (admission DEFAULT_POLICY_LABEL (V4 203 0 113 7)) (play demo_app rush frozen_server).1) ≤
    Z.max 0 (5 - charged (RateLimit.key_for DEFAULT_POLICY_LABEL (V4 203 0 113 7)) 1699999980
                   (w_limiter (shared frozen_server))).
Proof.
  split; [vm_compute; reflexivity|].
  assert (2 * 60 ≤ u64_max) as Hw by (vm_compute; discriminate).
  assert (0 ≤ 5) as Hmax by discriminate.
  refine (free_allowance_holds demo_app DEFAULT_POLICY_LABEL (V4 203 0 113 7) 5 60 1699999980 rush
            frozen_server eq_refl Hw Hmax _ _ _ _ _); [discriminate| | | |].
  - intros path pol i p _. apply (no_free_override demo_config).
    vm_compute. repeat constructor.
  - intros i _. vm_compute. reflexivity.
  - split; [vm_compute; discriminate|]. intros e He. cbv in He. discriminate.
  - apply map_Forall_empty.
Defined.

(** The same rush at the shared limiter, the reply of the second check lost:
    it was charged, so four get in. *)
Definition shared_limiter_server : Server (SessionStore Db.t) (RateLimiter Db.t) DemoNode.t :=
  mkServer (mkWorld (λ _, 1700000000) 0 (w_entropy demo_world) 0 Breaker.new (w_sessions demo_world)
    (RedisLimiter (mkRedisLimiter Db.empty [Up; DownAfter])) demo_chain []) ∅.

Example a_lost_reply_is_charged :
  (tally (admission DEFAULT_POLICY_LABEL (V4 203 0 113 7)) (play demo_app rush shared_limiter_server).1,
   charged (RateLimit.key_for DEFAULT_POLICY_LABEL (V4 203 0 113 7)) 1699999980
     (w_limiter (shared (play demo_app rush shared_limiter_server).2))) = (4%nat, 5).
Proof. vm_compute. reflexivity. Qed.
