(* ===== verification/Fleet.v ===== *)
(** * Several replicas

    The service is scaled out by running several replicas behind one Envoy
    ([StoreBackend] of [src/config.rs], [main] of [src/main.rs]).  Each has a
    breaker of its own and the handlers it is inside; with the [redis] backend
    they share the stores, with the [memory] backend each has its own.  Any
    replica may be restarted at any moment, which drops its handlers and what it
    kept to itself.  What [Schedule] proves of one server holds of a fleet
    whenever it does not depend on what a replica keeps to itself. *)

From S2P Require Import Prelude RustStr Platform IpAddr Session Redis Config Json X402 Sui.
From S2P Require Import Facilitator Stores World Auth ExtProc FacilitatorApi Main Program Handlers.
From S2P Require Import Schedule Concurrent Revenue Allowance Spending.
From S2P Require RateLimit Breaker.
From stdpp Require Import options.
#[local] Open Scope Z_scope.

(** ** What a replica keeps to itself *)

Record Deployment (S L N : Type) := mkDeployment {
  Local : Type;
  booted_with : Local;                              (* of a replica that has just started *)
  enter : Local → World S L N → World S L N;
  keep : World S L N → Local
}.
Arguments mkDeployment {S L N} _ _ _ _.
Arguments Local {S L N} _.
Arguments booted_with {S L N} _.
Arguments enter {S L N} _ _ _.
Arguments keep {S L N} _ _.

Section Deployments.
Context {S L N : Type}.

Definition with_own (b : Breaker.SettlementBreaker) (s : S) (l : L) (w : World S L N) : World S L N :=
  mkWorld (w_clock w) (w_tick w) (w_entropy w) (w_draws w) b s l (w_chain w) (w_metrics w).

(** [StoreBackend::Redis]. *)
Definition shared_stores : Deployment S L N := {|
  Local := Breaker.SettlementBreaker;
  booted_with := Breaker.new;
  enter b w := with_own b (w_sessions w) (w_limiter w) w;
  keep := w_breaker
|}.

(** [StoreBackend::Memory]: what [build_stores] makes is made by every replica. *)
Definition private_stores (stores : S * L) : Deployment S L N := {|
  Local := Breaker.SettlementBreaker * (S * L);
  booted_with := (Breaker.new, stores);
  enter '(b, (s, l)) := with_own b s l;
  keep w := (w_breaker w, (w_sessions w, w_limiter w))
|}.
End Deployments.

(** ** A fleet *)

(** A task lives on the replica its number has by [home]. *)
Definition task_number (c : Choice) : nat :=
  match c with
  | Open n | Deliver n _ | StartCallout n _ | StartVerify n _ | StartSettle n _ | StartSweep n
  | Step n | Drop n => n
  end.

Inductive FleetChoice :=
| Act (c : Choice)
| Restart (replica : nat).

Record Fleet {S L N} (D : Deployment S L N) := mkFleet {
  everyone : Server S L N;
  own_parts : gmap nat (Local D)
}.
Arguments mkFleet {S L N D} _ _.
Arguments everyone {S L N D} _.
Arguments own_parts {S L N D} _.

Section Fleet.
Context `{!Codecs, !Json, !SuiSdk} {S L N : Type}
  `{!SuiNode N, !SessionBackend S, !RateBackend L}.
Context (app : App) (D : Deployment S L N) (home : nat → nat).

Definition part_of (i : nat) (fl : Fleet D) : Local D := default (booted_with D) (own_parts fl !! i).

Definition fleet_advance (c : FleetChoice) : M (Fleet D) (option Event) := λ fl,
  let srv := everyone fl in
  match c with
  | Act c =>
      let i := home (task_number c) in
      let '(e, srv) := advance app c (mkServer (enter D (part_of i fl) (shared srv)) (tasks srv)) in
      (e, mkFleet srv (<[i := keep D (shared srv)]> (own_parts fl)))
  | Restart i =>
      (None, mkFleet (mkServer (shared srv) (filter (λ nt, home nt.1 ≠ i) (tasks srv)))
               (delete i (own_parts fl)))
  end.

Fixpoint fleet_play (cs : list FleetChoice) (fl : Fleet D) : list Event * Fleet D :=
  match cs with
  | [] => ([], fl)
  | c :: cs => let '(e, fl) := fleet_advance c fl in
               let '(es, fl) := fleet_play cs fl in (option_list e ++ es, fl)
  end.
End Fleet.

Definition acting (P : Choice → Prop) (c : FleetChoice) : Prop :=
  match c with Act c => P c | Restart _ => True end.

(** ** One server's invariant is the fleet's *)

Section Rule.
#[local] Set Default Proof Using "Type*".
Context `{!Codecs, !Json, !SuiSdk} {S L N : Type}
  `{!SuiNode N, !SessionBackend S, !RateBackend L}.
Context (app : App) (D : Deployment S L N) (home : nat → nat).
Context (G : Discipline) (outside : ghost G).
Context (waits : StreamState → ghost G → Prop) (ends : Outcome → ghost G → Prop).
Context (fair : Choice → Prop) (Good : list Event → (nat → ghost G) → World S L N → Prop).
Context (HR : Rule app G outside waits ends fair Good).
Context (Hblind : ∀ h own l w, Good h own w → Good h own (enter D l w)).

Abbreviation Inv := (Inv G waits ends Good).

Lemma fleet_advance_keeps h own c (fl : Fleet D) :
  Inv h own (everyone fl) → acting fair c →
  ∃ own', Inv (h ++ option_list (fleet_advance app D home c fl).1) own'
              (everyone (fleet_advance app D home c fl).2).
Proof.
  intros [Hg Ht] Hf. destruct c as [c|i]; cbn [fleet_advance acting] in *.
  - set (srv := mkServer _ _).
    destruct (advance_keeps app G outside waits ends fair Good HR h own c srv) as [own' Hi];
      [split; [by apply Hblind|done]|done|].
    exists own'. by destruct (advance app c srv) as [e srv'].
  - exists own. cbn [fst snd option_list everyone]. rewrite app_nil_r. split; [done|].
    intros n t [Hl _]%map_lookup_filter_Some. by apply Ht.
Qed.

Lemma fleet_keeps h own cs (fl : Fleet D) :
  Inv h own (everyone fl) → Forall (acting fair) cs →
  ∃ own', Inv (h ++ (fleet_play app D home cs fl).1) own' (everyone (fleet_play app D home cs fl).2).
Proof.
  intros Hi Hf. revert h own fl Hi. induction Hf as [|c cs Hc _ IH]; intros h own fl Hi; cbn [fleet_play].
  { exists own. by rewrite app_nil_r. }
  destruct (fleet_advance_keeps h own c fl Hi Hc) as [own1 Hi1].
  destruct (fleet_advance app D home c fl) as [e fl1]. cbn [fst snd] in Hi1.
  destruct (IH _ _ _ Hi1) as [own2 Hi2]. destruct (fleet_play app D home cs fl1) as [es fl2].
  exists own2. cbn [fst snd]. by rewrite app_assoc.
Qed.
End Rule.

(** ** Properties: what sharing the stores buys *)

Section Properties.
#[local] Set Default Proof Using "Type*".
Context `{!Codecs, !Json, !SuiSdk} {S L N : Type}
  `{!SuiNode N, !SessionBackend S, !RateBackend L}.
Context (app : App) (home : nat → nat).

Abbreviation fleet := (Fleet (shared_stores (S := S) (L := L) (N := N))).
Abbreviation fleet_play := (fleet_play app shared_stores home).

Lemma fleet_buys_once `{!SingleUse S} (id : string) (cs : list FleetChoice) (fl : fleet) :
  let w := shared (everyone fl) in
  (∀ i, is_u64 (w_clock w i)) → (∀ i j, (i ≤ j)%nat → w_clock w i ≤ w_clock w j) →
  (∀ i, w_clock w i < w_clock w (w_tick w) + gateway_ttl app) →
  retains (gateway_ttl app) (w_sessions w) → Forall (acting (lasting_choice app)) cs →
  map_Forall (λ _ t, idle id t) (tasks (everyone fl)) →
  (uses id (used_by (fleet_play cs fl).1) ≤ 1)%nat ∧
  (tally (settles_payment id) (fleet_play cs fl).1 ≤ 1)%nat.
Proof.
  intros w Hu Hmono Hend Hkept Hcalls Hfresh.
  destruct (fleet_keeps app shared_stores home _ _ _ _ _ _ (ownership_rule app id (w_clock w (w_tick w)))
    ltac:(by intros ??? []) [] (λ _, Outside) cs fl) as (own & (_ & _ & Hl) & _).
  - split; [split; [by split_and!|split; [done|apply ledger_start]]|].
    intros n t Hn. specialize (Hfresh n t Hn). destruct t as [st|p]; [|done].
    destruct Hfresh as [Hm Hne]. by split.
  - done.
  - rewrite uses_tally. destruct Hl as [_ [?|[? _]] [?|[? _]] _]; cbn [Datatypes.app] in *; lia.
Qed.

Lemma fleet_spends_no_more `{!Spendable S} (sid : string) (n : Z) (cs : list FleetChoice) (fl : fleet) :
  covers sid n (w_sessions (shared (everyone fl))) → unrepeated sid (shared (everyone fl)) →
  Z.of_nat (tally (spent_event sid) (fleet_play cs fl).1) ≤ n.
Proof.
  intros Hcover Hids.
  destruct (fleet_keeps app shared_stores home _ _ _ _ _ _ (covered_rule app sid n)
    ltac:(by intros ??? []) [] (λ _, tt) cs fl) as (own & [_ Hc] & _).
  - split; [split; [done|]|].
    + unfold tally. cbn [List.filter length]. by rewrite Z.sub_0_r.
    + intros k [st|p] _; [done|]. apply wp_plain; [apply only_anything|done].
  - apply Forall_true. by intros [c|i]; cbn.
  - cbn [Datatypes.app] in Hc. apply covers_nonneg in Hc. lia.
Qed.

Lemma fleet_balance `{!Metered S} (dearest before : Z) (cs : list FleetChoice) (fl : fleet) :
  Forall (λ q, 0 ≤ q ≤ dearest) (quotas app.(config)) →
  owes dearest before (w_sessions (shared (everyone fl))) →
  map_Forall (λ _ t, resting t) (tasks (everyone fl)) →
  let h := (fleet_play cs fl).1 in
  let w := shared (everyone fl) in
  let w' := shared (everyone (fleet_play cs fl).2) in
  (tally sold_event h ≤ tally settled_event h)%nat ∧
  owes dearest (before + dearest * Z.of_nat (tally sold_event h) - Z.of_nat (tally accepted_event h)) (w_sessions w') ∧
  (app.(facilitator).(mode) = SuiGrpc →
     Z.of_nat (tally accepted_event h) ≤ before + dearest * Z.of_nat (executions w' - executions w)).
Proof.
  intros Hquotas Howes Hrest h w w'.
  destruct (fleet_keeps app shared_stores home _ _ _ _ _ _
    (credit_rule app dearest before (executions w) (listed_offer _ _ Hquotas))
    ltac:(by intros ??? []) [] (λ _, false) cs fl) as (own & Hb & _).
  - split; [by apply balanced_start|by intros n t Ht; specialize (Hrest n t Ht); destruct t].
  - apply Forall_true. by intros [c|i]; cbn.
  - by eapply balanced_sum.
Qed.

(** C4: One payment buys one thing from the whole fleet.  However the replicas
    that share a store interleave, and whichever of them are restarted at
    whatever moment, a payment pays for at most one of a delivered response, a
    request let through, and a settlement through [/settle], and is settled at
    most once.  The replicas agree on the time, which does not run backwards; the
    run ends within the lifetime of the gateway's claims; the store keeps records
    for that lifetime ([retains]; Redis always does); every caller of [/settle]
    asks the replay cache for at least that lifetime ([lasting_choice]), for a
    shorter one lets a payment be used twice
    ([Stores.a_shorter_lifetime_reopens_a_memory_claim]); and the run starts with
    no handler inside the payment. *)
Theorem one_payment_buys_once_across_replicas `{!SingleUse S} (id : string) (cs : list FleetChoice)
    (fl : fleet) (w := shared (everyone fl))
    (Hu : ∀ i, is_u64 (w_clock w i))
    (Hmono : ∀ i j, (i ≤ j)%nat → w_clock w i ≤ w_clock w j)
    (Hend : ∀ i, w_clock w i < w_clock w (w_tick w) + gateway_ttl app)
    (Hkept : retains (gateway_ttl app) (w_sessions w))
    (Hcalls : Forall (acting (lasting_choice app)) cs)
    (Hfresh : map_Forall (λ _ t, idle id t) (tasks (everyone fl))) :
  (uses id (used_by (fleet_play cs fl).1) ≤ 1)%nat ∧
  (tally (settles_payment id) (fleet_play cs fl).1 ≤ 1)%nat.
Proof. by apply fleet_buys_once. Qed.

(** C5: A session is never oversold by the fleet.  However the replicas that share
    a store interleave and whichever are restarted, the requests they accept on
    one session are no more than it could buy: its quota, from the moment it
    was sold ([sale_covers]).  Its random identifier is not drawn again. *)
Theorem no_session_is_oversold_across_replicas `{!Spendable S} (sid : string) (n : Z)
    (cs : list FleetChoice) (fl : fleet)
    (Hcover : covers sid n (w_sessions (shared (everyone fl))))
    (Hids : unrepeated sid (shared (everyone fl))) :
  Z.of_nat (tally (spent_event sid) (fleet_play cs fl).1) ≤ n.
Proof. by apply fleet_spends_no_more. Qed.

(** C6: The free allowance is the fleet's.  In one window the replicas that share
    a limiter let through no more requests of one client under one policy than
    that policy's limit, less what had been charged.  Two policies whose labels
    collide share one counter, so every policy that the configuration can resolve
    for this client's key must have these terms ([Hpolicy]; labels can collide,
    as a policy may be named like a path prefix).  All the clocks stay in that one window; twice
    the window fits a [u64].  The entry starts no later than the window and has
    its length, and the limit fits a [u64] ([in_order]); in Redis the limit is at most [2 ^ 53], the window at
    most [2 ^ 52] seconds, and the client's counter holds a decimal count of at
    most [2 ^ 53] until the window ends.  No handler is under way at the start. *)
Theorem free_allowance_holds_across_replicas `{!Counted L} (label : string) (ip : IpAddr)
    (max w ws : Z) (cs : list FleetChoice) (fl : fleet)
    (Hw : 0 < w) (Hw2 : 2 * w ≤ u64_max) (Hmax : 0 ≤ max) (Hws : 0 ≤ ws)
    (Hpolicy : ∀ path pol i, let p := policy_for app.(config) path pol in
       RateLimit.key_for p.(Config.label) i = RateLimit.key_for label ip →
       p.(free_tier) = {| max_requests := max; free_window_secs := w |})
    (Hwindow : ∀ i, (w_tick (shared (everyone fl)) ≤ i)%nat →
       RateLimit.window_start_of (w_clock (shared (everyone fl)) i) w = ws)
    (Horder : in_order (RateLimit.key_for label ip) ws w max (w_limiter (shared (everyone fl))))
    (Hrest : map_Forall (λ _ t, resting t) (tasks (everyone fl))) :
  Z.of_nat (tally (admission label ip) (fleet_play cs fl).1) ≤
    Z.max 0 (max - charged (RateLimit.key_for label ip) ws (w_limiter (shared (everyone fl)))).
Proof.
  set (c0 := charged _ _ _).
  destruct (fleet_keeps app shared_stores home _ _ _ _ _ _ (counting_rule app label ip max w ws Hw Hw2 Hmax Hws Hpolicy c0)
    ltac:(by intros ??? []) [] (λ _, tt) cs fl) as (own & (_ & _ & _ & Hle) & _).
  - split; [|by intros n t Ht; specialize (Hrest n t Ht); destruct t].
    split_and!; [done|done| |by left]. unfold tally. cbn [List.filter length]. subst c0. lia.
  - apply Forall_true. by intros [c|i]; cbn.
  - cbn [Datatypes.app] in Hle. lia.
Qed.
End Properties.

(** ** The properties at concrete inputs

    Two replicas in front of one Redis: the even tasks on one, the odd on the
    other. *)
Definition parity (n : nat) : nat := Nat.modulo n 2.
Definition two_stores (clock : nat → Z) (db : Db.t) :
  World (SessionStore Db.t) (RateLimiter Db.t) DemoNode.t :=
  mkWorld clock 0 (λ _, replicate 16 Byte.x07) 0 Breaker.new (RedisSessions (mkRedisSessions db demo_key []))
    (RedisLimiter (mkRedisLimiter Db.empty [])) demo_chain [].
Definition two_replicas (clock : nat → Z) (db : Db.t) :
  Fleet (shared_stores (S := SessionStore Db.t) (L := RateLimiter Db.t) (N := DemoNode.t)) :=
  mkFleet (mkServer (two_stores clock db) ∅) ∅.

(** One payment, presented to both; the one that wins it is restarted after its
    settlement, before it sells the session, and it is presented again. *)
Definition chase : list FleetChoice :=
  (Act <$> [Open 0; Open 1; Deliver 0 (request_message paying_wire); Deliver 1 (request_message paying_wire)] ++
     mjoin (replicate 8 [Step 0; Step 1]) ++ [Deliver 0 (response_message "200")] ++ steps 0 2) ++
  [Restart 0] ++
  (Act <$> [Open 2; Deliver 2 (request_message paying_wire)] ++ steps 2 8 ++
     [Deliver 2 (response_message "200")] ++ steps 2 8).

Lemma one_payment_buys_once_across_replicas_witness :
  let h := (fleet_play demo_app shared_stores parity chase (two_replicas (w_clock demo_world) Db.empty)).1 in
  (uses demo_id (used_by h), tally (settles_payment demo_id) h) = (0, 1)%nat ∧
  (uses demo_id (used_by h) ≤ 1)%nat ∧ (tally (settles_payment demo_id) h ≤ 1)%nat.
Proof.
  cbv zeta. split; [vm_compute; reflexivity|].
  assert (gateway_ttl demo_app = 600) as Httl by (vm_compute; reflexivity).
  assert (∀ i, 1700000000 ≤ w_clock demo_world i ≤ 1700000100) as Hclk.
  { intros i. cbn. pose proof (Nat.le_min_r i 100). lia. }
  apply (one_payment_buys_once_across_replicas demo_app parity demo_id chase).
  - intros i. specialize (Hclk i). change (is_u64 (w_clock demo_world i)). unfold is_u64, u64_max. lia.
  - intros i j Hij. change (w_clock demo_world i ≤ w_clock demo_world j). cbn.
    pose proof (Nat.min_le_compat_r i j 100 Hij). lia.
  - intros i. rewrite Httl. specialize (Hclk i). change (w_clock demo_world i < 1700000000 + 600). lia.
  - exact I.
  - repeat constructor.
  - apply map_Forall_empty.
Defined.

(** A session of three requests, presented to either replica in turn. *)
Definition stored_session : option string * Db.t :=
  redis_create_session demo_key Up 1700000000 1700000000 "0xdeadbeef" None 3 3600 demo_raw Db.empty.
Definition stored_callout : CheckRequest :=
  mkCheck (Some {[HEADER_PAYMENT_SESSION := unwrap_or stored_session.1 ""]}) (Some "203.0.113.7") None ∅.
Definition queue : list FleetChoice :=
  Act <$> ((λ n, StartCallout n stored_callout) <$> seq 0 3) ++ mjoin (replicate 4 (Step <$> seq 0 3)) ++
          ((λ n, StartCallout n stored_callout) <$> seq 3 3) ++ mjoin (replicate 4 (Step <$> seq 3 3)).

Lemma no_session_is_oversold_across_replicas_witness :
  let h := (fleet_play demo_app shared_stores parity (take 12 queue ++ [Restart 1] ++ drop 12 queue)
              (two_replicas (λ _, 1700000001) stored_session.2)).1 in
  tally (spent_event (new_session_id demo_raw)) h = 3%nat ∧
  Z.of_nat (tally (spent_event (new_session_id demo_raw)) h) ≤ 3.
Proof.
  cbv zeta. split; [vm_compute; reflexivity|].
  apply (no_session_is_oversold_across_replicas demo_app parity (new_session_id demo_raw) 3).
  - apply store_session_covers. lia.
  - intros i _. vm_compute. discriminate.
Defined.

(** Fourteen callouts of one client in one window, alternating between the
    replicas, one of which is restarted half way. *)
Definition double_rush : list FleetChoice :=
  (Act <$> ((λ n, StartCallout n anonymous_callout) <$> seq 0 7) ++ mjoin (replicate 4 (Step <$> seq 0 7))) ++
  [Restart 0] ++
  (Act <$> ((λ n, StartCallout n anonymous_callout) <$> seq 7 7) ++ mjoin (replicate 4 (Step <$> seq 7 7))).

Abbreviation visitor := (V4 203 0 113 7).
Abbreviation at_noon := (two_replicas (λ _, 1700000000) Db.empty).

Lemma free_allowance_holds_across_replicas_witness :
  tally (admission DEFAULT_POLICY_LABEL visitor)
    (fleet_play demo_app shared_stores parity double_rush at_noon).1 = 5%nat ∧
  Z.of_nat (tally (admission DEFAULT_POLICY_LABEL visitor)
    (fleet_play demo_app shared_stores parity double_rush at_noon).1) ≤
    Z.max 0 (5 - charged (RateLimit.key_for DEFAULT_POLICY_LABEL visitor) 1699999980
                   (w_limiter (shared (everyone at_noon)))).
Proof.
  split; [vm_compute; reflexivity|].
  assert (2 * 60 ≤ u64_max) as Hw by (vm_compute; discriminate). assert (0 ≤ 5) as Hmax by discriminate.
  refine (free_allowance_holds_across_replicas demo_app parity DEFAULT_POLICY_LABEL visitor 5 60 1699999980
            double_rush at_noon eq_refl Hw Hmax _ _ _ _ _); [discriminate| | | |].
  - intros path pol i p _. apply (no_free_override demo_config). vm_compute. repeat constructor.
  - intros i _. vm_compute. reflexivity.
  - split; [discriminate|]. split; [discriminate|]. split; [vm_compute; split; discriminate|].
    intros t _. vm_compute. reflexivity.
  - apply map_Forall_empty.
Defined.

(** ** What keeping them apart costs

    With the [memory] backend every replica has stores of its own, as the
    comments in [main] and [StoreBackend] warn. *)
Definition own_stores : SessionStore Db.t * RateLimiter Db.t :=
  (MemorySessions demo_store, MemoryLimiter RateLimit.new).
Definition apart (clock : nat → Z) : Fleet (private_stores (N := DemoNode.t) own_stores) :=
  mkFleet (mkServer (two_stores clock Db.empty) ∅) ∅.

(** [N] replicas multiply the limit, and a restart starts it afresh. *)
Example memory_replicas_multiply_the_allowance :
  (tally (admission DEFAULT_POLICY_LABEL visitor)
     (fleet_play demo_app (private_stores own_stores) parity
        (List.filter (λ c, match c with Restart _ => false | _ => true end) double_rush)
        (apart (λ _, 1700000000))).1,
   tally (admission DEFAULT_POLICY_LABEL visitor)
     (fleet_play demo_app (private_stores own_stores) parity double_rush (apart (λ _, 1700000000))).1)
  = (10, 12)%nat.
Proof. vm_compute. reflexivity. Qed.

(** A session sold by one replica is [Unknown] to the other, and to itself
    after a restart. *)
Definition answers (h : list Event) : list SessionOutcome :=
  omap (λ e, match e return option SessionOutcome with
             | Did (Consume _ _) x => Some x
             | _ => None
             end) h.
Definition sell (n : nat) : list FleetChoice :=
  Act <$> [Open n; Deliver n (request_message paying_wire)] ++ steps n 8 ++
          [Deliver n (response_message "200")] ++ steps n 8.
Definition sold_by_one : string :=
  unwrap_or (head (sold_tokens
    (fleet_play demo_app (private_stores own_stores) parity (sell 0) (apart (w_clock demo_world))).1)) "".
Definition buyer : CheckRequest :=
  mkCheck (Some {[HEADER_PAYMENT_SESSION := sold_by_one]}) (Some "203.0.113.7") None ∅.
Definition visit (n : nat) : list FleetChoice := Act <$> [StartCallout n buyer] ++ steps n 4.

Example memory_sessions_are_replica_affine :
  (λ o, match o with Accepted _ _ _ _ => None | Rejected why => Some why end) <$>
    answers (fleet_play demo_app (private_stores own_stores) parity
      (sell 0 ++ visit 2 ++ visit 3 ++ [Restart 0] ++ visit 4) (apart (w_clock demo_world))).1
  = [None; Some Unknown; Some Unknown].
Proof. vm_compute. reflexivity. Qed.

(** Both take the same payment, where replicas that share a cache let one. *)
Definition fresh_claims (h : list Event) : nat :=
  tally (λ e, match e with Did (ClaimPayment _ _) Fresh => true | _ => false end) h.

Example memory_replicas_take_a_payment_twice :
  (fresh_claims (fleet_play demo_app (private_stores own_stores) parity (sell 0 ++ sell 1)
     (apart (w_clock demo_world))).1,
   fresh_claims (fleet_play demo_app shared_stores parity (sell 0 ++ sell 1)
     (two_replicas (w_clock demo_world) Db.empty)).1) = (2, 1)%nat.
Proof. vm_compute. reflexivity. Qed.
