(* ===== verification/Boot.v ===== *)
(** * From startup to the last request

    What [main] serves once it has started: the stores it built, over the chain
    it checked, with nothing open and nothing sold.  The guarantees of the other
    files are about servers in some state; here they meet [startup], which
    establishes what they ask for. *)

From S2P Require Import Prelude RustStr Platform IpAddr Session Redis Config Json X402 Sui.
From S2P Require Import Facilitator Stores World Auth ExtProc FacilitatorApi Main Program Handlers.
From S2P Require Import Schedule Concurrent Typing Revenue Allowance Spending Fleet.
From S2P Require RateLimit Breaker.
From stdpp Require Import options.
#[local] Open Scope Z_scope.

(** [AppState], shared by both filters, the facilitator's interface and the
    sweep; the clock and the random bytes are the machine's. *)
Definition booted {R N} (svc : Service R) (clock : nat → Z) (entropy : nat → bytes) (chain : Chain N) :
  Server (SessionStore R) (RateLimiter R) N :=
  mkServer (mkWorld clock 0 entropy 0 Breaker.new svc.(sv_sessions) svc.(sv_limiter) chain []) ∅.

Definition dearest_quota (c : Config) : Z := foldr Z.max 0 (quotas c).

Section Boot.
#[local] Set Default Proof Using "Type*".
Context `{!Codecs, !Json, !SuiSdk} {N R : Type} `{!SuiNode N, !RedisCommands R, !RedisLaws R}.

Lemma quotas_dearest c : Forall (λ q, 0 ≤ q) (quotas c) → Forall (λ q, 0 ≤ q ≤ dearest_quota c) (quotas c).
Proof using.
  unfold dearest_quota. induction (quotas c) as [|q l IH]; intros Hl; [constructor|].
  apply Forall_cons in Hl as [Hq Hl]. specialize (IH Hl). apply Forall_cons. cbn. split; [lia|].
  eapply Forall_impl; [exact IH|]. cbn. lia.
Qed.

Lemma typed_quotas c : config_typed c → Forall (λ q, 0 ≤ q) (quotas c).
Proof using.
  intros [_ [Hp _] Hpol Hr]. unfold quotas. apply Forall_cons. split; [by destruct Hp|].
  apply Forall_forall. intros q (o & Ho & Hq)%list_elem_of_omap.
  assert (override_ok o) as [_ Hpaid].
  { unfold overrides_of in Ho. apply elem_of_app in Ho as [Ho|Ho].
    - apply list_elem_of_fmap in Ho as ([k o'] & -> & Hin%elem_of_map_to_list). by apply (Hpol k).
    - apply list_elem_of_fmap in Ho as (r & -> & Hin). rewrite Forall_forall in Hr. by apply Hr. }
  destruct (ov_paid_tier o) as [t|]; [|done]. cbn in Hq. injection Hq as <-.
  destruct (Hpaid t eq_refl) as [[] _]. done.
Qed.

(** C3: What [main] starts is safe to leave running.  From a startup with the
    in-memory stores and a configuration whose numbers fit their types, whatever
    is opened, delivered, dropped and swept, in whatever order of operations:
    the state stays well typed; if payments settle on the chain, the requests
    served on sessions are at most one dearest quota for each transaction
    broadcast since; and every payment buys at most one thing and is settled at
    most once, provided that the clock does not run backwards, the run stays
    within the lifetime of the gateway's claims, sessions are sold for at least
    that long (or the sweep forgets claims early,
    [Main.a_sweep_can_reopen_a_claim]), and every caller of [/settle] asks the
    replay cache for at least that lifetime ([lasting_choice]; a shorter one
    reopens a claim, [Stores.a_shorter_lifetime_reopens_a_memory_claim]). *)
Theorem a_started_gateway_is_safe (file : result Config ConfigError) (env : string → option string)
    (listen : option SocketAddr) (connect : string → option (R * R)) (w w' : Chain N) (svc : Service R)
    (clock : nat → Z) (entropy : nat → bytes) (cs : list Choice)
    (Hs : startup file env listen connect w = (Ok svc, w'))
    (Hmemory : svc.(sv_app).(config).(store).(backend) = Memory)
    (Htyped : config_typed svc.(sv_app).(config))
    (Hclock : ∀ i, is_u64 (clock i)) :
  let app := svc.(sv_app) in
  let srv := booted svc clock entropy w' in
  let h := (play app cs srv).1 in
  let srv' := (play app cs srv).2 in
  typed_server srv' ∧
  (app.(config).(verification_mode) = SuiGrpc →
     Z.of_nat (tally accepted_event h) ≤
       dearest_quota app.(config) * Z.of_nat (executions (shared srv') - executions (shared srv))) ∧
  (gateway_ttl app ≤ app.(config).(cfg_paid_tier).(duration_secs) →
   (∀ i j, (i ≤ j)%nat → clock i ≤ clock j) → (∀ i, clock i < clock 0%nat + gateway_ttl app) →
   Forall (lasting_choice app) cs →
   ∀ id, (uses id (used_by h) ≤ 1)%nat ∧ (tally (settles_payment id) h ≤ 1)%nat).
Proof.
  intros app srv h srv'.
  pose proof (startup_mode _ _ _ _ _ _ _ Hs) as Hmode.
  destruct (startup_stores _ _ _ _ _ _ _ Hs) as (key & _ & Hbuilt). unfold as_built in Hbuilt.
  rewrite Hmemory in Hbuilt. destruct Hbuilt as [Hstore Hlim].
  split; [|split].
  - apply stays_typed; [done| |by intros n p; cbn; rewrite lookup_empty].
    split; [|by intros n st; cbn; rewrite lookup_empty].
    split; cbn; [done|apply map_Forall_empty| |].
    + eexists. split; [exact Hstore|]. split; apply map_Forall_empty.
    + exists ∅. split; [exact Hlim|apply map_Forall_empty].
  - intros Hgrpc.
    destruct (credit_balance app (dearest_quota app.(config)) 0 cs srv) as (_ & _ & Hpaid).
    + by apply quotas_dearest, typed_quotas.
    + cbn. rewrite Hstore. split; [apply map_Forall_empty|done].
    + apply map_Forall_empty.
    + apply Hpaid. exact (eq_trans Hmode Hgrpc).
  - intros Hlong Hmono Hend Hcalls id. apply (booked_once app id (clock 0%nat)); try done.
    cbn. rewrite Hstore. exact Hlong.
Qed.

(** A fleet that shares its stores: every replica has started like [svc], with
    the same configuration and at the same database. *)
Definition booted_fleet (svc : Service R) (clock : nat → Z) (entropy : nat → bytes) (chain : Chain N) :
  Fleet (shared_stores (S := SessionStore R) (L := RateLimiter R) (N := N)) :=
  mkFleet (booted svc clock entropy chain) ∅.

(** C7: With the stores in Redis, whatever is opened, delivered, dropped and swept on
    any of the replicas, and whichever of them are restarted.  Over the lifetime
    of the gateway's claims every payment buys at most one thing from the fleet
    and is settled at most once, whatever the database held before, provided that
    the replicas agree on a clock that does not run backwards and every caller of
    [/settle] asks for at least that lifetime ([lasting_choice]).  No session is
    accepted more often than the database allows when the run begins, provided
    that its identifier is not drawn again.  And when payments settle on the
    chain, the requests served on sessions are covered by what the database could
    buy then and a dearest quota for each transaction the fleet broadcast since,
    provided that the configuration's numbers fit their types and no quota is
    above [2 ^ 53], where Lua's numbers are exact. *)
Theorem a_started_fleet_is_safe (file : result Config ConfigError) (env : string → option string)
    (listen : option SocketAddr) (connect : string → option (R * R)) (w w' : Chain N) (svc : Service R)
    (clock : nat → Z) (entropy : nat → bytes) (home : nat → nat) (cs : list FleetChoice)
    (Hs : startup file env listen connect w = (Ok svc, w'))
    (Hredis : svc.(sv_app).(config).(store).(backend) = Config.Redis) :
  let app := svc.(sv_app) in
  let fl := booted_fleet svc clock entropy w' in
  let h := (fleet_play app shared_stores home cs fl).1 in
  let fl' := (fleet_play app shared_stores home cs fl).2 in
  ((∀ i, is_u64 (clock i)) → (∀ i j, (i ≤ j)%nat → clock i ≤ clock j) →
   (∀ i, clock i < clock 0%nat + gateway_ttl app) → Forall (acting (lasting_choice app)) cs →
   ∀ id, (uses id (used_by h) ≤ 1)%nat ∧ (tally (settles_payment id) h ≤ 1)%nat) ∧
  (∀ db dl sid n, connect app.(config).(store).(redis_url) = Some (db, dl) →
     field_covers sid n db → (∀ i, new_session_id (entropy i) ≠ sid) →
     Z.of_nat (tally (spent_event sid) h) ≤ n) ∧
  (∀ db dl before, connect app.(config).(store).(redis_url) = Some (db, dl) → redis_owes before db →
     config_typed app.(config) → dearest_quota app.(config) ≤ 2 ^ 53 →
     app.(config).(verification_mode) = SuiGrpc →
     Z.of_nat (tally accepted_event h) ≤ before + dearest_quota app.(config) *
       Z.of_nat (executions (shared (everyone fl')) - executions (shared (everyone fl)))).
Proof.
  intros app fl h fl'. pose proof (startup_mode _ _ _ _ _ _ _ Hs) as Hmode.
  destruct (startup_stores _ _ _ _ _ _ _ Hs) as (key & _ & Hbuilt). unfold as_built in Hbuilt.
  rewrite Hredis in Hbuilt. destruct Hbuilt as (db & dl & Hconn & Hstore & _). fold app in Hconn, Hmode. split; [|split].
  - intros Hu Hmono Hend Hcalls id. apply (fleet_buys_once app home id); try done.
    cbn. by rewrite Hstore.
  - intros db' dl' sid n Hconn' Hc Hids. rewrite Hconn in Hconn'. injection Hconn' as <- <-.
    apply (fleet_spends_no_more app home sid n); [cbn; by rewrite Hstore|by intros i _].
  - intros db' dl' before Hconn' Hc Htyped Hdear Hgrpc. rewrite Hconn in Hconn'. injection Hconn' as <- <-.
    apply (fleet_balance app home (dearest_quota app.(config)) before cs fl);
      [by apply quotas_dearest, typed_quotas| |apply map_Forall_empty|exact (eq_trans Hmode Hgrpc)].
    cbn. rewrite Hstore. by split.
Qed.
End Boot.

(** ** The property at a concrete input *)

(** The demonstration configuration started, and the scuffle played on it. *)
Definition demo_booted : Server (SessionStore Db.t) (RateLimiter Db.t) DemoNode.t :=
  booted demo_service (w_clock demo_world) (w_entropy demo_world) (mkChain false [CallServiceInfo]).

Lemma a_started_gateway_is_safe_witness :
  let app := demo_service.(sv_app) in
  executions (shared (play app scuffle demo_booted).2) = 1%nat ∧
  typed_server (play app scuffle demo_booted).2 ∧
  Z.of_nat (tally accepted_event (play app scuffle demo_booted).1) ≤ 1000 * 1 ∧
  (tally (settles_payment demo_id) (play app scuffle demo_booted).1 ≤ 1)%nat.
Proof.
  intros app.
  assert (startup (N := DemoNode.t) (Ok demo_config) no_env None no_redis demo_chain
    = (Ok demo_service, mkChain (false : DemoNode.t) [CallServiceInfo])) as Hs by (vm_compute; reflexivity).
  assert (∀ i, 1700000000 ≤ w_clock demo_world i ≤ 1700000100) as Hclk.
  { intros i. cbn. pose proof (Nat.le_min_r i 100). lia. }
  assert (gateway_ttl app = 600) as Httl by (vm_compute; reflexivity).
  assert (executions (shared (play app scuffle demo_booted).2) = 1%nat) as Hexec
    by (vm_compute; reflexivity).
  destruct (a_started_gateway_is_safe (Ok demo_config) no_env None no_redis demo_chain
    (mkChain false [CallServiceInfo]) demo_service (w_clock demo_world) (w_entropy demo_world) scuffle Hs)
    as (Hok & Hpaid & Honce).
  - reflexivity.
  - exact demo_config_typed.
  - intros i. specialize (Hclk i). unfold is_u64, u64_max. lia.
  - split; [exact Hexec|]. split; [exact Hok|]. split.
    + specialize (Hpaid eq_refl). fold app in Hpaid. change (booted _ _ _ _) with demo_booted in Hpaid.
      rewrite Hexec in Hpaid. exact Hpaid.
    + apply Honce.
      * fold app. rewrite Httl. vm_compute. congruence.
      * intros i j Hij. cbn. pose proof (Nat.min_le_compat_r i j 100 Hij). lia.
      * intros i. fold app. rewrite Httl. specialize (Hclk i).
        change (w_clock demo_world i < 1700000000 + 600). lia.
      * repeat constructor.
Defined.

(** The same with its stores in Redis: two replicas, restarted as they chase one
    payment; then a session that an earlier run had sold. *)
Definition shared_config : Config :=
  mkConfig (listen_addr demo_config) (metrics_listen_addr demo_config)
    (facilitator_api_listen_addr demo_config) (sui_grpc_url demo_config) (sui_chain demo_config)
    (verification_mode demo_config) (cfg_payment demo_config) (policies demo_config) (routes demo_config)
    (cfg_free_tier demo_config) (cfg_paid_tier demo_config)
    {| backend := Config.Redis; redis_url := "redis://cache:6379" |} (session_hmac_secret demo_config).
Definition shared_key : bytes := match hmac_key shared_config with Ok k => k | Err _ => [] end.
Definition kept_session : option string * Db.t :=
  redis_create_session shared_key Up 1700000000 1700000000 "0xdeadbeef" None 3 3600 demo_raw Db.empty.
Definition at_redis (url : string) : option (Db.t * Db.t) :=
  if String.eqb url "redis://cache:6379" then Some (kept_session.2, Db.empty) else None.
Definition shared_service : Service Db.t :=
  {| sv_app := {| config := with_listen None (with_env no_env shared_config);
                  facilitator := demo_facilitator |};
     sv_sessions := RedisSessions (mkRedisSessions kept_session.2 shared_key []);
     sv_limiter := RedisLimiter (mkRedisLimiter Db.empty []) |}.
Definition kept_callout : CheckRequest :=
  mkCheck (Some {[HEADER_PAYMENT_SESSION := unwrap_or kept_session.1 ""]}) (Some "203.0.113.7") None ∅.
Definition day : list FleetChoice :=
  chase ++ (Act <$> ((λ n, StartCallout n kept_callout) <$> seq 10 5) ++ mjoin (replicate 4 (Step <$> seq 10 5))).
Definition demo_fleet : Fleet (shared_stores (S := SessionStore Db.t) (L := RateLimiter Db.t)) :=
  booted_fleet shared_service (w_clock demo_world) (λ _, replicate 16 Byte.x07)
    (mkChain (false : DemoNode.t) [CallServiceInfo]).

Lemma shared_config_typed : config_typed (config (sv_app shared_service)).
Proof. destruct demo_config_typed as [Hf Hp Hpol Hr]. by split. Qed.

Lemma kept_session_owes : redis_owes 3 kept_session.2.
Proof.
  apply (store_session_owes 3 0); [lia|lia|]. exists ∅. split; [|done]. intros sid. rewrite lookup_empty.
  intros t. cbn. unfold Db.fields. cbn. by rewrite lookup_empty.
Qed.

Lemma a_started_fleet_is_safe_witness :
  let h := (fleet_play shared_service.(sv_app) shared_stores parity day demo_fleet).1 in
  (tally (settles_payment demo_id) h, tally (spent_event (new_session_id demo_raw)) h) = (1, 3)%nat ∧
  (tally (settles_payment demo_id) h ≤ 1)%nat ∧
  Z.of_nat (tally (spent_event (new_session_id demo_raw)) h) ≤ 3 ∧
  Z.of_nat (tally accepted_event h) ≤ 3 + 1000 * 1.
Proof.
  intros h. split; [vm_compute; reflexivity|].
  assert (executions (shared (everyone (fleet_play shared_service.(sv_app) shared_stores parity day demo_fleet).2))
    - executions (shared (everyone demo_fleet)) = 1)%nat as Hexec by (vm_compute; reflexivity).
  assert (dearest_quota (config (sv_app shared_service)) = 1000) as Hdear by (vm_compute; reflexivity).
  assert (startup (N := DemoNode.t) (Ok shared_config) no_env None at_redis demo_chain
    = (Ok shared_service, mkChain (false : DemoNode.t) [CallServiceInfo])) as Hs by (vm_compute; reflexivity).
  assert (∀ i, 1700000000 ≤ w_clock demo_world i ≤ 1700000100) as Hclk.
  { intros i. cbn. pose proof (Nat.le_min_r i 100). lia. }
  assert (gateway_ttl shared_service.(sv_app) = 600) as Httl by (vm_compute; reflexivity).
  destruct (a_started_fleet_is_safe (Ok shared_config) no_env None at_redis demo_chain
    (mkChain false [CallServiceInfo]) shared_service (w_clock demo_world) (λ _, replicate 16 Byte.x07)
    parity day Hs) as (Honce & Hspend & Hpaid).
  - reflexivity.
  - split; [|split].
    + apply Honce.
      * intros i. specialize (Hclk i). unfold is_u64, u64_max. lia.
      * intros i j Hij. cbn. pose proof (Nat.min_le_compat_r i j 100 Hij). lia.
      * intros i. rewrite Httl. specialize (Hclk i). change (w_clock demo_world i < 1700000000 + 600). lia.
      * repeat constructor.
    + apply (Hspend kept_session.2 Db.empty); [vm_compute; reflexivity| |].
      * apply store_session_covers. lia.
      * intros i. vm_compute. discriminate.
    + change (booted_fleet _ _ _ _) with demo_fleet in Hpaid. rewrite Hexec, Hdear in Hpaid.
      apply (Hpaid kept_session.2 Db.empty 3); [vm_compute; reflexivity|exact kept_session_owes|
        exact shared_config_typed|lia|reflexivity].
Defined.
