(* ===== verification/Progress.v ===== *)
(** * Every handler ends

    Nothing in a handler waits for another and nothing repeats: whatever the
    others do in between, a handler ends after a bounded number of its own
    operations, and asks the chain at most once.  The bound is counted with a
    discipline whose ghost is what is left to spend. *)

From S2P Require Import Prelude RustStr Platform IpAddr Session Redis Config Json X402 Sui.
From S2P Require Import Facilitator Stores World Auth ExtProc FacilitatorApi Main Program Handlers.
From S2P Require Import Schedule Concurrent.
From S2P Require RateLimit Breaker.
From stdpp Require Import options.
#[local] Open Scope Z_scope.

(** Operations that cost are paid from the budget. *)
Definition budget (cost : Op → nat) : Discipline := {|
  ghost := nat;
  may o g := (cost o ≤ g)%nat;
  told _ _ := True;
  after o g _ := (g - cost o)%nat
|}.

(** A program costs at most [g], whatever it is answered. *)
Definition within_budget {A} (cost : Op → nat) (g : nat) (p : Prog A) : Prop :=
  wp (budget cost) p g (λ _ _, True).

Definition each (_ : Op) : nat := 1.
Definition trips (o : Op) : nat := match o with Verify _ _ | Settle _ _ => 1 | _ => 0 end.

(** The most operations a handler performs, and trips to the chain it makes. *)
Definition MAX_OPERATIONS : nat := 10.
Definition MAX_TRIPS : nat := 1.

(** Spend the budget along every path. *)
Ltac affordable := solve [apply (proj1 (Nat.leb_le _ _)); reflexivity].
Ltac spend :=
  repeat match goal with
  | |- wp _ (_ ≫= _) _ _ => apply wp_bind
  | |- wp _ (call _) _ _ => split; [affordable|intros ? _; cbn [after budget each trips Nat.sub]]
  | |- wp _ (when ?b _) _ _ => destruct b; cbn [when]
  | |- wp _ (match ?x with _ => _ end) _ _ => destruct x
  | |- wp _ (Return _) _ _ => cbn [wp]
  | _ => progress cbv beta
  end.

Section Bounds.
#[local] Set Default Proof Using "Type*".
Context `{!Codecs, !Json, !SuiSdk}.
Context (app : App).

Lemma decide_operations r :
  within_budget each (match settle_policy r with Immediate => 10 | Deferred => 9 end)%nat
    (decide_prog app r).
Proof.
  unfold within_budget, decide_prog, session_prog, try_session_prog, payment_prog, claim_prog, free_prog.
  unfold deferred_prog, immediate_prog, mint_prog, count_rejected_prog. cbv zeta.
  destruct (settle_policy r); by spend.
Qed.

Lemma decide_trips r : within_budget trips MAX_TRIPS (decide_prog app r).
Proof.
  unfold within_budget, decide_prog, session_prog, try_session_prog, payment_prog, claim_prog, free_prog.
  unfold deferred_prog, immediate_prog, mint_prog, count_rejected_prog, MAX_TRIPS. cbv zeta. by spend.
Qed.

(** What a decision leaves is the rest of the handler's. *)
Lemma decide_then {B} cost g r (k : option Auth.Decision → B) :
  within_budget cost g (decide_prog app r) →
  within_budget cost g (d ← decide_prog app r; Return (k d)).
Proof. intros Hd. apply wp_bind. eapply wp_mono; [exact Hd|]. done. Qed.

Lemma response_within cost st hs e :
  cost = each ∨ cost = trips →
  within_budget cost (match cost (StateAt "") with O => MAX_TRIPS | _ => MAX_OPERATIONS end)
    (response_prog app st hs e).
Proof.
  unfold within_budget, response_prog, release_prog, outcome_prog, settled_prog, failed_prog, mint_prog.
  cbv zeta. intros [-> | ->]; cbn [each trips]; unfold MAX_TRIPS, MAX_OPERATIONS; by spend.
Qed.

(** A handler's two bounds. *)
Definition bounded (p : Prog Outcome) : Prop :=
  within_budget each MAX_OPERATIONS p ∧ within_budget trips MAX_TRIPS p.

Lemma bounded_message st m : bounded (message_task app st m).
Proof.
  unfold bounded, message_task, message_prog. destruct (phase m) as [hs|hs|].
  - unfold request_prog. cbv zeta. set (r := request_of _ _ _).
    pose proof (decide_operations r) as Ho. pose proof (decide_trips r) as Ht. cbn [settle_policy r] in Ho.
    split; apply wp_bind, wp_bind; (split; [affordable|]); intros b _;
      cbn [wp after budget each trips]; destruct (_ && _); unfold MAX_OPERATIONS, MAX_TRIPS in *; by spend.
  - split; apply wp_bind, wp_bind.
    + eapply wp_mono; [apply (response_within each); by left|]. done.
    + eapply wp_mono; [apply (response_within trips); by right|]. done.
  - by split.
Qed.

Lemma bounded_callout c : bounded (callout_task app c).
Proof.
  split; apply decide_then; [exact (decide_operations (check_request c))|apply decide_trips].
Qed.

Lemma bounded_verify r : bounded (verify_task r).
Proof using.
  split; unfold within_budget, verify_task, api_verify_prog, MAX_OPERATIONS, MAX_TRIPS; by spend.
Qed.

Lemma bounded_settle r : bounded (settle_task app r).
Proof.
  split; unfold within_budget, settle_task, api_settle_prog, api_claim_prog, release_prog, MAX_OPERATIONS,
    MAX_TRIPS; by spend.
Qed.

Lemma bounded_sweep : bounded sweep_task.
Proof using. split; unfold within_budget, sweep_task, sweep_prog, MAX_OPERATIONS, MAX_TRIPS; by spend. Qed.
End Bounds.

(** ** In a schedule *)

(** The number a choice is about. *)
Definition subject (c : Choice) : nat :=
  match c with
  | Open n | Deliver n _ | StartCallout n _ | StartVerify n _ | StartSettle n _ | StartSweep n
  | Step n | Drop n => n
  end.

(** The others do what they like; the task [n] is only let run. *)
Definition lets_run (n : nat) (c : Choice) : Prop := subject c = n → c = Step n.
Definition own_steps (n : nat) (cs : list Choice) : nat :=
  length (List.filter (λ c, bool_decide (subject c = n)) cs).

Section Schedule.
#[local] Set Default Proof Using "Type*".
Context `{!Codecs, !Json, !SuiSdk} {S L N : Type}
  `{!SuiNode N, !SessionBackend S, !RateBackend L}.
Context (app : App).

Definition inside (n : nat) (srv : Server S L N) : Prop := ∃ p, tasks srv !! n = Some (Running p).

Lemma advance_other n c (srv : Server S L N) :
  subject c ≠ n → tasks (advance app c srv).2 !! n = tasks srv !! n.
Proof.
  intros Hne. destruct c as [k|k m|k c|k r|k r|k|k|k]; cbn [subject] in Hne;
    cbn [advance opened snd]; unfold start.
  7: { destruct (tasks srv !! k) as [[st|[out|o p]]|]; cbn [snd]; [done| | |done].
       - unfold leave. cbn [tasks]. destruct (o_next out);
           [by rewrite lookup_insert_ne|by rewrite lookup_delete_ne].
       - destruct (exec _ o (shared srv)). cbn. by rewrite lookup_insert_ne. }
  all: try (destruct (tasks srv !! k) as [[st|p]|]; try done; cbn; by rewrite lookup_insert_ne).
  cbn. by rewrite lookup_delete_ne.
Qed.

(** A step of its own takes from the budget, or ends the handler. *)
Lemma advance_own n (srv : Server S L N) p g :
  tasks srv !! n = Some (Running p) → within_budget each g p →
  match tasks (advance app (Step n) srv).2 !! n with
  | Some (Running p') => (0 < g)%nat ∧ within_budget each (g - 1) p'
  | _ => True
  end.
Proof.
  intros Hn Hp. cbn [advance]. rewrite Hn. destruct p as [out|o k].
  - unfold leave. cbn [snd tasks]. destruct (o_next out); [by rewrite lookup_insert_eq|].
    by rewrite lookup_delete_eq.
  - destruct Hp as [Ho Hk]. change (1 ≤ g)%nat in Ho. destruct (exec _ o (shared srv)) as [x w]. cbn [snd tasks].
    rewrite lookup_insert_eq. split; [lia|]. by apply Hk.
Qed.

Lemma advance_outside n (srv : Server S L N) : ¬ inside n srv → ¬ inside n (advance app (Step n) srv).2.
Proof.
  intros Hout. cbn [advance]. destruct (tasks srv !! n) as [[st|p]|] eqn:Hn; [done| |done].
  destruct Hout. by exists p.
Qed.

Lemma stays_outside n cs (srv : Server S L N) :
  Forall (lets_run n) cs → ¬ inside n srv → ¬ inside n (play app cs srv).2.
Proof.
  intros Hcs. revert srv. induction Hcs as [|c cs Hc _ IH]; intros srv Hout; [done|]. cbn [play].
  assert (¬ inside n (advance app c srv).2) as H1'.
  { destruct (base.decide (subject c = n)) as [Hs|Hs]; [rewrite (Hc Hs); by apply advance_outside|].
    intros [p Hp]. rewrite advance_other in Hp by done. apply Hout. by exists p. }
  destruct (advance app c srv) as [e srv1]. specialize (IH srv1 H1'). by destruct (play app cs srv1).
Qed.

Lemma ends_within n cs (srv : Server S L N) p g :
  Forall (lets_run n) cs → tasks srv !! n = Some (Running p) → within_budget each g p →
  (g < own_steps n cs)%nat → ¬ inside n (play app cs srv).2.
Proof.
  intros Hcs. revert srv p g. induction Hcs as [|c cs Hc Hcs IH]; intros srv p g Hn Hp; [cbn; lia|].
  unfold own_steps in *. cbn [List.filter play]. case_bool_decide as Hs.
  - rewrite (Hc Hs). pose proof (advance_own n srv p g Hn Hp) as Ha.
    pose proof (stays_outside n cs (advance app (Step n) srv).2 Hcs) as Hstay.
    destruct (advance app (Step n) srv) as [e srv1]. cbn [snd] in *. cbn [length]. intros Hg.
    destruct (tasks srv1 !! n) as [[st|p']|] eqn:Hn1.
    + assert (¬ inside n srv1) as Hout by (intros [q Hq]; congruence).
      specialize (Hstay Hout). by destruct (play app cs srv1).
    + destruct Ha as [Hg0 Hp']. specialize (IH srv1 p' (g - 1)%nat Hn1 Hp').
      destruct (play app cs srv1). apply IH. lia.
    + assert (¬ inside n srv1) as Hout by (intros [q Hq]; congruence).
      specialize (Hstay Hout). by destruct (play app cs srv1).
  - intros Hg. pose proof (advance_other n c srv Hs) as Ha.
    destruct (advance app c srv) as [e srv1]. cbn [snd] in *.
    specialize (IH srv1 p g). rewrite Ha in IH. specialize (IH Hn Hp Hg). by destruct (play app cs srv1).
Qed.
(** What a task did in a schedule. *)
Fixpoint doings (n : nat) (cs : list Choice) (srv : Server S L N) : list Event :=
  match cs with
  | [] => []
  | c :: cs =>
      let '(e, srv) := advance app c srv in
      (if bool_decide (subject c = n) then option_list e else []) ++ doings n cs srv
  end.

Definition trip_event (e : Event) : bool :=
  match e with Did o _ => (0 <? trips o)%nat | Ended _ => false end.

Lemma trips_within n cs (srv : Server S L N) g :
  Forall (lets_run n) cs →
  match tasks srv !! n with Some (Running p) => within_budget trips g p | _ => True end →
  (tally trip_event (doings n cs srv) ≤ g)%nat.
Proof.
  intros Hcs. revert srv g. induction Hcs as [|c cs Hc _ IH]; intros srv g Hp; [cbn; lia|].
  cbn [doings]. case_bool_decide as Hs.
  - rewrite (Hc Hs). cbn [advance]. destruct (tasks srv !! n) as [[st|[out|o k]]|] eqn:Hn.
    + apply IH. by rewrite Hn.
    + change (option_list (Some (Ended (o_used out)))) with [Ended (o_used out)]. rewrite tally_app.
      apply (IH _ g). unfold leave. cbn [tasks].
      destruct (o_next out); [by rewrite lookup_insert_eq|by rewrite lookup_delete_eq].
    + destruct Hp as [Ho Hk]. change (trips o ≤ g)%nat in Ho.
      destruct (exec _ o (shared srv)) as [x w].
      change (option_list (Some (Did o x))) with [Did o x].
      rewrite tally_app, tally_one. cbn [trip_event].
      assert ((if (0 <? trips o)%nat then 1 else 0) ≤ trips o)%nat as Hcost
        by (destruct (Nat.ltb_spec 0 (trips o)); lia).
      specialize (IH (mkServer w (<[n := Running (k x)]> (tasks srv))) (g - trips o)%nat).
      cbn [tasks] in IH. rewrite lookup_insert_eq in IH. specialize (IH (Hk x I)). lia.
    + apply IH. by rewrite Hn.
  - pose proof (advance_other n c srv Hs) as Ha. destruct (advance app c srv) as [e srv1].
    cbn [snd Datatypes.app] in *. apply IH. by rewrite Ha.
Qed.

Lemma entered_bounded n c (srv : Server S L N) p :
  ¬ inside n srv → tasks (advance app c srv).2 !! n = Some (Running p) → bounded p.
Proof.
  intros Hout Hp. destruct (base.decide (subject c = n)) as [Hs|Hs].
  2: { rewrite advance_other in Hp by done. destruct Hout. by exists p. }
  assert (∀ t, tasks (start n t srv) !! n = Some (Running p) → t = Running p) as Hstart.
  { intros t. unfold start. destruct (tasks srv !! n) as [t'|] eqn:Hn.
    - intros H'. destruct Hout. exists p. congruence.
    - cbn [tasks]. rewrite lookup_insert_eq. congruence. }
  destruct c as [k|k m|k c|k r|k r|k|k|k]; cbn [subject] in Hs; subst k; cbn [advance opened snd] in Hp.
  - by apply Hstart in Hp.
  - destruct (tasks srv !! n) as [[st|p']|] eqn:Hn; cbn [tasks] in Hp.
    + rewrite lookup_insert_eq in Hp. injection Hp as <-. apply bounded_message.
    + destruct Hout. by exists p'.
    + congruence.
  - apply Hstart in Hp. injection Hp as <-. apply bounded_callout.
  - apply Hstart in Hp. injection Hp as <-. apply bounded_verify.
  - apply Hstart in Hp. injection Hp as <-. apply bounded_settle.
  - apply Hstart in Hp. injection Hp as <-. apply bounded_sweep.
  - destruct Hout. destruct (tasks srv !! n) as [[st|p']|] eqn:Hn; cbn [snd] in Hp; try congruence.
    by exists p'.
  - cbn [tasks] in Hp. by rewrite lookup_delete_eq in Hp.
Qed.
End Schedule.

(** ** Properties *)

Section Properties.
#[local] Set Default Proof Using "Type*".
Context `{!Codecs, !Json, !SuiSdk} {S L N : Type}
  `{!SuiNode N, !SessionBackend S, !RateBackend L}.
Context (app : App).

(** C18: Every handler ends.  Whatever handler enters, and whatever the other
    streams, callouts, requests and sweeps do in between (operations that fail,
    claims lost to a race, an open breaker), it has ended once it was let run
    for more than [MAX_OPERATIONS] steps of its own: no handler waits for
    another, retries or loops.  And it asks the chain at most once, to verify
    or to settle. *)
Theorem handlers_are_wait_free (n : nat) (c : Choice) (cs : list Choice) (srv : Server S L N)
    (Hfree : ¬ inside n srv) (Hrun : Forall (lets_run n) cs) :
  let srv1 := (advance app c srv).2 in
  (tally trip_event (doings app n cs srv1) ≤ MAX_TRIPS)%nat ∧
  ((MAX_OPERATIONS < own_steps n cs)%nat → ¬ inside n (play app cs srv1).2).
Proof.
  intros srv1. pose proof (entered_bounded app n c srv) as Hent. fold srv1 in Hent. split.
  - apply trips_within; [done|]. destruct (tasks srv1 !! n) as [[st|p]|]; try done. by apply Hent.
  - intros Hsteps. destruct (tasks srv1 !! n) as [[st|p]|] eqn:Hn.
    + apply stays_outside; [done|]. intros [p Hp]. congruence.
    + destruct (Hent p Hfree eq_refl) as [Hb _]. by apply (ends_within app n cs srv1 p MAX_OPERATIONS).
    + apply stays_outside; [done|]. intros [p Hp]. congruence.
Qed.
End Properties.

(** *** At a concrete input *)

(** Two streams with one payment, an operation each in turn: the loser is still
    inside after five operations of its own, and out after eleven. *)
Definition two_streams : Server (SessionStore Db.t) (RateLimiter Db.t) DemoNode.t :=
  (play demo_app [Open 0; Open 1; Deliver 0 (request_message paying_wire)] demo_server).2.
Definition entering : Choice := Deliver 1 (request_message paying_wire).
Definition in_turn (k : nat) : list Choice := mjoin (replicate k [Step 0; Step 1]).

Definition inside_b (n : nat) (srv : Server (SessionStore Db.t) (RateLimiter Db.t) DemoNode.t) : bool :=
  match tasks srv !! n with Some (Running _) => true | _ => false end.

Lemma handlers_are_wait_free_witness :
  let srv1 := (advance demo_app entering two_streams).2 in
  inside_b 1 (play demo_app (in_turn 4) srv1).2 = true ∧
  (tally trip_event (doings demo_app 1 (in_turn 11) srv1) ≤ MAX_TRIPS)%nat ∧
  ¬ inside 1 (play demo_app (in_turn 11) srv1).2.
Proof.
  intros srv1. split; [vm_compute; reflexivity|].
  destruct (handlers_are_wait_free demo_app 1 entering (in_turn 11) two_streams) as [Ht He].
  - assert (inside_b 1 two_streams = false) as Hb by (vm_compute; reflexivity).
    intros [p Hp]. unfold inside_b in Hb. by rewrite Hp in Hb.
  - repeat constructor; done.
  - split; [exact Ht|]. apply He. vm_compute. lia.
Defined.
