(* ===== verification/Outage.v ===== *)
(** * An outage of settlement, over time

    The breaker and the two phases of [ext_proc] together: what a sequence of
    requests of one policy experiences while the chain fails and after it
    recovers.  An [Attempt] is what one stream does to its policy's breaker: it
    asks when the request comes, and it may report how settling went.  One that
    was let through and delivered reports; a free request, a payment that the
    decision denies, an upstream that fails and a stream that is dropped ask
    and never report.  A silent one that is given the probe keeps it, and the
    breaker then refuses payments until a process restart:
    [a_silent_probe_refuses_for_ever], and [ExtProc.free_request_takes_the_probe]
    for a request that does it. *)

From S2P Require Import Prelude RustStr Float64 Platform IpAddr Session Redis Config Json X402 Sui.
From S2P Require Import Facilitator Stores World Auth ExtProc.
From S2P Require Import Breaker.
From stdpp Require Import options.
#[local] Open Scope Z_scope.

(** [reports]: how settling went, for a stream that says. *)
Record Attempt := mkAttempt { asked : Z; answered : Z; reports : option bool }.

(** [None]: refused; else what it reports. *)
Definition attempt (policy : string) (a : Attempt) (b : SettlementBreaker) :
  option (option bool) * SettlementBreaker :=
  let '(s, b) := state_at policy a.(asked) b in
  if accepts_payment s
  then (Some a.(reports),
        match a.(reports) with
        | Some true => record_success policy a.(answered) b
        | Some false => record_failure policy a.(answered) b
        | None => b
        end)
  else (None, b).

Fixpoint attempts (policy : string) (l : list Attempt) (b : SettlementBreaker) :
  list (option (option bool)) * SettlementBreaker :=
  match l with
  | [] => ([], b)
  | a :: l => let '(r, b) := attempt policy a b in
              let '(rs, b) := attempts policy l b in (r :: rs, b)
  end.

(** No attempt of the sequence that is given the probe keeps silent. *)
Fixpoint probes_report (policy : string) (l : list Attempt) (b : SettlementBreaker) : Prop :=
  match l with
  | [] => True
  | a :: l => (a.(reports) = None → (state_at policy a.(asked) b).1 ≠ HalfOpen) ∧
              probes_report policy l (attempt policy a b).2
  end.

(** ** Lemmas *)

(** No probe is outstanding and the cooldown did not start after [t]. *)
Definition rested (t : Z) (w : Window) : Prop :=
  probing w = false ∧ ∀ o, opened_at w = Some o → o ≤ t.

Lemma rested_default t : rested t Window_default.
Proof. done. Qed.

Lemma record_rested t w failed now :
  now ≤ t → rested t (record_window w failed now).
Proof.
  intros Hn. unfold record_window. destruct failed; cbn [negb]; [|apply rested_default].
  destruct (opened_at w); split; cbn; try done.
  - by intros o [= <-].
  - destruct (over_threshold _); [by intros o [= <-]|done].
Qed.

Lemma query_rested t w now :
  rested t w →
  ((state_window w now).2 = w ∧ (accepts_payment (state_window w now).1 = false →
     ∃ o, opened_at w = Some o ∧ now < o + COOLDOWN_SECS)) ∨
  (state_window w now).1 = HalfOpen.
Proof.
  intros [Hp Ho]. unfold state_window. destruct (opened_at w) as [o|] eqn:E; [|by left].
  destruct (Z.ltb_spec (sat_sub now o) COOLDOWN_SECS) as [Hc|Hc].
  - left. split; [done|]. intros _. exists o. split; [done|]. unfold sat_sub, COOLDOWN_SECS in *. lia.
  - rewrite Hp. by right.
Qed.

Lemma attempt_window p a b :
  let q := state_window (window b p) (asked a) in
  window (attempt p a b).2 p =
    (if accepts_payment q.1
     then match reports a with Some ok => record_window q.2 (negb ok) (answered a) | None => q.2 end
     else q.2) ∧
  (attempt p a b).1 = (if accepts_payment q.1 then Some (reports a) else None).
Proof.
  intros q. unfold attempt. pose proof (state_at_fst p (asked a) b) as H1'.
  pose proof (state_at_snd p (asked a) b) as H2'. fold q in H1', H2'.
  destruct (state_at p (asked a) b) as [s b1]. cbn [fst snd] in *. subst s b1.
  destruct (accepts_payment _); cbn [fst snd]; [|by rewrite window_insert_eq].
  split; [|done]. destruct (reports a) as [[]|]; unfold record_success, record_failure, record_at;
    by rewrite !window_insert_eq.
Qed.

Lemma attempt_rested t p a b :
  answered a ≤ t → (reports a = None → (state_at p (asked a) b).1 ≠ HalfOpen) →
  rested t (window b p) → rested t (window (attempt p a b).2 p).
Proof.
  intros Ha Hloud Hr. rewrite state_at_fst in Hloud. destruct (attempt_window p a b) as [-> _].
  destruct (query_rested t _ (asked a) Hr) as [[-> _]|Hprobe].
  - destruct (accepts_payment _); [|done]. destruct (reports a); [by apply record_rested|done].
  - rewrite Hprobe. cbn [accepts_payment]. destruct (reports a); [by apply record_rested|by apply Hloud in Hprobe].
Qed.

Lemma attempts_rested t p l b :
  Forall (λ a, answered a ≤ t) l → probes_report p l b →
  rested t (window b p) → rested t (window (attempts p l b).2 p).
Proof.
  intros Hl. revert b. induction Hl as [|a l Ha _ IH]; intros b Hloud Hr; [done|]. cbn [attempts].
  cbn [probes_report] in Hloud. destruct Hloud as [Ha' Hloud].
  pose proof (attempt_rested t p a b Ha Ha' Hr) as Hr'. destruct (attempt p a b) as [r b1].
  specialize (IH b1 Hloud Hr'). by destruct (attempts p l b1).
Qed.

Lemma probes_report_app p l l' b :
  probes_report p (l ++ l') b → probes_report p l b ∧ probes_report p l' (attempts p l b).2.
Proof.
  revert b. induction l as [|a l IH]; intros b; [done|]. cbn [Datatypes.app probes_report attempts].
  intros [Ha Hl]. destruct (attempt p a b) as [r b1]. cbn [snd] in *. destruct (IH b1 Hl) as [H1' H2'].
  by destruct (attempts p l b1).
Qed.

(** After the recovery: an attempt that is let through closes the breaker or
    leaves it, one that is refused within the cooldown leaves it as it is. *)
Lemma attempt_recovers t p a b :
  reports a ≠ Some false → (reports a = None → (state_at p (asked a) b).1 ≠ HalfOpen) →
  rested t (window b p) →
  rested t (window (attempt p a b).2 p) ∧
  (t + COOLDOWN_SECS ≤ asked a → (attempt p a b).1 = Some (reports a)).
Proof.
  intros Hs Hloud Hr. rewrite state_at_fst in Hloud. destruct (attempt_window p a b) as [-> ->].
  assert (∀ w, rested t (record_window w false (answered a))) as Hreset by (intros w; apply rested_default).
  destruct (query_rested t _ (asked a) Hr) as [[-> Hopen]|Hprobe].
  - destruct (accepts_payment _); [split; [|done]; by destruct (reports a) as [[]|]; cbn [negb]|].
    split; [done|]. intros Ht. destruct (Hopen eq_refl) as (o & Ho & Hlt).
    destruct Hr as [_ Hle]. specialize (Hle o Ho). lia.
  - rewrite Hprobe. cbn [accepts_payment]. split; [|done].
    destruct (reports a) as [[]|]; cbn [negb]; [done|done|by apply Hloud in Hprobe].
Qed.

(** ** Properties *)

(** C24: An outage ends, when the probes report.  Let the requests of a policy
    come one after the other, whatever became of those before some time [t]:
    served, refused, failed to settle, or asking and never reporting.  From then
    on let no settlement fail.  If no request that keeps silent is ever given
    the probe, then every request that comes a cooldown after [t] or later is
    let through: the breaker refuses payments for at most [COOLDOWN_SECS] after
    the chain recovers.  (A request that is denied, dropped, free, or whose
    upstream fails keeps silent; one that is given the probe leaves the breaker
    refusing for ever, [a_silent_probe_refuses_for_ever].) *)
Theorem outage_ends_within_the_cooldown (policy : string) (t : Z) (before after : list Attempt)
    (Hbefore : Forall (λ a, answered a ≤ t) before)
    (Hafter : Forall (λ a, reports a ≠ Some false) after)
    (Hprobes : probes_report policy (before ++ after) Breaker.new) :
  Forall2 (λ a r, t + COOLDOWN_SECS ≤ asked a → r = Some (reports a)) after
    (attempts policy after (attempts policy before Breaker.new).2).1.
Proof.
  apply probes_report_app in Hprobes as [Hloud Hafter'].
  assert (rested t (window (attempts policy before Breaker.new).2 policy)) as Hr.
  { apply attempts_rested; [done|done|]. apply rested_default. }
  revert Hr Hafter'. generalize (attempts policy before Breaker.new).2.
  clear before Hbefore Hloud. intros b. revert b.
  induction Hafter as [|a l Ha _ IH]; intros b Hr Hl; cbn [attempts]; [constructor|].
  cbn [probes_report] in Hl. destruct Hl as [Hl1 Hl2].
  destruct (attempt_recovers t policy a b Ha Hl1 Hr) as [Hr' Hserved].
  destruct (attempt policy a b) as [r b1]. cbn [fst snd] in *. specialize (IH b1 Hr' Hl2).
  destruct (attempts policy l b1) as [rs b2]. by constructor.
Qed.

(** And only then: once a silent request is given the probe, every later request
    is refused its payment, however late it comes and whatever it would report. *)
Theorem a_silent_probe_refuses_for_ever (policy : string) (a : Attempt) (b : SettlementBreaker)
    (later : list Attempt)
    (Hsilent : reports a = None) (Hprobe : (state_at policy (asked a) b).1 = HalfOpen) :
  Forall (λ r, r = None) (attempts policy later (attempt policy a b).2).1.
Proof.
  rewrite state_at_fst in Hprobe.
  assert (probing (window (attempt policy a b).2 policy) = true ∧
          is_Some (opened_at (window (attempt policy a b).2 policy))) as Hstuck.
  { destruct (attempt_window policy a b) as [-> _]. rewrite Hprobe, Hsilent. cbn [accepts_payment].
    revert Hprobe. unfold state_window. destruct (opened_at _) as [o|] eqn:Eo; [|done].
    destruct (_ <? _); [done|]. destruct (probing _); [done|]. intros _. cbn [snd probing opened_at].
    split; [done|by eexists]. }
  revert Hstuck. generalize (attempt policy a b).2. clear Hprobe b.
  induction later as [|x later IH]; intros b [Hp Ho]; cbn [attempts]; [constructor|].
  destruct (attempt_window policy x b) as [Hw Hr]. rewrite stuck_query in Hw, Hr by done.
  cbn [fst snd accepts_payment] in Hw, Hr. specialize (IH (attempt policy x b).2).
  rewrite Hw in IH. specialize (IH (conj Hp Ho)).
  destruct (attempt policy x b) as [r b1]. cbn [fst snd] in *. subst r.
  destruct (attempts policy later b1) as [rs b2]. by constructor.
Qed.

Section Phases.
#[local] Set Default Proof Using "Type*".
Context `{!Codecs, !Json, !SuiSdk} {S L N : Type}
  `{!SuiNode N, !SessionBackend S, !RateBackend L}.
Context (app : App).

Lemma decide_keeps_breaker r (w : World S L N) : w_breaker (decide app r w).2 = w_breaker w.
Proof.
  pose proof (decide_blind app r (w_breaker w) w) as Hd. rewrite with_own_breaker in Hd.
  destruct (decide app r w) as [o w1]. cbn [fst snd] in *. injection Hd as Hw. by rewrite Hw.
Qed.

(** A paying stream is an attempt.  When the request phase lets a payment
    through and leaves it pending, and the upstream delivers, then what the
    two phases did to the breakers is one attempt under the policy of the
    request, asked when the request came, answered when the payment was
    settled, with the outcome of that settlement. *)
Theorem paying_stream_is_an_attempt (hs hs' : option WireHeaders) (ip : option IpAddr)
    (pol : option string) (e e' : Z) (w w1 : World S L N) (reply : ProcessingResponse)
    (st1 : StreamState) (p : PendingPayment)
    (Hreq : handle_request_headers app StreamState_default hs ip pol e w = (Some (reply, st1), w1))
    (Hp : pending st1 = Some p)
    (Hok : is_success (unwrap_or (header_map hs' !! ":status") "") = true)
    (Hpay : is_some_b (header_get (Some (header_map hs)) HEADER_PAYMENT_SIGNATURE) = true) :
  let ok := is_ok (settle app.(facilitator) p.(pd_payload) p.(pd_requirements) (w_chain w1)).1 in
  attempt (unwrap_or pol DEFAULT_POLICY_LABEL)
    (mkAttempt (w_clock w (w_tick w)) (w_clock w1 (w_tick w1)) (Some ok)) (w_breaker w)
  = (Some (Some ok), w_breaker (handle_response_headers app st1 hs' e' w1).2).
Proof.
  cbv zeta. rewrite (response_feeds_breaker app st1 hs' e' w1), Hp, Hok.
  unfold handle_request_headers in Hreq. cbv zeta in Hreq. unfold bind at 1 in Hreq.
  destruct (breaker_state_eq (unwrap_or pol DEFAULT_POLICY_LABEL) (w_breaker w) w)
    as (s & b & Heq & Hst).
  rewrite with_own_breaker in Heq. rewrite Heq in Hreq. cbn [request_of headers] in Hreq.
  rewrite Hpay, andb_true_r in Hreq.
  unfold attempt. cbn [asked answered reports]. rewrite <- Hst.
  destruct (accepts_payment s); cbn [negb] in Hreq.
  2: { unfold bind, emit, ret in Hreq. injection Hreq as _ <- _. discriminate Hp. }
  unfold bind, ret in Hreq.
  pose proof (decide_keeps_breaker (request_of (header_map hs) ip pol) (with_breaker b (now_epoch_secs w).2))
    as Hb.
  unfold request_of in Hb. destruct (decide app _ _) as [o w2]. cbn [snd] in Hb.
  assert (st_policy st1 = pol ∧ w1 = w2) as [-> ->].
  { destruct o as [[tier payer tok ss pd m|c r m]|]; try discriminate Hreq;
      injection Hreq as _ <- <-; [done|discriminate Hp]. }
  rewrite Hb. cbn [w_breaker with_breaker].
  by destruct (settle _ _ _ (w_chain w2)) as [[?|?] ?].
Qed.
(** Every other stream is a silent attempt.  Whatever the request phase answers,
    and whether or not a payment was presented, what it did to the breakers is
    to ask; and when nothing was left pending, or the upstream failed, or the
    response never comes, nothing is reported. *)
Theorem other_streams_are_silent_attempts (hs hs' : option WireHeaders) (ip : option IpAddr)
    (pol : option string) (e e' answer : Z) (w w1 w2 : World S L N) (reply : option (ProcessingResponse * StreamState))
    (st1 : StreamState)
    (Hreq : handle_request_headers app StreamState_default hs ip pol e w = (reply, w1)) :
  (attempt (unwrap_or pol DEFAULT_POLICY_LABEL) (mkAttempt (w_clock w (w_tick w)) answer None) (w_breaker w)).2
    = w_breaker w1 ∧
  (pending st1 = None ∨ is_success (unwrap_or (header_map hs' !! ":status") "") = false →
   w_breaker (handle_response_headers app st1 hs' e' w2).2 = w_breaker w2).
Proof.
  split.
  2: { rewrite (response_feeds_breaker app st1 hs' e' w2). intros [->| ->]; [done|]. by destruct (pending st1). }
  unfold handle_request_headers in Hreq. cbv zeta in Hreq. unfold bind at 1 in Hreq.
  destruct (breaker_state_eq (unwrap_or pol DEFAULT_POLICY_LABEL) (w_breaker w) w)
    as (s & b & Heq & Hst).
  rewrite with_own_breaker in Heq. rewrite Heq in Hreq.
  unfold attempt. cbn [asked reports]. rewrite <- Hst.
  replace ((if accepts_payment s then (Some None, b) else (None, b)).2) with b
    by by destruct (accepts_payment s).
  destruct (_ && _).
  { unfold bind, emit, ret in Hreq. by injection Hreq as _ <-. }
  unfold bind, ret in Hreq.
  pose proof (decide_keeps_breaker (request_of (header_map hs) ip pol) (with_breaker b (now_epoch_secs w).2))
    as Hb.
  destruct (decide app _ _) as [o w3]. cbn [snd] in Hb. injection Hreq as _ <-. by rewrite Hb.
Qed.
End Phases.

(** ** The properties at concrete inputs *)

(** Five settlements fail, with a request that is denied among them; one request
    is refused during the cooldown, the next comes after it and reports. *)
Definition failing : list Attempt :=
  mkAttempt 1699999990 1699999990 None ::
  ((λ t, mkAttempt t (t + 1) (Some false)) <$> [1700000000; 1700000002; 1700000004; 1700000006; 1700000008]).
Definition recovered : list Attempt :=
  [mkAttempt 1700000020 1700000021 (Some true); mkAttempt 1700000039 1700000040 (Some true);
   mkAttempt 1700000041 1700000041 None].

Lemma outage_ends_within_the_cooldown_witness :
  (attempts "default" recovered (attempts "default" failing Breaker.new).2).1
    = [None; Some (Some true); Some None] ∧
  Forall2 (λ a r, 1700000009 + COOLDOWN_SECS ≤ asked a → r = Some (reports a)) recovered
    (attempts "default" recovered (attempts "default" failing Breaker.new).2).1.
Proof.
  split; [vm_compute; reflexivity|].
  apply (outage_ends_within_the_cooldown "default" 1700000009 failing recovered).
  - repeat constructor; cbn; lia.
  - repeat constructor; discriminate.
  - vm_compute. split_and!; discriminate || exact I.
Defined.

(** The same with a denied request as the first after the cooldown. *)
Lemma a_silent_probe_refuses_for_ever_witness :
  let b := (attempts "default" failing Breaker.new).2 in
  let silent := mkAttempt 1700000039 1700000039 None in
  (state_at "default" (asked silent) b).1 = HalfOpen ∧
  Forall (λ r, r = None) (attempts "default"
    [mkAttempt 1700000100 1700000101 (Some true); mkAttempt 1800000000 1800000001 (Some true)]
    (attempt "default" silent b).2).1.
Proof.
  intros b silent. assert ((state_at "default" (asked silent) b).1 = HalfOpen) as Hp by (vm_compute; reflexivity).
  split; [exact Hp|]. apply (a_silent_probe_refuses_for_ever "default" silent b _ eq_refl Hp).
Defined.

Definition opened :=
  handle_request_headers demo_app StreamState_default paying_wire (Some (V4 203 0 113 7)) None 12
    demo_world.
Definition waiting_stream : StreamState :=
  match opened.1 with Some (_, st) => st | None => StreamState_default end.
Definition allowed : ProcessingResponse :=
  match opened.1 with Some (r, _) => r | None => RequestHeadersReply None end.

Lemma paying_stream_is_an_attempt_witness :
  ∃ p, pending waiting_stream = Some p ∧
    attempt "default" (mkAttempt 1700000000 (w_clock opened.2 (w_tick opened.2))
      (Some (is_ok (settle demo_facilitator p.(pd_payload) p.(pd_requirements) (w_chain opened.2)).1)))
      (w_breaker demo_world)
    = (Some (Some (is_ok (settle demo_facilitator p.(pd_payload) p.(pd_requirements)
                            (w_chain opened.2)).1)),
       w_breaker (handle_response_headers demo_app waiting_stream (status_wire "200") 34
                    opened.2).2).
Proof.
  assert (opened = (Some (allowed, waiting_stream), opened.2)) as Hr.
  { assert (opened.1 = Some (allowed, waiting_stream)) as <- by (vm_compute; reflexivity).
    apply surjective_pairing. }
  assert (∃ p, pending waiting_stream = Some p) as [p Hp] by (eexists; vm_compute; reflexivity).
  exists p. split; [exact Hp|].
  apply (paying_stream_is_an_attempt demo_app paying_wire (status_wire "200")
    (Some (V4 203 0 113 7)) None 12 34 demo_world opened.2 allowed waiting_stream p Hr Hp);
    vm_compute; reflexivity.
Defined.
