(* ===== verification/PayClient.v ===== *)
(** * The payment client ([src/payclient.rs])

    What a payer runs: read a challenge, choose how to fund the payment, build
    and sign the transaction, send the request that carries it, read the
    answer.  The Sui SDK is the class [ClientSdk]; the fullnode, the HTTP
    server and the random source are [ClientEnv], over an environment that
    each call may read and change.  An [anyhow] error is its messages,
    outermost first. *)

From stdpp Require Import countable.
From Stdlib Require Import Ascii SpecFloat.
From S2P Require Import Prelude RustStr FloatText Platform IpAddr Config Json X402 Sui.
From stdpp Require Import options.
#[local] Open Scope Z_scope.

Abbreviation Anyhow A := (result A (list string)).

(** [Context::context]. *)
Definition context {A} (msg : string) (r : Anyhow A) : Anyhow A := map_err (cons msg) r.
(** [anyhow!("{e}")] of a library's error, which is its message. *)
Definition anyhow {A} (r : result A string) : Anyhow A := map_err (λ e, [e]) r.

Definition GAS_BUDGET : Z := 10000000.
Definition GASLESS_MINIMUM : Z := 10000.

Inductive PaymentPath := Gasless | Sponsored | CoinObject.

#[export] Instance PaymentPath_eq_dec : EqDecision PaymentPath.
Proof. solve_decision. Defined.

Definition path_of_name (p : string) : Anyhow PaymentPath :=
  if bool_decide (p = "gasless") then Ok Gasless
  else if bool_decide (p = "sponsored") then Ok Sponsored
  else if bool_decide (p = "coin-object") || bool_decide (p = "coin_object") then Ok CoinObject
  else Err ["unknown payment path " +:+ debug_str p +:+
            "; expected gasless, sponsored or coin-object"].

(** [collect] into a [Result]: the first error wins. *)
Fixpoint collect {A E} (l : list (result A E)) : result (list A) E :=
  match l with
  | [] => Ok []
  | r :: l => a <-? r ;; rest <-? collect l ;; Ok (a :: rest)
  end.

Definition parse_list (s : string) : Anyhow (list PaymentPath) :=
  collect (path_of_name <$> List.filter (λ p, negb (is_empty p)) (trim <$> split_on "," s)).

Definition name (p : PaymentPath) : string :=
  match p with Gasless => "gasless" | Sponsored => "sponsored" | CoinObject => "coin-object" end.

Definition DEFAULT_PAYMENT_PATHS : list PaymentPath := [Gasless; Sponsored; CoinObject].

Inductive Skipped :=
| BelowGaslessFloor (amount floor : Z)
| AddressBalanceShort (have need : Z)
| NoGasStationAdvertised
| SponsorshipNotImplemented
| CoinObjectsShort (have need : Z).

#[export] Instance Skipped_eq_dec : EqDecision Skipped.
Proof. solve_decision. Defined.

Definition skipped_text (s : Skipped) : string :=
  match s with
  | BelowGaslessFloor amount floor =>
      "price " +:+ u_to_string amount +:+ " is below the gasless floor of " +:+ u_to_string floor +:+
      "; Sui will not execute a gasless transfer that small"
  | AddressBalanceShort have need =>
      "address balance holds " +:+ u_to_string have +:+ ", needs " +:+ u_to_string need +:+
      ". Coin objects do not count — move funds across once with `0x2::coin::send_funds` (costs gas once)"
  | NoGasStationAdvertised => "the server advertised no extra.gasStation"
  | SponsorshipNotImplemented =>
      "a gas station was advertised but the interactive sponsorship protocol is not implemented here"
  | CoinObjectsShort have need =>
      "Coin objects hold " +:+ u_to_string have +:+ ", needs " +:+ u_to_string need
  end.

Record Funding := mkFunding { address_balance : Z; coin_balance : Z }.

(** ** Preconditions *)

Definition check (path : PaymentPath) (amount : Z) (funds : Funding) (gas_station : option string) :
  option Skipped :=
  match path with
  | Gasless =>
      if amount <? GASLESS_MINIMUM then Some (BelowGaslessFloor amount GASLESS_MINIMUM)
      else if funds.(address_balance) <? amount
      then Some (AddressBalanceShort funds.(address_balance) amount)
      else None
  | Sponsored => Some (match gas_station with
                       | None => NoGasStationAdvertised
                       | Some _ => SponsorshipNotImplemented
                       end)
  | CoinObject =>
      if funds.(coin_balance) <? amount
      then Some (CoinObjectsShort funds.(coin_balance) amount)
      else None
  end.

(** [{:<12}]: padded on the right. *)
Definition pad_right (width : nat) (s : string) : string :=
  s +:+ of_chars (repeat " "%char (width - slen s)).

Definition NEWLINE : string := String "010" "".

Definition no_path_available (asset : string) (amount : Z) (funds : Funding)
    (skipped : list (PaymentPath * Skipped)) : string :=
  "no usable payment path for " +:+ u_to_string amount +:+ " of " +:+ asset +:+ ". Holdings: " +:+
  u_to_string funds.(address_balance) +:+ " in the address balance, " +:+
  u_to_string funds.(coin_balance) +:+ " in Coin objects." +:+
  List.fold_right String.append ""
    ((λ '(path, why), NEWLINE +:+ "  " +:+ pad_right 12 (name path) +:+ " " +:+ skipped_text why)
       <$> skipped) +:+
  (if (funds.(address_balance) =? 0) && (funds.(coin_balance) =? 0)
   then NEWLINE +:+ "  This address holds none of this coin. Fund it at https://faucet.circle.com (Sui Testnet)."
   else "").

(** ** The wire types the client reads ([mod wire]) *)

Module wire.
Record ResourceInfo := mkResourceInfo { url : string }.
Record PaymentRequirements := mkRequirements {
  scheme : string; network : string; amount : string; asset : string; pay_to : string;
  max_timeout_seconds : Z; extra : option Value }.
Record PaymentRequired := mkRequired {
  resource : ResourceInfo; accepts : list PaymentRequirements }.
Record SettlementResponse := mkSettlement {
  success : bool; error_reason : option string; transaction : string; s_network : string }.

Definition resource_of_json (v : Value) : option ResourceInfo :=
  f ← fields true ["url"] v; u ← req of_string f "url"; Some (mkResourceInfo u).
Definition requirements_of_json (v : Value) : option PaymentRequirements :=
  f ← fields true ["scheme"; "network"; "amount"; "asset"; "payTo"; "maxTimeoutSeconds"; "extra"] v;
  s ← req of_string f "scheme"; n ← req of_string f "network"; a ← req of_string f "amount";
  c ← req of_string f "asset"; p ← req of_string f "payTo";
  m ← req of_u64 f "maxTimeoutSeconds"; e ← opt of_value f "extra";
  Some (mkRequirements s n a c p m e).
Definition required_of_json (v : Value) : option PaymentRequired :=
  f ← fields true ["resource"; "accepts"] v;
  r ← req resource_of_json f "resource"; a ← req (of_list requirements_of_json) f "accepts";
  Some (mkRequired r a).
Definition settlement_of_json (v : Value) : option SettlementResponse :=
  f ← fields true ["success"; "errorReason"; "transaction"; "network"] v;
  s ← req of_bool f "success"; e ← opt of_string f "errorReason";
  t ← req of_string f "transaction"; n ← req of_string f "network";
  Some (mkSettlement s e t n).

Definition json_of_requirements (r : PaymentRequirements) : Value :=
  Json.Object
    (always "scheme" (Str r.(scheme)) ++ always "network" (Str r.(network)) ++
     always "amount" (Str r.(amount)) ++ always "asset" (Str r.(asset)) ++
     always "payTo" (Str r.(pay_to)) ++
     always "maxTimeoutSeconds" (u64_value r.(max_timeout_seconds)) ++
     unless_none id "extra" r.(extra)).
Definition json_of_required (r : PaymentRequired) : Value :=
  Json.Object
    (always "resource" (Json.Object (always "url" (Str (url (resource r))))) ++
     always "accepts" (Array (json_of_requirements <$> accepts r))).
Definition json_of_settlement (r : SettlementResponse) : Value :=
  Json.Object
    (always "success" (Bool r.(success)) ++
     always "errorReason" (match r.(error_reason) with Some e => Str e | None => Null end) ++
     always "transaction" (Str r.(transaction)) ++ always "network" (Str r.(s_network))).
End wire.

Definition advertised_gas_station (terms : wire.PaymentRequirements) : option string :=
  terms.(wire.extra) ≫= λ e, get e "gasStation" ≫= as_str.

(** The [Display] of [ParseIntError], for text that does not parse. *)
Fixpoint int_error (max acc : Z) (s : string) : string :=
  match s with
  | EmptyString => ""
  | String c r =>
      if is_ascii_digit c then
        let v := 10 * acc + (byte_of c - 48) in
        if max <? v then "number too large to fit in target type" else int_error max v r
      else "invalid digit found in string"
  end.
Definition parse_int_error (max : Z) (s : string) : string :=
  match s with
  | EmptyString => "cannot parse integer from empty string"
  | String _ EmptyString => "invalid digit found in string"
  | String "+" r => int_error max 0 r
  | _ => int_error max 0 s
  end.

(** ** The SDK, the fullnode and the network *)

(** The calls on a [TransactionBuilder], in order; an argument is named by the
    call that made it. *)
Inductive Argument := ResultOf (call : nat) | NestedOf (call index : nat).

Inductive Pure (Addr : Type) := PureAddress (a : Addr) | PureU64 (z : Z).
Arguments PureAddress {Addr} a.
Arguments PureU64 {Addr} z.

Record ObjectInput (Addr Dig : Type) := owned { oi_id : Addr; oi_version : Z; oi_digest : Dig }.
Arguments owned {Addr Dig} _ _ _.

(** [TransactionExpiration::ValidDuring]. *)
Record ValidDuring (Dig : Type) := mkValidDuring {
  min_epoch : option Z; max_epoch : option Z; min_timestamp : option Z; max_timestamp : option Z;
  vd_chain : Dig; vd_nonce : Z }.
Arguments mkValidDuring {Dig} _ _ _ _ _ _.
Arguments min_epoch {Dig} _.
Arguments max_epoch {Dig} _.
Arguments vd_chain {Dig} _.
Arguments vd_nonce {Dig} _.

Inductive BuilderCall (Addr Dig Tag : Type) :=
| SetSender (a : Addr)
| SetGasPrice (price : Z)
| SetGasBudget (budget : Z)
| AddGasObjects (l : list (ObjectInput Addr Dig))
| FundsWithdrawalCoin (coin_type : Tag) (amount : Z)
| PureArg (p : Pure Addr)
| MoveCall (package : Addr) (module function : string) (type_args : list Tag) (args : list Argument)
| SetExpiration (e : ValidDuring Dig)
| ObjectArg (o : ObjectInput Addr Dig)
| SplitCoins (coin : Argument) (amounts : list Argument)
| TransferObjects (objects : list Argument) (recipient : Argument).
Arguments SetSender {Addr Dig Tag} _.
Arguments SetGasPrice {Addr Dig Tag} _.
Arguments SetGasBudget {Addr Dig Tag} _.
Arguments AddGasObjects {Addr Dig Tag} _.
Arguments FundsWithdrawalCoin {Addr Dig Tag} _ _.
Arguments PureArg {Addr Dig Tag} _.
Arguments MoveCall {Addr Dig Tag} _ _ _ _ _.
Arguments SetExpiration {Addr Dig Tag} _.
Arguments ObjectArg {Addr Dig Tag} _.
Arguments SplitCoins {Addr Dig Tag} _ _.
Arguments TransferObjects {Addr Dig Tag} _ _.

Class ClientSdk := {
  Address : Type; Digest : Type; TypeTag : Type; Tx : Type; Key : Type; Signature : Type;
  address_parse : string → result Address string;
  address_text : Address → string;
  ADDRESS_ZERO : Address; ADDRESS_TWO : Address; DIGEST_ZERO : Digest;
  digest_parse : string → result Digest string;
  type_tag_parse : string → result TypeTag string;
  try_build : list (BuilderCall Address Digest TypeTag) → result Tx string;
  clear_gas_objects : Tx → Tx;             (* [gas_payment.objects.clear()] *)
  bcs_to_bytes : Tx → result bytes string;
  from_suiprivkey : string → result Key string;
  key_new : bytes → Key;
  derive_address : Key → Address;          (* of the public key *)
  sign_transaction : Key → Tx → result Signature string;
  signature_bytes : Signature → bytes
}.

Record Balance := mkBalance {
  b_balance : option Z; b_address_balance : option Z; b_coin_balance : option Z }.
Record OwnedObject := mkOwnedObject {
  oo_id : option string; oo_version : option Z; oo_digest : option string; oo_balance : option Z }.
Record Epoch := mkEpoch { e_epoch : option Z; e_reference_gas_price : option Z }.

(** Headers are in order, names in lower case.  [rs_text]: the body, unless
    reading it failed.  [took_ms]: what the client's stopwatch read. *)
Record WebRequest := mkWebRequest {
  w_method : string; w_url : string; w_headers : list (string * string); w_body : option string }.
Record WebResponse := mkWebResponse {
  rs_status : Z; rs_headers : list (string * string); rs_text : option string; took_ms : f64 }.

(** [HeaderValue::to_str]. *)
Definition to_str (value : string) : option string :=
  if sall visible_ascii value then Some value else None.
(** [HeaderMap::get], then [to_str]: the first header of that name. *)
Definition header_str (headers : list (string * string)) (n : string) : option string :=
  List.find (λ h, String.eqb h.1 n) headers ≫= λ h, to_str h.2.

(** The SDK's calls take the endpoint, then the owner and a coin or object
    type, then the read mask. *)

Class ClientEnv (N : Type) := {
  client_new : string → result () string;
  get_balance : string → string → string → N → result (option Balance) string * N;
  list_owned_objects : string → string → string → list string → N → result (list OwnedObject) string * N;
  get_epoch : string → list string → N → result (option Epoch) string * N;
  get_service_info : string → N → result (option string) string * N;
  next_u32 : N → Z * N;
  method_parse : string → result () string;
  http_send : WebRequest → N → result WebResponse string * N
}.

(** The environment, and the web requests sent to it, in order. *)
Record Net (N : Type) := mkNet { net : N; requests : list WebRequest }.
Arguments mkNet {N} _ _.
Arguments net {N} _.
Arguments requests {N} _.

(** What the gateway's SDK reads of a transaction built by these calls: the
    sender, the inputs in order and the gas objects. *)
Section BuilderView.
Context {Addr Dig Tag : Type} (addr_text : Addr → string).

Definition ref_of (o : ObjectInput Addr Dig) : ObjectReference :=
  {| object_id := addr_text (oi_id _ _ o); version := oi_version _ _ o |}.
Definition input_view (c : BuilderCall Addr Dig Tag) : option Input :=
  match c with
  | FundsWithdrawalCoin _ _ | PureArg _ => Some OtherInput
  | ObjectArg o => Some (ImmutableOrOwned (ref_of o))
  | _ => None
  end.
Definition gas_view (c : BuilderCall Addr Dig Tag) : list ObjectReference :=
  match c with AddGasObjects l => ref_of <$> l | _ => [] end.
Definition sender_view (c : BuilderCall Addr Dig Tag) : option string :=
  match c with SetSender a => Some (addr_text a) | _ => None end.

Definition calls_view (l : list (BuilderCall Addr Dig Tag)) : Transaction :=
  {| Sui.sender := unwrap_or (last (omap sender_view l)) "";
     kind := ProgrammableTransaction (omap input_view l);
     gas_objects := l ≫= gas_view |}.
End BuilderView.

Definition without_gas (t : Transaction) : Transaction :=
  {| Sui.sender := t.(Sui.sender); kind := t.(kind); gas_objects := [] |}.

(** Documented behaviour of the SDK, whose writers the gateway's readers
    invert: a built transaction has what the calls put into it, BCS and
    signatures can be read back. *)
Class ClientSdkLaws `{!ClientSdk, !SuiSdk} := {
  tx_view : Tx → Transaction;
  build_view l t : try_build l = Ok t → tx_view t = calls_view address_text l;
  clear_view t : tx_view (clear_gas_objects t) = without_gas (tx_view t);
  bcs_roundtrip t b : bcs_to_bytes t = Ok b → bcs_transaction b = Ok (tx_view t);
  signature_reads k t s : sign_transaction k t = Ok s →
    ∃ u, user_signature (signature_bytes s) = Ok u;
  signature_nonempty k t s : sign_transaction k t = Ok s → signature_bytes s ≠ [];
  bcs_nonempty t b : bcs_to_bytes t = Ok b → b ≠ [];
  address_roundtrip a : address_parse (address_text a) = Ok a
}.

Section Client.
Context `{!Codecs, !Json} {sdk : ClientSdk} {N : Type} `{!ClientEnv N}.

Abbreviation calls := (list (BuilderCall Address Digest TypeTag)).

Definition on_net {A} (f : N → A * N) : M (Net N) A :=
  λ w, let '(a, n) := f w.(net) in (a, mkNet n w.(requests)).

(** ** Balances *)

Definition funding (rpc : string) (owner : Address) (coin_type : string) :
  M (Net N) (Anyhow Funding) :=
  _ <-! ret (context "connecting to the fullnode" (anyhow (client_new rpc))) ;;;
  response <-- on_net (get_balance rpc (address_text owner) coin_type) ;;;
  ret match context "GetBalance" (anyhow response) with
      | Err e => Err e
      | Ok balance =>
          Ok {| address_balance := unwrap_or (balance ≫= b_address_balance) 0;
                coin_balance := unwrap_or (balance ≫= b_coin_balance) 0 |}
      end.

Definition balance (rpc : string) (owner : Address) (coin_type : string) : M (Net N) (Anyhow Z) :=
  _ <-! ret (context "connecting to the fullnode" (anyhow (client_new rpc))) ;;;
  response <-- on_net (get_balance rpc (address_text owner) coin_type) ;;;
  ret match context "GetBalance" (anyhow response) with
      | Err e => Err e
      | Ok balance => Ok (unwrap_or (balance ≫= b_balance) 0)
      end.

(** ** Building a transaction *)

Definition nonce (salt : Z) : M (Net N) Z :=
  r <-- on_net next_u32 ;;; ret (Z.lxor r (salt mod 2 ^ 32)).

Definition current_epoch_expiration (rpc : string) (salt : Z) :
  M (Net N) (Anyhow (ValidDuring Digest)) :=
  response <-- on_net (get_epoch rpc ["epoch"]) ;;;
  epoch <-! ret (anyhow (map_err (λ e, "GetEpoch: " +:+ e) response)) ;;;
  epoch_id <-! ret (ok_or ["node returned no epoch"] (epoch ≫= e_epoch)) ;;;
  info <-- on_net (get_service_info rpc) ;;;
  chain_id <-! ret (anyhow (map_err (λ e, "GetServiceInfo: " +:+ e) info)) ;;;
  chain_id <-! ret (ok_or ["node returned no chain id"] chain_id) ;;;
  chain <-! ret (anyhow (map_err (λ e, "chain id is not a digest: " +:+ e) (digest_parse chain_id))) ;;;
  n <-- nonce salt ;;;
  ret (Ok {| min_epoch := Some epoch_id; max_epoch := Some epoch_id; min_timestamp := None;
             max_timestamp := None; vd_chain := chain; vd_nonce := n |}).

Definition gasless_calls (sender payee : Address) (coin_type : TypeTag) (amount : Z)
    (expiration : ValidDuring Digest) : calls :=
  [ SetSender sender; SetGasPrice 0; SetGasBudget 0;
    AddGasObjects [owned ADDRESS_ZERO 0 DIGEST_ZERO];
    FundsWithdrawalCoin coin_type amount; PureArg (PureAddress payee);
    MoveCall ADDRESS_TWO "coin" "send_funds" [coin_type] [ResultOf 4; ResultOf 5];
    SetExpiration expiration ].

Definition build_gasless_payment (rpc : string) (sender payee : Address) (asset : string) (amount : Z) :
  M (Net N) (Anyhow Tx) :=
  _ <-! ret (anyhow (client_new rpc)) ;;;
  coin_type <-! ret (context ("asset " +:+ debug_str asset +:+ " is not a Move type tag")
                             (anyhow (type_tag_parse asset))) ;;;
  expiration <-! current_epoch_expiration rpc amount ;;;
  transaction <-! ret (anyhow (map_err (λ e, "building the gasless transaction: " +:+ e)
                         (try_build (gasless_calls sender payee coin_type amount expiration)))) ;;;
  ret (Ok (clear_gas_objects transaction)).

Record Coin := mkCoin { c_id : Address; c_version : Z; c_digest : Digest }.

(** The loop over the objects: [None] when none is sufficient. *)
Fixpoint first_coin (at_least : Z) (objects : list OwnedObject) : option (Anyhow Coin) :=
  match objects with
  | [] => None
  | o :: rest =>
      if unwrap_or o.(oo_balance) 0 <? at_least then first_coin at_least rest else
      match o.(oo_id), o.(oo_version), o.(oo_digest) with
      | Some id, Some version, Some digest =>
          Some (a <-? anyhow (map_err (λ e, "object id: " +:+ e) (address_parse id)) ;;
                d <-? anyhow (map_err (λ e, "digest: " +:+ e) (digest_parse digest)) ;;
                Ok {| c_id := a; c_version := version; c_digest := d |})
      | _, _, _ => first_coin at_least rest
      end
  end.

Definition pick_coin (rpc : string) (owner : Address) (coin_type : string) (at_least : Z) :
  M (Net N) (Anyhow Coin) :=
  response <-- on_net (list_owned_objects rpc (address_text owner)
                         ("0x2::coin::Coin<" +:+ coin_type +:+ ">")
                         ["object_id"; "version"; "digest"; "balance"]) ;;;
  objects <-! ret (anyhow (map_err (λ e, "ListOwnedObjects: " +:+ e) response)) ;;;
  ret (unwrap_or (first_coin at_least objects)
    (Err ["no " +:+ coin_type +:+ " coin owned by " +:+ address_text owner +:+ " holds at least " +:+
          u_to_string at_least +:+
          ". Fund it — USDC at https://faucet.circle.com (Sui Testnet), SUI via `sui client faucet`."])).

Definition reference_gas_price (rpc : string) : M (Net N) (Anyhow Z) :=
  response <-- on_net (get_epoch rpc ["reference_gas_price"]) ;;;
  ret match anyhow (map_err (λ e, "GetEpoch: " +:+ e) response) with
      | Err e => Err e
      | Ok epoch => Ok (unwrap_or (epoch ≫= e_reference_gas_price) 1000)
      end.

Definition input_of (c : Coin) : ObjectInput Address Digest := owned c.(c_id) c.(c_version) c.(c_digest).

Definition coin_object_calls (sender payee : Address) (payment gas : Coin) (gas_price amount : Z) : calls :=
  [ SetSender sender; SetGasBudget GAS_BUDGET; SetGasPrice gas_price; AddGasObjects [input_of gas];
    ObjectArg (input_of payment); PureArg (PureU64 amount); SplitCoins (ResultOf 4) [ResultOf 5];
    PureArg (PureAddress payee); TransferObjects [NestedOf 6 0] (ResultOf 7) ].

Definition build_coin_object_payment (rpc : string) (sender payee : Address) (asset : string)
    (amount : Z) : M (Net N) (Anyhow Tx) :=
  _ <-! ret (anyhow (client_new rpc)) ;;;
  picked <-- pick_coin rpc sender asset amount ;;;
  payment_coin <-! ret (context ("finding a " +:+ asset +:+ " coin worth at least " +:+
                                 u_to_string amount) picked) ;;;
  picked <-- pick_coin rpc sender "0x2::sui::SUI" GAS_BUDGET ;;;
  gas_coin <-! ret (context "finding a SUI coin for gas" picked) ;;;
  gas_price <-! reference_gas_price rpc ;;;
  ret (anyhow (map_err (λ e, "building the transaction: " +:+ e)
         (try_build (coin_object_calls sender payee payment_coin gas_coin gas_price amount)))).

(** The loop over the paths.  [None] is the panic of [unreachable!]. *)
Fixpoint try_paths (rpc : string) (sender payee : Address) (asset : string) (amount : Z)
    (funds : Funding) (gas_station : option string) (skipped : list (PaymentPath * Skipped))
    (paths : list PaymentPath) : M (Net N) (option (Anyhow Tx)) :=
  match paths with
  | [] => ret (Some (Err [no_path_available asset amount funds skipped]))
  | path :: rest =>
      match check path amount funds gas_station with
      | Some reason =>
          try_paths rpc sender payee asset amount funds gas_station (skipped ++ [(path, reason)]) rest
      | None =>
          match path with
          | Gasless => r <-- build_gasless_payment rpc sender payee asset amount ;;; ret (Some r)
          | CoinObject => r <-- build_coin_object_payment rpc sender payee asset amount ;;; ret (Some r)
          | Sponsored => ret None
          end
      end
  end.

Definition build_payment (rpc : string) (sender payee : Address) (asset : string) (amount : Z)
    (paths : list PaymentPath) (gas_station : option string) : M (Net N) (option (Anyhow Tx)) :=
  read <-- funding rpc sender asset ;;;
  match context ("reading " +:+ address_text sender +:+ "'s " +:+ asset +:+ " balance") read with
  | Err e => ret (Some (Err e))
  | Ok funds => try_paths rpc sender payee asset amount funds gas_station [] paths
  end.

(** ** Keys *)

(** [PathBuf::join] of a relative path. *)
Definition path_join (base rel : string) : string :=
  match srev base with
  | EmptyString => rel
  | String "/" _ => base +:+ rel
  | _ => base +:+ "/" +:+ rel
  end.

Definition keystore_path (env : string → option string) : string :=
  match env "SUI_KEYSTORE_PATH" with
  | Some path => path
  | None => path_join (unwrap_or (env "HOME") "") ".sui/sui_config/sui.keystore"
  end.

Definition load_key (env : string → option string) (read_file : string → result string string) :
  Anyhow Key :=
  match env "X402_SUI_PRIVATE_KEY" with
  | Some encoded =>
      anyhow (map_err (λ e, "X402_SUI_PRIVATE_KEY is not a suiprivkey: " +:+ e)
                      (from_suiprivkey (trim encoded)))
  | None =>
      let path := keystore_path env in
      raw <-? context ("reading " +:+ path +:+
                ". Set X402_SUI_PRIVATE_KEY, or install the sui CLI and create an address.")
                (anyhow (read_file path)) ;;
      v <-? context "parsing the sui keystore" (anyhow (json_parse (as_bytes raw))) ;;
      entries <-? context "parsing the sui keystore"
                    (ok_or [json_error v] (of_list of_string v)) ;;
      first <-? ok_or ["the sui keystore is empty"] (head entries) ;;
      bytes <-? context "keystore entry is not base64" (anyhow (b64_decode first)) ;;
      match bytes with
      | [] => Err ["keystore entry is empty"]
      | flag :: key =>
          let flag := Z.of_N (Byte.to_N flag) in
          if negb (flag =? 0) then
            Err ["the first keystore entry is not ed25519 (scheme flag " +:+ u_to_string flag +:+
                 "); set X402_SUI_PRIVATE_KEY"]
          else if (length key =? 32)%nat then Ok (key_new key)
          else Err ["keystore entry is not a 32-byte ed25519 key"]
      end
  end.

(** ** Reading an answer *)

Record Meter := mkMeter {
  m_tier : option string;
  free_remaining : option Z; free_limit : option Z; free_reset : option Z;
  session_remaining : option Z; session_quota : option Z; session_expires : option Z }.

Record Attempt := mkAttempt {
  at_status : Z; at_body : string;
  at_required : option wire.PaymentRequired; at_response : option wire.SettlementResponse;
  at_session : option string; at_meter : Meter;
  elapsed_ms : f64; at_timing : list (string * f64); upstream_ms : option f64 }.

(** One metric: its name and the first [dur=] that is a number. *)
Definition parse_metric (metric : string) : option (string * f64) :=
  match split_on ";" metric with
  | [] => None
  | first :: parts =>
      dur ← head (omap (λ p, strip_prefix "dur=" (trim p) ≫= parse_f64) parts);
      Some (trim first, dur)
  end.
Definition parse_server_timing (raw : string) : list (string * f64) :=
  omap parse_metric (split_on "," raw).

(** [B64.decode] and [serde_json::from_slice], errors dropped. *)
Definition decoded {A} (of_json : Value → option A) (raw : string) : option A :=
  b ← result_ok (b64_decode (trim raw)); v ← result_ok (json_parse b); of_json v.

Definition number (header : string → option string) (n : string) : option Z :=
  header n ≫= λ v, parse_u64 (trim v).

Definition meter_of (header : string → option string) : Meter :=
  {| m_tier := header "x-x402-tier";
     free_remaining := number header "x-x402-free-remaining";
     free_limit := number header "x-x402-free-limit";
     free_reset := number header "x-x402-free-reset";
     session_remaining := number header "x-x402-session-remaining";
     session_quota := number header "x-x402-session-quota";
     session_expires := number header "x-x402-session-expires" |}.

Definition attempt_of (response : WebResponse) : Attempt :=
  let header := header_str response.(rs_headers) in
  {| at_status := response.(rs_status); at_body := unwrap_or response.(rs_text) "";
     at_required := header "payment-required" ≫= decoded wire.required_of_json;
     at_response := header "payment-response" ≫= decoded wire.settlement_of_json;
     at_session := header "x-payment-session"; at_meter := meter_of header;
     elapsed_ms := response.(took_ms);
     at_timing := unwrap_or (parse_server_timing <$> header "server-timing") [];
     upstream_ms := header "x-envoy-upstream-service-time" ≫= λ v, parse_f64 (trim v) |}.

Definition request_of (method url : string) (headers : list (string * string)) (body : string)
    (payment : option string) : WebRequest :=
  {| w_method := method; w_url := url;
     w_headers := headers ++ match payment with
                             | Some p => [("payment-signature", p)]
                             | None => []
                             end;
     w_body := if is_empty body then None else Some body |}.

(** One request on the wire. *)
Definition web_send (request : WebRequest) : M (Net N) (result WebResponse string) :=
  λ w, let '(r, n) := http_send request w.(net) in (r, mkNet n (w.(requests) ++ [request])).

Definition send (method url : string) (headers : list (string * string)) (body : string)
    (payment : option string) : M (Net N) (Anyhow Attempt) :=
  _ <-! ret (context "invalid HTTP method" (anyhow (method_parse method))) ;;;
  response <-- web_send (request_of method url headers body payment) ;;;
  ret match context "sending the request" (anyhow response) with
      | Err e => Err e
      | Ok r => Ok (attempt_of r)
      end.

(** ** The payment header *)

Definition payment_json (resource_url : string) (terms : wire.PaymentRequirements)
    (signature transaction : bytes) : Value :=
  Json.Object
    [("x402Version", u64_value 2); ("resource", Json.Object [("url", Str resource_url)]);
     ("accepted", Json.Object
        [("scheme", Str terms.(wire.scheme)); ("network", Str terms.(wire.network));
         ("amount", Str terms.(wire.amount)); ("asset", Str terms.(wire.asset));
         ("payTo", Str terms.(wire.pay_to));
         ("maxTimeoutSeconds", u64_value terms.(wire.max_timeout_seconds))]);
     ("payload", Json.Object
        [("signature", Str (b64_encode signature)); ("transaction", Str (b64_encode transaction))])].

(** The header for a built transaction. *)
Definition sign_and_encode (key : Key) (resource_url : string) (terms : wire.PaymentRequirements)
    (transaction : Tx) : Anyhow string :=
  signature <-? context "signing the payment" (anyhow (sign_transaction key transaction)) ;;
  tb <-? anyhow (bcs_to_bytes transaction) ;;
  Ok (b64_encode (json_text (payment_json resource_url terms (signature_bytes signature) tb))).

Definition build_payment_header (rpc : string) (key : Key) (resource_url : string)
    (terms : wire.PaymentRequirements) (paths : list PaymentPath) :
  M (Net N) (option (Anyhow string)) :=
  let sender := derive_address key in
  match parse_u64 terms.(wire.amount) with
  | None => ret (Some (Err ["amount " +:+ debug_str terms.(wire.amount) +:+ " is not an integer";
                            parse_int_error u64_max terms.(wire.amount)]))
  | Some amount =>
  match context ("payTo " +:+ debug_str terms.(wire.pay_to) +:+ " is not a Sui address")
          (anyhow (address_parse terms.(wire.pay_to))) with
  | Err e => ret (Some (Err e))
  | Ok payee =>
      built <-- build_payment rpc sender payee terms.(wire.asset) amount paths
                  (advertised_gas_station terms) ;;;
      ret match built with
          | None => None
          | Some built => Some (
              transaction <-? context ("building the payment transaction for " +:+
                                u_to_string amount +:+ " of " +:+ terms.(wire.asset)) built ;;
              sign_and_encode key resource_url terms transaction)
          end
  end
  end.
End Client.

(** ** Lemmas *)

(** What a path needs, as the documentation of [build_payment] tabulates it. *)
Definition usable (amount : Z) (funds : Funding) (p : PaymentPath) : Prop :=
  match p with
  | Gasless => GASLESS_MINIMUM ≤ amount ≤ funds.(address_balance)
  | Sponsored => False
  | CoinObject => amount ≤ funds.(coin_balance)
  end.

Lemma check_usable path amount funds gs : check path amount funds gs = None ↔ usable amount funds path.
Proof.
  destruct path; cbn [check usable].
  - destruct (Z.ltb_spec amount GASLESS_MINIMUM); [split; [done|lia]|].
    destruct (Z.ltb_spec (address_balance funds) amount); split; (done || lia).
  - by destruct gs.
  - destruct (Z.ltb_spec (coin_balance funds) amount); split; (done || lia).
Qed.

Lemma check_sponsored amount funds gs : check Sponsored amount funds gs ≠ None.
Proof. by destruct gs. Qed.

Lemma collect_Forall2 {A E} (l : list (result A E)) a :
  collect l = Ok a ↔ Forall2 (λ r x, r = Ok x) l a.
Proof.
  revert a. induction l as [|[x|e] l IH]; intros a; cbn [collect].
  - split; [intros [= <-]; constructor | intros Ha; by inversion Ha].
  - destruct (collect l) as [rest|e].
    + split.
      * intros [= <-]. constructor; [done|]. by apply IH.
      * intros Ha. inversion Ha as [|? y ? r Hx Hr]; subst. injection Hx as ->.
        apply IH in Hr. by injection Hr as ->.
    + split; [done|]. intros Ha. inversion Ha as [|? y ? r Hx Hr]; subst. by apply IH in Hr.
  - split; [done|]. intros Ha. inversion Ha; subst. done.
Qed.

Lemma trim_name p : trim (name p) = name p.
Proof. by destruct p. Qed.

(** The loop's choice: the objects before the chosen one cannot pay. *)
Definition can_pay (at_least : Z) (o : OwnedObject) : Prop :=
  at_least ≤ unwrap_or o.(oo_balance) 0 ∧ is_Some o.(oo_id) ∧ is_Some o.(oo_version) ∧
  is_Some o.(oo_digest).

Section ClientLemmas.
#[local] Set Default Proof Using "Type*".
Context `{!Codecs, !Json} {sdk : ClientSdk} {N : Type} `{!ClientEnv N}.

Definition coin_of (o : OwnedObject) : option (Anyhow Coin) :=
  id ← o.(oo_id); v ← o.(oo_version); d ← o.(oo_digest);
  Some (a <-? anyhow (map_err (λ e, "object id: " +:+ e) (address_parse id)) ;;
        d <-? anyhow (map_err (λ e, "digest: " +:+ e) (digest_parse d)) ;;
        Ok {| c_id := a; c_version := v; c_digest := d |}).

Lemma first_coin_find at_least l :
  (first_coin at_least l = None ∧ Forall (λ o, ¬ can_pay at_least o) l) ∨
  (∃ pre o post, l = pre ++ o :: post ∧ Forall (λ o, ¬ can_pay at_least o) pre ∧
                 can_pay at_least o ∧ first_coin at_least l = coin_of o).
Proof.
  induction l as [|o l IH]; [left; by split; [|constructor]|].
  assert ((can_pay at_least o ∧ first_coin at_least (o :: l) = coin_of o) ∨
          (¬ can_pay at_least o ∧ first_coin at_least (o :: l) = first_coin at_least l)) as [[Hc He]|[Hc He]].
  { unfold can_pay, coin_of. cbn [first_coin].
    destruct (Z.ltb_spec (unwrap_or (oo_balance o) 0) at_least); [right; split; [lia|done]|].
    destruct (oo_id o), (oo_version o), (oo_digest o);
      first [left; split; [by eauto|done] | right; split; [by intros (? & [] & [] & [])|done]]. }
  - right. exists [], o, l. split_and!; [done|constructor|done|done].
  - rewrite He. destruct IH as [[-> Hl] | (pre & o' & post & -> & Hpre & Ho & ->)].
    + left. split; [done|]. by constructor.
    + right. exists (o :: pre), o', post. split_and!; [done|by constructor|done|done].
Qed.

Definition build_on (path : PaymentPath) (rpc : string) (sender payee : Address) (asset : string)
    (amount : Z) : M (Net N) (Anyhow Tx) :=
  match path with
  | Gasless => build_gasless_payment rpc sender payee asset amount
  | Sponsored => ret (Err [])
  | CoinObject => build_coin_object_payment rpc sender payee asset amount
  end.

Lemma try_paths_usable rpc s p asset amount funds gs skipped paths w :
  (∃ pre path post r w',
     paths = pre ++ path :: post ∧ Forall (λ q, ¬ usable amount funds q) pre ∧
     usable amount funds path ∧ path ≠ Sponsored ∧
     build_on path rpc s p asset amount w = (r, w') ∧
     try_paths rpc s p asset amount funds gs skipped paths w = (Some r, w')) ∨
  (Forall (λ q, ¬ usable amount funds q) paths ∧ ∃ reasons,
     Forall2 (λ q r, r.1 = q ∧ check q amount funds gs = Some r.2) paths reasons ∧
     try_paths rpc s p asset amount funds gs skipped paths w =
       (Some (Err [no_path_available asset amount funds (skipped ++ reasons)]), w)).
Proof.
  revert skipped. induction paths as [|path paths IH]; intros skipped.
  - right. split; [constructor|]. exists []. split; [constructor|]. by rewrite app_nil_r.
  - cbn [try_paths]. destruct (check path amount funds gs) as [reason|] eqn:Ec.
    + assert (¬ usable amount funds path) as Hu by (rewrite <- (check_usable _ _ _ gs); congruence).
      destruct (IH (skipped ++ [(path, reason)])) as
        [(pre & q & post & r & w' & -> & Hpre & Hq & Hs & Hb & Ht) | (Hall & rs & Hrs & Ht)].
      * left. exists (path :: pre), q, post, r, w'. split_and!; try done. by constructor.
      * right. split; [by constructor|]. exists ((path, reason) :: rs).
        split; [by constructor|]. by rewrite Ht, <- app_assoc.
    + pose proof Ec as Hu. apply check_usable in Hu.
      left. exists [], path, paths.
      destruct (build_on path rpc s p asset amount w) as [r w'] eqn:Eb. exists r, w'.
      split_and!; try done; [by intros ->|].
      destruct path; cbn [build_on] in Eb; [|by destruct (check_sponsored amount funds gs)|];
        unfold bind, ret; by rewrite Eb.
Qed.
End ClientLemmas.

(** Everything but [send] leaves the log of web requests alone. *)
Definition silent {N} (w w' : Net N) : Prop := requests w' = requests w.

#[export] Instance silent_preorder {N} : PreOrder (@silent N).
Proof. split; [done|]. intros a b c. unfold silent. congruence. Qed.

Section Silent.
#[local] Set Default Proof Using "Type*".
Context `{!Codecs, !Json} {sdk : ClientSdk} {N : Type} `{!ClientEnv N}.

Lemma on_net_silent {A} (f : N → A * N) : keeps silent (on_net f).
Proof. intros w. unfold on_net. by destruct (f (net w)). Qed.

Lemma bind_ok_silent {A B E} (c : M (Net N) (result A E)) (k : A → M (Net N) (result B E)) :
  keeps silent c → (∀ a, keeps silent (k a)) → keeps silent (bind_ok c k).
Proof.
  intros Hc Hk. apply keeps_bind; [apply _|done|]. intros [a|e]; [done | apply keeps_ret, _].
Qed.

Ltac silently :=
  repeat (first
    [ apply on_net_silent | apply keeps_ret, _ | assumption
    | apply bind_ok_silent; [|intros ?] | apply keeps_bind; [apply _| |intros ?]
    | match goal with |- keeps _ (match ?x with _ => _ end) => destruct x end ]).

Lemma expiration_silent rpc salt : keeps silent (current_epoch_expiration rpc salt).
Proof. unfold current_epoch_expiration, nonce. silently. Qed.

Lemma pick_coin_silent rpc o t a : keeps silent (pick_coin rpc o t a).
Proof. unfold pick_coin. silently. Qed.

Lemma build_on_silent path rpc s p asset amount : keeps silent (build_on path rpc s p asset amount).
Proof.
  pose proof expiration_silent as He. pose proof pick_coin_silent as Hp.
  destruct path; cbn [build_on];
    unfold build_gasless_payment, build_coin_object_payment, reference_gas_price;
    silently; (apply He || apply Hp).
Qed.

Lemma try_paths_silent rpc s p asset amount funds gs skipped paths :
  keeps silent (try_paths rpc s p asset amount funds gs skipped paths).
Proof.
  revert skipped. induction paths as [|path paths IH]; intros skipped; cbn [try_paths]; [silently|].
  destruct (check path amount funds gs); [apply IH|].
  destruct path; [|silently|]; (apply keeps_bind; [apply _| |intros; silently]).
  - apply (build_on_silent Gasless).
  - apply (build_on_silent CoinObject).
Qed.

Lemma build_payment_header_silent rpc key url terms paths :
  keeps silent (build_payment_header rpc key url terms paths).
Proof.
  unfold build_payment_header, build_payment, funding. silently. apply try_paths_silent.
Qed.

(** [send] sends one request, or none when the method is not one. *)
Lemma send_log method url headers body payment (w w' : Net N) r :
  send method url headers body payment w = (r, w') →
  (requests w' = requests w ∧ is_ok r = false) ∨
  requests w' = requests w ++ [request_of method url headers body payment].
Proof.
  unfold send, bind_ok. destruct (method_parse method); cbn; [|intros [= <- <-]; by left].
  unfold bind, web_send, ret. destruct (http_send _ _) as [rs n]. intros [= _ <-]. by right.
Qed.
End Silent.

(** ** Properties *)

Section Properties.
#[local] Set Default Proof Using "Type*".
Context `{!Codecs, !Json} {sdk : ClientSdk} {N : Type} `{!ClientEnv N}.

(** C26: Which path pays.  Once the sender's funds are known, the first listed
    path whose needs they meet is taken, and its outcome, good or bad, is the
    outcome: a failing build never falls through to a costlier path.  When no
    path is usable the error names every path and its reason.  The loop never
    reaches the arm that would panic. *)
Theorem first_usable_path_pays (rpc : string) (sender payee : Address) (asset : string) (amount : Z)
    (paths : list PaymentPath) (gas_station : option string) (w w1 : Net N) (funds : Funding)
    (Hf : funding rpc sender asset w = (Ok funds, w1)) :
  (∃ pre path post r w',
     paths = pre ++ path :: post ∧ Forall (λ q, ¬ usable amount funds q) pre ∧
     usable amount funds path ∧ path ≠ Sponsored ∧
     build_on path rpc sender payee asset amount w1 = (r, w') ∧
     build_payment rpc sender payee asset amount paths gas_station w = (Some r, w')) ∨
  (Forall (λ q, ¬ usable amount funds q) paths ∧ ∃ reasons,
     Forall2 (λ q r, r.1 = q ∧ check q amount funds gas_station = Some r.2) paths reasons ∧
     build_payment rpc sender payee asset amount paths gas_station w =
       (Some (Err [no_path_available asset amount funds reasons]), w1)).
Proof.
  unfold build_payment. rewrite (bind_eq _ _ _ _ _ Hf). cbn [context map_err].
  apply (try_paths_usable rpc sender payee asset amount funds gas_station []).
Qed.

(** The coin that is picked.  Among the objects the node lists, the first
    that reports a balance of at least what is asked and is named in full;
    failing to read its name is an error, not a reason to try the next.  When
    no object qualifies the payer is told so. *)
Theorem picked_coin_is_the_first_sufficient (rpc : string) (owner : Address) (coin_type : string)
    (at_least : Z) (w w1 : Net N) (objects : list OwnedObject)
    (Hl : on_net (list_owned_objects rpc (address_text owner) ("0x2::coin::Coin<" +:+ coin_type +:+ ">")
            ["object_id"; "version"; "digest"; "balance"]) w = (Ok objects, w1)) :
  (∃ pre o post r, objects = pre ++ o :: post ∧ Forall (λ o, ¬ can_pay at_least o) pre ∧
     can_pay at_least o ∧ coin_of o = Some r ∧ pick_coin rpc owner coin_type at_least w = (r, w1)) ∨
  (Forall (λ o, ¬ can_pay at_least o) objects ∧
   ∃ e, pick_coin rpc owner coin_type at_least w = (Err [e], w1)).
Proof.
  unfold pick_coin. rewrite (bind_eq _ _ _ _ _ Hl).
  cbn [map_err anyhow]. unfold bind_ok. rewrite bind_ret_l. unfold ret.
  destruct (first_coin_find at_least objects) as [[-> Hall] | (pre & o & post & -> & Hpre & Ho & ->)].
  - right. split; [done|]. by eexists.
  - left. exists pre, o, post. pose proof Ho as (_ & [id Hid] & [v Hv] & [d Hd]).
    unfold coin_of. rewrite Hid, Hv, Hd. by eexists.
Qed.

(** The command line's spelling of the paths round trips: any list of paths,
    printed by name and joined with commas, parses back. *)
Theorem payment_paths_roundtrip (paths : list PaymentPath) :
  parse_list (join "," (name <$> paths)) = Ok paths.
Proof.
  unfold parse_list. destruct (decide (paths = [])) as [->|Hne]; [done|].
  rewrite split_on_join.
  - assert (trim <$> (name <$> paths) = name <$> paths) as ->.
    { rewrite <- list_fmap_compose. apply list_fmap_ext. intros i p _. apply trim_name. }
    assert (List.filter (λ p, negb (is_empty p)) (name <$> paths) = name <$> paths) as ->.
    { clear Hne. induction paths as [|[] ps IH]; cbn in *; by rewrite ?IH. }
    apply collect_Forall2. clear Hne. induction paths as [|[] ps IH]; cbn; by constructor.
  - by destruct paths.
  - apply Forall_fmap, Forall_true. by intros [].
Qed.
End Properties.

Section BuiltPayments.
#[local] Set Default Proof Using "Type*".
Context `{!Codecs, !Json} {sui : SuiSdk} {sdk : ClientSdk} {laws : ClientSdkLaws} {N : Type} `{!ClientEnv N}.

Definition coin_ref (c : Coin) : ObjectReference :=
  {| object_id := address_text c.(c_id); version := c.(c_version) |}.

Lemma gasless_view rpc s p asset amount w t w' :
  build_gasless_payment rpc s p asset amount w = (Ok t, w') →
  (tx_view t).(Sui.sender) = address_text s ∧ pinned_objects (tx_view t) = [].
Proof.
  unfold build_gasless_payment. intros Hb.
  do 3 apply bind_ok_inv in Hb as (? & ? & _ & Hb).
  apply bind_ok_inv in Hb as (t0 & ? & [= Ht _] & Hb). injection Hb as <- _.
  unfold anyhow in Ht. destruct (try_build _) as [t1|e] eqn:Et in Ht; [|done].
  cbn [map_err] in Ht. injection Ht as ->.
  apply build_view in Et. by rewrite clear_view, Et.
Qed.

(** The calls split [amount] off the object [c] and send it to [payee]: no other
    object is an argument, and nothing else is split or sent. *)
Definition pays_with (c : Coin) (payee : Address) (amount : Z) (l : list (BuilderCall Address Digest TypeTag)) : Prop :=
  ∃ i j k p,
    l !! i = Some (ObjectArg (input_of c)) ∧ l !! j = Some (PureArg (PureU64 amount)) ∧
    l !! k = Some (SplitCoins (ResultOf i) [ResultOf j]) ∧ l !! p = Some (PureArg (PureAddress payee)) ∧
    l !! (length l - 1)%nat = Some (TransferObjects [NestedOf k 0] (ResultOf p)) ∧
    (∀ o, ObjectArg o ∈ l → o = input_of c) ∧
    (∀ a b, SplitCoins a b ∈ l → a = ResultOf i) ∧
    (∀ a b, TransferObjects a b ∈ l → b = ResultOf p).

(** Gas comes from the object [c] alone. *)
Definition gas_from (c : Coin) (l : list (BuilderCall Address Digest TypeTag)) : Prop :=
  ∀ os, AddGasObjects os ∈ l ↔ os = [input_of c].

Lemma coin_object_calls_pay sender payee (payment gas : Coin) price amount :
  pays_with payment payee amount (coin_object_calls sender payee payment gas price amount) ∧
  gas_from gas (coin_object_calls sender payee payment gas price amount).
Proof.
  split.
  - exists 4%nat, 5%nat, 6%nat, 7%nat. unfold coin_object_calls. split_and!; try done; intros *; set_unfold; naive_solver.
  - intros os. unfold coin_object_calls. set_unfold. naive_solver.
Qed.

Lemma coin_object_view rpc s p asset amount w t w' :
  build_coin_object_payment rpc s p asset amount w = (Ok t, w') →
  (tx_view t).(Sui.sender) = address_text s ∧
  ∃ payment gas w1 w2 l,
    pick_coin rpc s asset amount w = (Ok payment, w1) ∧
    pick_coin rpc s "0x2::sui::SUI" GAS_BUDGET w1 = (Ok gas, w2) ∧
    try_build l = Ok t ∧ pays_with payment p amount l ∧ gas_from gas l ∧
    pinned_objects (tx_view t) = [coin_ref payment; coin_ref gas] ∧
    gas_objects (tx_view t) = [coin_ref gas].
Proof.
  unfold build_coin_object_payment. intros Hb.
  apply bind_ok_inv in Hb as (? & ? & [= _ <-] & Hb).
  unfold bind at 1 in Hb. destruct (pick_coin rpc s asset amount w) as [[payment|] w1]; [|by injection Hb].
  apply bind_ok_inv in Hb as (payment' & ? & [= -> <-] & Hb).
  unfold bind at 1 in Hb. destruct (pick_coin rpc s _ GAS_BUDGET w1) as [[gas|] w2] eqn:Eg; [|by injection Hb].
  apply bind_ok_inv in Hb as (gas' & ? & [= -> <-] & Hb).
  apply bind_ok_inv in Hb as (price & ? & _ & Hb). injection Hb as Ht _.
  unfold anyhow in Ht. destruct (try_build _) as [t1|e] eqn:Et in Ht; [|done].
  cbn [map_err] in Ht. injection Ht as ->. pose proof (build_view _ _ Et) as Hv.
  destruct (coin_object_calls_pay s p payment' gas' price amount) as [Hp Hg].
  rewrite Hv. split; [done|]. by exists payment', gas', w1, w2, (coin_object_calls s p payment' gas' price amount).
Qed.

(** C27: What a built payment pins.  Its sender is the payer.  A gasless payment,
    built only from an address balance that covers a price at or above the
    floor, pins no object at all, so nothing the payer does with its coins
    can make it stale.  Any other is built only when the coins cover the price,
    and pins two objects: the coin that [pick_coin] chose for the price among the
    payer's coins of the asset, from which alone the calls split the price and send it to the
    payee, and the SUI coin that it chose for the gas budget, which is the one gas
    object.  (They may be the same object, [sui_payment_splits_its_own_gas_coin].) *)
Theorem built_payment_pins (rpc : string) (sender payee : Address) (asset : string) (amount : Z)
    (paths : list PaymentPath) (gas_station : option string) (w w' : Net N) (t : Tx)
    (Hb : build_payment rpc sender payee asset amount paths gas_station w = (Some (Ok t), w')) :
  ∃ funds w1, funding rpc sender asset w = (Ok funds, w1) ∧
    (tx_view t).(Sui.sender) = address_text sender ∧
    ((GASLESS_MINIMUM ≤ amount ≤ funds.(address_balance) ∧ pinned_objects (tx_view t) = []) ∨
     (amount ≤ funds.(coin_balance) ∧
      ∃ payment gas w2 w3 l,
        pick_coin rpc sender asset amount w1 = (Ok payment, w2) ∧
        pick_coin rpc sender "0x2::sui::SUI" GAS_BUDGET w2 = (Ok gas, w3) ∧
        try_build l = Ok t ∧ pays_with payment payee amount l ∧ gas_from gas l ∧
        pinned_objects (tx_view t) = [coin_ref payment; coin_ref gas] ∧
        gas_objects (tx_view t) = [coin_ref gas])).
Proof.
  unfold build_payment, bind in Hb.
  destruct (funding rpc sender asset w) as [[funds|e] w1] eqn:Ef; [|done].
  cbn [context map_err] in Hb. exists funds, w1. split; [done|].
  destruct (try_paths_usable rpc sender payee asset amount funds gas_station [] paths w1) as
    [(pre & path & post & r & w2 & -> & _ & Hu & Hs & Hr & Ht) | (_ & reasons & _ & Ht)];
    rewrite Ht in Hb; [|done].
  injection Hb as -> ->. destruct path; [|done|]; cbn [usable build_on] in *.
  - apply gasless_view in Hr as [??]. eauto.
  - apply coin_object_view in Hr as [? ?]. eauto.
Qed.
End BuiltPayments.

(** ** A concrete wallet

    Transactions are what the gateway's SDK reads of them, written in the code
    that stands for JSON. *)
Module DemoWallet.
Definition integer_value (z : Z) : Value := u64_value (Z.pos (countable.encode z)).
Definition of_integer (v : Value) : option Z :=
  match v with
  | Number t => z ← parse_digits t; countable.decode (Z.to_pos z)
  | _ => None
  end.
Definition ref_value (r : ObjectReference) : Value := Array [Str (object_id r); integer_value (Sui.version r)].
Definition of_ref (v : Value) : option ObjectReference :=
  match v with Array [Str i; v] => z ← of_integer v; Some (mkRef i z) | _ => None end.
Definition input_value (i : Input) : Value :=
  match i with
  | ImmutableOrOwned r => Array [Null; ref_value r]
  | Receiving r => Array [ref_value r]
  | SharedInput => Bool true
  | OtherInput => Bool false
  end.
Definition of_input (v : Value) : option Input :=
  match v with
  | Array [Null; v] => ImmutableOrOwned <$> of_ref v
  | Array [v] => Receiving <$> of_ref v
  | Bool b => Some (if b then SharedInput else OtherInput)
  | _ => None
  end.
Definition tx_value (t : Transaction) : Value :=
  Array [Str (Sui.sender t);
         match kind t with ProgrammableTransaction l => Array (input_value <$> l) | OtherKind => Null end;
         Array (ref_value <$> gas_objects t)].
Definition of_tx (v : Value) : option Transaction :=
  match v with
  | Array [Str s; k; g] =>
      g ← of_list of_ref g;
      match k with
      | Null => Some (mkTransaction s OtherKind g)
      | _ => l ← of_list of_input k; Some (mkTransaction s (ProgrammableTransaction l) g)
      end
  | _ => None
  end.

Lemma of_tx_value t : of_tx (tx_value t) = Some t.
Proof.
  assert (∀ r, of_ref (ref_value r) = Some r) as Hr.
  { intros [i z]. unfold of_ref, ref_value, of_integer, integer_value, u64_value.
    rewrite parse_digits_print by done. cbn [mbind option_bind Z.to_pos Sui.version].
    by rewrite decode_encode. }
  assert (∀ i, of_input (input_value i) = Some i) as Hi.
  { intros [r|r| |]; try done; unfold of_input, input_value; by rewrite Hr. }
  destruct t as [s k g]. unfold of_tx, tx_value. cbn [Sui.sender kind gas_objects].
  unfold of_list. rewrite (of_each_fmap of_ref ref_value g Hr). cbn [mbind option_bind].
  destruct k as [l|]; [|done]. by rewrite (of_each_fmap of_input input_value l Hi).
Qed.

Definition write (t : Transaction) : bytes := json_text (tx_value t).
Definition read (b : bytes) : result Transaction string :=
  v <-? json_parse b ;; ok_or "unexpected end of input" (of_tx v).

Definition sui_sdk : SuiSdk := {|
  UserSignature := bytes;
  bcs_transaction := read;
  user_signature := λ b, match b with [] => Err "empty" | _ => Ok b end
|}.

#[export] Instance client_sdk : ClientSdk := {
  Address := string; Digest := string; TypeTag := string; Tx := Transaction; Key := string;
  Signature := string;
  address_parse s := match strip_prefix "0x" s with Some a => Ok a | None => Err "invalid address" end;
  address_text a := "0x" +:+ a;
  ADDRESS_ZERO := "0"; ADDRESS_TWO := "2"; DIGEST_ZERO := "0";
  digest_parse s := Ok s;
  type_tag_parse s := if is_empty s then Err "empty" else Ok s;
  try_build l := Ok (calls_view (λ a, "0x" +:+ a) l);
  clear_gas_objects := without_gas;
  bcs_to_bytes t := Ok (write t);
  from_suiprivkey s := Ok s;
  key_new b := hex_encode b;
  derive_address k := k;
  sign_transaction k _ := Ok k;
  signature_bytes s := Byte.x01 :: as_bytes s
}.

#[export] Instance client_laws : @ClientSdkLaws client_sdk sui_sdk.
Proof.
  refine (@Build_ClientSdkLaws client_sdk sui_sdk (λ t, t) _ _ _ _ _ _ _); simpl.
  - by intros l t [= <-].
  - done.
  - intros t b [= <-]. unfold read. cbn [write json_text model_json json_parse].
    rewrite <- (app_nil_r (ser (tx_value t))) at 2.
    rewrite de_ser by done. by rewrite of_tx_value.
  - by eexists.
  - done.
  - by intros t b [= <-].
  - done.
Defined.

(** What a node and a server answer; random numbers are counted up. *)
Record Pocket := mkPocket {
  holdings : Balance; coins : string → list OwnedObject; random : Z; serve : WebRequest → WebResponse }.

#[export] Instance env : ClientEnv Pocket := {
  client_new _ := Ok ();
  get_balance _ _ _ p := (Ok (Some (holdings p)), p);
  list_owned_objects _ _ t _ p := (Ok (coins p t), p);
  get_epoch _ _ p := (Ok (Some (mkEpoch (Some 7) (Some 750))), p);
  get_service_info _ p := (Ok (Some "testnet"), p);
  next_u32 p := (random p, mkPocket (holdings p) (coins p) (random p + 1) (serve p));
  method_parse m := if is_empty m then Err "invalid HTTP method" else Ok ();
  http_send r p := (Ok (serve p r), p)
}.

Definition object (id : string) (b : Z) : OwnedObject := mkOwnedObject (Some id) (Some 3) (Some "D") (Some b).
Definition usdc : string := "0x2::usdc::USDC".
Definition nothing_served : WebRequest → WebResponse :=
  λ _, mkWebResponse 200 [] None (S754_zero false).
Definition pocket (address coin : Z) : Net Pocket :=
  mkNet (mkPocket (mkBalance (Some (address + coin)) (Some address) (Some coin))
    (λ t, if String.eqb t "0x2::coin::Coin<0x2::sui::SUI>" then [object "0x9" 20000000]
          else [object "0x5" 10; object "0x6" 50000]) 0 nothing_served) [].
End DemoWallet.
#[export] Existing Instance DemoWallet.client_sdk.
#[export] Existing Instance DemoWallet.env.

(** ** The properties at concrete inputs *)

Section Witnesses.
Import DemoWallet.

(** 400 in the address balance, 50010 in coins, a price of 10000: the gasless
    and sponsored paths are passed over. *)
Definition demo_build (address coin : Z) : option (Anyhow Transaction) * Net Pocket :=
  build_payment (sdk := client_sdk) "node" "a1" "b2" usdc 10000
    DEFAULT_PAYMENT_PATHS None (pocket address coin).

Lemma demo_funding address coin :
  funding (sdk := client_sdk) "node" "a1" usdc (pocket address coin)
    = (Ok (mkFunding address coin), pocket address coin).
Proof. reflexivity. Qed.

Lemma demo_listed coin :
  on_net (list_owned_objects "node" (address_text (ClientSdk := client_sdk) "a1")
    ("0x2::coin::Coin<" +:+ usdc +:+ ">") ["object_id"; "version"; "digest"; "balance"]) (pocket 0 coin)
  = (Ok [object "0x5" 10; object "0x6" 50000], pocket 0 coin).
Proof. reflexivity. Qed.

Lemma first_usable_path_pays_witness :
  ∃ path r, ¬ usable 10000 (mkFunding 400 50010) Gasless ∧
    usable 10000 (mkFunding 400 50010) path ∧ (demo_build 400 50010).1 = Some r ∧ is_ok r = true.
Proof.
  destruct (first_usable_path_pays (sdk := client_sdk) _ _ "b2" _ 10000 DEFAULT_PAYMENT_PATHS None _ _ _
              (demo_funding 400 50010))
    as [(pre & path & post & r & w' & Hp & Hpre & Hu & Hs & Hb & Ht) | [Hall _]].
  - exists path, r. assert (is_ok <$> (demo_build 400 50010).1 = Some true) as Hok by (vm_compute; reflexivity).
    unfold demo_build in *. rewrite Ht in *. split_and!; [cbn; lia|done|done|by injection Hok].
  - exfalso. inversion Hall as [|? ? _ H1']; subst. inversion H1' as [|? ? _ H2']; subst.
    inversion H2' as [|? ? H3' _]; subst. apply H3'. cbn. lia.
Defined.

Lemma picked_coin_is_the_first_sufficient_witness :
  (pick_coin (sdk := client_sdk) "node" "a1" usdc 10000 (pocket 0 50010)).1
    = Ok {| c_id := "6"; c_version := 3; c_digest := "D" |} ∧
  ∃ pre o post r, [object "0x5" 10; object "0x6" 50000] = pre ++ o :: post ∧
    Forall (λ o, ¬ can_pay 10000 o) pre ∧ can_pay 10000 o ∧ coin_of (sdk := client_sdk) o = Some r.
Proof.
  split; [vm_compute; reflexivity|].
  destruct (picked_coin_is_the_first_sufficient (sdk := client_sdk) "node" "a1" usdc 10000
    _ _ _ (demo_listed 50010))
    as [(pre & o & post & r & ? & ? & ? & ? & _) | [Hall _]]; [by eauto 10|].
  exfalso. inversion Hall as [|? ? _ H1']; subst. inversion H1' as [|? ? H2' _]; subst.
  apply H2'. split_and!; cbn; [lia|by eexists..].
Defined.

(** Nothing in the address balance: the coin is split. *)
Lemma built_payment_pins_witness :
  let b := demo_build 0 50010 in
  ∃ t payment gas w2 w3 (l : list (BuilderCall string string string)), b.1 = Some (Ok t) ∧
    pick_coin (sdk := client_sdk) "node" "a1" usdc 10000 (pocket 0 50010) = (Ok payment, w2) ∧
    pick_coin (sdk := client_sdk) "node" "a1" "0x2::sui::SUI" GAS_BUDGET w2 = (Ok gas, w3) ∧
    pays_with (sdk := client_sdk) payment "b2" 10000 l ∧ gas_from (sdk := client_sdk) gas l ∧
    pinned_objects t = [coin_ref (sdk := client_sdk) payment; coin_ref (sdk := client_sdk) gas].
Proof.
  cbv zeta. destruct (demo_build 0 50010) as [[[t|e]|] w'] eqn:Eb; [|exfalso..].
  - destruct (built_payment_pins (sui := sui_sdk) (sdk := client_sdk) (laws := client_laws) _ _ _ _ _ _ _ _ _ _ Eb)
      as (funds & w1 & Hf & _ & Hp).
    rewrite demo_funding in Hf. injection Hf as <- <-.
    destruct Hp as [[[_ Hle] _]|(_ & payment & gas & w2 & w3 & l & H1' & H2' & _ & H4' & H5' & H6' & _)].
    + exfalso. cbn in Hle. lia.
    + exists t, payment, gas, w2, w3, l. by split_and!.
  - by apply (f_equal (λ r, is_ok <$> r.1)) in Eb; vm_compute in Eb.
  - by apply (f_equal (λ r, is_ok <$> r.1)) in Eb; vm_compute in Eb.
Defined.
End Witnesses.

(** "Gas must be SUI and must be a different object from the coin being
    split", the code says; when the price is in SUI nothing keeps it so, and
    one coin is both. *)
Example sui_payment_splits_its_own_gas_coin :
  pinned_objects <$> ((build_payment (sdk := DemoWallet.client_sdk) "node" "a1" "b2" "0x2::sui::SUI" 10000
    [CoinObject] None (DemoWallet.pocket 0 20000000)).1 ≫= result_ok)
  = Some [mkRef "0x9" 3; mkRef "0x9" 3].
Proof. vm_compute. reflexivity. Qed.
