(* ===== verification/Pay.v ===== *)
(** * The command line payer ([src/bin/x402-pay.rs])

    Ask for the resource, pay the first offer of its challenge, ask again.
    [main] is the program after argument parsing; what it ends with is an
    [Outcome], from which [stdout] and [exit_code] are read. *)

From Stdlib Require Import Ascii SpecFloat.
From S2P Require Import Prelude RustStr FloatText Platform Json X402 Sui PayClient.
From stdpp Require Import options.
#[local] Open Scope Z_scope.

Record Args := mkArgs {
  url : string; method : string; data : string; headers : list string; rpc : string;
  dry_run : bool; payment_paths : string }.

Inductive Outcome :=
| Failed (e : list string)
| NoPayment (first : Attempt)
| DryRun (challenge : wire.PaymentRequired) (terms : wire.PaymentRequirements) (payer header : string)
| Retried (challenge : wire.PaymentRequired) (terms : wire.PaymentRequirements) (payer : string)
          (paid : Attempt).

Definition header_arg (h : string) : Anyhow (string * string) :=
  match split_once_char ":" h with
  | Some (name, value) => Ok (trim name, trim value)
  | None => Err ["header " +:+ debug_str h +:+ " is not `Name: value`"]
  end.

(** The challenge, or why it cannot be paid. *)
Definition offer (first : Attempt) : Anyhow (wire.PaymentRequired * wire.PaymentRequirements) :=
  challenge <-? ok_or ["402 without a PAYMENT-REQUIRED header; is this an x402 endpoint?"]
                  first.(at_required) ;;
  terms <-? ok_or ["challenge advertised no payment options"] (head challenge.(wire.accepts)) ;;
  if bool_decide (terms.(wire.scheme) = "exact") then Ok (challenge, terms)
  else Err ["this client implements the `exact` scheme; the resource wants `" +:+
            terms.(wire.scheme) +:+ "`"].

(** Lines on the standard output; those before a failure are left out. *)
Definition challenge_lines (challenge : wire.PaymentRequired) (terms : wire.PaymentRequirements)
    (payer : string) : list string :=
  ["402 Payment Required"; "  resource  " +:+ wire.url (wire.resource challenge);
   "  network   " +:+ wire.network terms;
   "  amount    " +:+ wire.amount terms +:+ " of " +:+ wire.asset terms;
   "  payTo     " +:+ wire.pay_to terms; "  paying as " +:+ payer].
Definition receipt_lines (receipt : option wire.SettlementResponse) : list string :=
  match receipt with
  | None => []
  | Some r =>
      if wire.success r
      then ["  settled  tx " +:+ wire.transaction r +:+ " on " +:+ wire.s_network r]
      else ["  refused  " +:+ unwrap_or (wire.error_reason r) "no reason given"]
  end.
Definition session_lines (session : option string) : list string :=
  match session with
  | None => []
  | Some s => ["  session  " +:+ s;
               "           present this as `x-payment-session` to reuse the paid tier"]
  end.

Definition stdout (o : Outcome) : list string :=
  match o with
  | Failed _ => []
  | NoPayment first => [u_to_string first.(at_status) +:+ " (no payment required)"; first.(at_body)]
  | DryRun challenge terms payer header =>
      challenge_lines challenge terms payer ++
      [""; "--dry-run: built and signed, not sent"; "PAYMENT-SIGNATURE: " +:+ header]
  | Retried challenge terms payer paid =>
      challenge_lines challenge terms payer ++ [""; "retrying with payment…"; u_to_string paid.(at_status)] ++
      receipt_lines paid.(at_response) ++ session_lines paid.(at_session) ++ [""; paid.(at_body)]
  end.

Definition exit_code (o : Outcome) : Z :=
  match o with
  | Failed _ => 1
  | Retried _ _ _ paid => if paid.(at_status) =? 200 then 0 else 1
  | _ => 0
  end.

Section Pay.
Context `{!Codecs, !Json} {sdk : ClientSdk} {N : Type} `{!ClientEnv N}.
Context (env : string → option string) (read_file : string → result string string).

(** After the first answer. [None] is a panic. *)
Definition pay (args : Args) (hs : list (string * string)) (first : Attempt) :
  M (Net N) (option Outcome) :=
  match offer first with
  | Err e => ret (Some (Failed e))
  | Ok (challenge, terms) =>
  match load_key env read_file, parse_list args.(payment_paths) with
  | Err e, _ | Ok _, Err e => ret (Some (Failed e))
  | Ok key, Ok paths =>
      let payer := address_text (derive_address key) in
      built <-- build_payment_header args.(rpc) key (wire.url (wire.resource challenge)) terms paths ;;;
      match built with
      | None => ret None
      | Some (Err e) => ret (Some (Failed e))
      | Some (Ok header) =>
          if args.(dry_run) then ret (Some (DryRun challenge terms payer header)) else
          paid <-- send args.(method) args.(url) hs args.(data) (Some header) ;;;
          ret (Some match paid with
                    | Err e => Failed e
                    | Ok paid => Retried challenge terms payer paid
                    end)
      end
  end
  end.

Definition main (args : Args) : M (Net N) (option Outcome) :=
  match collect (header_arg <$> args.(headers)) with
  | Err e => ret (Some (Failed e))
  | Ok hs =>
      first <-- send args.(method) args.(url) hs args.(data) None ;;;
      match first with
      | Err e => ret (Some (Failed e))
      | Ok first =>
          if negb (first.(at_status) =? 402) then ret (Some (NoPayment first))
          else pay args hs first
      end
  end.
End Pay.

(** ** Properties *)

Section Properties.
#[local] Set Default Proof Using "Type*".
Context `{!Codecs, !Json} {sdk : ClientSdk} {N : Type} `{!ClientEnv N}.

(** C28: The payer pays at most once, and only for what it was asked.  A run sends
    nothing, or the request without payment, or that and one more request
    that carries a payment.  The payment is then the header built for the
    first offer of the challenge that answered the first request with a 402;
    the offer's scheme is [exact] and the run is not a dry run. *)
Theorem payer_pays_once_when_challenged (env : string → option string)
    (read_file : string → result string string) (args : Args) (w w' : Net N) (o : option Outcome)
    (Hm : main env read_file args w = (o, w')) :
  requests w' = requests w ∨
  ∃ hs, let request := request_of args.(method) args.(url) hs args.(data) in
    requests w' = requests w ++ [request None] ∨
    ∃ first w1 challenge terms key paths header w2,
      requests w' = requests w ++ [request None; request (Some header)] ∧
      send args.(method) args.(url) hs args.(data) None w = (Ok first, w1) ∧
      first.(at_status) = 402 ∧ first.(at_required) = Some challenge ∧
      head challenge.(wire.accepts) = Some terms ∧ terms.(wire.scheme) = "exact" ∧
      args.(dry_run) = false ∧ load_key env read_file = Ok key ∧
      parse_list args.(payment_paths) = Ok paths ∧
      build_payment_header args.(rpc) key (wire.url (wire.resource challenge)) terms paths w1
        = (Some (Ok header), w2).
Proof.
  unfold main in Hm. destruct (collect _) as [hs|] eqn:Ehs; [|injection Hm as _ <-; by left].
  unfold bind at 1 in Hm. destruct (send _ _ hs _ None w) as [first w1] eqn:Es.
  destruct (send_log _ _ _ _ _ _ _ _ Es) as [[Hlog Hok]|Hlog].
  { destruct first; [done|]. injection Hm as _ <-. by left. }
  assert (requests w' = requests w1 → requests w' = requests w ++ [request_of (method args) (url args) hs (data args) None])
    as Hone by congruence.
  destruct first as [first|]; [|injection Hm as _ <-; right; exists hs; left; by apply Hone].
  destruct (Z.eqb_spec (at_status first) 402) as [H402|]; cbn [negb] in Hm.
  2: injection Hm as _ <-; right; exists hs; left; by apply Hone.
  right. exists hs. unfold pay in Hm.
  destruct (offer first) as [[challenge terms]|] eqn:Eo; [|injection Hm as _ <-; left; by apply Hone].
  destruct (load_key env read_file) as [key|] eqn:Ek; [|injection Hm as _ <-; left; by apply Hone].
  destruct (parse_list _) as [paths|] eqn:Ep; [|injection Hm as _ <-; left; by apply Hone].
  unfold bind at 1 in Hm.
  pose proof (build_payment_header_silent (rpc args) key (wire.url (wire.resource challenge)) terms paths w1)
    as Hq.
  destruct (build_payment_header _ _ _ _ _ w1) as [built w2] eqn:Eb. unfold silent in Hq. cbn [snd] in Hq.
  destruct built as [[header|]|]; [|injection Hm as _ <-; left; by apply Hone..].
  destruct (dry_run args) eqn:Ed; [injection Hm as _ <-; left; by apply Hone|].
  unfold bind, ret in Hm. destruct (send _ _ hs _ (Some header) w2) as [paid w3] eqn:Es2.
  injection Hm as _ <-. destruct (send_log _ _ _ _ _ _ _ _ Es2) as [[Hl _]|Hl].
  - left. by rewrite Hl, Hq.
  - right. unfold offer in Eo. destruct (at_required first) as [c|] eqn:Er; [|done]. cbn [ok_or] in Eo.
    destruct (head (wire.accepts c)) as [t|] eqn:Eh; [|done]. cbn [ok_or] in Eo.
    case_bool_decide; [|done]. injection Eo as -> ->.
    exists first, w1, challenge, terms, key, paths, header, w2.
    split_and!; try done. by rewrite Hl, Hq, Hlog, <- app_assoc.
Qed.
End Properties.

(** ** A run against a server that wants a payment *)

Definition demo_challenge : PaymentRequired :=
  X402.payment_required "payment required" (mkResourceInfo "https://x/graphql" None None None None None)
    [demo_requirements].
Definition demo_serve (r : WebRequest) : WebResponse :=
  let paid := existsb (λ h, String.eqb h.1 "payment-signature") r.(w_headers) in
  mkWebResponse (if paid then 200 else 402)
    (if paid then [] else [("payment-required", encode_header (json_of_required demo_challenge))])
    (Some "body") (S754_zero false).
Definition demo_args (dry : bool) : Args :=
  {| url := "https://x/graphql"; method := "POST"; data := ""; headers := ["a: b"]; rpc := "node";
     dry_run := dry; payment_paths := "gasless,sponsored,coin-object" |}.
Definition demo_env (v : string) : option string :=
  if String.eqb v "X402_SUI_PRIVATE_KEY" then Some "a1" else None.
Definition demo_net : Net DemoWallet.Pocket :=
  mkNet (DemoWallet.mkPocket (mkBalance (Some 20000) (Some 20000) None) (λ _, []) 0 demo_serve) [].
Definition demo_run (dry : bool) : option Outcome * Net DemoWallet.Pocket :=
  main (sdk := DemoWallet.client_sdk) demo_env (λ _, Err "no file") (demo_args dry) demo_net.

Example dry_run_sends_one_request :
  length (requests (demo_run true).2) = 1%nat ∧ exit_code <$> (demo_run true).1 = Some 0.
Proof. vm_compute. done. Qed.

Lemma payer_pays_once_when_challenged_witness :
  exit_code <$> (demo_run false).1 = Some 0 ∧
  ∃ hs header, requests (demo_run false).2
    = [request_of "POST" "https://x/graphql" hs "" None;
       request_of "POST" "https://x/graphql" hs "" (Some header)].
Proof.
  assert (length (requests (demo_run false).2) = 2%nat) as Hl by (vm_compute; reflexivity).
  split; [vm_compute; reflexivity|].
  destruct (payer_pays_once_when_challenged (sdk := DemoWallet.client_sdk) demo_env (λ _, Err "no file")
    (demo_args false) demo_net _ _ (surjective_pairing _))
    as [Hr | (hs & [Hr | (? & ? & ? & ? & ? & ? & header & ? & Hr & _)])].
  - change ((main _ _ _ _).2) with ((demo_run false).2) in Hr. by rewrite Hr in Hl.
  - change ((main _ _ _ _).2) with ((demo_run false).2) in Hr. by rewrite Hr in Hl.
  - exists hs, header. exact Hr.
Defined.
