(* ===== verification/Demo.v ===== *)
(** * The public demo ([src/bin/x402-demo.rs])

    A web service that drives the gateway for a visitor and pays, from a hot
    wallet of its own, when the gateway asks: the handlers behind its routes,
    with the spend controls.  [send] is written as the stages the code runs
    one after the other, because other visitors' requests come between them:
    the request without payment, the hourly counter under its map's lock, and
    the payment under the mutex that guards the budget. *)

From stdpp Require Import sorting.
From Stdlib Require Import Ascii SpecFloat.
From S2P Require Import Prelude RustStr FloatText Platform IpAddr Json X402 Sui PayClient.
From S2P Require Pay.
From stdpp Require Import options.
#[local] Open Scope Z_scope.

Record Args := mkArgs {
  rpc : string; max_plays : Z; plays_per_ip_hourly : Z; static_dir : string;
  prize_video : option string; gateway : string; metrics : string; facilitator_api : string;
  asset : string }.

Record Target := mkTarget {
  t_id : string; t_label : string; t_upstream : string; t_detail : string; t_path : string;
  t_method : string; t_content_type : string; t_body : string; t_free : bool }.

Definition DQ : string := String "034" "".

Definition TARGETS : list Target :=
  [ {| t_id := "free"; t_label := "GraphQL · chain identity"; t_upstream := "graphql.testnet.sui.io";
       t_detail := "Free. Metered and passed straight through — a price of zero is still a policy.";
       t_path := "/free/graphql"; t_method := "POST"; t_content_type := "application/json";
       t_body := "{" +:+ DQ +:+ "query" +:+ DQ +:+ ":" +:+ DQ +:+ "{ chainIdentifier }" +:+ DQ +:+ "}";
       t_free := true |};
    {| t_id := "graphql"; t_label := "GraphQL · latest checkpoint"; t_upstream := "graphql.testnet.sui.io";
       t_detail := "Small free allowance, then a price. This is the wall the demo is about.";
       t_path := "/graphql"; t_method := "POST"; t_content_type := "application/json";
       t_body := "{" +:+ DQ +:+ "query" +:+ DQ +:+ ":" +:+ DQ +:+
                 "{ checkpoint { sequenceNumber digest } epoch { epochId } }" +:+ DQ +:+ "}";
       t_free := false |};
    {| t_id := "grpc"; t_label := "gRPC · LedgerService"; t_upstream := "fullnode.testnet.sui.io";
       t_detail := "A binary protocol nobody else gates. Different price, different receiving wallet, same filter.";
       t_path := "/sui.rpc.v2.LedgerService/GetServiceInfo"; t_method := "POST";
       t_content_type := "application/grpc-web+proto"; t_body := ""; t_free := false |};
    {| t_id := "fail"; t_label := "An upstream that always fails"; t_upstream := "this box, port 8402";
       t_detail := "Also has no payment code. Returns 503 on purpose: verified, served a failure, and NOT charged.";
       t_path := "/boom"; t_method := "POST"; t_content_type := "application/json"; t_body := "{}";
       t_free := false |};
    {| t_id := "spin"; t_label := "Spin the wheel"; t_upstream := "this box, port 8402";
       t_detail := "An ordinary HTTP handler with NO payment code of its own. The gateway sells it; the app never finds out.";
       t_path := "/spin"; t_method := "POST"; t_content_type := "application/json"; t_body := "{}";
       t_free := false |} ].

Definition target (id : string) : option Target := List.find (λ t, String.eqb t.(t_id) id) TARGETS.

Record SendRequest := mkSendRequest { sq_target : string; sq_session : option string }.
Record ApiError := mkApiError { error : string; detail : string }.

Record Span := mkSpan {
  sp_name : string; sp_actor : string; sp_start_ms : f64; sp_dur_ms : f64; sp_depth : Z;
  sp_outcome : string; sp_detail : string }.

Record Wire := mkWire {
  challenge : option Value; payment : option Value; receipt : option Value;
  first_status : Z; paid_status : option Z }.

Record SendResult := mkSendResult {
  r_target : string; r_status : Z; r_paid : bool; r_session : option string; r_meter : Meter;
  r_transaction : string; r_network : string; r_body : string; r_plays_remaining : Z;
  r_wire : Wire; r_trace : list Span; r_settled : bool }.

(** ** Times *)

Definition f64_zero : f64 := S754_zero false.
Definition f64_add (a b : f64) : f64 := SFadd 53 1024 a b.
Definition f64_sub (a b : f64) : f64 := SFsub 53 1024 a b.
(** [f64::max]: a NaN gives way to the other operand. *)
Definition f64_max (a b : f64) : f64 :=
  match SFcompare a b with
  | Some Lt => b
  | Some _ => a
  | None => match a with S754_nan => b | _ => a end
  end.

Definition timing (a : Attempt) (name : string) : option f64 :=
  snd <$> List.find (λ p, String.eqb p.1 name) a.(at_timing).

Definition attempt_spans (a : Attempt) (start_ms : f64) (paid : bool) : list Span :=
  match timing a "x402-decide" with
  | Some decide =>
      [mkSpan (if paid then "verify payment" else "check the meter") "verifier" start_ms decide 1 "ok"
         (if paid then "signature, simulation, live inputs, exact credit"
          else "free-tier or session check; no chain access")]
  | None => []
  end ++
  match a.(upstream_ms) with
  | Some upstream =>
      [mkSpan "upstream serves the request" "envoy → upstream"
         (f64_add start_ms (unwrap_or (timing a "x402-decide") f64_zero)) upstream 1
         (if a.(at_status) =? 200 then "ok" else "err") ("HTTP " +:+ u_to_string a.(at_status))]
  | None => []
  end ++
  match timing a "x402-settle" with
  | Some settle =>
      [mkSpan "settle on chain" "verifier"
         (f64_max (f64_sub (f64_add start_ms a.(elapsed_ms)) settle) start_ms) settle 1 "pay"
         "broadcast the client's signed transaction"]
  | None =>
      if paid && negb (a.(at_status) =? 200) then
        [mkSpan "settle on chain" "verifier" (f64_add start_ms a.(elapsed_ms)) f64_zero 1 "skip"
           "SKIPPED — upstream did not return 2xx, so nothing was charged"]
      else []
  end.

Definition first_span (first : Attempt) : Span :=
  mkSpan (if first.(at_status) =? 402 then "request without payment" else "request") "demo → gateway"
    f64_zero first.(elapsed_ms) 0
    (if first.(at_status) =? 402 then "pay" else if first.(at_status) =? 200 then "ok" else "err")
    ("HTTP " +:+ u_to_string first.(at_status)).

(** Readings of the stopwatch while paying, in milliseconds. *)
Record Stopwatch := mkStopwatch { build_start : f64; build_end : f64; paid_start : f64 }.

Definition pay_spans (sw : Stopwatch) (paid : Attempt) : list Span :=
  [mkSpan "build and sign the payment" "demo wallet" sw.(build_start)
     (f64_sub sw.(build_end) sw.(build_start)) 0 "pay"
     "pick a coin, read gas price, build a PTB, sign locally";
   mkSpan "request with payment" "demo → gateway" sw.(paid_start) paid.(elapsed_ms) 0
     (if paid.(at_status) =? 200 then "ok" else "err") ("HTTP " +:+ u_to_string paid.(at_status))] ++
  attempt_spans paid sw.(paid_start) true.

(** ** What is sent, and what is shown of the answer *)

Definition forwarded (incoming : list (string * string)) : list (string * string) :=
  omap (λ n, (λ v, (n, v)) <$> header_str incoming n) ["x-forwarded-host"; "x-forwarded-proto"].

Definition is_grpc_web (t : Target) : bool := starts_with "application/grpc-web" t.(t_content_type).

Definition NUL5 : string := of_chars (repeat "000"%char 5).
Definition grpc_web_body (t : Target) : string := if is_grpc_web t then NUL5 else t.(t_body).

Definition send_headers (t : Target) (incoming : list (string * string)) (session : option string) :
  list (string * string) :=
  [("content-type", t.(t_content_type))] ++ forwarded incoming ++
  match session with Some s => [("x-payment-session", s)] | None => [] end ++
  (if is_grpc_web t then [("x-grpc-web", "1")] else []).

Definition target_url (args : Args) (t : Target) : string :=
  trim_end_matches "/" args.(gateway) +:+ t.(t_path).

(** [char::is_control] somewhere other than in a line break or a tab: on UTF-8,
    C1 controls are a byte C2 followed by 80 to 9F. *)
Fixpoint has_control (s : string) : bool :=
  match s with
  | EmptyString => false
  | String a r =>
      let x := byte_of a in
      ((x <? 32) && negb ((x =? 10) || (x =? 13) || (x =? 9))) || (x =? 127) ||
      (match r with
       | String b _ => (x =? 0xC2) && (0x80 <=? byte_of b) && (byte_of b <=? 0x9F)
       | EmptyString => false
       end) || has_control r
  end.

Definition is_continuation (c : ascii) : bool := (128 <=? byte_of c) && (byte_of c <? 192).
(** The offsets of [str::char_indices]: the bytes that begin a character. *)
Fixpoint char_starts (i : nat) (s : string) : list nat :=
  match s with
  | EmptyString => []
  | String c r => if is_continuation c then char_starts (S i) r else i :: char_starts (S i) r
  end.
Fixpoint take_while {A} (f : A → bool) (l : list A) : list A :=
  match l with [] => [] | x :: l => if f x then x :: take_while f l else [] end.

Definition MAX_BODY : nat := 600.
Definition cut_of (body : string) : nat :=
  unwrap_or (last (take_while (λ i, (i <=? MAX_BODY)%nat) (char_starts 0 body))) 0%nat.
Definition sprefix (n : nat) (s : string) : string := of_chars (take n (schars s)).
Definition ELLIPSIS : string := "…".

Definition trim_body (body : string) : string :=
  if has_control body then "<" +:+ u_to_string (Z.of_nat (slen body)) +:+ " bytes of grpc-web frames>"
  else if (slen body <=? MAX_BODY)%nat then body
  else sprefix (cut_of body) body +:+ ELLIPSIS.

Record Reply := mkReply { rp_status : Z; rp_headers : list (string * string); rp_body : string }.
Record PolicyRow := mkPolicyRow { pw_name : string; pw_pay_to : string }.
Record Payee := mkPayee { py_target : string; py_address : string; py_balance : option Z }.
Record Balances := mkBalances {
  bl_payer : string; bl_payer_balance : option Z; bl_payees : list Payee; bl_asset : string }.

(** ** State *)

(** [AppState], with the network it talks to: the paid requests counted
    against [max_plays], and per address the hour and the paid requests in it. *)
Record Demo (N : Type) := mkDemo {
  d_net : Net N; spent : Z; per_ip : gmap IpAddr (Z * Z) }.
Arguments mkDemo {N} _ _ _.
Arguments d_net {N} _.
Arguments spent {N} _.
Arguments per_ip {N} _.

Definition new_demo {N} (n : Net N) : Demo N := mkDemo n 0 ∅.

Section Demo.
Context `{!Codecs, !Json} {sdk : ClientSdk} {N : Type} `{!ClientEnv N}.
Context (env : string → option string) (read_file : string → result string string).
Context (args : Args).

Definition on_demo {A} (c : M (Net N) A) : M (Demo N) A :=
  λ d, let '(a, n) := c d.(d_net) in (a, mkDemo n d.(spent) d.(per_ip)).

(** Startup: fails when there is no usable key. *)
Definition start (n : Net N) : Anyhow (Demo N) :=
  _ <-? context "loading the demo wallet key" (load_key env read_file) ;; Ok (new_demo n).

(** [e.to_string()]: the outermost message. *)
Definition api_error {A} (code : string) (r : Anyhow A) : result A ApiError :=
  map_err (λ e, mkApiError code (unwrap_or (head e) "")) r.

(** The request without payment. *)
Definition probe (t : Target) (hs : list (string * string)) : M (Demo N) (result Attempt ApiError) :=
  first <-- on_demo (PayClient.send t.(t_method) (target_url args t) hs (grpc_web_body t) None) ;;;
  ret (api_error "gateway_unreachable" first).

Definition remaining : M (Demo N) Z := λ d, (sat_sub args.(max_plays) d.(spent), d).

(** The hourly counter of one address, under its entry's lock. *)
Definition admit_peer (peer : IpAddr) (now : Z) : M (Demo N) (result () ApiError) := λ d,
  let hour := now / 3600 in
  let found := unwrap_or (d.(per_ip) !! peer) (hour, 0) in
  let entry := if negb (found.1 =? hour) then (hour, 0) else found in
  if args.(plays_per_ip_hourly) <=? entry.2
  then (Err (mkApiError "rate_limited"
               ("this demo pays from one small testnet wallet, so it allows " +:+
                u_to_string args.(plays_per_ip_hourly) +:+
                " paid requests per hour per visitor. Try again next hour, or point your own wallet at the same gateway.")),
        mkDemo d.(d_net) d.(spent) (<[peer := entry]> d.(per_ip)))
  else (Ok (), mkDemo d.(d_net) d.(spent) (<[peer := (entry.1, u64_add entry.2 1)]> d.(per_ip))).

Definition budget_exhausted : ApiError :=
  mkApiError "budget_exhausted"
    "the demo wallet's gas budget for this run is spent. Testnet SUI is free — top it up with `sui client faucet` and restart.".

Definition first_offer (first : Attempt) :
  result (wire.PaymentRequired * wire.PaymentRequirements) ApiError :=
  c <-? ok_or (mkApiError "malformed_challenge" "402 without a PAYMENT-REQUIRED header")
          first.(at_required) ;;
  t <-? ok_or (mkApiError "malformed_challenge" "challenge advertised no payment options")
          (head c.(wire.accepts)) ;;
  Ok (c, t).

(** Did money move, as far as the receipt says? *)
Definition settled_by (paid : Attempt) : bool :=
  match paid.(at_response) with
  | Some r => wire.success r && negb (starts_with "stub-" (wire.transaction r))
  | None => false
  end.

(** What the mutex guards: budget check, payment, count.  The answer is the
    challenge, the header, the paid attempt and what is left of the budget;
    [None] is a panic. *)
Definition pay_locked (t : Target) (hs : list (string * string)) (first : Attempt) :
  M (Demo N) (option (result (wire.PaymentRequired * string * Attempt * Z) ApiError)) := λ d,
  if args.(max_plays) <=? d.(spent) then (Some (Err budget_exhausted), d) else
  match first_offer first with
  | Err e => (Some (Err e), d)
  | Ok (challenge, terms) =>
  match api_error "no_wallet" (load_key env read_file) with
  | Err e => (Some (Err e), d)
  | Ok key =>
      (built <-- on_demo (build_payment_header args.(rpc) key (wire.url (wire.resource challenge)) terms
                            DEFAULT_PAYMENT_PATHS) ;;;
       match api_error "payment_failed" <$> built with
       | None => ret None
       | Some (Err e) => ret (Some (Err e))
       | Some (Ok header) =>
           paid <-- on_demo (PayClient.send t.(t_method) (target_url args t) hs (grpc_web_body t)
                               (Some header)) ;;;
           match api_error "gateway_unreachable" paid with
           | Err e => ret (Some (Err e))
           | Ok paid => λ d,
               let n := if settled_by paid then u64_add d.(spent) 1 else d.(spent) in
               (Some (Ok (challenge, header, paid, sat_sub args.(max_plays) n)),
                mkDemo d.(d_net) n d.(per_ip))
           end
       end) d
  end
  end.

Definition unpaid_result (t : Target) (session : option string) (first : Attempt) (budget : Z) : SendResult :=
  {| r_target := t.(t_id); r_status := first.(at_status); r_paid := false; r_session := session;
     r_meter := first.(at_meter); r_transaction := ""; r_network := "";
     r_body := trim_body first.(at_body); r_plays_remaining := budget;
     r_wire := mkWire None None None first.(at_status) None;
     r_trace := first_span first :: attempt_spans first f64_zero false; r_settled := false |}.

(** A base64(JSON) header, for display. *)
Definition base64_json (raw : string) : option Value := decoded of_value raw.

Definition paid_result (t : Target) (session : option string) (sw : Stopwatch) (first : Attempt)
    (c : wire.PaymentRequired) (header : string) (paid : Attempt) (budget : Z) : SendResult :=
  let r := paid.(at_response) in
  {| r_target := t.(t_id); r_status := paid.(at_status); r_paid := true;
     r_session := or_else paid.(at_session) session; r_meter := paid.(at_meter);
     r_transaction := unwrap_or (wire.transaction <$> r) "";
     r_network := unwrap_or (wire.s_network <$> r) ""; r_body := trim_body paid.(at_body);
     r_plays_remaining := budget;
     r_wire := {| challenge := Some (wire.json_of_required c); payment := base64_json header;
                  receipt := wire.json_of_settlement <$> r; first_status := first.(at_status);
                  paid_status := Some paid.(at_status) |};
     r_trace := first_span first :: attempt_spans first f64_zero false ++ pay_spans sw paid;
     r_settled := settled_by paid |}.

(** [POST /send].  [now]: the clock when the request is counted. *)
Definition send (peer : IpAddr) (incoming : list (string * string)) (request : SendRequest)
    (now : Z) (sw : Stopwatch) : M (Demo N) (option (result SendResult ApiError)) :=
  match target request.(sq_target) with
  | None => ret (Some (Err (mkApiError "unknown_target"
                              ("no target named " +:+ debug_str request.(sq_target)))))
  | Some t =>
      let hs := send_headers t incoming request.(sq_session) in
      first <-- probe t hs ;;;
      match first with
      | Err e => ret (Some (Err e))
      | Ok first =>
          budget <-- remaining ;;;
          if negb (first.(at_status) =? 402)
          then ret (Some (Ok (unpaid_result t request.(sq_session) first budget))) else
          admitted <-- admit_peer peer now ;;;
          match admitted with
          | Err e => ret (Some (Err e))
          | Ok _ =>
              outcome <-- pay_locked t hs first ;;;
              ret match outcome with
                  | None => None
                  | Some (Err e) => Some (Err e)
                  | Some (Ok (c, header, paid, budget)) =>
                      Some (Ok (paid_result t request.(sq_session) sw first c header paid budget))
                  end
          end
      end
  end.

(** ** The other routes

    A reply's content type is listed where the code sets one. *)

Definition get_text (u : string) : M (Net N) (option (option string)) :=
  response <-- web_send (mkWebRequest "GET" u [] None) ;;;
  ret (rs_text <$> result_ok response).

Definition api_url (path : string) : string := trim_end_matches "/" args.(facilitator_api) +:+ path.

Definition JSON_TYPE : list (string * string) := [("content-type", "application/json")].

Definition policies_proxy : M (Net N) Reply :=
  fetched <-- get_text (api_url "/policies") ;;;
  ret match fetched with
      | Some (Some body) => mkReply 200 JSON_TYPE body
      | Some None => mkReply 502 [] "[]"
      | None => mkReply 200 JSON_TYPE "[]"
      end.

Definition metrics_proxy : M (Net N) Reply :=
  fetched <-- get_text (args.(metrics) +:+ "/metrics") ;;;
  ret match fetched with
      | Some (Some body) => mkReply 200 [] body
      | Some None => mkReply 502 [] ""
      | None => mkReply 200 [] ""
      end.

Definition policy_row_of_json (v : Value) : option PolicyRow :=
  f ← fields true ["name"; "payTo"] v;
  n ← req of_string f "name"; p ← req of_string f "payTo"; Some (mkPolicyRow n p).

(** The table, empty when it cannot be had. *)
Definition policy_table : M (Net N) (list PolicyRow) :=
  fetched <-- get_text (api_url "/policies") ;;;
  ret (unwrap_or (text ← mjoin fetched; v ← result_ok (json_parse (as_bytes text));
                  of_list policy_row_of_json v) []).

Definition for_sale (name : string) : bool :=
  existsb (λ t, String.eqb t.(t_id) name && negb t.(t_free)) TARGETS.

(** Another policy paid to a wallet that is listed already. *)
Fixpoint credit_also (name address : string) (l : list Payee) : option (list Payee) :=
  match l with
  | [] => None
  | p :: l =>
      if String.eqb p.(py_address) address
      then Some (mkPayee (p.(py_target) +:+ " + " +:+ name) p.(py_address) p.(py_balance) :: l)
      else cons p <$> credit_also name address l
  end.

Fixpoint list_payees (rows : list PolicyRow) (payees : list Payee) : M (Net N) (list Payee) :=
  match rows with
  | [] => ret payees
  | row :: rows =>
      if negb (for_sale row.(pw_name)) then list_payees rows payees else
      match credit_also row.(pw_name) row.(pw_pay_to) payees with
      | Some payees => list_payees rows payees
      | None =>
          balance <-- match address_parse row.(pw_pay_to) with
                      | Ok a => b <-- PayClient.balance args.(rpc) a args.(asset) ;;; ret (result_ok b)
                      | Err _ => ret None
                      end ;;;
          list_payees rows (payees ++ [mkPayee row.(pw_name) row.(pw_pay_to) balance])
      end
  end.

(** [None]: a 503, "no demo wallet". *)
Definition balances : M (Net N) (option Balances) :=
  match load_key env read_file with
  | Err _ => ret None
  | Ok key =>
      let payer := derive_address key in
      table <-- policy_table ;;;
      payees <-- list_payees table [] ;;;
      payer_balance <-- PayClient.balance args.(rpc) payer args.(asset) ;;;
      ret (Some (mkBalances (address_text payer) (result_ok payer_balance) payees args.(asset)))
  end.

(** The gated application: a roll of 1 to 100 out of what the chain answers. *)
Definition chain_id_from (body : string) : string :=
  unwrap_or (v ← result_ok (json_parse (as_bytes body)); d ← get v "data";
             c ← get d "chainIdentifier"; as_str c) "".

Definition u64_from_be_bytes (b : bytes) : Z :=
  fold_left (λ a x, a * 256 + Z.of_N (Byte.to_N x)) b 0.
Definition roll_of (seed : string) : Z := u64_from_be_bytes (take 8 (sha256 (as_bytes seed))) mod 100 + 1.

Definition wheel_request : WebRequest :=
  mkWebRequest "POST" (trim_end_matches "/" args.(gateway) +:+ "/free/graphql")
    [("content-type", "application/json")]
    (Some ("{" +:+ DQ +:+ "query" +:+ DQ +:+ ":" +:+ DQ +:+
           "{ chainIdentifier checkpoint { digest } }" +:+ DQ +:+ "}")).

Definition wheel : M (Net N) Value :=
  response <-- web_send wheel_request ;;;
  let seed := unwrap_or (result_ok response ≫= rs_text) "" in
  ret (Json.Object [("roll", u64_value (roll_of seed)); ("seed", Str (chain_id_from seed))]).

Definition broken : Z * Value :=
  (503, Json.Object
    [("error", Str "this upstream fails on purpose");
     ("expect", Str "no settlement, no charge, and the signed payment is released for retry")]).

(** Files: what [std::path] joins, what the file system answers. *)
Definition index (read : string → result string string) : Reply :=
  let path := path_join args.(static_dir) "index.html" in
  match read path with
  | Ok body => mkReply 200 [("content-type", "text/html; charset=utf-8");
                            ("cache-control", "no-store, must-revalidate")] body
  | Err e => mkReply 404 [] ("could not read " +:+ path +:+ ": " +:+ e)
  end.

Definition prize (read : string → result string string) : Reply :=
  let path := match args.(prize_video) with
              | Some explicit => explicit
              | None => path_join args.(static_dir) "rickroll.mp4"
              end in
  match read path with
  | Ok body => mkReply 200 [("content-type", "video/mp4");
                            ("cache-control", "public, max-age=86400")] body
  | Err e => mkReply 404 [] (path +:+ ": " +:+ e)
  end.

(** Everything else goes to the gateway.  [body]: [None] when it is over a
    mebibyte or cannot be read. *)
Definition gateway_proxy (method : string) (path_and_query : option string)
    (incoming : list (string * string)) (body : option string) : M (Net N) Reply :=
  match body with
  | None => ret (mkReply 400 [] "body too large")
  | Some body =>
      response <-- web_send
        {| w_method := method;
           w_url := trim_end_matches "/" args.(gateway) +:+ unwrap_or path_and_query "/";
           w_headers := List.filter (λ h, negb (eq_ignore_ascii_case h.1 "host")) incoming;
           w_body := Some body |} ;;;
      ret match response with
          | Ok r => mkReply r.(rs_status)
                      (List.filter (λ h, negb (eq_ignore_ascii_case h.1 "content-length" ||
                                               eq_ignore_ascii_case h.1 "transfer-encoding"))
                         r.(rs_headers)) (unwrap_or r.(rs_text) "")
          | Err e => mkReply 502 [] ("gateway unreachable: " +:+ e)
          end
  end.
End Demo.

(** ** The spend controls as a step relation

    Any number of visitors, in any order: a step is one of the stages above,
    or anything else on the network. *)

Inductive Event :=
| Counted (ip : IpAddr) (hour : Z) (admitted : bool)
| Paid (settled : bool)
| Elsewhere.

#[export] Instance Event_eq_dec : EqDecision Event.
Proof. solve_decision. Defined.

Definition occurs (e : Event) (tr : list Event) : Z := Z.of_nat (length (List.filter (λ x, bool_decide (x = e)) tr)).
Definition hours (tr : list Event) : list Z :=
  omap (λ e, match e with Counted _ h _ => Some h | _ => None end) tr.

Section Steps.
Context `{!Codecs, !Json} {sdk : ClientSdk} {N : Type} `{!ClientEnv N}.
Context (env : string → option string) (read_file : string → result string string).
Context (args : Args).

Definition moved (o : option (result (wire.PaymentRequired * string * Attempt * Z) ApiError)) : bool :=
  match o with Some (Ok (_, _, paid, _)) => settled_by paid | _ => false end.

Inductive step : Demo N → Event → Demo N → Prop :=
| step_admit ip now d r d' :
    admit_peer args ip now d = (r, d') → step d (Counted ip (now / 3600) (is_ok r)) d'
| step_pay t hs first d o d' :
    pay_locked env read_file args t hs first d = (o, d') → step d (Paid (moved o)) d'
| step_net {A} (c : M (Net N) A) d : step d Elsewhere (on_demo c d).2.

Inductive run (n : Net N) : list Event → Demo N → Prop :=
| run_start : run n [] (new_demo n)
| run_step tr d e d' : run n tr d → step d e d' → run n (tr ++ [e]) d'.
End Steps.

(** ** Lemmas *)

Lemma occurs_snoc e tr x : occurs e (tr ++ [x]) = occurs e tr + if bool_decide (x = e) then 1 else 0.
Proof.
  unfold occurs. rewrite List.filter_app, length_app. cbn.
  destruct (bool_decide (x = e)); cbn; lia.
Qed.

Lemma occurs_nonneg e tr : 0 ≤ occurs e tr.
Proof. unfold occurs. lia. Qed.

Lemma hours_snoc tr e : hours (tr ++ [e]) = hours tr ++ hours [e].
Proof. unfold hours. by rewrite omap_app. Qed.

Lemma occurs_hours ip h b tr : 0 < occurs (Counted ip h b) tr → h ∈ hours tr.
Proof.
  induction tr as [|x tr IH] using rev_ind; [done|].
  rewrite occurs_snoc, hours_snoc, elem_of_app. case_bool_decide; [|rewrite Z.add_0_r; by left; apply IH].
  intros _. right. subst x. by apply list_elem_of_singleton.
Qed.

Section StepLemmas.
#[local] Set Default Proof Using "Type*".
Context `{!Codecs, !Json} {sdk : ClientSdk} {N : Type} `{!ClientEnv N}.
Context (env : string → option string) (read_file : string → result string string).
Context (args : Args).

Lemma on_demo_bind {A B} (c : M (Net N) A) (k : A → M (Demo N) B) d :
  bind (on_demo c) k d = k (c (d_net d)).1 (mkDemo (c (d_net d)).2 (spent d) (per_ip d)).
Proof. unfold bind, on_demo. by destruct (c (d_net d)). Qed.

(** What the locked stage does to the state. *)
Lemma pay_locked_state t hs first (d d' : Demo N) o :
  pay_locked env read_file args t hs first d = (o, d') →
  per_ip d' = per_ip d ∧ spent d' = (if moved o then u64_add (spent d) 1 else spent d) ∧
  (moved o = true → spent d < args.(max_plays)).
Proof.
  unfold pay_locked. destruct (Z.leb_spec (max_plays args) (spent d)); [by intros [= <- <-]|].
  destruct (first_offer first) as [[c terms]|]; [|by intros [= <- <-]].
  destruct (load_key env read_file) as [key|]; cbn [api_error map_err]; [|by intros [= <- <-]].
  rewrite on_demo_bind.
  destruct (build_payment_header _ _ _ _ _ _) as [[[header|]|] n1];
    cbn [fst snd fmap option_fmap option_map api_error map_err]; [|by intros [= <- <-]..].
  rewrite on_demo_bind. destruct (PayClient.send _ _ _ _ _ _) as [[paid|] n2];
    cbn [fst snd map_err]; intros [= <- <-]; cbn; [|done].
  by destruct (settled_by paid).
Qed.

(** What an address has used of its allowance in the hour of [now]. *)
Definition used_this_hour (ip : IpAddr) (now : Z) (d : Demo N) : Z :=
  match per_ip d !! ip with Some (h, c) => if h =? now / 3600 then c else 0 | None => 0 end.

(** The counter of one address. *)
Lemma admit_state ip now (d d' : Demo N) r :
  admit_peer args ip now d = (r, d') →
  spent d' = spent d ∧ (∀ ip', ip' ≠ ip → per_ip d' !! ip' = per_ip d !! ip') ∧
  ∃ c, per_ip d' !! ip = Some (now / 3600, if is_ok r then u64_add c 1 else c) ∧
       c = match per_ip d !! ip with Some (h, c) => if h =? now / 3600 then c else 0 | None => 0 end ∧
       (is_ok r = true ↔ c < args.(plays_per_ip_hourly)).
Proof.
  unfold admit_peer. set (h := now / 3600).
  set (c := match per_ip d !! ip with Some (h0, c) => if h0 =? h then c else 0 | None => 0 end).
  assert ((if negb ((unwrap_or (per_ip d !! ip) (h, 0)).1 =? h) then (h, 0)
           else unwrap_or (per_ip d !! ip) (h, 0)) = (h, c)) as ->.
  { subst c. destruct (per_ip d !! ip) as [[h0 c0]|]; cbn; [|by rewrite Z.eqb_refl].
    destruct (Z.eqb_spec h0 h) as [->|]; done. }
  cbn [fst snd]. destruct (Z.leb_spec (plays_per_ip_hourly args) c); intros [= <- <-]; cbn;
    (split; [done|]; split; [intros ip' Hne; by rewrite lookup_insert_ne|]);
    exists c; rewrite lookup_insert; case_decide; try done; split_and!; try done; split; (done || lia).
Qed.

(** What the locked stage sends: nothing, or one payment for the first offer. *)
Definition offer_paid (t : Target) (hs : list (string * string)) (first : Attempt)
    (header : string) (n : Net N) : Prop :=
  ∃ challenge terms key n',
    first_offer first = Ok (challenge, terms) ∧ load_key env read_file = Ok key ∧
    build_payment_header args.(rpc) key (wire.url (wire.resource challenge)) terms DEFAULT_PAYMENT_PATHS n
      = (Some (Ok header), n').
Definition target_request (t : Target) (hs : list (string * string)) (payment : option string) : WebRequest :=
  PayClient.request_of t.(t_method) (target_url args t) hs (grpc_web_body t) payment.
Definition sent (d : Demo N) : list WebRequest := requests (d_net d).

Lemma probe_log t hs (d d' : Demo N) r :
  probe args t hs d = (r, d') →
  spent d' = spent d ∧ per_ip d' = per_ip d ∧
  ((sent d' = sent d ∧ is_ok r = false) ∨ sent d' = sent d ++ [target_request t hs None]).
Proof.
  unfold probe. rewrite on_demo_bind. unfold ret.
  destruct (PayClient.send _ _ _ _ _ _) as [r' n1] eqn:Es. cbn [fst snd]. intros [= <- <-].
  split; [done|]. split; [done|]. destruct (send_log _ _ _ _ _ _ _ _ Es) as [[Hl Hok]|Hl]; [left|by right].
  split; [done|]. by destruct r'.
Qed.

Lemma admit_net ip now (d d' : Demo N) r : admit_peer args ip now d = (r, d') → d_net d' = d_net d.
Proof. unfold admit_peer. destruct (plays_per_ip_hourly args <=? _); by intros [= _ <-]. Qed.

Lemma pay_locked_log t hs first (d d' : Demo N) o :
  pay_locked env read_file args t hs first d = (o, d') →
  (sent d' = sent d ∧ moved o = false) ∨
  ∃ header, sent d' = sent d ++ [target_request t hs (Some header)] ∧
    offer_paid t hs first header (d_net d) ∧ spent d < args.(max_plays).
Proof.
  unfold pay_locked. destruct (Z.leb_spec (max_plays args) (spent d)); [intros [= <- <-]; by left|].
  destruct (first_offer first) as [[c terms]|] eqn:Eo; [|intros [= <- <-]; by left].
  destruct (load_key env read_file) as [key|] eqn:Ek; cbn [api_error map_err]; [|intros [= <- <-]; by left].
  rewrite on_demo_bind.
  pose proof (build_payment_header_silent (rpc args) key (wire.url (wire.resource c)) terms
    DEFAULT_PAYMENT_PATHS (d_net d)) as Hq. unfold silent in Hq.
  destruct (build_payment_header _ _ _ _ _ _) as [[[header|]|] n1] eqn:Eb;
    cbn [fst snd fmap option_fmap option_map api_error map_err] in *;
    [|intros [= <- <-]; left; split; [exact Hq|done]..].
  rewrite on_demo_bind. cbn [d_net].
  destruct (PayClient.send _ _ _ _ _ n1) as [r n2] eqn:Es. intros Hr.
  assert (sent d' = requests n2) as Hd' by (destruct r; by injection Hr as _ <-).
  unfold sent in *. rewrite Hd'.
  destruct (send_log _ _ _ _ _ _ _ _ Es) as [[Hl Hok]|Hl].
  - left. rewrite Hl, Hq. split; [done|]. destruct r; [done|]. by injection Hr as <- _.
  - right. exists header. rewrite Hl, Hq. split; [done|]. split; [|done].
    exists c, terms, key, n1. done.
Qed.

(** The invariant of the counters over a trace whose hours do not go back. *)
Definition counted (ip : IpAddr) (h : Z) (tr : list Event) : Z := occurs (Counted ip h true) tr.
Definition counters_ok (tr : list Event) (d : Demo N) : Prop :=
  (∀ ip h c, per_ip d !! ip = Some (h, c) →
     c = counted ip h tr ∧ h ∈ hours tr ∧ ∀ h', h < h' → counted ip h' tr = 0) ∧
  (∀ ip, per_ip d !! ip = None → ∀ h, counted ip h tr = 0) ∧
  (∀ ip h, counted ip h tr ≤ args.(plays_per_ip_hourly)).

Lemma counters_unchanged tr d e d' :
  per_ip d' = per_ip d → (∀ ip h b, e ≠ Counted ip h b) →
  counters_ok tr d → counters_ok (tr ++ [e]) d'.
Proof.
  intros Hip Hne (Hin & Hnone & Hle). unfold counters_ok, counted. rewrite Hip.
  assert (∀ ip h, occurs (Counted ip h true) (tr ++ [e]) = occurs (Counted ip h true) tr) as Ho.
  { intros ip h. rewrite occurs_snoc, bool_decide_eq_false_2 by done. lia. }
  split_and!.
  - intros ip h c Hl. destruct (Hin ip h c Hl) as (-> & Hh & Hz). rewrite Ho. split_and!; [done| |].
    + rewrite hours_snoc, elem_of_app. by left.
    + intros h' ?. rewrite Ho. by apply Hz.
  - intros ip Hl h. rewrite Ho. by apply Hnone.
  - intros ip h. rewrite Ho. apply Hle.
Qed.

Lemma counted_snoc ip h ip0 h0 b tr :
  counted ip h (tr ++ [Counted ip0 h0 b]) =
  counted ip h tr + if bool_decide (ip = ip0 ∧ h = h0 ∧ b = true) then 1 else 0.
Proof.
  unfold counted. rewrite occurs_snoc. f_equal. erewrite bool_decide_ext; [reflexivity|]. split.
  - by intros [= <- <- <-].
  - by intros (-> & -> & ->).
Qed.

Lemma counted_elsewhere ip h ip0 h0 b tr :
  ip ≠ ip0 ∨ h ≠ h0 → counted ip h (tr ++ [Counted ip0 h0 b]) = counted ip h tr.
Proof.
  intros Hne. rewrite counted_snoc, bool_decide_eq_false_2; [lia|].
  intros (-> & -> & _). by destruct Hne.
Qed.

(** What an address is found to have used when it is counted in the latest hour. *)
Lemma used_in_hour tr d ip h0 :
  counters_ok tr d → (∀ h, h ∈ hours tr → h ≤ h0) →
  match per_ip d !! ip with Some (h, c) => if h =? h0 then c else 0 | None => 0 end = counted ip h0 tr ∧
  ∀ h, h0 < h → counted ip h tr = 0.
Proof.
  intros (Hin & Hnone & _) Hlast. split.
  - destruct (per_ip d !! ip) as [[h1 c1]|] eqn:El; [|by rewrite Hnone].
    destruct (Hin _ _ _ El) as (-> & Hh & Hz).
    destruct (Z.eqb_spec h1 h0) as [->|Hne]; [done|]. rewrite Hz; [done|]. specialize (Hlast _ Hh). lia.
  - intros h Hlt. pose proof (occurs_nonneg (Counted ip h true) tr).
    destruct (Z.eq_dec (counted ip h tr) 0) as [|Hne]; [done|]. unfold counted in *.
    assert (h ∈ hours tr) as Hh by (apply (occurs_hours ip h true); lia).
    specialize (Hlast _ Hh). lia.
Qed.

Lemma counters_admit tr d ip now r d' :
  0 ≤ args.(plays_per_ip_hourly) ≤ u64_max →
  (∀ h, h ∈ hours tr → h ≤ now / 3600) → counters_ok tr d → admit_peer args ip now d = (r, d') →
  counters_ok (tr ++ [Counted ip (now / 3600) (is_ok r)]) d'.
Proof.
  intros Hlim Hlast Hd Ha. destruct (used_in_hour tr d ip _ Hd Hlast) as [Hcnt Hz].
  destruct Hd as (Hin & Hnone & Hle). apply admit_state in Ha as (_ & Hother & c & Hc & Heq & Hok).
  rewrite Hcnt in Heq. subst c. set (h0 := now / 3600) in *. clearbody h0.
  pose proof (occurs_nonneg (Counted ip h0 true) tr) as Hpos. pose proof (Hle ip h0) as Hle0.
  fold (counted ip h0 tr) in Hpos. split_and!.
  - intros ip' h' c' Hl. rewrite hours_snoc, elem_of_app. destruct (decide (ip' = ip)) as [->|Hne].
    + rewrite Hc in Hl. injection Hl as <- <-. split_and!.
      * rewrite counted_snoc. destruct (is_ok r); [|rewrite bool_decide_eq_false_2 by (by intros (_ & _ & ?)); lia].
        rewrite bool_decide_eq_true_2 by done. apply u64_add_small; lia.
      * right. by apply list_elem_of_singleton.
      * intros h' Hlt. rewrite counted_elsewhere by (right; lia). by apply Hz.
    + rewrite Hother in Hl by done. destruct (Hin _ _ _ Hl) as (-> & Hh & Hz').
      split_and!; [by rewrite counted_elsewhere by (by left)|by left|].
      intros h2 Hlt. rewrite counted_elsewhere by (by left). by apply Hz'.
  - intros ip' Hl h. destruct (decide (ip' = ip)) as [->|Hne]; [congruence|].
    rewrite Hother in Hl by done. rewrite counted_elsewhere by (by left). by apply Hnone.
  - intros ip' h. rewrite counted_snoc. case_bool_decide as Hb; [|specialize (Hle ip' h); lia].
    destruct Hb as (-> & -> & Hr). apply Hok in Hr. lia.
Qed.

Lemma counters_step tr d e d' :
  0 ≤ args.(plays_per_ip_hourly) ≤ u64_max → StronglySorted Z.le (hours (tr ++ [e])) →
  counters_ok tr d → step env read_file args d e d' → counters_ok (tr ++ [e]) d'.
Proof.
  intros Hlim Hsorted Hd Hstep. destruct Hstep as [ip now d r d' Ha|t hs first d o d' Hp|A c d].
  - eapply counters_admit; try done. intros h Hh. rewrite hours_snoc in Hsorted.
    apply (StronglySorted_app_1_elem_of _ _ _ h (now / 3600) Hsorted Hh). by apply list_elem_of_singleton.
  - apply pay_locked_state in Hp as (Hip & _). by eapply counters_unchanged.
  - eapply counters_unchanged; [|done..]. unfold on_demo. by destruct (c (d_net d)).
Qed.

Lemma run_spent n tr d :
  0 ≤ args.(max_plays) ≤ u64_max → run env read_file args n tr d →
  spent d = occurs (Paid true) tr ∧ 0 ≤ spent d ≤ args.(max_plays).
Proof.
  intros Hlim. induction 1 as [|tr d e d' _ [Heq Hb] Hs]; [change (0 = 0 ∧ 0 ≤ 0 ≤ max_plays args); lia|].
  rewrite occurs_snoc. destruct Hs as [ip now d r d' Ha|t hs first d o d' Hp|A c d].
  - apply admit_state in Ha as (-> & _). rewrite bool_decide_eq_false_2 by done. lia.
  - apply pay_locked_state in Hp as (_ & -> & Hlt). destruct (moved o).
    + specialize (Hlt eq_refl). rewrite u64_add_small, bool_decide_eq_true_2 by (done || lia). lia.
    + rewrite bool_decide_eq_false_2 by done. lia.
  - unfold on_demo. destruct (c (d_net d)). rewrite bool_decide_eq_false_2 by done. cbn [snd spent]. lia.
Qed.

Lemma run_counters n tr d :
  0 ≤ args.(plays_per_ip_hourly) ≤ u64_max → run env read_file args n tr d →
  StronglySorted Z.le (hours tr) → counters_ok tr d.
Proof.
  intros Hlim. induction 1 as [|tr d e d' _ IH Hs]; intros Hsorted.
  - split_and!; [done|done|]. intros ip h. change (0 ≤ plays_per_ip_hourly args). lia.
  - eapply counters_step; try done. apply IH. rewrite hours_snoc in Hsorted.
    by apply StronglySorted_app_1_l in Hsorted.
Qed.
End StepLemmas.

(** ** Properties *)

Section Properties.
#[local] Set Default Proof Using "Type*".
Context `{!Codecs, !Json} {sdk : ClientSdk} {N : Type} `{!ClientEnv N}.
Context (env : string → option string) (read_file : string → result string string).
Context (args : Args).

(** C25: The spend controls hold.  However the requests of any number of visitors
    interleave, the payments reported settled are what the budget counts and
    never more than it allows; and as long as the hours requests are counted
    under do not go back, no address is let through to the wallet more often
    than the hourly limit in any hour. *)
Theorem demo_spending_is_bounded (n : Net N) (tr : list Event) (d : Demo N)
    (Hm : 0 ≤ args.(max_plays) ≤ u64_max) (Hh : 0 ≤ args.(plays_per_ip_hourly) ≤ u64_max)
    (Hr : run env read_file args n tr d) :
  spent d = occurs (Paid true) tr ∧ spent d ≤ args.(max_plays) ∧
  (StronglySorted Z.le (hours tr) →
   ∀ ip hour, occurs (Counted ip hour true) tr ≤ args.(plays_per_ip_hourly)).
Proof.
  destruct (run_spent env read_file args n tr d Hm Hr) as [Hs Hle]. split_and!; [done|lia|].
  intros Hsorted. by apply (run_counters env read_file args n tr d Hh Hr Hsorted).
Qed.

(** C29: One visit pays at most once.  A request to [/send] makes one request to
    the gateway without payment, and at most one more: only when the first
    was answered with a 402, the visitor's address had used less than its
    allowance of the hour when the visit came, and the budget was not spent.
    That one carries the header built for the first offer of the challenge,
    right after the first answer, and the allowance used is counted one up.  The
    budget is charged one exactly when the visit reports money moved.  (Other
    visitors' requests between the stages: [demo_spending_is_bounded].) *)
Theorem demo_visit_pays_once_when_challenged (peer : IpAddr) (incoming : list (string * string))
    (request : SendRequest) (now : Z) (sw : Stopwatch) (d d' : Demo N)
    (o : option (result SendResult ApiError))
    (Hs : send env read_file args peer incoming request now sw d = (o, d')) :
  (∃ b : bool, spent d' = (if b then u64_add (spent d) 1 else spent d) ∧
     (b = true ↔ ∃ r, o = Some (Ok r) ∧ r.(r_settled) = true)) ∧
  (sent d' = sent d ∨
   ∃ t hs, target request.(sq_target) = Some t ∧
     hs = send_headers t incoming request.(sq_session) ∧
     (sent d' = sent d ++ [target_request args t hs None] ∨
      ∃ first header,
        sent d' = sent d ++ [target_request args t hs None; target_request args t hs (Some header)] ∧
        (probe args t hs d).1 = Ok first ∧ first.(at_status) = 402 ∧
        used_this_hour peer now d < args.(plays_per_ip_hourly) ∧
        per_ip d' !! peer = Some (now / 3600, u64_add (used_this_hour peer now d) 1) ∧
        spent d < args.(max_plays) ∧
        offer_paid env read_file args t hs first header (d_net (probe args t hs d).2))).
Proof.
  assert (Hquiet : ∀ e : ApiError, spent d' = spent d → o = Some (Err e) →
    ∃ b : bool, spent d' = (if b then u64_add (spent d) 1 else spent d) ∧
     (b = true ↔ ∃ r, o = Some (Ok r) ∧ r.(r_settled) = true)).
  { intros e Hsp ->. exists false. split; [done|]. split; [done|]. by intros (? & ? & _). }
  unfold send in Hs. destruct (target _) as [t|] eqn:Et.
  2: { injection Hs as <- <-. split; [by eapply Hquiet | by left]. }
  set (hs := send_headers t incoming (sq_session request)) in *.
  unfold bind at 1 in Hs. destruct (probe args t hs d) as [first d1] eqn:Ep.
  apply probe_log in Ep as Hp. destruct Hp as (Hsp & Hips & Hlog).
  destruct first as [first|e].
  2: { injection Hs as <- <-. split; [by eapply Hquiet|].
       destruct Hlog as [[? _]|?]; [by left|]. right. exists t, hs. auto. }
  destruct Hlog as [[_ ?]|Hlog]; [done|].
  unfold bind at 1, remaining at 1 in Hs.
  destruct (Z.eqb_spec (at_status first) 402) as [H402|]; cbn [negb] in Hs.
  2: { injection Hs as <- <-. split.
       - exists false. split; [done|]. split; [done|]. by intros (r & [= <-] & ?).
       - right. exists t, hs. auto. }
  unfold bind at 1 in Hs. destruct (admit_peer args peer now d1) as [r d2] eqn:Ea.
  pose proof (admit_state args _ _ _ _ _ Ea) as (Hsp2 & _ & c & Hcount & Hc & Hroom).
  assert (c = used_this_hour peer now d) as -> by (unfold used_this_hour; by rewrite <- Hips).
  pose proof (admit_net args _ _ _ _ _ Ea) as Hnet. assert (sent d2 = sent d1) as Hlog2 by (unfold sent; congruence).
  destruct r as [[]|e].
  2: { injection Hs as <- <-. split; [eapply Hquiet; [congruence|done]|].
       right. exists t, hs. split; [done|]. split; [done|]. left. congruence. }
  unfold bind at 1 in Hs. destruct (pay_locked env read_file args t hs first d2) as [outcome d3] eqn:El.
  assert (d3 = d') as -> by (by injection Hs). cbv [ret] in Hs.
  pose proof (pay_locked_state env read_file args _ _ _ _ _ _ El) as (Hips3 & Hsp3 & _).
  split.
  - exists (moved outcome). split; [by rewrite Hsp3, Hsp2, Hsp|]. injection Hs as <-.
    destruct outcome as [[[[[c header] paid] left]|e]|]; cbn [moved].
    + split; [intros Hm; by eexists | by intros (r & [= <-] & Hr)].
    + split; [done | by intros (r & ? & _)].
    + split; [done | by intros (r & ? & _)].
  - right. exists t, hs. split; [done|]. split; [done|].
    apply pay_locked_log in El as [[Hl _]|(header & Hl & Hp & Hlt)].
    + left. congruence.
    + right. exists first, header. rewrite Ep, Hl, Hlog2, Hlog, <- app_assoc. cbn [fst snd]. rewrite <- Hnet.
      split_and!; try done; [by apply Hroom|by rewrite Hips3|congruence].
Qed.
End Properties.

(** ** What visitors are shown *)

Lemma take_while_le_last (l : list nat) m k :
  last (take_while (λ i, (i <=? m)%nat) l) = Some k → k ∈ l ∧ (k ≤ m)%nat.
Proof.
  induction l as [|x l IH]; cbn [take_while]; [done|].
  destruct (Nat.leb_spec x m) as [Hx|]; [|done]. rewrite last_cons.
  destruct (last (take_while _ l)) as [y|].
  - intros [= <-]. destruct (IH eq_refl). split; [by right|done].
  - intros [= <-]. split; [left|done].
Qed.

Lemma char_starts_ge i s : Forall (λ k, (i ≤ k)%nat) (char_starts i s).
Proof.
  revert i. induction s as [|c s IH]; intros i; cbn [char_starts]; [constructor|].
  assert (Forall (λ k, (i ≤ k)%nat) (char_starts (S i) s)) as Hs.
  { eapply Forall_impl; [apply IH|]. cbn. lia. }
  destruct (is_continuation c); [done|]. by constructor.
Qed.

Lemma char_starts_sorted i s : StronglySorted lt (char_starts i s).
Proof.
  revert i. induction s as [|c s IH]; intros i; cbn [char_starts]; [constructor|].
  destruct (is_continuation c); [done|]. constructor; [done|].
  eapply Forall_impl; [apply char_starts_ge|]. cbn. lia.
Qed.

Lemma take_while_max (l : list nat) m k :
  StronglySorted lt l → k ∈ l → (k ≤ m)%nat →
  ∃ j, last (take_while (λ i, (i <=? m)%nat) l) = Some j ∧ (k ≤ j)%nat.
Proof.
  induction 1 as [|x l _ IH Hx]; intros Hk Hm; [by apply not_elem_of_nil in Hk|].
  rewrite Forall_forall in Hx. cbn [take_while].
  apply elem_of_cons in Hk as [->|Hk].
  - rewrite (proj2 (Nat.leb_le x m)) by done. rewrite last_cons.
    destruct (last (take_while _ l)) as [j|] eqn:El; [|by exists x].
    exists j. split; [done|]. apply take_while_le_last in El as [Hj _]. specialize (Hx j Hj). lia.
  - specialize (Hx k Hk). rewrite (proj2 (Nat.leb_le x m)) by lia. rewrite last_cons.
    destruct (IH Hk Hm) as (j & -> & ?). by exists j.
Qed.

(** A byte that begins a character is one of the offsets, and no other is. *)
Lemma char_starts_elem s i k :
  (i + k)%nat ∈ char_starts i s ↔ ∃ c, schars s !! k = Some c ∧ is_continuation c = false.
Proof.
  revert i k. induction s as [|c s IH]; intros i k; cbn [char_starts schars].
  { split; [by intros ?%not_elem_of_nil | by intros (? & ? & _)]. }
  assert (∀ k, (i + S k)%nat ∈ char_starts (S i) s ↔
               ∃ c, schars s !! k = Some c ∧ is_continuation c = false) as IH'.
  { intros k'. rewrite <- IH. by replace (i + S k')%nat with (S i + k')%nat by lia. }
  assert (∀ j, (i + 0)%nat ∈ char_starts (S i) s → j) as Hno.
  { intros j Hin. pose proof (char_starts_ge (S i) s) as Hge. rewrite Forall_forall in Hge.
    specialize (Hge _ Hin). cbn in Hge. lia. }
  destruct k as [|k].
  - cbn [lookup list_lookup]. destruct (is_continuation c) eqn:Ec.
    + split; [apply Hno|]. intros (? & [= <-] & ?). congruence.
    + split; [by eauto|]. intros _. rewrite Nat.add_0_r. left.
  - change ((c :: schars s) !! S k) with (schars s !! k). rewrite <- IH'.
    destruct (is_continuation c); [done|]. rewrite elem_of_cons. split; [|by right].
    intros [?|?]; [lia|done].
Qed.

Lemma sprefix_length n s : (slen (sprefix n s) ≤ n)%nat.
Proof.
  assert (∀ l, slen (of_chars l) = length l) as Hl by (induction l; cbn in *; auto).
  unfold sprefix. rewrite Hl, length_take. lia.
Qed.

(** Previews are short and cut between characters.  Unless the body holds
    control characters, and is then described instead, its preview is the
    body itself up to 600 bytes, and of a longer one the longest prefix of at
    most 600 bytes that ends where a character does, with an ellipsis.  The
    slice never splits a character, which would panic. *)
Theorem preview_cuts_between_characters (body : string) (Hc : has_control body = false) :
  if (slen body <=? MAX_BODY)%nat then trim_body body = body
  else ∃ cut, trim_body body = sprefix cut body +:+ ELLIPSIS ∧ (cut ≤ MAX_BODY)%nat ∧
    (cut = 0%nat ∨ ∃ c, schars body !! cut = Some c ∧ is_continuation c = false) ∧
    (∀ k c, (cut < k ≤ MAX_BODY)%nat → schars body !! k = Some c → is_continuation c = true) ∧
    (slen (trim_body body) ≤ MAX_BODY + 3)%nat.
Proof.
  unfold trim_body. rewrite Hc. destruct (slen body <=? MAX_BODY)%nat; [done|].
  exists (cut_of body). split; [done|]. rewrite slen_app.
  pose proof (sprefix_length (cut_of body) body) as Hlen.
  assert (slen ELLIPSIS = 3%nat) as -> by reflexivity.
  assert (cut_of body ≤ MAX_BODY)%nat as Hcut.
  { unfold cut_of. destruct (last _) as [j|] eqn:El; cbn [unwrap_or]; [|lia].
    by apply take_while_le_last in El as [_ ?]. }
  split_and!; [done| | |lia].
  - unfold cut_of. destruct (last _) as [j|] eqn:El; cbn [unwrap_or]; [right|by left].
    apply take_while_le_last in El as [Hj _]. by apply (char_starts_elem body 0 j).
  - intros k c Hk Hl. destruct (is_continuation c) eqn:Ec; [done|exfalso].
    assert (k ∈ char_starts 0 body) as Hin by (apply (char_starts_elem body 0 k); by eauto).
    destruct (take_while_max _ MAX_BODY k (char_starts_sorted 0 body) Hin ltac:(lia)) as (j & Hj & Hkj).
    assert (cut_of body = j) by (unfold cut_of; by rewrite Hj). lia.
Qed.

(** ** The receiving wallets *)

Lemma credit_also_addresses name address l l' :
  credit_also name address l = Some l' → py_address <$> l' = py_address <$> l.
Proof.
  revert l'. induction l as [|p l IH]; intros l'; cbn [credit_also]; [done|].
  destruct (String.eqb (py_address p) address); [by intros [= <-]|].
  destruct (credit_also name address l) as [l1|]; [|done]. intros [= <-]. cbn. by rewrite (IH l1).
Qed.

Lemma credit_also_none name address l :
  credit_also name address l = None ↔ address ∉ py_address <$> l.
Proof.
  induction l as [|p l IH]; cbn [credit_also].
  { split; [intros _; apply not_elem_of_nil | done]. }
  rewrite fmap_cons, not_elem_of_cons.
  destruct (String.eqb_spec (py_address p) address) as [<-|Hne]; [split; [done | by intros []]|].
  rewrite <- IH. destruct (credit_also name address l); cbn; naive_solver.
Qed.

Section Pages.
#[local] Set Default Proof Using "Type*".
Context `{!Codecs, !Json} {sdk : ClientSdk} {N : Type} `{!ClientEnv N}.
Context (args : Args).

(** The balances page lists every wallet once.  Its payees have distinct
    addresses, and they are exactly the addresses of the policies that the
    demo sells. *)
Theorem payees_are_the_wallets_for_sale (rows : list PolicyRow) (n n' : Net N) (l : list Payee)
    (Hl : list_payees args rows [] n = (l, n')) :
  NoDup (py_address <$> l) ∧
  ∀ a, a ∈ py_address <$> l ↔ ∃ row, row ∈ rows ∧ for_sale row.(pw_name) = true ∧ row.(pw_pay_to) = a.
Proof.
  assert (∀ acc n, NoDup (py_address <$> acc) →
    let out := py_address <$> (list_payees args rows acc n).1 in
    NoDup out ∧ ∀ a, a ∈ out ↔ a ∈ py_address <$> acc ∨
      ∃ row, row ∈ rows ∧ for_sale row.(pw_name) = true ∧ row.(pw_pay_to) = a) as Hgen.
  2: { destruct (Hgen [] n (NoDup_nil_2)) as [Hd Hin]. rewrite Hl in Hd, Hin. split; [done|].
       intros a. rewrite Hin. split; [by intros [?%not_elem_of_nil|?] | by right]. }
  clear l n n' Hl. induction rows as [|row rows IH]; intros acc n Hacc; cbv zeta.
  { split; [done|]. intros a. split; [by left|]. intros [?|(? & ?%not_elem_of_nil & _)]; done. }
  cbn [list_payees]. destruct (for_sale (pw_name row)) eqn:Ef; cbn [negb].
  2: { destruct (IH acc n Hacc) as [Hd Hin]. split; [done|]. intros a. rewrite Hin.
       setoid_rewrite elem_of_cons. naive_solver congruence. }
  destruct (credit_also _ _ acc) as [acc'|] eqn:Ec.
  - pose proof (credit_also_addresses _ _ _ _ Ec) as Ha.
    assert (pw_pay_to row ∈ py_address <$> acc) as Hrow.
    { destruct (decide (pw_pay_to row ∈ py_address <$> acc)) as [|Hn]; [done|].
      apply (credit_also_none (pw_name row)) in Hn. congruence. }
    destruct (IH acc' n) as [Hd Hin]; [by rewrite Ha|]. split; [done|]. intros a.
    rewrite Hin, Ha. setoid_rewrite elem_of_cons. naive_solver.
  - apply credit_also_none in Ec. unfold bind.
    match goal with |- context [let '(_, _) := ?c in _] => destruct c as [b n1] end.
    edestruct (IH (acc ++ [mkPayee (pw_name row) (pw_pay_to row) b]) n1) as [Hd Hin].
    { rewrite fmap_app. apply NoDup_app. split_and!; [done| |apply NoDup_singleton].
      intros a Ha Hs. apply list_elem_of_singleton in Hs. cbn in Hs. congruence. }
    split; [exact Hd|]. intros a. rewrite Hin, fmap_app, elem_of_app.
    cbn [fmap list_fmap]. rewrite list_elem_of_singleton. setoid_rewrite elem_of_cons. naive_solver.
Qed.

(** The rest of the site is the gateway.  What is forwarded has the method,
    the path and query and the body of the original, and every header but
    [host] as it was, so the payment and session headers reach the gateway
    unchanged; nothing is sent when the body is too large. *)
Theorem proxied_headers_survive (method : string) (path : option string)
    (incoming : list (string * string)) (body : option string) (n n' : Net N) (r : Reply)
    (Hp : gateway_proxy args method path incoming body n = (r, n')) :
  match body with
  | None => requests n' = requests n ∧ r.(rp_status) = 400
  | Some b => ∃ q, requests n' = requests n ++ [q] ∧ q.(w_method) = method ∧ q.(w_body) = Some b ∧
      q.(w_url) = trim_end_matches "/" args.(gateway) +:+ unwrap_or path "/" ∧
      ∀ h, eq_ignore_ascii_case h "host" = false → header_str q.(w_headers) h = header_str incoming h
  end.
Proof.
  unfold gateway_proxy in Hp. destruct body as [b|]; [|by injection Hp as <- <-].
  unfold bind, web_send in Hp. destruct (http_send _ _) as [rs n1]. injection Hp as _ <-.
  eexists. split; [done|]. split_and!; try done. intros h Hh. cbn [w_headers].
  unfold header_str. f_equal. clear -Hh. induction incoming as [|[k v] l IH]; [done|].
  cbn [List.filter List.find fst]. destruct (String.eqb_spec k h) as [->|Hne].
  - rewrite Hh. cbn [negb List.find fst]. by rewrite String.eqb_refl.
  - destruct (negb (eq_ignore_ascii_case k "host")); cbn [List.find fst]; [|done].
    rewrite (proj2 (String.eqb_neq k h)) by done. done.
Qed.

(** The wheel lands on 1 to 100. *)
Lemma roll_in_range seed : 1 ≤ roll_of seed ≤ 100.
Proof.
  unfold roll_of. pose proof (Z.mod_pos_bound (u64_from_be_bytes (take 8 (sha256 (as_bytes seed)))) 100).
  lia.
Qed.
End Pages.

(** Targets are told apart by id and by route. *)
Lemma targets_distinct : NoDup (t_id <$> TARGETS) ∧ NoDup (t_path <$> TARGETS).
Proof. split; by apply (bool_decide_unpack _). Qed.

Lemma target_by_id t : t ∈ TARGETS → target t.(t_id) = Some t.
Proof.
  intros Ht. unfold TARGETS in Ht. repeat (apply elem_of_cons in Ht as [->|Ht]; [reflexivity|]).
  by apply not_elem_of_nil in Ht.
Qed.

(** ** A visit *)

Module Visit.
Definition serve (r : WebRequest) : WebResponse :=
  let paid := existsb (λ h, String.eqb h.1 "payment-signature") r.(w_headers) in
  mkWebResponse (if paid then 200 else 402)
    (if paid then [("payment-response", encode_header (json_of_settlement demo_receipt));
                   ("server-timing", "x402-decide;dur=41.2, x402-settle;dur=803.0")]
     else [("payment-required", encode_header (json_of_required Pay.demo_challenge))])
    (Some "body") (S754_zero false).
Definition net : Net DemoWallet.Pocket :=
  mkNet (DemoWallet.mkPocket (mkBalance (Some 20000) (Some 20000) None) (λ _, []) 0 serve) [].
Definition args : Args :=
  {| rpc := "node"; max_plays := 500; plays_per_ip_hourly := 1; static_dir := "demo"; prize_video := None;
     gateway := "http://127.0.0.1:10000/"; metrics := "http://127.0.0.1:9090";
     facilitator_api := "http://127.0.0.1:50052"; asset := DemoWallet.usdc |}.
Definition ip : IpAddr := V4 203 0 113 9.
Definition no_file (_ : string) : result string string := Err "no file".
Definition stopwatch : Stopwatch := mkStopwatch f64_zero f64_zero f64_zero.
Definition visit (d : Demo DemoWallet.Pocket) (now : Z) :
  option (result SendResult ApiError) * Demo DemoWallet.Pocket :=
  send (sdk := DemoWallet.client_sdk) Pay.demo_env no_file args ip [] (mkSendRequest "graphql" None)
    now stopwatch d.
Definition graphql : Target := unwrap_or (target "graphql") (mkTarget "" "" "" "" "" "" "" "" false).
Definition first : Attempt := attempt_of (serve (mkWebRequest "POST" "u" [] None)).
Definition start : Demo DemoWallet.Pocket := new_demo net.
Definition admitted : Demo DemoWallet.Pocket := (admit_peer args ip 7200 start).2.
Definition paid : Demo DemoWallet.Pocket :=
  (pay_locked (sdk := DemoWallet.client_sdk) Pay.demo_env no_file args graphql [] first admitted).2.
Definition trace : list Event :=
  [Counted ip (7200 / 3600) (is_ok (admit_peer args ip 7200 start).1);
   Paid (moved (pay_locked (sdk := DemoWallet.client_sdk) Pay.demo_env no_file args graphql [] first admitted).1)].

Lemma is_run : run (sdk := DemoWallet.client_sdk) Pay.demo_env no_file args net trace paid.
Proof.
  eapply (run_step _ _ _ _ [_]).
  - eapply (run_step _ _ _ _ []); [apply run_start|]. eapply step_admit, surjective_pairing.
  - eapply step_pay, surjective_pairing.
Qed.
End Visit.

Lemma demo_spending_is_bounded_witness :
  spent Visit.paid = 1 ∧ spent Visit.paid ≤ 500 ∧
  ∀ ip hour, occurs (Counted ip hour true) Visit.trace ≤ 1.
Proof.
  destruct (demo_spending_is_bounded (sdk := DemoWallet.client_sdk) Pay.demo_env Visit.no_file Visit.args
    Visit.net Visit.trace Visit.paid ltac:(cbn; unfold u64_max; lia) ltac:(cbn; unfold u64_max; lia)
    Visit.is_run) as (Hs & Hle & Hh).
  split_and!; [|exact Hle|apply Hh; repeat constructor].
  rewrite Hs. vm_compute. reflexivity.
Defined.

(** The hourly counter forgets when a request counted under an earlier hour
    comes late: three requests are let through where one an hour is allowed,
    two of them under the same hour. *)
Example late_request_resets_the_hour :
  let a1 := admit_peer Visit.args Visit.ip 7200 Visit.start in
  let a2 := admit_peer Visit.args Visit.ip 7199 a1.2 in
  let a3 := admit_peer Visit.args Visit.ip 7201 a2.2 in
  (is_ok a1.1, is_ok a2.1, is_ok a3.1) = (true, true, true).
Proof. vm_compute. reflexivity. Qed.

Lemma demo_visit_pays_once_when_challenged_witness :
  let v := Visit.visit Visit.start 7200 in
  is_ok <$> v.1 = Some true ∧ ∃ b : bool, spent v.2 = (if b then u64_add 0 1 else 0) ∧
    (b = true ↔ ∃ r, v.1 = Some (Ok r) ∧ r.(r_settled) = true).
Proof.
  cbv zeta. split; [vm_compute; reflexivity|].
  destruct (demo_visit_pays_once_when_challenged (sdk := DemoWallet.client_sdk) Pay.demo_env Visit.no_file
    Visit.args Visit.ip [] (mkSendRequest "graphql" None) 7200 Visit.stopwatch Visit.start _ _
    (surjective_pairing _)) as [Hb _]. exact Hb.
Defined.

Lemma preview_cuts_between_characters_witness :
  let body := of_chars (repeat "a"%char 599) +:+ "é" +:+ "b" in
  has_control body = false ∧ (slen body <=? MAX_BODY)%nat = false ∧
  ∃ cut, trim_body body = sprefix cut body +:+ ELLIPSIS ∧ (cut ≤ MAX_BODY)%nat.
Proof.
  cbv zeta. split; [vm_compute; reflexivity|]. split; [vm_compute; reflexivity|].
  pose proof (preview_cuts_between_characters (of_chars (repeat "a"%char 599) +:+ "é" +:+ "b")
    ltac:(vm_compute; reflexivity)) as Hp.
  replace (slen (of_chars (repeat "a"%char 599) +:+ "é" +:+ "b") <=? MAX_BODY)%nat with false in Hp
    by (vm_compute; reflexivity).
  destruct Hp as (cut & ? & ? & _). by exists cut.
Defined.

Lemma payees_are_the_wallets_for_sale_witness :
  let rows := [mkPolicyRow "free" "0xf"; mkPolicyRow "graphql" "0xa"; mkPolicyRow "spin" "0xa"] in
  let l := (list_payees (sdk := DemoWallet.client_sdk) Visit.args rows [] Visit.net).1 in
  (λ p, (p.(py_target), p.(py_address))) <$> l = [("graphql + spin", "0xa")] ∧ NoDup (py_address <$> l).
Proof.
  cbv zeta. split; [vm_compute; reflexivity|].
  apply (payees_are_the_wallets_for_sale (sdk := DemoWallet.client_sdk) Visit.args
    [mkPolicyRow "free" "0xf"; mkPolicyRow "graphql" "0xa"; mkPolicyRow "spin" "0xa"] Visit.net _ _
    (surjective_pairing _)).
Defined.

Lemma proxied_headers_survive_witness :
  ∃ q, requests (gateway_proxy Visit.args "POST" (Some "/x")
         [("host", "demo"); ("payment-signature", "c0ffee")] (Some "") Visit.net).2 = [q] ∧
       header_str q.(w_headers) "payment-signature" = Some "c0ffee".
Proof.
  destruct (proxied_headers_survive Visit.args "POST" (Some "/x")
    [("host", "demo"); ("payment-signature", "c0ffee")] (Some "") Visit.net _ _ (surjective_pairing _))
    as (q & Hq & _ & _ & _ & Hh).
  exists q. split; [exact Hq|]. by rewrite Hh.
Defined.
