(* ===== verification/EndToEnd.v ===== *)
(** * The client and the gateway together

    What one side writes is what the other side reads: challenges, receipts,
    meters and timings towards the client, payments towards the gateway.  The
    client's wire types are its own mirrors ([mod wire] of
    [src/payclient.rs]), so nothing but these theorems keeps the two sides in
    step. *)

From Stdlib Require Import Ascii SpecFloat.
From S2P Require Import Prelude RustStr FloatText Platform IpAddr Config Json X402 Sui Facilitator.
From S2P Require Redis Stores World Auth ExtProc Pay.
From S2P Require Import PayClient.
From stdpp Require Import options.
#[local] Open Scope Z_scope.

(** ** What the client makes of the gateway's messages *)

Definition terms_of (r : X402.PaymentRequirements) : wire.PaymentRequirements :=
  wire.mkRequirements r.(pr_scheme) r.(pr_network) r.(pr_amount) r.(pr_asset) r.(pr_pay_to)
    r.(pr_max_timeout_seconds) r.(pr_extra).
Definition challenge_of (c : X402.PaymentRequired) : wire.PaymentRequired :=
  wire.mkRequired (wire.mkResourceInfo c.(rq_resource).(ri_url)) (terms_of <$> c.(rq_accepts)).
Definition receipt_of (s : X402.SettlementResponse) : wire.SettlementResponse :=
  wire.mkSettlement s.(sr_success) s.(sr_error_reason) s.(sr_transaction) s.(sr_network).

(** The terms a client accepts, as the gateway reads them back. *)
Definition accepted_of (t : wire.PaymentRequirements) : X402.PaymentRequirements :=
  mkRequirements (wire.scheme t) (wire.network t) (wire.amount t) (wire.asset t) (wire.pay_to t)
    (wire.max_timeout_seconds t) None.

Ltac wire_members :=
  cbn -[u64_value of_u64 of_u32 json_of_resource json_of_requirements requirements_of_json
        wire.requirements_of_json wire.resource_of_json of_list opt of_value resource_of_json]; unfold req;
  cbn -[u64_value of_u64 of_u32 json_of_resource json_of_requirements requirements_of_json
        wire.requirements_of_json wire.resource_of_json of_list opt of_value resource_of_json].

Lemma wire_requirements_read r :
  wire_requirements r → wire.requirements_of_json (json_of_requirements r) = Some (terms_of r).
Proof.
  destruct r as [s n a c p m x]. intros [Hm Hx]. cbn [pr_max_timeout_seconds pr_extra] in *.
  unfold wire.requirements_of_json, json_of_requirements.
  destruct x as [x|]; wire_members; rewrite of_u64_print by done; wire_members.
  - by rewrite (opt_value _ _ (Some x)).
  - by rewrite (opt_value _ _ None).
Qed.

Lemma wire_resource_read r : wire.resource_of_json (json_of_resource r) = Some (wire.mkResourceInfo r.(ri_url)).
Proof. destruct r as [url [d|] [m|] [s|] [t|] [i|]]; reflexivity. Qed.

Lemma wire_accepts_read l :
  Forall wire_requirements l →
  of_list wire.requirements_of_json (Array (json_of_requirements <$> l)) = Some (terms_of <$> l).
Proof.
  induction 1 as [|r l Hr _ IH]; [done|].
  cbn -[json_of_requirements wire.requirements_of_json] in *.
  by rewrite wire_requirements_read, IH.
Qed.

Lemma wire_required_read c :
  wire_required c → wire.required_of_json (json_of_required c) = Some (challenge_of c).
Proof.
  destruct c as [v e r a x]. intros [Hv Ha Hx]. cbn [rq_accepts] in *.
  unfold wire.required_of_json, json_of_required.
  destruct e as [e|], x as [x|]; wire_members; rewrite wire_resource_read; wire_members;
    by rewrite wire_accepts_read.
Qed.

Lemma wire_settlement_read s : wire.settlement_of_json (json_of_settlement s) = Some (receipt_of s).
Proof. destruct s as [b [e|] [p|] t n [a|] [x|]]; reflexivity. Qed.

(** ** Timings and meters *)

Lemma trim_spaced s : first_byte_solid s = true → s ≠ "" → first_byte_solid (srev s) = true →
  trim (" " +:+ s) = s.
Proof.
  intros H1' H2' H3'. unfold trim, trim_end.
  change (trim_start (" " +:+ s)) with (trim_start s).
  rewrite trim_start_solid by done. rewrite trim_start_rev_solid by done. apply srev_involutive.
Qed.

Lemma split_on_comma_join l :
  l ≠ [] → Forall (λ x, has_char "," x = false) l →
  split_on "," (join ", " l) = match l with [] => [] | x :: l => x :: (String.append " " <$> l) end.
Proof.
  intros Hne Hl. induction Hl as [|x l Hx Hl IH]; [done|].
  destruct l as [|y l]; [by apply split_on_none|].
  change (join ", " (x :: y :: l)) with (x +:+ String "," (" " +:+ join ", " (y :: l))).
  rewrite split_on_app by done. rewrite fmap_cons. f_equal.
  change (split_on "," (" " +:+ join ", " (y :: l))) with (cons_head " " (split_on "," (join ", " (y :: l)))).
  by rewrite IH.
Qed.

Lemma digits_solid s : sall is_ascii_digit s = true → s ≠ "" → sall is_ascii_hexdigit s = true.
Proof.
  intros Hs _. induction s as [|c s IH]; [done|]. cbn [sall] in *.
  apply andb_true_iff in Hs as [Hc Hs]. rewrite IH by done. rewrite andb_true_r.
  unfold is_ascii_digit in Hc. unfold is_ascii_hexdigit. by rewrite Hc.
Qed.

Lemma u_to_string_hexdigits z : sall is_ascii_hexdigit (u_to_string z) = true.
Proof.
  apply digits_solid; [apply u_to_string_all_digits|].
  apply is_empty_false, u_to_string_nonempty.
Qed.

Lemma trim_u_to_string z : trim (u_to_string z) = u_to_string z.
Proof.
  pose proof (u_to_string_hexdigits z) as Hd.
  apply trim_solid; apply hex_first_solid; [done|]. by rewrite sall_srev.
Qed.

Lemma to_str_digits z : to_str (u_to_string z) = Some (u_to_string z).
Proof. unfold to_str. by rewrite sall_hexdigit_visible by apply u_to_string_hexdigits. Qed.

(** A name that survives being a [Server-Timing] metric. *)
Definition phase_ok (p : string * Z) : Prop :=
  has_char "," p.1 = false ∧ has_char ";" p.1 = false ∧ p.1 ≠ "" ∧
  first_byte_solid p.1 = true ∧ first_byte_solid (srev p.1) = true ∧ 0 ≤ p.2.

Definition phase_text (p : string * Z) : string := p.1 +:+ ";dur=" +:+ tenths_text p.2.
Definition phase_read (p : string * Z) : string * f64 := (p.1, f64_of_decimal false p.2 (-1)).

Lemma tenths_no c t : is_ascii_hexdigit c = false → c ≠ "."%char → has_char c (tenths_text t) = false.
Proof.
  intros Hc Hne. unfold tenths_text. rewrite !has_char_app, !u_to_string_no by done.
  cbn [has_char]. by rewrite bool_decide_eq_false_2.
Qed.

Lemma dur_trim t : trim ("dur=" +:+ tenths_text t) = "dur=" +:+ tenths_text t.
Proof.
  apply trim_solid; [done|]. unfold tenths_text.
  rewrite <- !append_assoc, srev_app. apply first_byte_solid_app.
  - intros He. apply (f_equal srev) in He. rewrite srev_involutive in He.
    pose proof (u_to_string_nonempty (t mod 10)) as Hn. by rewrite He in Hn.
  - apply hex_first_solid. rewrite sall_srev. apply u_to_string_hexdigits.
Qed.

Lemma parse_metric_text p s :
  phase_ok p → trim s = p.1 → has_char ";" s = false →
  parse_metric (s +:+ ";dur=" +:+ tenths_text p.2) = Some (phase_read p).
Proof.
  intros (Hc & Hs & Hne & Hf & Hl & Hms) Ht Hsc. unfold parse_metric.
  change (";dur=" +:+ tenths_text p.2) with (String ";" ("dur=" +:+ tenths_text p.2)).
  rewrite split_on_app by done.
  rewrite split_on_none by (rewrite has_char_app, tenths_no; done).
  cbn [omap list_omap]. rewrite dur_trim, strip_prefix_app. cbn [mbind option_bind].
  rewrite parse_f64_tenths by done. cbn. unfold phase_read. by rewrite Ht.
Qed.

Lemma parse_phase p : phase_ok p → parse_metric (phase_text p) = Some (phase_read p).
Proof.
  intros Hp. destruct Hp as (? & ? & ? & ? & ? & ?) eqn:He. clear He.
  apply parse_metric_text; [done|by apply trim_solid|done].
Qed.

Lemma parse_phase_spaced p : phase_ok p → parse_metric (" " +:+ phase_text p) = Some (phase_read p).
Proof.
  intros Hp. destruct Hp as (? & ? & ? & ? & ? & ?) eqn:He. clear He.
  change (" " +:+ phase_text p) with ((" " +:+ p.1) +:+ ";dur=" +:+ tenths_text p.2).
  apply parse_metric_text; [done|by apply trim_spaced|done].
Qed.

Lemma phase_text_no_comma p : phase_ok p → has_char "," (phase_text p) = false.
Proof.
  intros (Hc & _). unfold phase_text. rewrite !has_char_app, Hc, tenths_no by done. done.
Qed.

(** A list of headers that are not the meter's. *)
Definition METER_NAMES : list string :=
  ["x-x402-free-remaining"; "x-x402-free-limit"; "x-x402-free-reset";
   "x-x402-session-remaining"; "x-x402-session-quota"; "x-x402-session-expires"].
Definition meter_free (hs : list (string * string)) : Prop := Forall (λ h, h.1 ∉ METER_NAMES) hs.

Definition meter_view (m : Auth.Meter) (tier : option string) : Meter :=
  match m with
  | Auth.MeterFree r l t => mkMeter tier (Some r) (Some l) (Some t) None None None
  | Auth.MeterSession r q e => mkMeter tier None None None (Some r) (Some q) (Some e)
  | Auth.MeterUnknown => mkMeter tier None None None None None None
  end.
Definition meter_wf (m : Auth.Meter) : Prop :=
  match m with
  | Auth.MeterFree r l t => is_u64 r ∧ is_u64 l ∧ is_u64 t
  | Auth.MeterSession r q e => is_u64 r ∧ is_u64 q ∧ is_u64 e
  | Auth.MeterUnknown => True
  end.

Lemma header_str_skip hs l n :
  Forall (λ h, h.1 ≠ n) hs → header_str (hs ++ l) n = header_str l n.
Proof.
  unfold header_str. induction 1 as [|h hs Hh _ IH]; [done|]. cbn [List.app List.find].
  by rewrite (proj2 (String.eqb_neq h.1 n) Hh).
Qed.

Lemma number_print hs n z :
  is_u64 z → header_str hs n = Some (u_to_string z) → number (header_str hs) n = Some z.
Proof.
  intros Hz Hh. unfold number. rewrite Hh. cbn [mbind option_bind].
  rewrite trim_u_to_string. by apply parse_uint_print.
Qed.

Lemma meter_free_skip hs n : meter_free hs → n ∈ METER_NAMES → Forall (λ h, h.1 ≠ n) hs.
Proof.
  intros Hm Hn. eapply Forall_impl; [exact Hm|]. cbn. intros h Hh Heq. by rewrite Heq in Hh.
Qed.

(** ** Properties: what the gateway says, the client reads *)

(** The client reads the gateway's timings.  Parsing a [Server-Timing] header
    the gateway printed gives its phases back, in order, each duration the
    [f64] nearest to the printed tenths. *)
Theorem server_timing_roundtrip (phases : list (string * Z)) (Hp : Forall phase_ok phases) :
  parse_server_timing (ExtProc.server_timing phases) = phase_read <$> phases.
Proof.
  unfold ExtProc.server_timing, parse_server_timing.
  assert ((λ '(name, ms), name +:+ ";dur=" +:+ u_to_string (ms / 10) +:+ "." +:+ u_to_string (ms mod 10))
            <$> phases = phase_text <$> phases) as ->.
  { apply list_fmap_ext. by intros i [n ms] _. }
  destruct phases as [|p phases]; [reflexivity|].
  rewrite split_on_comma_join.
  - rewrite !fmap_cons. pose proof (Forall_inv Hp) as Hh. apply Forall_inv_tail in Hp.
    cbn [omap list_omap]. rewrite parse_phase by done. f_equal. clear p Hh.
    induction Hp as [|p l Hh _ IH]; [done|]. rewrite !fmap_cons. cbn [omap list_omap].
    rewrite parse_phase_spaced by done. by f_equal.
  - done.
  - apply Forall_fmap. eapply Forall_impl; [exact Hp|]. intros q. apply phase_text_no_comma.
Qed.

(** The client reads the gateway's meter.  Whatever the other headers of a
    response, the meter headers the gateway adds are read back as the numbers
    it metered, those of the other tier stay absent, and with no meter all
    six are: absent is told apart from zero. *)
Theorem meter_roundtrip (m : Auth.Meter) (hs : list (string * string))
    (Hm : meter_wf m) (Hf : meter_free hs) :
  meter_of (header_str (hs ++ Auth.meter_headers m)) = meter_view m (header_str hs "x-x402-tier").
Proof.
  assert (∀ n, n ∈ METER_NAMES →
    header_str (hs ++ Auth.meter_headers m) n = header_str (Auth.meter_headers m) n) as Hskip.
  { intros n Hn. apply header_str_skip. by apply meter_free_skip. }
  assert (header_str (hs ++ Auth.meter_headers m) "x-x402-tier" = header_str hs "x-x402-tier") as Htier.
  { unfold header_str. clear. induction hs as [|h hs IH]; [by destruct m|].
    cbn [List.app List.find]. by destruct (String.eqb h.1 "x-x402-tier"). }
  assert (∀ n z, n ∈ METER_NAMES → is_u64 z → header_str (Auth.meter_headers m) n = Some (u_to_string z) →
    number (header_str (hs ++ Auth.meter_headers m)) n = Some z) as Hsome.
  { intros n z Hn Hz Hh. apply number_print; [done|]. by rewrite Hskip. }
  assert (∀ n, n ∈ METER_NAMES → header_str (Auth.meter_headers m) n = None →
    number (header_str (hs ++ Auth.meter_headers m)) n = None) as Hnone.
  { intros n Hn Hh. unfold number. by rewrite Hskip, Hh. }
  unfold meter_of. rewrite Htier.
  destruct m as [r l t|r q e|]; cbn [meter_wf meter_view] in *; destruct_and?;
    f_equal; first
    [ apply Hnone; [by apply (bool_decide_unpack _) | done]
    | apply Hsome; [by apply (bool_decide_unpack _) | done | apply to_str_digits] ].
Qed.

(** ** Properties: what the client pays with, the gateway reads *)

Definition sui_payload (sig tx : bytes) `{!Codecs} : SuiExactPayload :=
  {| signature := b64_encode sig; transaction := b64_encode tx |}.
Definition payload_of (resource_url : string) (t : wire.PaymentRequirements) (sig tx : bytes)
    `{!Codecs} : PaymentPayload :=
  {| pp_x402_version := 2; pp_resource := Some (mkResourceInfo resource_url None None None None None);
     pp_accepted := accepted_of t; pp_payload := json_of_sui_payload (sui_payload sig tx);
     pp_extensions := None |}.

Section Payments.
#[local] Set Default Proof Using "Type*".
Context `{!Codecs, !CodecLaws, !Json, !JsonLaws} {sui_sdk : SuiSdk} {sdk : ClientSdk}
  {laws : ClientSdkLaws} {N : Type} `{!ClientEnv N} {G : Type} `{!SuiNode G}.

Lemma payment_json_read url t sig tx :
  is_u64 (wire.max_timeout_seconds t) →
  payload_of_json (payment_json url t sig tx) = Some (payload_of url t sig tx).
Proof.
  intros Ht. unfold payload_of_json, payment_json. wire_members.
  rewrite of_u32_print by (unfold is_u32; lia). unfold opt at 1. wire_members.
  unfold requirements_of_json. wire_members. rewrite of_u64_print by done. reflexivity.
Qed.

Lemma payment_json_ok url t sig tx :
  is_u64 (wire.max_timeout_seconds t) → json_ok (payment_json url t sig tx).
Proof.
  intros [Ht _]. split; [|cbn; lia]. cbn -[u64_value]. split_and!; try exact I; apply naturals_u64; (done || lia).
Qed.

Lemma trim_b64 b : trim (b64_encode b) = b64_encode b.
Proof. destruct (b64_encode_solid b). by apply trim_solid. Qed.

Lemma decoded_header {A} (of_json : Value → option A) v :
  json_ok v → decoded of_json (encode_header v) = of_json v.
Proof.
  intros Hv. unfold decoded, encode_header. rewrite trim_b64, b64_decode_encode.
  cbn [result_ok mbind option_bind]. by rewrite json_parse_text.
Qed.

(** The header of a built transaction, read by the gateway. *)
Lemma header_read key url t tx header :
  is_u64 (wire.max_timeout_seconds t) → sign_and_encode key url t tx = Ok header →
  ∃ sig tb u,
    decode_header payload_of_json header = Ok (payload_of url t sig tb) ∧
    bcs_to_bytes tx = Ok tb ∧ sig ≠ [] ∧ tb ≠ [] ∧
    Sui.parse (sui_payload sig tb) = Ok (tb, tx_view tx, u).
Proof.
  intros Ht Hh. unfold sign_and_encode in Hh.
  destruct (sign_transaction key tx) as [sg|] eqn:Es; [|done]. cbn [context anyhow map_err] in Hh.
  destruct (bcs_to_bytes tx) as [tb|] eqn:Eb; [|done]. cbn [anyhow map_err] in Hh. injection Hh as <-.
  destruct (signature_reads _ _ _ Es) as [u Hu]. exists (signature_bytes sg), tb, u.
  split_and!; [|done|by eapply signature_nonempty|by eapply bcs_nonempty|].
  - apply header_roundtrip; [by apply payment_json_ok | by apply payment_json_read].
  - apply (parse_ok (N := G)). exists (signature_bytes sg). cbn [sui_payload signature transaction].
    rewrite !trim_b64, !b64_decode_encode. split_and!; try done. by apply bcs_roundtrip.
Qed.

(** What is left of verification when the payload is in order. *)
Definition chain_verdict (r : X402.PaymentRequirements) (tb : bytes) (t : Transaction)
    (u : UserSignature) : M (Chain G) (result string FacilitatorError) :=
  _ <-! check_signature tb t.(Sui.sender) u ;;;
  executed <-! simulate tb ;;;
  _ <-! assert_inputs_are_live t ;;;
  _ <-! ret (assert_credits executed.(balance_changes) r) ;;;
  ret (Ok t.(Sui.sender)).

(** The header the client builds is for a transaction it built. *)
Lemma header_built rpc key url t paths (n n' : Net N) header :
  build_payment_header rpc key url t paths n = (Some (Ok header), n') →
  ∃ payee amount tx n1, parse_u64 (wire.amount t) = Some amount ∧
    address_parse (wire.pay_to t) = Ok payee ∧
    build_payment rpc (derive_address key) payee (wire.asset t) amount paths
      (advertised_gas_station t) n = (Some (Ok tx), n1) ∧
    sign_and_encode key url t tx = Ok header.
Proof.
  unfold build_payment_header. destruct (parse_u64 _) as [amount|]; [|done].
  destruct (address_parse (wire.pay_to t)) as [payee|]; cbn [context anyhow map_err]; [|done].
  unfold bind, ret. destruct (build_payment _ _ _ _ _ _ _ n) as [[[tx|]|] n1] eqn:Eb;
    intros [= Hh <-].
  exists payee, amount, tx, n1. done.
Qed.

Lemma accepted_terms r f url sig tb :
  r.(pr_network) = f.(f_network) → same_terms f (payload_of url (terms_of r) sig tb) r.
Proof. by split. Qed.

(** C23: Nothing but the chain can refuse an honest payment.  A client that reads
    the gateway's challenge and builds the header for its first offer is
    understood by the gateway: the header decodes, its terms are the ones
    advertised, its transaction and signature parse, its replay key is the
    hash of the transaction's bytes, and the payer is the key's address.
    Verifying it is the node's verdict on the signature, the simulation, the
    pinned inputs and the credit, nothing else; and a payment from the
    address balance pins no input.  (The challenge's numbers fit their types,
    and its JSON is nested less than 128 levels deep, or nothing could read it.) *)
Theorem only_the_chain_refuses_an_honest_payment (f : Facilitator) (c : X402.PaymentRequired)
    (r : X402.PaymentRequirements) (challenge : wire.PaymentRequired) (terms : wire.PaymentRequirements)
    (rpc : string) (key : Key) (paths : list PaymentPath) (n n' : Net N) (header : string)
    (Hmode : f.(mode) = SuiGrpc) (Hsui : f.(sui) = true) (Hnet : r.(pr_network) = f.(f_network))
    (Hr : head c.(rq_accepts) = Some r) (Hw : wire_required c) (Hj : json_ok (json_of_required c))
    (Hread : decoded wire.required_of_json (encode_header (json_of_required c)) = Some challenge)
    (Hterms : head challenge.(wire.accepts) = Some terms)
    (Hbuilt : build_payment_header rpc key (wire.url (wire.resource challenge)) terms paths n
                = (Some (Ok header), n')) :
  ∃ p tb t u, decode_header payload_of_json header = Ok p ∧
    payment_id p = Some (hex_encode (sha256 tb)) ∧
    t.(Sui.sender) = address_text (derive_address key) ∧
    (∀ w : Chain G, Facilitator.verify f p r w = chain_verdict r tb t u w) ∧
    (paths = [Gasless] → pinned_objects t = []).
Proof.
  assert (challenge = challenge_of c) as ->.
  { rewrite decoded_header, wire_required_read in Hread by done. congruence. }
  assert (terms = terms_of r) as ->.
  { cbn [challenge_of wire.accepts] in Hterms. destruct (rq_accepts c); cbn in *; congruence. }
  assert (is_u64 r.(pr_max_timeout_seconds)) as Ht.
  { destruct Hw as [_ Ha _]. destruct (rq_accepts c); [done|]. injection Hr as ->.
    by apply Forall_inv in Ha as [? _]. }
  apply header_built in Hbuilt as (payee & amount & tx & n1 & _ & _ & Hb & Hh).
  apply header_read in Hh as (sig & tb & u & Hd & Hbcs & Hsig & Htb & Hparse); [|done].
  exists (payload_of (wire.url (wire.resource (challenge_of c))) (terms_of r) sig tb), tb, (tx_view tx), u.
  split_and!; [done| | | |].
  - unfold payment_id. cbn [payload_of pp_payload].
    change (sui_payload_of_json (json_of_sui_payload (sui_payload sig tb))) with (Some (sui_payload sig tb)).
    cbn [mbind option_bind sui_payload transaction]. by rewrite trim_b64, b64_decode_encode.
  - by apply built_payment_pins in Hb as (? & ? & _ & ? & _).
  - intros w. unfold Facilitator.verify.
    assert (check_terms f (payload_of (wire.url (wire.resource (challenge_of c))) (terms_of r) sig tb) r
              = Ok (sui_payload sig tb)) as ->.
    { apply check_terms_ok. split; [by apply accepted_terms|]. split; [done|].
      cbn [sui_payload transaction signature]. rewrite !trim_b64.
      by rewrite !b64_encode_nonempty. }
    rewrite bind_ret_ok, Hmode, Hsui. unfold Sui.verify. rewrite Hparse.
    unfold chain_verdict, bind_ok, bind, ret.
    repeat (case_match; simplify_eq; try done).
  - intros ->. unfold build_payment, bind in Hb.
    destruct (funding _ _ _ n) as [[funds|] n2]; [|done]. cbn [context map_err try_paths] in Hb.
    destruct (check Gasless _ _ _); [done|]. unfold bind, ret in Hb.
    destruct (build_gasless_payment _ _ _ _ _ n2) as [g n3] eqn:Eg. injection Hb as -> ->.
    by apply gasless_view in Eg as [_ ?].
Qed.
End Payments.

(** ** The payer against the gateway

    The gateway's [ext_proc] handlers as the HTTP server of the payer, in
    front of an upstream that answers 200, on a node that accepts what the
    demo wallet signs. *)
Module Live.
Import Redis Stores World Auth ExtProc.
#[local] Existing Instance DemoWallet.sui_sdk.

#[local] Instance node : SuiNode bool := {
  node_connect _ := Ok ();
  node_verify_signature _ _ _ spent := (Ok {| is_valid := Some true; reason := None |}, spent);
  node_simulate _ spent := (Ok (Some DemoNode.outcome), spent);
  node_get_object _ spent := (Ok (Some {| obj_version := Some (if spent then 4 else 3) |}), spent);
  node_execute _ _ spent :=
    if (spent : bool) then (Err "object version is stale", spent) else (Ok (Some DemoNode.outcome), true);
  node_service_info spent := (Ok (Some "testnet"), spent)
}.

Definition W : Type := World.World (Stores.SessionStore Redis.Db.t) (Stores.RateLimiter Redis.Db.t) bool.

Definition wire_headers (path : string) (q : WebRequest) : option WireHeaders :=
  Some ((":path", path, "") :: ((λ h, (h.1, h.2, "")) <$> q.(w_headers))).
Definition plain (l : list HeaderOption) : list (string * string) :=
  (λ h, (to_ascii_lowercase h.(h_name), h.(h_value))) <$> l.

Definition gateway (path : string) (q : WebRequest) : M W WebResponse :=
  out <-- handle_request_headers demo_app StreamState_default (wire_headers path q)
            (Some (V4 203 0 113 7)) None 412 ;;;
  match out with
  | None => ret (mkWebResponse 500 [] None (S754_zero false))
  | Some (ImmediateReply status mu _, _) =>
      ret (mkWebResponse status (plain mu.(set_headers)) (Some "denied") (S754_zero false))
  | Some (_, st) =>
      out <-- handle_response_headers demo_app st (status_wire "200") 1203 ;;;
      ret (mkWebResponse 200
             (match out.1 with ResponseHeadersReply (Some mu) => plain mu.(set_headers) | _ => [] end)
             (Some "served") (S754_zero false))
  end.

#[local] Instance env : ClientEnv (DemoWallet.Pocket * W) := {
  client_new _ := Ok ();
  get_balance _ _ _ n := (Ok (Some (DemoWallet.holdings n.1)), n);
  list_owned_objects _ _ t _ n := (Ok (DemoWallet.coins n.1 t), n);
  get_epoch _ _ n := (Ok (Some (mkEpoch (Some 7) (Some 750))), n);
  get_service_info _ n := (Ok (Some "testnet"), n);
  next_u32 n := (7, n);
  method_parse m := Ok ();
  http_send q n := let '(r, w) := gateway "/x" q n.2 in (Ok r, (n.1, w))
}.

Definition pay (hs : list string) (n : Net (DemoWallet.Pocket * W)) :
  option Pay.Outcome * Net (DemoWallet.Pocket * W) :=
  Pay.main (sdk := DemoWallet.client_sdk) Pay.demo_env (λ _, Err "no file")
    (Pay.mkArgs "https://gw.example/x" "GET" "" hs "node" false "gasless,sponsored,coin-object") n.
Definition start : Net (DemoWallet.Pocket * W) :=
  mkNet (DemoWallet.mkPocket (mkBalance (Some 20000) (Some 20000) None) (λ _, []) 0
           DemoWallet.nothing_served, demo_world) [].
Definition exhausted : Net (DemoWallet.Pocket * W) := Nat.iter 5 (λ n, (pay [] n).2) start.
Definition bought := pay [] exhausted.
Definition token : string :=
  match bought.1 with
  | Some (Pay.Retried _ _ _ paid) => unwrap_or paid.(at_session) ""
  | _ => ""
  end.
Definition reused := pay ["x-payment-session: " +:+ token] bought.2.
Definition settled_by (n : Net (DemoWallet.Pocket * W)) : nat := executions (n.(net).2 : W).
Definition built : option (Anyhow string) * Net DemoWallet.Pocket :=
  build_payment_header (sdk := DemoWallet.client_sdk) "node" "a1" "https://x/graphql"
    (terms_of demo_requirements) DEFAULT_PAYMENT_PATHS Pay.demo_net.
Definition built_header : string := match built.1 with Some (Ok h) => h | _ => "" end.

Lemma built_ok : built = (Some (Ok built_header), built.2).
Proof.
  assert (built.1 = Some (Ok built_header)) as <- by (vm_compute; reflexivity).
  apply surjective_pairing.
Qed.

(** The loop the program is about.  Five free requests; the sixth is asked
    for a payment, pays once on the chain and brings a session home; the next
    one uses the session and pays nothing.  The client reads receipt, meter
    and timings; the tier, which it also looks for, is a header the gateway
    gives to the upstream and not to the client. *)
Example a_payer_buys_and_uses_a_session :
  settled_by exhausted = 0%nat ∧ settled_by bought.2 = 1%nat ∧ settled_by reused.2 = 1%nat ∧
  is_empty token = false ∧
  match bought.1, reused.1 with
  | Some (Pay.Retried _ terms _ paid), Some (Pay.NoPayment first) =>
      terms = terms_of (requirements demo_app (ExtProc.request_of {[":path" := "/x"]} None None)) ∧
      wire.success <$> paid.(at_response) = Some true ∧
      paid.(at_meter) = mkMeter None None None None (Some 1000) (Some 1000) (Some 3600) ∧
      paid.(at_timing) = phase_read <$> [("x402-decide", 412); ("x402-settle", 1203)] ∧
      first.(at_status) = 200 ∧ session_remaining (at_meter first) = Some 999
  | _, _ => False
  end.
Proof. vm_compute. repeat split. Qed.
End Live.

(** ** The properties at concrete inputs *)

#[local] Existing Instance Live.node.

Lemma server_timing_roundtrip_witness :
  parse_server_timing (ExtProc.server_timing [("x402-decide", 412); ("x402-settle", 1203)])
    = [("x402-decide", f64_of_decimal false 412 (-1)); ("x402-settle", f64_of_decimal false 1203 (-1))].
Proof.
  apply (server_timing_roundtrip [("x402-decide", 412); ("x402-settle", 1203)]).
  repeat constructor; done.
Defined.

Lemma meter_roundtrip_witness :
  meter_of (header_str ([("content-type", "application/json")] ++ Auth.meter_headers (Auth.MeterFree 4 5 60)))
    = mkMeter None (Some 4) (Some 5) (Some 60) None None None.
Proof.
  apply (meter_roundtrip (Auth.MeterFree 4 5 60) [("content-type", "application/json")]).
  - cbn. unfold is_u64, u64_max. lia.
  - constructor; [|constructor]. apply (bool_decide_unpack _). vm_compute. exact I.
Defined.

Lemma only_the_chain_refuses_an_honest_payment_witness :
  ∃ p tb t u, decode_header payload_of_json Live.built_header = Ok p ∧
    payment_id p = Some (hex_encode (sha256 tb)) ∧ t.(Sui.sender) = "0xa1" ∧
    (∀ w : Chain bool,
       Facilitator.verify (H1 := DemoWallet.sui_sdk) demo_facilitator p demo_requirements w
       = chain_verdict (sui_sdk := DemoWallet.sui_sdk) (G := bool) demo_requirements tb t u w).
Proof.
  destruct (only_the_chain_refuses_an_honest_payment (sui_sdk := DemoWallet.sui_sdk)
    (sdk := DemoWallet.client_sdk) (laws := DemoWallet.client_laws) (SuiNode0 := Live.node)
    demo_facilitator Pay.demo_challenge demo_requirements (challenge_of Pay.demo_challenge)
    (terms_of demo_requirements) "node" "a1" DEFAULT_PAYMENT_PATHS Pay.demo_net Live.built.2 Live.built_header)
    as (p & tb & t & u & Hd & Hid & Hs & Hv & _); try exact Live.built_ok; try reflexivity.
  - split; [|repeat constructor|]; cbn; unfold is_u32, is_u64, u64_max, not_null; (lia || done).
  - demo_json.
  - exists p, tb, t, u. exact (conj Hd (conj Hid (conj Hs Hv))).
Defined.
