(* ===== verification/Testing.v ===== *)
(** * The program's own tests, replayed

    Each unit test of the program is a definition of type [bool] under the
    test's name: what it does, on the definitions of this development, and the
    conjunction of its assertions.  This file has the combinators they share;
    the [Tests] files hold them, a Module for each test module, and end in the
    lemma that they pass. *)

From S2P Require Import Prelude RustStr.
From stdpp Require Import options.

(** The assertions of a test. *)
Definition all (l : list bool) : bool := forallb (λ b, b) l.
Definition is_err {A E} (r : result A E) : bool := match r with Err _ => true | Ok _ => false end.
Definition is_ok {A E} (r : result A E) : bool := negb (is_err r).
Definition unwrap_err {A E} (r : result A E) : option E := match r with Err e => Some e | Ok _ => None end.

(** [str::contains]. *)
Definition contains (pat s : string) : bool := is_some_b (split_once_str pat s).

(** [str::repeat]. *)
Definition repeat_str (s : string) (n : nat) : string := foldr String.append "" (replicate n s).

(** A test from the state its fixture builds. *)
Definition from {S} (s : S) (t : M S bool) : bool := (t s).1.

(** A loop of the same call, and its results. *)
Fixpoint times {S A} (n : nat) (c : M S A) : M S (list A) :=
  match n with O => ret [] | S n => a <-- c ;;; l <-- times n c ;;; ret (a :: l) end.
Definition count_true (l : list bool) : Z := Z.of_nat (length (List.filter (λ b, b) l)).
