(* ===== verification/TestsStores.v ===== *)
(** * The tests of the breaker and the stores

    [src/breaker.rs], [src/ratelimit.rs] and [src/session.rs].  The tests of
    the Redis backends run against the small database of [Redis], with the
    link up; threads that share a store take their turns one whole call at a
    time, each call being atomic.  The two that race for a session's quota are
    left out: [Session] proves what they sample. *)

From Stdlib Require Import Ascii Strings.Byte.
From S2P Require Import Prelude RustStr Platform Testing.
From S2P Require IpAddr Breaker RateLimit Session Redis.
From stdpp Require Import options.
#[local] Open Scope Z_scope.

(** ** [breaker.rs] *)

Module BreakerTests.
Import Breaker.

Definition NOW : Z := 1700000000.
Definition P : string := "graphql".

Abbreviation B := (M SettlementBreaker).
Definition record (p : string) (failed : bool) (now : Z) : B () := λ b, (tt, record_at p failed now b).
Definition is_state (s t : BreakerState) : bool := bool_decide (s = t).

Definition healthy_settlement_stays_closed : bool := from new
  (times 50 (record P false NOW) ;;;
   s <-- state_at P NOW ;;; ret (is_state s Closed)).

Definition a_single_failure_does_not_trip_it : bool := from new
  (record P true NOW ;;; s <-- state_at P NOW ;;; ret (is_state s Closed)).

Definition sustained_failure_opens_it : bool := from new
  (times MIN_SAMPLES (record P true NOW) ;;;
   s <-- state_at P NOW ;;; s' <-- state_at P NOW ;;;
   ret (all [is_state s Open; negb (accepts_payment s')])).

Definition one_policy_tripping_does_not_affect_another : bool := from new
  (times MIN_SAMPLES (record "grpc" true NOW) ;;;
   a <-- state_at "grpc" NOW ;;; b <-- state_at "graphql" NOW ;;;
   ret (all [is_state a Open; is_state b Closed])).

Definition it_probes_once_after_the_cooldown : bool := from new
  (times MIN_SAMPLES (record P true NOW) ;;;
   a <-- state_at P (NOW + COOLDOWN_SECS - 1) ;;;
   b <-- state_at P (NOW + COOLDOWN_SECS) ;;;
   c <-- state_at P (NOW + COOLDOWN_SECS) ;;;
   ret (all [is_state a Open; is_state b HalfOpen; is_state c Open])).

Definition a_successful_probe_closes_it_immediately : bool := from new
  (times MIN_SAMPLES (record P true NOW) ;;;
   a <-- state_at P (NOW + COOLDOWN_SECS) ;;;
   record P false (NOW + COOLDOWN_SECS) ;;;
   b <-- state_at P (NOW + COOLDOWN_SECS) ;;;
   ret (all [is_state a HalfOpen; is_state b Closed])).

Definition a_failed_probe_reopens_for_another_cooldown : bool := from new
  (times MIN_SAMPLES (record P true NOW) ;;;
   let t := NOW + COOLDOWN_SECS in
   a <-- state_at P t ;;; record P true t ;;;
   b <-- state_at P (t + 1) ;;; c <-- state_at P (t + COOLDOWN_SECS) ;;;
   ret (all [is_state a HalfOpen; is_state b Open; is_state c HalfOpen])).

Definition intermittent_failure_below_the_threshold_stays_closed : bool := from
  (fold_left (λ b i, record_at P (Nat.modulo i 3 =? 0)%nat NOW b) (seq 0 30) new)
  (s <-- state_at P NOW ;;; ret (is_state s Closed)).

Definition the_window_is_bounded : bool :=
  let b := (times 1000 (record P true NOW) new).2 in
  bool_decide (length (outcomes (window b P)) = WINDOW).

Definition tests : list bool :=
  [healthy_settlement_stays_closed;
   a_single_failure_does_not_trip_it;
   sustained_failure_opens_it;
   one_policy_tripping_does_not_affect_another;
   it_probes_once_after_the_cooldown;
   a_successful_probe_closes_it_immediately;
   a_failed_probe_reopens_for_another_cooldown;
   intermittent_failure_below_the_threshold_stays_closed;
   the_window_is_bounded].
End BreakerTests.

Lemma breaker_tests_pass : all BreakerTests.tests = true.
Proof. vm_compute. reflexivity. Qed.

(** ** [ratelimit.rs] *)

Module RateLimitTests.
Import IpAddr RateLimit Redis.

Definition NOW : Z := 1700000040.
Definition P : string := "graphql".
Definition ip (last : Z) : IpAddr := V4 10 0 0 last.

(** [check_at]; a panic is a refusal, which no test expects of one. *)
Definition refused_panic : Allowance := mkAllowance false 0 0 0.
Definition check (policy : string) (a : IpAddr) (max w now : Z) : M MemoryRateLimiter Allowance :=
  λ rl, unwrap_or (check_at policy a max w now rl) (refused_panic, rl).
Definition ok (a : IpAddr) (max now : Z) : M MemoryRateLimiter bool :=
  x <-- check P a max 60 now ;;; ret (allowed x).

(** The same test on any limiter. *)
Section Either.
Context {L : Type} (ok : IpAddr → Z → Z → M L bool)
  (check : string → IpAddr → Z → Z → Z → M L Allowance).

Definition admits_then_denies (a : IpAddr) : M L bool :=
  l <-- times 3 (ok a 3 NOW) ;;; d <-- ok a 3 NOW ;;; ret (all (negb d :: l)).

Definition recovers_from_hammering (a : IpAddr) (n : nat) : M L bool :=
  x <-- ok a 2 NOW ;;; y <-- ok a 2 NOW ;;; l <-- times n (ok a 2 NOW) ;;;
  z <-- ok a 2 (NOW + 120) ;;; ret (all (x :: y :: z :: (negb <$> l))).

Definition independent (a b : IpAddr) : M L bool :=
  x <-- ok a 1 NOW ;;; y <-- ok a 1 NOW ;;; z <-- ok b 1 NOW ;;; ret (all [x; negb y; z]).

Definition per_policy (a : IpAddr) : M L bool :=
  x <-- check "graphql" a 1 60 NOW ;;; y <-- check "graphql" a 1 60 NOW ;;;
  z <-- check "grpc" a 1 60 NOW ;;; ret (all [allowed x; negb (allowed y); allowed z]).

Definition smooths (a : IpAddr) : M L bool :=
  l <-- times 10 (ok a 10 (NOW + 59)) ;;; d <-- ok a 10 (NOW + 60) ;;; r <-- ok a 10 (NOW + 90) ;;;
  ret (all (negb d :: r :: l)).

Definition counts_down (a : IpAddr) : M L (list Z) :=
  l <-- times 3 (check P a 3 60 NOW) ;;; ret (remaining <$> l).
End Either.

Definition ipv6_clients_cannot_reset_the_free_tier_by_rotating_addresses : bool :=
  match parse_ip "2001:db8:1:2::1", parse_ip "2001:db8:1:2::9999", parse_ip "2001:db8:1:3::1" with
  | Some a, Some b, Some c => from new
      (x <-- ok a 2 NOW ;;; y <-- ok b 2 NOW ;;; z <-- ok b 2 NOW ;;; u <-- ok c 2 NOW ;;;
       ret (all [x; y; negb z; u]))
  | _, _, _ => false
  end.

Definition ipv4_is_still_metered_per_address : bool := from new (independent ok (ip 1) (ip 2)).
Definition allows_up_to_the_limit_then_denies : bool := from new (admits_then_denies ok (ip 1)).
Definition denied_requests_are_not_counted : bool := from new (recovers_from_hammering ok (ip 1) 50).
Definition limits_are_tracked_independently_per_ip : bool := from new (independent ok (ip 1) (ip 2)).
Definition spending_one_policys_allowance_does_not_touch_another : bool :=
  from new (per_policy check (ip 1)).

Definition policies_may_use_different_window_lengths : bool := from new
  (a <-- check "fast" (ip 1) 1 10 NOW ;;; b <-- check "fast" (ip 1) 1 10 NOW ;;;
   c <-- check "slow" (ip 1) 1 60 NOW ;;; d <-- check "fast" (ip 1) 1 10 (NOW + 20) ;;;
   e <-- check "slow" (ip 1) 1 60 (NOW + 20) ;;;
   ret (all [allowed a; negb (allowed b); allowed c; allowed d; negb (allowed e)])).

Definition remaining_counts_down_to_zero_and_reports_the_limit : bool := from new
  (seen <-- counts_down check (ip 1) ;;; denied <-- check P (ip 1) 3 60 NOW ;;;
   ret (all [bool_decide (seen = [2; 1; 0]); negb (allowed denied); remaining denied =? 0;
             limit denied =? 3])).

Definition reset_reports_seconds_until_the_window_rolls : bool := from new
  (a <-- check P (ip 1) 5 60 NOW ;;; b <-- check P (ip 1) 5 60 (NOW + 45) ;;;
   ret (all [reset_secs a =? 60; reset_secs b =? 15])).

Definition quota_recovers_after_two_full_windows : bool := from new
  (a <-- ok (ip 1) 2 NOW ;;; b <-- ok (ip 1) 2 NOW ;;; c <-- ok (ip 1) 2 NOW ;;;
   d <-- ok (ip 1) 2 (NOW + 120) ;;; ret (all [a; b; negb c; d])).

Definition sliding_window_smooths_the_boundary_burst : bool := from new (smooths ok (ip 1)).

Definition stale_history_beyond_one_window_is_discarded_not_carried : bool := from new
  (l <-- times 5 (ok (ip 1) 5 NOW) ;;; a <-- ok (ip 1) 5 (NOW + 600) ;;; ret (all (a :: l))).

Definition len (rl : MemoryRateLimiter) : nat := size rl.
Definition cleanup (now : Z) : M MemoryRateLimiter Z := cleanup_idle_at now.
Definition count : M MemoryRateLimiter nat := λ rl, (len rl, rl).

Definition cleanup_reaps_idle_keys_but_keeps_active_ones : bool := from new
  (ok (ip 1) 5 NOW ;;; ok (ip 2) 5 (NOW + 300) ;;; a <-- count ;;;
   reaped <-- cleanup (NOW + 300) ;;; b <-- count ;;;
   ret (all [(a =? 2)%nat; reaped =? 1; (b =? 1)%nat])).

Definition cleanup_uses_each_keys_own_window_length : bool := from new
  (check "fast" (ip 1) 5 10 NOW ;;; check "slow" (ip 1) 5 3600 NOW ;;;
   reaped <-- cleanup (NOW + 60) ;;; b <-- count ;;; ret (all [reaped =? 1; (b =? 1)%nat])).

Definition zero_limit_denies_everything : bool := from new
  (a <-- ok (ip 1) 0 NOW ;;; ret (negb a)).

(** Eight threads of a hundred calls each, taking turns. *)
Definition concurrent_checks_never_exceed_the_limit : bool := from new
  (l <-- times 800 (ok (ip 1) 100 NOW) ;;; ret (count_true l =? 100)).

(** *** Against Redis *)

Definition unique_ip (tag : Z) : IpAddr := V4 10 9 (tag / 256) (tag mod 256).
Definition redis_check (policy : string) (a : IpAddr) (max w now : Z) : M Db.t Allowance :=
  λ r, unwrap_or (redis_check_at Up now policy a max w now r) (refused_panic, r).
Definition redis_ok (a : IpAddr) (max now : Z) : M Db.t bool :=
  x <-- redis_check P a max 60 now ;;; ret (allowed x).

Definition redis_allows_up_to_the_limit_then_denies : bool :=
  from Db.empty (admits_then_denies redis_ok (unique_ip 1)).
Definition redis_tracks_limits_independently_per_ip : bool :=
  from Db.empty (independent redis_ok (unique_ip 2) (unique_ip 3)).
Definition redis_scopes_buckets_per_policy_like_the_memory_backend : bool :=
  from Db.empty (per_policy redis_check (unique_ip 7)).
Definition redis_reports_the_same_remaining_counts_as_memory : bool :=
  let seen := from Db.empty (s <-- counts_down redis_check (unique_ip 8) ;;;
                             ret (bool_decide (s = [2; 1; 0]))) in
  let expected := from new (s <-- counts_down check (unique_ip 8) ;;;
                            ret (bool_decide (s = [2; 1; 0]))) in
  all [seen; expected].
Definition redis_smooths_the_boundary_burst_like_the_memory_backend : bool :=
  from Db.empty (smooths redis_ok (unique_ip 4)).
Definition redis_denied_requests_are_not_counted : bool :=
  from Db.empty (recovers_from_hammering redis_ok (unique_ip 5) 20).
Definition redis_concurrent_checks_never_exceed_the_limit : bool := from Db.empty
  (l <-- times 400 (redis_ok (unique_ip 6) 100 NOW) ;;; ret (count_true l =? 100)).

Definition tests : list bool :=
  [ipv6_clients_cannot_reset_the_free_tier_by_rotating_addresses; ipv4_is_still_metered_per_address;
   allows_up_to_the_limit_then_denies; denied_requests_are_not_counted;
   limits_are_tracked_independently_per_ip; spending_one_policys_allowance_does_not_touch_another;
   policies_may_use_different_window_lengths; remaining_counts_down_to_zero_and_reports_the_limit;
   reset_reports_seconds_until_the_window_rolls; quota_recovers_after_two_full_windows;
   sliding_window_smooths_the_boundary_burst;
   stale_history_beyond_one_window_is_discarded_not_carried;
   cleanup_reaps_idle_keys_but_keeps_active_ones; cleanup_uses_each_keys_own_window_length;
   zero_limit_denies_everything; concurrent_checks_never_exceed_the_limit;
   redis_allows_up_to_the_limit_then_denies; redis_tracks_limits_independently_per_ip;
   redis_scopes_buckets_per_policy_like_the_memory_backend;
   redis_reports_the_same_remaining_counts_as_memory;
   redis_smooths_the_boundary_burst_like_the_memory_backend; redis_denied_requests_are_not_counted;
   redis_concurrent_checks_never_exceed_the_limit].
End RateLimitTests.

Lemma ratelimit_tests_pass : all RateLimitTests.tests = true.
Proof. vm_compute. reflexivity. Qed.

(** ** [session.rs] *)

Module SessionTests.
Import Session Redis.

Definition PAYER : string := "0xdeadbeef".
Definition NOW : Z := 1700000000.

Definition key7 : bytes := replicate 32 x07.
Definition key9 : bytes := replicate 32 x09.
Definition raw : bytes := replicate 16 x2a.
Definition raw' : bytes := replicate 16 x2b.

(** The store with the grant its sessions are minted with. *)
Record TestStore := mkTestStore { inner : MemorySessionStore; ttl : Z; quota : Z }.
Definition store_with_key (hmac_key : bytes) (ttl quota : Z) : TestStore :=
  mkTestStore (new hmac_key ttl) ttl quota.
Definition store (ttl quota : Z) : TestStore := store_with_key key7 ttl quota.

Definition on {A} (f : M MemorySessionStore A) : M TestStore A := λ s,
  let '(a, i) := f (inner s) in (a, mkTestStore i (ttl s) (quota s)).
Definition mint_with (raw : bytes) (payer : string) (policy : option string) (now : Z) :
  M TestStore string := λ s, on (create_session_at payer policy (quota s) (ttl s) now raw) s.
Definition mint (payer : string) (policy : option string) (now : Z) : M TestStore string :=
  mint_with raw payer policy now.
Definition consume (token : string) (policy : option string) (now : Z) : M TestStore SessionOutcome :=
  on (consume_at token policy now).
Definition claim (id : string) (ttl now : Z) : M TestStore PaymentClaim := on (claim_payment_at id ttl now).
Definition release (id : string) : M TestStore () := on (λ s, (tt, release_payment id s)).
Definition cleanup (now : Z) : M TestStore Z := on (cleanup_expired_at now).
Definition len : M TestStore nat := λ s, (size (sessions (inner s)), s).
Definition seen : M TestStore nat := λ s, (size (seen_payments (inner s)), s).
Definition forget (id : string) : M TestStore () :=
  on (λ s, (tt, mkStore (delete id (sessions s)) (seen_payments s) (codec s) (replay_retention_secs s))).

Definition accepted (o : SessionOutcome) : bool :=
  match o with Accepted _ _ _ _ => true | _ => false end.
Definition leaves (n : Z) (o : SessionOutcome) : bool :=
  match o with Accepted _ remaining _ _ => remaining =? n | _ => false end.
Definition rejected (r : SessionRejection) (o : SessionOutcome) : bool := bool_decide (o = Rejected r).
Definition is_claim (c d : PaymentClaim) : bool := bool_decide (c = d).

(** A field of a token, and a token with one replaced. *)
Definition part (token : string) (i : nat) : string := nth i (split_on ":"%char token) "".
Definition forge (token : string) (i : nat) (s : string) : string :=
  IpAddr.join ":" (<[i := s]> (split_on ":"%char token)).

Definition issued_token_is_accepted_and_spends_quota : bool := from (store 3600 3)
  (token <-- mint PAYER None NOW ;;; o <-- consume token None (NOW + 1) ;;;
   ret match o with
       | Accepted payer remaining _ _ => bool_decide (payer = PAYER) && (remaining =? 2)
       | _ => false
       end).

Definition quota_is_exhausted_after_the_configured_number_of_requests : bool := from (store 3600 2)
  (token <-- mint PAYER None NOW ;;; a <-- consume token None NOW ;;; b <-- consume token None NOW ;;;
   c <-- consume token None NOW ;;;
   ret (all [leaves 1 a; leaves 0 b; rejected QuotaExhausted c])).

Definition tampering_with_any_field_invalidates_the_token : bool := from (store 3600 5)
  (token <-- mint PAYER None NOW ;;;
   a <-- consume (forge token 1 (u_to_string (NOW + 999999))) None NOW ;;;
   b <-- consume (forge token 0 "0xattacker") None NOW ;;;
   c <-- consume (forge token 2 (repeat_str "00" 16)) None NOW ;;;
   ret (all [rejected Malformed a; rejected Malformed b; rejected Malformed c])).

Definition token_signed_with_a_different_key_is_rejected : bool :=
  let '(token, _) := mint PAYER None NOW (store 3600 5) in
  from (store_with_key key9 3600 5) (o <-- consume token None NOW ;;; ret (rejected Malformed o)).

Definition malformed_tokens_are_rejected : bool := from (store 3600 5)
  (a <-- consume "" None NOW ;;; b <-- consume "not-a-token" None NOW ;;;
   c <-- consume "a:b:c" None NOW ;;; d <-- consume "a:b:c:d:e" None NOW ;;;
   e <-- consume "0xa:123:abc:nothex.." None NOW ;;;
   ret (all (rejected Malformed <$> [a; b; c; d; e]))).

Definition expired_token_is_rejected : bool := from (store 60 5)
  (token <-- mint PAYER None NOW ;;; o <-- consume token None (NOW + 61) ;;; ret (rejected Expired o)).

Definition authentic_token_for_a_forgotten_session_is_unknown_not_accepted : bool :=
  from (store 3600 5)
    (token <-- mint PAYER None NOW ;;; forget (part token 2) ;;; o <-- consume token None NOW ;;;
     ret (rejected Unknown o)).

Definition cleanup_reaps_only_expired_sessions : bool := from (store 60 5)
  (mint "0xold" None NOW ;;; mint_with raw' "0xnew" None (NOW + 100) ;;; a <-- len ;;;
   reaped <-- cleanup (NOW + 61) ;;; b <-- len ;;;
   ret (all [(a =? 2)%nat; reaped =? 1; (b =? 1)%nat])).

Definition a_session_is_scoped_to_the_policy_that_bought_it : bool := from (store 3600 5)
  (token <-- mint PAYER (Some "graphql") NOW ;;; a <-- consume token (Some "graphql") NOW ;;;
   b <-- consume token (Some "grpc") NOW ;;; c <-- consume token None NOW ;;;
   ret (all [accepted a; rejected WrongPolicy b; rejected WrongPolicy c])).

Definition a_payment_can_only_be_claimed_once : bool := from (store 3600 5)
  (a <-- claim "tx-a" 60 NOW ;;; b <-- claim "tx-a" 60 NOW ;;; c <-- claim "tx-b" 60 NOW ;;;
   ret (all [is_claim a Fresh; is_claim b (Replay NOW); is_claim c Fresh])).

Definition a_released_claim_can_be_used_again : bool := from (store 3600 5)
  (a <-- claim "tx" 60 NOW ;;; b <-- claim "tx" 60 NOW ;;; release "tx" ;;; c <-- claim "tx" 60 NOW ;;;
   ret (all [is_claim a Fresh; is_claim b (Replay NOW); is_claim c Fresh])).

Definition a_claim_lapses_once_its_ttl_passes : bool := from (store 3600 5)
  (a <-- claim "tx" 60 NOW ;;; b <-- claim "tx" 60 (NOW + 59) ;;; c <-- claim "tx" 60 (NOW + 60) ;;;
   ret (all [is_claim a Fresh; is_claim b (Replay NOW); is_claim c Fresh])).

Definition cleanup_bounds_the_replay_cache : bool := from (store 60 5)
  (claim "old" 60 NOW ;;; claim "new" 60 (NOW + 100) ;;; a <-- seen ;;; cleanup (NOW + 100) ;;;
   b <-- seen ;;; ret (all [(a =? 2)%nat; (b =? 1)%nat])).

Definition spend_one_refuses_to_underflow : bool :=
  let '(a, counter) := spend_one 1 in
  let '(b, counter) := spend_one counter in
  all [bool_decide (a = Some 0); bool_decide (b = None); counter =? 0].

(** *** Against Redis *)

Definition redis_mint (payer : string) (policy : option string) (quota ttl : Z) : M Db.t string :=
  r <-- redis_create_session key7 Up NOW NOW payer policy quota ttl raw ;;; ret (unwrap_or r "").
Definition redis_spend_at (key : bytes) (token : string) (policy : option string) (now : Z) :
  M Db.t SessionOutcome := redis_consume key Up now now token policy.
Definition redis_spend (token : string) (policy : option string) : M Db.t SessionOutcome :=
  redis_spend_at key7 token policy NOW.

Definition redis_issued_token_is_accepted_and_spends_quota : bool := from Db.empty
  (token <-- redis_mint PAYER None 3 3600 ;;; o <-- redis_spend token None ;;;
   ret match o with
       | Accepted payer remaining _ _ => bool_decide (payer = PAYER) && (remaining =? 2)
       | _ => false
       end).

Definition redis_quota_is_exhausted_after_the_configured_number_of_requests : bool := from Db.empty
  (token <-- redis_mint PAYER None 2 3600 ;;; a <-- redis_spend token None ;;;
   b <-- redis_spend token None ;;; c <-- redis_spend token None ;;;
   ret (all [leaves 1 a; leaves 0 b; rejected QuotaExhausted c])).

Definition redis_rejects_forged_and_foreign_tokens : bool := from Db.empty
  (token <-- redis_mint PAYER None 5 3600 ;;;
   a <-- redis_spend (forge token 0 "0xattacker") None ;;;
   b <-- redis_spend_at key9 token None NOW ;;;
   ret (all [rejected Malformed a; rejected Malformed b])).

Definition redis_reports_unknown_for_a_session_it_never_stored : bool := from Db.empty
  (o <-- redis_spend (Session.mint key7 PAYER (NOW + 3600) (new_session_id raw)) None ;;;
   ret (rejected Unknown o)).

(** The test sleeps for a second and a half: the clock reads one or two more. *)
Definition redis_expires_sessions_via_key_ttl : bool := from Db.empty
  (token <-- redis_mint PAYER None 5 1 ;;; a <-- redis_spend token None ;;;
   b <-- redis_spend_at key7 token None (NOW + 1) ;;; c <-- redis_spend_at key7 token None (NOW + 2) ;;;
   ret (all [accepted a; rejected Expired b; rejected Expired c])).

Definition redis_session_is_scoped_to_its_policy : bool := from Db.empty
  (token <-- redis_mint PAYER (Some "graphql") 5 3600 ;;; a <-- redis_spend token (Some "graphql") ;;;
   b <-- redis_spend token (Some "grpc") ;;; ret (all [accepted a; rejected WrongPolicy b])).

Definition redis_payment_claim_is_atomic_across_concurrent_callers : bool := from Db.empty
  (l <-- times 8 (redis_claim_payment Up NOW NOW "concurrent-1700000000" 60) ;;;
   ret (count_true ((λ c, is_claim c Fresh) <$> l) =? 1)).

Definition tests : list bool :=
  [issued_token_is_accepted_and_spends_quota;
   quota_is_exhausted_after_the_configured_number_of_requests;
   tampering_with_any_field_invalidates_the_token; token_signed_with_a_different_key_is_rejected;
   malformed_tokens_are_rejected; expired_token_is_rejected;
   authentic_token_for_a_forgotten_session_is_unknown_not_accepted;
   cleanup_reaps_only_expired_sessions;
   a_session_is_scoped_to_the_policy_that_bought_it; a_payment_can_only_be_claimed_once;
   a_released_claim_can_be_used_again; a_claim_lapses_once_its_ttl_passes;
   cleanup_bounds_the_replay_cache; spend_one_refuses_to_underflow;
   redis_issued_token_is_accepted_and_spends_quota;
   redis_quota_is_exhausted_after_the_configured_number_of_requests;
   redis_rejects_forged_and_foreign_tokens; redis_reports_unknown_for_a_session_it_never_stored;
   redis_expires_sessions_via_key_ttl;
   redis_session_is_scoped_to_its_policy;
   redis_payment_claim_is_atomic_across_concurrent_callers].
End SessionTests.

Lemma session_tests_pass : all SessionTests.tests = true.
Proof. vm_compute. reflexivity. Qed.
