(* ===== verification/TestsConfig.v ===== *)
(** * The tests of the configuration ([src/config.rs])

    A YAML text is the record it parses to, and an edit of the text an edit of
    the record.  Left out are the tests that read files of the repository and
    the one about a field the parser does not know. *)

From Stdlib Require Import Ascii.
From S2P Require Import Prelude RustStr Platform IpAddr Config Testing.
From stdpp Require Import options.
#[local] Open Scope Z_scope.

Module ConfigTests.

Definition TEST_HMAC_SECRET : string := repeat_str "cd" 32.
Definition address (digit : string) : string := "0x" +:+ repeat_str digit 64.
Definition TEST_PAY_TO : string := address "1".

Definition base_payment : PaymentConfig :=
  {| scheme := "exact"; network := "sui:testnet"; amount := "1000";
     asset := "0xa1ec7fc00a6f40db9693ad1415d0c193ad3906494428cf252621037bd7117e29::usdc::USDC";
     asset_decimals := DEFAULT_ASSET_DECIMALS; pay_to := TEST_PAY_TO; max_timeout_seconds := 60;
     description := "test"; service_name := None; tags := []; icon_url := None;
     gas_station := None |}.
Definition base_free : FreeTierConfig := mkFreeTier 10 60.
Definition base_paid : PaidTierConfig := mkPaidTier 100 3600.

Definition config (p : PaymentConfig) (pols : gmap string PaymentOverride) (rs : list RouteOverride)
    (free : FreeTierConfig) (paid : PaidTierConfig) (st : StoreConfig) (secret : string) : Config :=
  {| listen_addr := mkSocketAddr (V4 127 0 0 1) 50051; metrics_listen_addr := None;
     facilitator_api_listen_addr := None; sui_grpc_url := "https://fullnode.testnet.sui.io:443";
     sui_chain := "testnet"; verification_mode := StubAcceptAll; cfg_payment := p;
     policies := pols; routes := rs; cfg_free_tier := free; cfg_paid_tier := paid; store := st;
     session_hmac_secret := secret |}.
Definition memory : StoreConfig := mkStoreConfig Memory "".
Definition base_config (p : PaymentConfig) (pols : gmap string PaymentOverride)
    (rs : list RouteOverride) : Config :=
  config p pols rs base_free base_paid memory TEST_HMAC_SECRET.
Definition with_secret (secret : string) : Config :=
  config base_payment ∅ [] base_free base_paid memory secret.
Definition base_yaml : Config := with_secret TEST_HMAC_SECRET.

(** The fields of [payment] the tests edit. *)
Definition edit (p : PaymentConfig) (scheme' amount' pay_to' : string) : PaymentConfig :=
  {| scheme := scheme'; network := network p; amount := amount'; asset := asset p;
     asset_decimals := asset_decimals p; pay_to := pay_to';
     max_timeout_seconds := max_timeout_seconds p; description := description p;
     service_name := service_name p; tags := tags p; icon_url := icon_url p;
     gas_station := gas_station p |}.
Definition with_scheme (s : string) : Config := base_config (edit base_payment s "1000" TEST_PAY_TO) ∅ [].
Definition with_amount (a : string) : Config :=
  base_config (edit base_payment "exact" a TEST_PAY_TO) ∅ [].
Definition with_pay_to (a : string) : Config := base_config (edit base_payment "exact" "1000" a) ∅ [].
Definition with_metadata (name : option string) (tags' : list string) (icon : option string) : Config :=
  base_config
    {| scheme := "exact"; network := network base_payment; amount := "1000";
       asset := asset base_payment; asset_decimals := DEFAULT_ASSET_DECIMALS; pay_to := TEST_PAY_TO;
       max_timeout_seconds := 60; description := "test"; service_name := name; tags := tags';
       icon_url := icon; gas_station := None |} ∅ [].

Definition override (pay_to amount asset : option string) (decimals : option Z)
    (description : option string) : PaymentOverride :=
  {| ov_pay_to := pay_to; ov_amount := amount; ov_asset := asset; ov_asset_decimals := decimals;
     ov_description := description; ov_free_tier := None; ov_paid_tier := None |}.

(** [parse]: validation of what was parsed. *)
Definition parse (c : Config) : result Config ConfigError := load (Ok c) (λ _, None).
Definition refused (c : Config) (why : ConfigError → bool) : bool :=
  match parse c with Err e => why e | Ok _ => false end.
Definition parses (c : Config) : bool := is_ok (parse c).
Definition eqs (a b : string) : bool := String.eqb a b.

Definition parses_a_valid_config : bool :=
  match parse base_yaml with
  | Ok c => all [match verification_mode c with StubAcceptAll => true | _ => false end;
                 eqs (network (cfg_payment c)) "sui:testnet";
                 match hmac_key c with Ok k => (length k =? 32)%nat | Err _ => false end]
  | Err _ => false
  end.

Definition rejects_short_hmac_key : bool :=
  refused (with_secret "abcd") (λ e, match e with SecretTooShort _ => true | _ => false end).
Definition rejects_non_hex_hmac_key : bool :=
  refused (with_secret (repeat_str "zz" 32)) (λ e, match e with SecretNotHex => true | _ => false end).
Definition rejects_the_published_placeholder_hmac_secret : bool :=
  refused (with_secret PLACEHOLDER_HMAC_SECRET)
    (λ e, match e with PlaceholderSecret => true | _ => false end).
Definition rejects_empty_hmac_key : bool :=
  refused (with_secret "") (λ e, match e with EmptySecret => true | _ => false end).

Definition over_long : string := repeat_str "x" 33.
Definition discovery_metadata_outside_the_spec_bounds_is_refused : bool :=
  all [refused (with_metadata (Some over_long) [] None)
         (λ e, match e with BadServiceName => true | _ => false end);
       refused (with_metadata None ["a"; "b"; "c"; "d"; "e"; "f"] None)
         (λ e, match e with TooManyTags => true | _ => false end);
       refused (with_metadata None [over_long] None)
         (λ e, match e with BadTag _ => true | _ => false end);
       refused (with_metadata None [] (Some "not-a-url"))
         (λ e, match e with IconNotUrl => true | _ => false end)].

Definition discovery_metadata_within_the_bounds_loads : bool :=
  match parse (with_metadata (Some "Sui Testnet Gateway") ["rpc"; "sui"]
                 (Some "https://example.com/icon.png")) with
  | Ok c => all [bool_decide (service_name (cfg_payment c) = Some "Sui Testnet Gateway");
                 bool_decide (tags (cfg_payment c) = ["rpc"; "sui"])]
  | Err _ => false
  end.

Definition ends_with (suffix s : string) : bool := starts_with (srev suffix) (srev s).
Definition sui_route : Config :=
  base_config base_payment
    {[ "sui_route" := override None (Some "20000000") (Some "0x2::sui::SUI") (Some 9) None ]} [].

Definition a_policy_can_bill_in_a_different_coin_than_the_default : bool :=
  let resolved := payment (policy_for sui_route "/anything" (Some "sui_route")) in
  let default := payment (policy_for sui_route "/anything" None) in
  all [parses sui_route; eqs (asset resolved) "0x2::sui::SUI"; asset_decimals resolved =? 9;
       ends_with "::usdc::USDC" (asset default); asset_decimals default =? DEFAULT_ASSET_DECIMALS].

Definition the_floor_check_uses_each_policys_own_decimals : bool :=
  match List.find (λ '(name, _, _), eqs name "sui_route") (priced_policies sui_route) with
  | Some (_, amount, decimals) =>
      all [decimals =? 9;
           match parse_u128 amount with
           | Some a => gasless_minimum_base_units decimals <=? a
           | None => false
           end]
  | None => false
  end.

Definition the_gasless_floor_tracks_the_assets_decimals : bool :=
  all [gasless_minimum_base_units 6 =? 10000; gasless_minimum_base_units 9 =? 10000000;
       10000 <? gasless_minimum_base_units 9].

Definition a_price_below_the_gasless_floor_still_loads : bool := parses (with_amount "10").

Definition rejects_unsupported_scheme : bool :=
  refused (with_scheme "upto") (λ e, match e with UnsupportedScheme _ => true | _ => false end).
Definition rejects_non_numeric_amount : bool :=
  refused (with_amount "1.5") (λ e, match e with BadAmount _ _ => true | _ => false end).
Definition rejects_pay_to_without_0x_prefix : bool :=
  refused (with_pay_to (repeat_str "1" 64)) (λ e, match e with PayToNotPrefixed => true | _ => false end).
Definition rejects_pay_to_of_the_wrong_length_or_with_non_hex_characters : bool :=
  all ((λ bad, negb (parses (with_pay_to bad))) <$>
       ["0xdeadbeef"; "0x" +:+ repeat_str "1" 65; "0x" +:+ repeat_str "z" 64]).
Definition rejects_the_zero_address_placeholder : bool :=
  refused (with_pay_to (address "0")) (λ e, match e with PayToZero => true | _ => false end).

(** *** Routes and policies *)

Definition routed (wallet price : string) : Config :=
  base_config base_payment ∅
    [mkRoute "/" (override None (Some "100") None None (Some "cheap default"));
     mkRoute "/sui.rpc.v2." (override (Some wallet) (Some price) None None (Some "gRPC calls"))].
Definition routed_yaml : Config := routed (address "3") "5000".

Definition without_routes_every_path_uses_the_default_terms : bool :=
  let terms := payment (policy_for base_yaml "/anything" None) in
  all [eqs (pay_to terms) TEST_PAY_TO; eqs (amount terms) "1000"].

Definition longest_matching_prefix_wins_regardless_of_file_order : bool :=
  let grpc := payment (policy_for routed_yaml "/sui.rpc.v2.LedgerService/GetServiceInfo" None) in
  let graphql := payment (policy_for routed_yaml "/graphql" None) in
  all [parses routed_yaml; eqs (pay_to grpc) (address "3"); eqs (amount grpc) "5000";
       eqs (description grpc) "gRPC calls"; eqs (amount graphql) "100";
       eqs (description graphql) "cheap default"].

Definition unset_route_fields_fall_back_to_the_defaults : bool :=
  let graphql := payment (policy_for routed_yaml "/graphql" None) in
  all [eqs (pay_to graphql) TEST_PAY_TO; eqs (network graphql) "sui:testnet"].

Definition named (wallet : string) : Config :=
  base_config base_payment
    {[ "grpc" := override (Some wallet) (Some "5000") None None (Some "gRPC calls");
       "graphql" := override None (Some "100") None None None ]}
    [mkRoute "/graphql" (override None (Some "77") None None None)].
Definition policy_yaml : Config := named (address "4").

Definition a_named_policy_selects_its_terms : bool :=
  let terms := payment (policy_for policy_yaml "/whatever" (Some "grpc")) in
  all [parses policy_yaml; eqs (pay_to terms) (address "4"); eqs (amount terms) "5000"].

Definition a_named_policy_outranks_a_path_prefix_rule : bool :=
  eqs (amount (payment (policy_for policy_yaml "/graphql" (Some "graphql")))) "100".

Definition an_unknown_policy_falls_back_instead_of_failing : bool :=
  all [is_unknown_policy policy_yaml "typo";
       eqs (amount (payment (policy_for policy_yaml "/graphql" (Some "typo")))) "77"].

(** The error names the policy or the route in its context. *)
Definition names_its (what : string) (e : ConfigError) : bool :=
  match e with InContext context _ => contains what context | _ => false end.
Definition rejects_a_policy_with_an_invalid_wallet : bool := refused (named "0xnope") (names_its "policy").
Definition rejects_a_route_with_an_invalid_wallet : bool :=
  refused (routed "0xnope" "5000") (names_its "route").
Definition rejects_a_route_with_a_non_numeric_amount : bool := negb (parses (routed (address "3") "free")).

Definition rejects_redis_backend_without_a_url : bool :=
  refused (config base_payment ∅ [] base_free base_paid (mkStoreConfig Redis "") TEST_HMAC_SECRET)
    (λ e, match e with MissingRedisUrl => true | _ => false end).
Definition rejects_zero_window : bool :=
  negb (parses (config base_payment ∅ [] (mkFreeTier 10 0) base_paid memory TEST_HMAC_SECRET)).
Definition rejects_zero_quota : bool :=
  negb (parses (config base_payment ∅ [] base_free (mkPaidTier 0 3600) memory TEST_HMAC_SECRET)).

Definition tests : list bool :=
  [parses_a_valid_config; rejects_short_hmac_key; rejects_non_hex_hmac_key;
   discovery_metadata_outside_the_spec_bounds_is_refused; discovery_metadata_within_the_bounds_loads;
   a_policy_can_bill_in_a_different_coin_than_the_default;
   the_floor_check_uses_each_policys_own_decimals; the_gasless_floor_tracks_the_assets_decimals;
   a_price_below_the_gasless_floor_still_loads; rejects_the_published_placeholder_hmac_secret;
   rejects_empty_hmac_key; rejects_unsupported_scheme; rejects_non_numeric_amount;
   rejects_pay_to_without_0x_prefix;
   rejects_pay_to_of_the_wrong_length_or_with_non_hex_characters;
   rejects_the_zero_address_placeholder; without_routes_every_path_uses_the_default_terms;
   longest_matching_prefix_wins_regardless_of_file_order;
   unset_route_fields_fall_back_to_the_defaults; a_named_policy_selects_its_terms;
   a_named_policy_outranks_a_path_prefix_rule; an_unknown_policy_falls_back_instead_of_failing;
   rejects_a_policy_with_an_invalid_wallet; rejects_a_route_with_an_invalid_wallet;
   rejects_a_route_with_a_non_numeric_amount; rejects_redis_backend_without_a_url;
   rejects_zero_window; rejects_zero_quota].
End ConfigTests.

Lemma config_tests_pass : all ConfigTests.tests = true.
Proof. vm_compute. reflexivity. Qed.
