(* ===== verification/TestsWire.v ===== *)
(** * The tests of the wire types and of the chain

    [src/x402.rs] and [src/sui.rs].  A JSON document is the value it parses
    to; the five fixtures of [tests/fixtures] are transcribed.  Base64 is the
    standard one ([Base64]). *)

From Stdlib Require Import Ascii.
From S2P Require Import Prelude RustStr Platform Config Json X402 Sui Facilitator Testing.
From S2P Require Base64.
From stdpp Require Import options.
#[local] Open Scope Z_scope.
#[local] Existing Instance Base64.rfc_codecs.

(** Equality of JSON values: members in any order. *)
Fixpoint value_eqb (a b : Value) : bool :=
  match a, b with
  | Null, Null => true
  | Bool x, Bool y => Bool.eqb x y
  | Number x, Number y | Str x, Str y => String.eqb x y
  | Array l, Array l' =>
      (fix go l l' := match l, l' with
                      | [], [] => true
                      | x :: l, y :: l' => value_eqb x y && go l l'
                      | _, _ => false
                      end) l l'
  | Json.Object m, Json.Object m' =>
      (length m =? length m')%nat &&
      (fix go m := match m with
                   | [] => true
                   | (k, x) :: m => match last_assoc k m' with
                                    | Some y => value_eqb x y
                                    | None => false
                                    end && go m
                   end) m
  | _, _ => false
  end.
Definition eqb_opt (a : option string) (b : string) : bool := bool_decide (a = Some b).
Definition is_object (v : option Value) : bool := match v with Some (Json.Object _) => true | _ => false end.

(** ** [x402.rs] *)

Module WireTests.

Definition PAYMENT_REQUIRED_JSON : Value :=
  Json.Object [("x402Version", Number "2");
    ("error", Str "PAYMENT-SIGNATURE header is required");
    ("resource", Json.Object [("url", Str "https://api.example.com/premium-data");
      ("description", Str "Access to premium market data");
      ("mimeType", Str "application/json")]);
    ("accepts", Array [Json.Object [("scheme", Str "exact");
        ("network", Str "eip155:84532");
        ("amount", Str "10000");
        ("asset", Str "0x036CbD53842c5426634e7929541eC2318f3dCF7e");
        ("payTo", Str "0x209693Bc6afc0C5328bA36FaF03C514EF312287C");
        ("maxTimeoutSeconds", Number "60");
        ("extra", Json.Object [("name", Str "USDC");
          ("version", Str "2")])]]);
    ("extensions", Json.Object [])].

Definition PAYLOAD_EVM_JSON : Value :=
  Json.Object [("x402Version", Number "2");
    ("resource", Json.Object [("url", Str "https://api.example.com/premium-data");
      ("description", Str "Access to premium market data");
      ("mimeType", Str "application/json")]);
    ("accepted", Json.Object [("scheme", Str "exact");
      ("network", Str "eip155:84532");
      ("amount", Str "10000");
      ("asset", Str "0x036CbD53842c5426634e7929541eC2318f3dCF7e");
      ("payTo", Str "0x209693Bc6afc0C5328bA36FaF03C514EF312287C");
      ("maxTimeoutSeconds", Number "60");
      ("extra", Json.Object [("name", Str "USDC");
        ("version", Str "2")])]);
    ("payload", Json.Object [("signature", Str "0x2d6a7588d6acca505cbf0d9a4a227e0c52c6c34008c8e8986a1283259764173608a2ce6496642e377d6da8dbbf5836e9bd15092f9ecab05ded3d6293af148b571c");
      ("authorization", Json.Object [("from", Str "0x857b06519E91e3A54538791bDbb0E22373e36b66");
        ("to", Str "0x209693Bc6afc0C5328bA36FaF03C514EF312287C");
        ("value", Str "10000");
        ("validAfter", Str "1740672089");
        ("validBefore", Str "1740672154");
        ("nonce", Str "0xf3746613c2d920b5fdabc0856f2aeb2d4f88ee6037b8cc5d04a71a4462f13480")])]);
    ("extensions", Json.Object [])].

Definition TRANSACTION : string :=
  "AAAIAQDi1HwjSnS6M+WGvD73iEyUY2FRKNj0MlRp7+3SHZM3xCvMdB0AAAAAIFRgPKOstGBLCnbcyGoO" +:+
  "XugUYAWwVzNrpMjPCzXK4KQWAQCMoE29VLGwftex8rhIlOuFLFNfxLIJlHqGXoXA8hx6l+LMdB0AAAAA" +:+
  "IHbPucTRIEWgO6lzqukswPZ6i72IHEKK5LyM1l9HJNZNAQBthSeHDVK8Xr5/zp3JMZPLtG5uAoVgedTA" +:+
  "4pEnp+h8qUlUzRwAAAAAIACH0swYW/QfGCFczGnjAVPHPqZrQE5vfvJr36i6KVEFAQAC7W4K5vCwB+np" +:+
  "rjxcNlLiOQ7SIIfyCZjmj2qSis2iTsCuzBwAAAAAIAkSUkXOoeq52GNdhwpbs+jZqqrqPdmiN3oPw5Ez" +:+
  "DIanAQAIyFNGWD6OxiFIyXSxrNEcFG0npm+nImk6InUssXb1EZgx1hwAAAAAILhsjmMKyM0n75Cd7z6u" +:+
  "fH2LNhOMibFOGhNlLgV5RFuEAQC+Mh4kGkLwrw/11729oUQnt3xOmOreE6PcnuN6M68ZBcCuzBwAAAAA" +:+
  "IO2PQhSSqSAawCbRr005lfjBgFOqIHo4zb2GcQ/WCxAlAAgA+QKVAAAAAAAgjiAHD0X4HNSdVPpJtf2E" +:+
  "6W2uRc8kbvCHYkgEQ1B+w1MDAwEAAAUBAQABAgABAwABBAABBQACAQAAAQEGAAEBAgEAAQcAHrfFfj8r" +:+
  "0Pxsudz/0UPqlX5NmPgFw1hzP3be4GZ/4LEB5XXrONxGw0qOUsq3yNKeUhOCOgCIwaa4pswKaer66EKq" +:+
  "PGwdAAAAACBrOIN4poutFUmHfB6FbFJu8GgXoPPTGQWREqFpPfvO1B63xX4/K9D8bLnc/9FD6pV+TZj4" +:+
  "BcNYcz923uBmf+Cx7gIAAAAAAABg4xYAAAAAAAA=".

Definition SUI_EXACT_JSON : Value :=
  Json.Object [("signature", Str "99X8xzbQkOBY3yUnaeCvDslpGdMfB81aqEf7QQC8RhXJ6rripVz2Z21Vboc/CAmodHZkcDjiraFbJlzqQJKkBQ==");
          ("transaction", Str TRANSACTION)].

Definition PAYLOAD_SUI_JSON : Value :=
  Json.Object [("x402Version", Number "2");
    ("resource", Json.Object [("url", Str "https://api.example.com/resource");
      ("description", Str "Access to protected content");
      ("mimeType", Str "application/json")]);
    ("accepted", Json.Object [("scheme", Str "exact");
      ("network", Str "sui:mainnet");
      ("amount", Str "10000000");
      ("asset", Str "0x2::sui::SUI");
      ("payTo", Str "0x1eb7c57e3f2bd0fc6cb9dcffd143ea957e4d98f805c358733f76dee0667fe0b1");
      ("maxTimeoutSeconds", Number "60");
      ("extra", Json.Object [])]);
    ("payload", SUI_EXACT_JSON)].

Definition SETTLEMENT_JSON : Value :=
  Json.Object [("success", Bool true);
    ("transaction", Str "0x1234567890abcdef1234567890abcdef1234567890abcdef1234567890abcdef");
    ("network", Str "eip155:84532");
    ("payer", Str "0x857b06519E91e3A54538791bDbb0E22373e36b66")].

(** Read as [T] and written again, the document is unchanged. *)
Definition assert_roundtrip {T} (of_json : Value → option T) (json_of : T → Value) (raw : Value) : bool :=
  match of_json raw with Some t => value_eqb (json_of t) raw | None => false end.

Definition spec_payment_required_roundtrips : bool :=
  assert_roundtrip required_of_json json_of_required PAYMENT_REQUIRED_JSON.
Definition spec_payment_payload_evm_roundtrips : bool :=
  assert_roundtrip payload_of_json json_of_payload PAYLOAD_EVM_JSON.
Definition spec_payment_payload_sui_roundtrips : bool :=
  assert_roundtrip payload_of_json json_of_payload PAYLOAD_SUI_JSON.
Definition spec_sui_exact_payload_roundtrips : bool :=
  assert_roundtrip sui_payload_of_json json_of_sui_payload SUI_EXACT_JSON.
Definition spec_settlement_response_roundtrips : bool :=
  assert_roundtrip settlement_of_json json_of_settlement SETTLEMENT_JSON.

Definition priced (station : option string) : PaymentConfig :=
  {| scheme := "exact"; network := "sui:testnet"; amount := "1000"; asset := "0xa1::usdc::USDC";
     asset_decimals := DEFAULT_ASSET_DECIMALS; pay_to := "0xabc"; max_timeout_seconds := 60;
     description := "test"; service_name := None; tags := []; icon_url := None;
     gas_station := station |}.
Definition sponsorship_is_advertised_as_extra_gas_station : bool :=
  all [negb (is_some_b (pr_extra (from_config (priced None))));
       eqb_opt (pr_extra (from_config (priced (Some "https://gas.example.com"))) ≫= λ e,
                get e "gasStation" ≫= as_str) "https://gas.example.com"].

Definition session_extension_advertisement_carries_info_and_schema : bool :=
  let entry := get (session_extension_advertisement 1000 3600 "x-payment-session") SESSION_EXTENSION in
  let grant := session_extension_grant "tok" 1000 3600 in
  all [is_object (entry ≫= λ e, get e "info"); is_object (entry ≫= λ e, get e "schema");
       match entry ≫= λ e, get e "schema" ≫= λ s, get s "required" with
       | Some (Array [Str t]) => String.eqb t "token"
       | _ => false
       end;
       eqb_opt (session_token_from_extensions (Some grant)) "tok";
       negb (is_some_b (session_token_from_extensions None));
       negb (is_some_b (session_token_from_extensions (Some (Json.Object [("other", Json.Object [])]))))].

(** *** Fixtures *)

Definition requirements_for (network : string) : PaymentRequirements :=
  {| pr_scheme := "exact"; pr_network := network; pr_amount := "1000";
     pr_asset := "0xa1::usdc::USDC"; pr_pay_to := "0xabc"; pr_max_timeout_seconds := 60;
     pr_extra := None |}.
Definition requirements : PaymentRequirements := requirements_for "sui:testnet".
Definition resource : ResourceInfo :=
  {| ri_url := "https://api.example.com/graphql"; ri_description := Some "test";
     ri_mime_type := Some "application/json"; ri_service_name := None; ri_tags := None;
     ri_icon_url := None |}.
Definition signed (signature transaction : string) : Value :=
  Json.Object [("signature", Str signature); ("transaction", Str transaction)].
Definition payload_of (version : Z) (accepted : PaymentRequirements) (v : Value) : PaymentPayload :=
  {| pp_x402_version := version; pp_resource := Some resource; pp_accepted := accepted;
     pp_payload := v; pp_extensions := None |}.
Definition payload : PaymentPayload := payload_of X402_VERSION requirements (signed "c2ln" "dHg=").
Definition carrying (v : Value) : PaymentPayload := payload_of X402_VERSION requirements v.
Definition other : PaymentPayload := carrying (signed "c2ln" "b3RoZXI=").

Definition facilitator (m : VerificationMode) : option Facilitator :=
  result_ok (Facilitator.new (N := DemoNode.t) m "https://fullnode.testnet.sui.io:443" "sui:testnet").
Definition chain : Chain DemoNode.t := {| node := false; calls := [] |}.
Definition settle_with (m : VerificationMode) (p : PaymentPayload) (r : PaymentRequirements) :
  option (result SettlementResponse FacilitatorError) :=
  (λ f, (verify_and_settle f p r chain).1) <$> facilitator m.
Definition stub_settle := settle_with StubAcceptAll.
Definition refused_with (c : string) (o : option (result SettlementResponse FacilitatorError)) : bool :=
  match o with Some (Err e) => String.eqb (code e) c | _ => false end.

(** *** Identity *)

Definition payment_id_is_canonical_across_encoding_whitespace : bool :=
  let id := unwrap_or (payment_id payload) "" in
  all [is_some_b (payment_id payload);
       eqb_opt (payment_id (carrying (signed "c2ln" " dHg= "))) id;
       eqb_opt (payment_id (carrying (signed "c2ln" ("dHg=" +:+ String "010" "")))) id;
       negb (eqb_opt (payment_id other) id)].

Definition requirements_use_the_v2_field_names : bool :=
  let j := json_of_requirements requirements in
  all [is_some_b (get j "amount"); is_some_b (get j "payTo"); negb (is_some_b (get j "maxAmountRequired"));
       negb (is_some_b (get j "resource")); negb (is_some_b (get j "mimeType"))].

Definition sui_payload_from_the_spec_parses_into_the_typed_form : bool :=
  match payload_of_json PAYLOAD_SUI_JSON ≫= λ e, sui_payload_of_json (pp_payload e) with
  | Some p => all [starts_with "99X8xzbQ" (signature p); starts_with "AAAIAQDi" (transaction p)]
  | None => false
  end.

(** *** Headers *)

Definition header_roundtrips_through_base64_json : bool :=
  let required := payment_required "payment required" resource [requirements] in
  let encoded := encode_header (json_of_required required) in
  all [negb (has_char "," encoded);
       match decode_header required_of_json encoded with
       | Ok decoded => value_eqb (json_of_required decoded) (json_of_required required)
       | Err _ => false
       end].
Definition decode_rejects_non_base64 : bool :=
  match decode_header required_of_json "!!!not base64!!!" with Err (BadBase64 _) => true | _ => false end.
Definition decode_rejects_valid_base64_that_is_not_json : bool :=
  match decode_header required_of_json (b64_encode (as_bytes "plain text, not json")) with
  | Err (BadJson _) => true
  | _ => false
  end.

(** *** The facilitator *)

Definition stub_accepts_a_well_formed_payment : bool :=
  match stub_settle payload requirements with
  | Some (Ok receipt) =>
      all [sr_success receipt; eqb_opt (sr_amount receipt) "1000";
           String.eqb (sr_transaction receipt) "stub-not-settled-on-chain";
           negb (is_some_b (sr_error_reason receipt))]
  | _ => false
  end.

Definition payer_of (p : PaymentPayload) : option string :=
  match stub_settle p requirements with Some (Ok r) => sr_payer r | _ => None end.
Definition stub_payer_is_derived_from_the_transaction_not_supplied_by_the_client : bool :=
  all [is_some_b (payer_of payload); negb (bool_decide (payer_of payload = payer_of other));
       bool_decide (payer_of payload = payer_of payload)].

Definition echoing (scheme network amount asset pay_to : string) : PaymentPayload :=
  payload_of X402_VERSION
    {| pr_scheme := scheme; pr_network := network; pr_amount := amount; pr_asset := asset;
       pr_pay_to := pay_to; pr_max_timeout_seconds := 60; pr_extra := None |} (signed "c2ln" "dHg=").
Definition a_client_cannot_buy_access_on_its_own_terms : bool :=
  let asset := "0xa1::usdc::USDC" in
  all [refused_with "invalid_payment_requirements"
         (stub_settle (echoing "exact" "sui:testnet" "1" asset "0xabc") requirements);
       refused_with "invalid_payment_requirements"
         (stub_settle (echoing "exact" "sui:testnet" "1000" "0xdead::fake::FAKE" "0xabc") requirements);
       refused_with "invalid_payment_requirements"
         (stub_settle (echoing "exact" "sui:testnet" "1000" asset "0xattacker") requirements);
       refused_with "invalid_scheme"
         (stub_settle (echoing "upto" "sui:testnet" "1000" asset "0xabc") requirements);
       refused_with "invalid_network"
         (stub_settle (echoing "exact" "sui:mainnet" "1000" asset "0xabc") requirements)].

Definition a_caller_cannot_name_a_chain_this_facilitator_does_not_serve : bool :=
  refused_with "invalid_network"
    (stub_settle (echoing "exact" "sui:mainnet" "1000" "0xa1::usdc::USDC" "0xabc")
       (requirements_for "sui:mainnet")).

Definition stub_still_rejects_version_mismatch : bool :=
  refused_with "invalid_x402_version"
    (stub_settle (payload_of 1 requirements (signed "c2ln" "dHg=")) requirements).

Definition stub_rejects_payloads_that_are_not_the_sui_scheme_shape : bool :=
  refused_with "invalid_payload"
    (stub_settle (carrying (Json.Object [("transactionBytes", Str "dHg="); ("signatures", Array [Str "c2ln"]);
                                    ("payer", Str "0xclaimed")])) requirements).

Definition stub_rejects_empty_or_unsigned_transactions : bool :=
  all [match stub_settle (carrying (signed "c2ln" "   ")) requirements with
       | Some (Err EmptyTransaction) => true | _ => false end;
       match stub_settle (carrying (signed "" "dHg=")) requirements with
       | Some (Err MissingSignature) => true | _ => false end].

Definition sui_grpc_mode_never_accepts_a_stub_shaped_payload : bool :=
  all [match stub_settle payload requirements with Some (Ok _) => true | _ => false end;
       refused_with "invalid_payload" (settle_with SuiGrpc payload requirements)].

Definition failure_receipt_matches_the_transport_spec : bool :=
  match facilitator StubAcceptAll with
  | Some f =>
      let receipt := failure_receipt f (code (NetworkMismatch "sui:mainnet" "sui:testnet")) in
      all [negb (sr_success receipt); eqb_opt (sr_error_reason receipt) "invalid_network";
           String.eqb (sr_transaction receipt) ""; String.eqb (sr_network receipt) "sui:testnet"]
  | None => false
  end.

Definition SPEC_CODES : list string :=
  ["insufficient_funds"; "invalid_network"; "invalid_payload"; "invalid_payment_requirements";
   "invalid_scheme"; "unsupported_scheme"; "invalid_x402_version"; "invalid_transaction_state";
   "unexpected_verify_error"; "unexpected_settle_error"].
Definition every_error_maps_to_a_standard_spec_code : bool :=
  all ((λ e, bool_decide (code e ∈ SPEC_CODES)) <$>
    [VersionMismatch 1 2; SchemeMismatch "a" "b"; NetworkMismatch "a" "b"; AmountMismatch "a" "b";
     AssetMismatch "a" "b"; RecipientMismatch "a" "b"; MalformedPayload "exact" "x"; EmptyTransaction;
     MissingSignature; ReplayError 0; ReplayCacheUnavailable; Rpc "x"; InvalidSignature "x";
     SimulationFailed "x"; StaleInput "0x1" 1 (Some 2); SettlementFailed "x"; InvalidRequirements "x";
     AmountNotCredited "1000" "0" "0xabc" "0xa1::usdc::USDC"; AuthorizationExpired 0 60]).

Definition tests : list bool :=
  [spec_payment_required_roundtrips; spec_payment_payload_evm_roundtrips;
   spec_payment_payload_sui_roundtrips; spec_sui_exact_payload_roundtrips;
   spec_settlement_response_roundtrips; sponsorship_is_advertised_as_extra_gas_station;
   session_extension_advertisement_carries_info_and_schema;
   payment_id_is_canonical_across_encoding_whitespace; requirements_use_the_v2_field_names;
   sui_payload_from_the_spec_parses_into_the_typed_form; header_roundtrips_through_base64_json;
   decode_rejects_non_base64; decode_rejects_valid_base64_that_is_not_json;
   stub_accepts_a_well_formed_payment;
   stub_payer_is_derived_from_the_transaction_not_supplied_by_the_client;
   a_client_cannot_buy_access_on_its_own_terms;
   a_caller_cannot_name_a_chain_this_facilitator_does_not_serve;
   stub_still_rejects_version_mismatch; stub_rejects_payloads_that_are_not_the_sui_scheme_shape;
   stub_rejects_empty_or_unsigned_transactions; sui_grpc_mode_never_accepts_a_stub_shaped_payload;
   failure_receipt_matches_the_transport_spec; every_error_maps_to_a_standard_spec_code].
End WireTests.

Lemma wire_tests_pass : all WireTests.tests = true.
Proof. vm_compute. reflexivity. Qed.

(** ** [sui.rs] *)

Module SuiTests.

Definition mainnet_terms_served_by_a_testnet_node_is_refused : bool :=
  match check_chain "mainnet" (Some "testnet") with
  | Err (ChainMismatch r c) =>
      let msg := error_text (ChainMismatch r c) in
      all [contains "fullnode reports" msg; contains "sui_chain" msg]
  | _ => false
  end.
Definition the_reverse_mismatch_is_refused_too : bool := is_err (check_chain "testnet" (Some "mainnet")).
Definition says (c : ChainCheck) (r : result ChainCheck FacilitatorError) : bool :=
  match r, c with Ok Matches, Matches | Ok NotReported, NotReported => true | _, _ => false end.
Definition a_matching_chain_passes : bool := says Matches (check_chain "testnet" (Some "testnet")).
Definition matching_ignores_case_and_surrounding_whitespace : bool :=
  all [says Matches (check_chain "testnet" (Some "  Testnet "));
       says Matches (check_chain " Mainnet" (Some "mainnet"))].
Definition the_caip2_spelling_is_not_accepted_as_a_match : bool :=
  is_err (check_chain "sui:testnet" (Some "testnet")).
Definition a_node_that_reports_no_chain_does_not_block_startup : bool :=
  all [says NotReported (check_chain "testnet" None); says NotReported (check_chain "testnet" (Some "   "))].

Definition requirements : PaymentRequirements :=
  {| pr_scheme := "exact"; pr_network := "sui:testnet"; pr_amount := "1000";
     pr_asset := "0xa1::usdc::USDC"; pr_pay_to := "0xmerchant"; pr_max_timeout_seconds := 60;
     pr_extra := None |}.
Definition change (address coin_type amount : string) : BalanceChange :=
  mkChange (Some address) (Some coin_type) (Some amount).
Definition credits (changes : list BalanceChange) : bool := is_ok (assert_credits changes requirements).
Definition not_credited (changes : list BalanceChange) : bool :=
  match assert_credits changes requirements with Err (AmountNotCredited _ _ _ _) => true | _ => false end.

Definition credits_the_exact_amount_to_the_right_address_and_asset : bool :=
  credits [change "0xpayer" "0xa1::usdc::USDC" "-1000"; change "0xmerchant" "0xa1::usdc::USDC" "1000"].
Definition rejects_an_underpayment : bool := not_credited [change "0xmerchant" "0xa1::usdc::USDC" "999"].
Definition rejects_an_overpayment_too : bool :=
  negb (credits [change "0xmerchant" "0xa1::usdc::USDC" "1001"]).
Definition rejects_payment_to_the_wrong_address : bool :=
  not_credited [change "0xattacker" "0xa1::usdc::USDC" "1000"].
Definition rejects_payment_in_the_wrong_asset : bool :=
  negb (credits [change "0xmerchant" "0xdead::fake::FAKE" "1000"]).
Definition sums_multiple_credits_to_the_same_recipient : bool :=
  credits [change "0xmerchant" "0xa1::usdc::USDC" "600"; change "0xmerchant" "0xa1::usdc::USDC" "400"].
Definition rejects_when_the_recipient_is_credited_nothing : bool := negb (credits []).

Definition tests : list bool :=
  [mainnet_terms_served_by_a_testnet_node_is_refused; the_reverse_mismatch_is_refused_too;
   a_matching_chain_passes; matching_ignores_case_and_surrounding_whitespace;
   the_caip2_spelling_is_not_accepted_as_a_match;
   a_node_that_reports_no_chain_does_not_block_startup;
   credits_the_exact_amount_to_the_right_address_and_asset; rejects_an_underpayment;
   rejects_an_overpayment_too; rejects_payment_to_the_wrong_address;
   rejects_payment_in_the_wrong_asset; sums_multiple_credits_to_the_same_recipient;
   rejects_when_the_recipient_is_credited_nothing].
End SuiTests.

Lemma sui_tests_pass : all SuiTests.tests = true.
Proof. vm_compute. reflexivity. Qed.
