(* ===== verification/TestsGateway.v ===== *)
(** * The tests of the filters and of the facilitator's interface

    [src/auth.rs], [src/ext_proc.rs] and [src/facilitator_api.rs], in stub mode
    over the in-memory stores.  A test that runs several requests threads the
    world through them. *)

From Stdlib Require Import Ascii Strings.Byte.
From S2P Require Import Prelude RustStr Platform IpAddr Session Redis Config Json X402 Sui.
From S2P Require Import Facilitator Stores World Auth ExtProc FacilitatorApi Testing TestsWire.
From S2P Require Base64 RateLimit Breaker.
From stdpp Require Import options.
#[local] Open Scope Z_scope.
#[local] Existing Instance Base64.rfc_codecs.

(** ** The scaffolding of [auth.rs] *)

Module Support.

Definition no_change : PaymentOverride :=
  {| ov_pay_to := None; ov_amount := None; ov_asset := None; ov_asset_decimals := None;
     ov_description := None; ov_free_tier := None; ov_paid_tier := None |}.

Definition config_with (free_limit quota : Z) (pols : gmap string PaymentOverride) (wallet : string) :
  Config :=
  {| listen_addr := mkSocketAddr (V4 127 0 0 1) 50051; metrics_listen_addr := None;
     facilitator_api_listen_addr := None; sui_grpc_url := "https://fullnode.testnet.sui.io:443";
     sui_chain := "testnet"; verification_mode := StubAcceptAll;
     cfg_payment :=
       {| scheme := "exact"; network := "sui:testnet"; amount := "1000"; asset := "0xa1::usdc::USDC";
          asset_decimals := DEFAULT_ASSET_DECIMALS; pay_to := wallet; max_timeout_seconds := 60;
          description := "test"; gas_station := None; service_name := None; tags := [];
          icon_url := None |};
     policies := pols; routes := []; cfg_free_tier := mkFreeTier free_limit 60;
     cfg_paid_tier := mkPaidTier quota 3600; store := mkStoreConfig Memory "";
     session_hmac_secret := repeat_str "cd" 32 |}.

Definition stub : Facilitator := mkFacilitator StubAcceptAll "sui:testnet" false.
Definition app_state_with_policies (free_limit quota : Z) (pols : gmap string PaymentOverride) : App :=
  {| config := config_with free_limit quota pols "0xmerchant"; facilitator := stub |}.
Definition app_state (free_limit quota : Z) : App := app_state_with_policies free_limit quota ∅.

Abbreviation W := (World (SessionStore Db.t) (RateLimiter Db.t) DemoNode.t).

(** The stores of a fresh service; the clock stands still. *)
Definition fresh_world (key : bytes) : W :=
  {| w_clock := λ _, 1700000000; w_tick := 0; w_entropy := λ n, replicate 16 (Base64.octet (N.of_nat n));
     w_draws := 0; w_breaker := Breaker.new; w_sessions := MemorySessions (Session.new key 3600);
     w_limiter := MemoryLimiter RateLimit.new; w_chain := {| node := false; calls := [] |};
     w_metrics := [] |}.
Definition world : W := fresh_world (replicate 32 xcd).
Definition live_sessions (w : W) : nat :=
  match w_sessions w with MemorySessions s => store_len s | RedisSessions _ => 0%nat end.
End Support.

(** ** [auth.rs] *)

Module AuthTests.
Import Support.

Definition PAYER : string := "0xdeadbeef".
Definition PATH : string := "/sui.rpc.v2.LedgerService/GetServiceInfo".
Definition RESOURCE_URL : string :=
  "https://api.example.com/sui.rpc.v2.LedgerService/GetServiceInfo".

Definition test_resource : ResourceInfo :=
  {| ri_url := RESOURCE_URL; ri_description := Some "test"; ri_mime_type := Some "application/json";
     ri_service_name := None; ri_tags := None; ri_icon_url := None |}.
Definition ip : option IpAddr := Some (V4 10 0 0 1).

(** The payload of the tests, with what they change in it. *)
Definition payment_header_with (network amount transaction : string) (extensions : option Value) :
  string :=
  encode_header (json_of_payload
    {| pp_x402_version := X402_VERSION; pp_resource := Some test_resource;
       pp_accepted := {| pr_scheme := "exact"; pr_network := network; pr_amount := amount;
                         pr_asset := "0xa1::usdc::USDC"; pr_pay_to := "0xmerchant";
                         pr_max_timeout_seconds := 60; pr_extra := None |};
       pp_payload := Json.Object [("signature", Str "c2ln"); ("transaction", Str transaction)];
       pp_extensions := extensions |}).
Definition payment_header : string := payment_header_with "sui:testnet" "1000" "dHg=" None.

Definition headers (pairs : list (string * string)) : Headers := list_to_map pairs.
Definition paying (h : string) : Headers := headers [(HEADER_PAYMENT_SIGNATURE, h)].
Definition holding (token : string) : Headers := headers [(HEADER_PAYMENT_SESSION, token)].

(** [decide] on the path and resource of the tests. *)
Definition ask (a : App) (h : Headers) (client : option IpAddr) (policy : option string) :
  M W (option Decision) :=
  decide a {| Auth.headers := Some h; client_ip := client; path := PATH; policy := policy;
              resource_url := RESOURCE_URL; settle_policy := Immediate |}.

Definition is_free (d : option Decision) : bool :=
  match d with Some (Allow Free _ _ _ _ _) => true | _ => false end.
Definition is_paid (d : option Decision) : bool :=
  match d with Some (Allow Paid _ _ _ _ _) => true | _ => false end.
Definition is_denied (d : option Decision) : bool :=
  match d with Some (Deny _ _ _) => true | _ => false end.
Definition token_of (d : option Decision) : option string :=
  match d with Some (Allow _ _ t _ _ _) => t | _ => None end.
Definition meter_of (d : option Decision) : Meter :=
  match d with Some (Allow _ _ _ _ _ m) | Some (Deny _ _ m) => m | None => MeterUnknown end.
Definition challenge_of (d : option Decision) : option PaymentRequired :=
  match d with Some (Deny c _ _) => Some c | _ => None end.
Definition receipt_of (d : option Decision) : option SettlementResponse :=
  match d with Some (Deny _ r _) => r | _ => None end.
Definition free_is (remaining limit : Z) (m : Meter) : bool :=
  match m with MeterFree r l _ => (r =? remaining) && (l =? limit) | _ => false end.
Definition says (what : string) (d : option Decision) : bool :=
  match challenge_of d ≫= rq_error with Some e => contains what e | None => false end.
Definition reason_is (why : string) (d : option Decision) : bool :=
  match receipt_of d with Some r => eqb_opt (sr_error_reason r) why | None => false end.

Definition anonymous_request_under_the_limit_is_free_tier : bool := from world
  (d <-- ask (app_state 5 10) ∅ ip None ;;;
   ret match d with Some (Allow Free None _ _ _ _) => true | _ => false end).

(** Drive one anonymous request and return the meter it reported. *)
Definition free_meter (a : App) (policy : option string) : M W Meter :=
  d <-- ask a ∅ ip policy ;;; ret (meter_of d).

Definition the_free_meter_counts_down_and_survives_the_wall : bool := from world
  (let a := app_state 3 10 in
   x <-- free_meter a None ;;; y <-- free_meter a None ;;; z <-- free_meter a None ;;;
   u <-- free_meter a None ;;;
   ret (all [free_is 2 3 x; free_is 1 3 y; free_is 0 3 z; free_is 0 3 u;
             match u with MeterFree _ _ reset => 0 <? reset | _ => false end])).

Definition tiered_auth : App :=
  app_state_with_policies 9 77
    {[ "cheap" := {| ov_pay_to := None; ov_amount := Some "10"; ov_asset := None;
                     ov_asset_decimals := None; ov_description := None;
                     ov_free_tier := Some (mkFreeTier 2 60);
                     ov_paid_tier := Some (mkPaidTier 500 600) |};
       "pricey" := {| ov_pay_to := None; ov_amount := Some "5000"; ov_asset := None;
                      ov_asset_decimals := None; ov_description := None;
                      ov_free_tier := Some (mkFreeTier 0 60); ov_paid_tier := None |} ]}.

Definition each_policy_meters_its_own_free_allowance : bool := from world
  (a <-- free_meter tiered_auth (Some "cheap") ;;; b <-- free_meter tiered_auth (Some "cheap") ;;;
   c <-- free_meter tiered_auth (Some "pricey") ;;; d <-- free_meter tiered_auth None ;;;
   ret (all [free_is 1 2 a; free_is 0 2 b; free_is 0 0 c; free_is 8 9 d])).

Definition price_of (d : option Decision) : option string :=
  c ← challenge_of d; pr_amount <$> head (rq_accepts c).
Definition advertised (d : option Decision) (field : string) : option Value :=
  c ← challenge_of d; e ← rq_extensions c; s ← get e SESSION_EXTENSION; i ← get s "info"; get i field.
Definition advertises (d : option Decision) (field : string) (v : Value) : bool :=
  match advertised d field with Some x => value_eqb x v | None => false end.

Definition a_challenge_advertises_the_session_its_own_policy_sells : bool := from world
  (d <-- ask tiered_auth ∅ ip (Some "pricey") ;;;
   times 2 (free_meter tiered_auth (Some "cheap")) ;;;
   e <-- ask tiered_auth ∅ ip (Some "cheap") ;;;
   ret (all [eqb_opt (price_of d) "5000"; advertises d "quota" (Number "77");
             eqb_opt (price_of e) "10"; advertises e "quota" (Number "500");
             advertises e "durationSeconds" (Number "600")])).

Definition a_meter_renders_only_the_headers_for_its_own_tier : bool :=
  all [bool_decide (meter_headers (MeterFree 4 5 12) =
         [(HEADER_FREE_REMAINING, "4"); (HEADER_FREE_LIMIT, "5"); (HEADER_FREE_RESET, "12")]);
       bool_decide (meter_headers (MeterSession 994 1000 3492) =
         [(HEADER_SESSION_REMAINING, "994"); (HEADER_SESSION_QUOTA, "1000");
          (HEADER_SESSION_EXPIRES, "3492")]);
       bool_decide (meter_headers MeterUnknown = [])].

Definition exhausting_the_free_tier_yields_a_402_challenge_not_a_429 : bool := from world
  (let a := app_state 1 10 in
   x <-- ask a ∅ ip None ;;; y <-- ask a ∅ ip None ;;;
   ret (all [is_free x;
             match challenge_of y with
             | Some c =>
                 all [rq_x402_version c =? X402_VERSION; (length (rq_accepts c) =? 1)%nat;
                      bool_decide (pr_pay_to <$> rq_accepts c = ["0xmerchant"]);
                      bool_decide (pr_network <$> rq_accepts c = ["sui:testnet"]);
                      String.eqb (ri_url (rq_resource c)) RESOURCE_URL]
             | None => false
             end])).

Definition payment_unlocks_the_paid_tier_and_mints_a_session : bool := from world
  (d <-- ask (app_state 0 10) (paying payment_header) ip None ;;;
   ret match d with
       | Some (Allow Paid payer token (Some s) _ _) =>
           all [is_some_b payer; is_some_b token; is_some_b (sr_payer s)]
       | _ => false
       end).

(** Pay, then present the session that was minted. *)
Definition pay_then (a : App) (bought : option string) (k : string → M W bool) : M W bool :=
  d <-- ask a (paying payment_header) ip bought ;;;
  match token_of d with Some token => k token | None => ret false end.

Definition issued_session_token_is_accepted_on_the_next_request : bool := from world
  (let a := app_state 0 10 in
   pay_then a None (λ token, d <-- ask a (holding token) ip None ;;;
     ret (is_paid d && negb (is_some_b (token_of d))))).

Definition session_falls_back_to_free_tier_once_quota_is_spent : bool := from world
  (let a := app_state 5 1 in
   pay_then a None (λ token,
     x <-- ask a (holding token) ip None ;;; y <-- ask a (holding token) ip None ;;;
     ret (is_paid x && is_free y))).

Definition forged_session_token_does_not_grant_paid_tier : bool := from world
  (let forged := PAYER +:+ ":99999999999:" +:+ repeat_str "aa" 16 +:+ ":" +:+ repeat_str "bb" 32 in
   d <-- ask (app_state 5 10) (holding forged) ip None ;;; ret (is_free d)).

Definition malformed_payment_header_is_denied_with_a_challenge : bool := from world
  (d <-- ask (app_state 5 10) (paying "!!!not-base64!!!") ip None ;;;
   ret (is_denied d && says "malformed" d)).

Definition payment_for_the_wrong_network_is_denied : bool := from world
  (d <-- ask (app_state 5 10) (paying (payment_header_with "sui:mainnet" "1000" "dHg=" None)) ip None ;;;
   ret (is_denied d && says "network" d)).

Definition a_session_bought_on_one_policy_does_not_unlock_another : bool := from world
  (let a := app_state 0 10 in
   pay_then a (Some "cheap") (λ token,
     x <-- ask a (holding token) ip (Some "cheap") ;;;
     y <-- ask a (holding token) ip (Some "expensive") ;;;
     ret (is_paid x && is_denied y))).

Definition the_same_payment_cannot_mint_two_sessions : bool := from world
  (let a := app_state 0 10 in
   x <-- ask a (paying payment_header) ip None ;;; y <-- ask a (paying payment_header) ip None ;;;
   ret (all [is_paid x; is_denied y; reason_is "invalid_transaction_state" y])).

Definition the_replay_claim_outlives_the_advertised_window : bool :=
  all [60 <? replay_ttl 60; 300 <=? replay_ttl 1; 300 <=? replay_ttl 0].

Definition a_different_payment_is_not_treated_as_a_replay : bool := from world
  (let a := app_state 0 10 in
   x <-- ask a (paying payment_header) ip None ;;;
   y <-- ask a (paying (payment_header_with "sui:testnet" "1000" "b3RoZXI=" None)) ip None ;;;
   ret (is_paid x && is_paid y)).

Definition a_rejected_payment_is_distinguishable_from_never_having_paid : bool := from world
  (let a := app_state 0 10 in
   x <-- ask a ∅ ip None ;;;
   y <-- ask a (paying (payment_header_with "sui:testnet" "1" "dHg=" None)) ip None ;;;
   ret (all [is_denied x; negb (is_some_b (receipt_of x)); is_denied y;
             reason_is "invalid_payment_requirements" y;
             match receipt_of y with
             | Some r => negb (sr_success r) && String.eqb (sr_transaction r) ""
             | None => false
             end])).

Definition a_malformed_payment_still_reports_an_outcome : bool := from world
  (d <-- ask (app_state 0 10) (paying "!!!not-base64!!!") ip None ;;;
   ret (is_denied d && reason_is "invalid_payload" d)).

Definition refusal (error : string) (receipt : option SettlementResponse) : Decision :=
  Deny (payment_required error test_resource []) receipt MeterUnknown.
Definition has_header (name : string) (l : list HeaderOption) : bool :=
  existsb (λ h, String.eqb (h_name h) name) l.
Definition header_value (name : string) (l : list HeaderOption) : option string :=
  h_value <$> List.find (λ h, String.eqb (h_name h) name) l.

Definition denial_with_a_receipt_carries_payment_response : bool :=
  let receipt := {| sr_success := false; sr_error_reason := Some "invalid_payload"; sr_payer := None;
                    sr_transaction := ""; sr_network := "sui:testnet"; sr_amount := None;
                    sr_extensions := None |} in
  match decision_to_response (refusal "nope" (Some receipt)) ip false with
  | CheckDenied _ hs _ _ => has_header HEADER_PAYMENT_RESPONSE hs && has_header HEADER_PAYMENT_REQUIRED hs
  | _ => false
  end.

Definition the_challenge_advertises_the_session_extension : bool := from world
  (d <-- ask (app_state 0 10) ∅ ip None ;;;
   let entry := c ← challenge_of d; e ← rq_extensions c; get e SESSION_EXTENSION in
   ret (all [is_object (entry ≫= λ e, get e "info"); is_object (entry ≫= λ e, get e "schema");
             advertises d "header" (Str HEADER_PAYMENT_SESSION); advertises d "quota" (Number "10")])).

Definition a_settled_payment_returns_the_session_through_extensions : bool := from world
  (d <-- ask (app_state 0 10) (paying payment_header) ip None ;;;
   ret match d with
       | Some (Allow _ _ (Some token) (Some s) _ _) =>
           eqb_opt (session_token_from_extensions (sr_extensions s)) token
       | _ => false
       end).

Definition a_session_echoed_through_extensions_is_honored : bool := from world
  (let a := app_state 0 10 in
   pay_then a None (λ token,
     let echoed := payment_header_with "sui:testnet" "1000" "dHg="
                     (Some (session_extension_grant token 10 3600)) in
     d <-- ask a (paying echoed) ip None ;;; ret (is_paid d && negb (is_some_b (token_of d))))).

Definition missing_client_address_fails_closed : bool := from world
  (d <-- ask (app_state 100 10) ∅ None None ;;; ret (is_denied d)).

(** *** Framing *)

Definition allowed_as (tier : Tier) (payer token : option string) (s : option SettlementResponse) :
  CheckResponse := decision_to_response (Allow tier payer token s None MeterUnknown) ip false.

Definition overwrites (name : string) (l : list HeaderOption) : bool :=
  match List.find (λ h, String.eqb (h_name h) name) l with
  | Some (mkHeaderOption _ _ (Some OverwriteIfExistsOrAdd)) => true
  | _ => false
  end.
Definition tier_and_payer_headers_overwrite_client_supplied_values : bool :=
  match allowed_as Paid (Some PAYER) None None with
  | CheckOk hs _ _ _ => overwrites HEADER_TIER hs && overwrites HEADER_PAYER hs
  | _ => false
  end.

Definition client_payment_headers_are_stripped_before_the_backend : bool :=
  match allowed_as Free None None None with
  | CheckOk _ removed _ _ =>
      bool_decide (HEADER_PAYMENT_SIGNATURE ∈ removed) && bool_decide (HEADER_PAYMENT_SESSION ∈ removed)
  | _ => false
  end.

Definition new_session_is_returned_to_the_client_as_a_response_header : bool :=
  let s := {| sr_success := true; sr_error_reason := None; sr_payer := Some PAYER;
              sr_transaction := "0xdigest"; sr_network := "sui:testnet"; sr_amount := Some "1000";
              sr_extensions := None |} in
  match allowed_as Paid (Some PAYER) (Some "token-value") (Some s) with
  | CheckOk _ _ hs _ => has_header HEADER_PAYMENT_SESSION hs && has_header HEADER_PAYMENT_RESPONSE hs
  | _ => false
  end.

Definition denial_uses_http_402_and_carries_the_challenge_header : bool :=
  match decision_to_response (refusal "nope" None) ip false with
  | CheckDenied status hs body _ =>
      all [status =? 402; has_header HEADER_PAYMENT_REQUIRED hs; is_some_b body]
  | _ => false
  end.

Definition grpc_denial_uses_a_trailers_only_response_not_http_402 : bool :=
  match decision_to_response (refusal "free tier exhausted" None) ip true with
  | CheckDenied status hs body _ =>
      all [status =? 200; eqb_opt (header_value "grpc-status" hs) "8";
           eqb_opt (header_value "grpc-message" hs) "free tier exhausted";
           eqb_opt (header_value "content-type" hs) "application/grpc";
           has_header HEADER_PAYMENT_REQUIRED hs; negb (is_some_b body)]
  | _ => false
  end.

Definition http_denial_is_unchanged_by_the_grpc_path : bool :=
  match decision_to_response (refusal "nope" None) ip false with
  | CheckDenied status _ body _ => (status =? 402) && is_some_b body
  | _ => false
  end.

Definition typed (ct : string) : option Headers := Some (headers [("content-type", ct)]).
Definition grpc_requests_are_detected_by_content_type : bool :=
  all ((is_grpc_request ∘ typed <$>
          ["application/grpc"; "application/grpc+proto"; "application/grpc-web";
           "application/grpc-web+proto"; "application/grpc-web-text"]) ++
       [negb (is_grpc_request (typed "application/json")); negb (is_grpc_request (Some ∅))]).

(** Here the accented letter of the test is its two bytes. *)
Definition grpc_message_escapes_non_ascii_and_percent : bool :=
  let cafe := "caf" +:+ String "195" (String "169" "") in
  all [String.eqb (grpc_message "plain text") "plain text";
       String.eqb (grpc_message "100%") "100%25"; String.eqb (grpc_message cafe) "caf%C3%A9";
       String.eqb (grpc_message ("a" +:+ String "010" "b")) "a%0Ab"].

Definition allow_sets_rate_limit_metadata_for_envoy_descriptors : bool :=
  match allowed_as Paid (Some PAYER) None None with
  | CheckOk _ _ _ metadata =>
      let field k := snd <$> List.find (λ kv, String.eqb kv.1 k) metadata in
      all [eqb_opt (field "tier") "paid"; eqb_opt (field "payer") PAYER; is_some_b (field "source_ip")]
  | _ => false
  end.

Definition header_lookup_is_case_insensitive_and_ignores_blanks : bool :=
  let view := Some (headers [("X-Payment-Session", "abc"); ("x-x402-payer", "   ")]) in
  all [eqb_opt (header_get view "x-payment-session") "abc";
       negb (is_some_b (header_get view "x-x402-payer")); negb (is_some_b (header_get view "absent"))].

Definition tests : list bool :=
  [anonymous_request_under_the_limit_is_free_tier; the_free_meter_counts_down_and_survives_the_wall;
   each_policy_meters_its_own_free_allowance;
   a_challenge_advertises_the_session_its_own_policy_sells;
   a_meter_renders_only_the_headers_for_its_own_tier;
   exhausting_the_free_tier_yields_a_402_challenge_not_a_429;
   payment_unlocks_the_paid_tier_and_mints_a_session;
   issued_session_token_is_accepted_on_the_next_request;
   session_falls_back_to_free_tier_once_quota_is_spent;
   forged_session_token_does_not_grant_paid_tier;
   malformed_payment_header_is_denied_with_a_challenge; payment_for_the_wrong_network_is_denied;
   a_session_bought_on_one_policy_does_not_unlock_another; the_same_payment_cannot_mint_two_sessions;
   the_replay_claim_outlives_the_advertised_window; a_different_payment_is_not_treated_as_a_replay;
   a_rejected_payment_is_distinguishable_from_never_having_paid;
   a_malformed_payment_still_reports_an_outcome; denial_with_a_receipt_carries_payment_response;
   the_challenge_advertises_the_session_extension;
   a_settled_payment_returns_the_session_through_extensions;
   a_session_echoed_through_extensions_is_honored; missing_client_address_fails_closed;
   tier_and_payer_headers_overwrite_client_supplied_values;
   client_payment_headers_are_stripped_before_the_backend;
   new_session_is_returned_to_the_client_as_a_response_header;
   denial_uses_http_402_and_carries_the_challenge_header;
   grpc_denial_uses_a_trailers_only_response_not_http_402;
   http_denial_is_unchanged_by_the_grpc_path; grpc_requests_are_detected_by_content_type;
   grpc_message_escapes_non_ascii_and_percent;
   allow_sets_rate_limit_metadata_for_envoy_descriptors;
   header_lookup_is_case_insensitive_and_ignores_blanks].
End AuthTests.

Lemma auth_tests_pass : all AuthTests.tests = true.
Proof. vm_compute. reflexivity. Qed.

(** ** [ext_proc.rs] *)

Module ExtProcTests.
Import Support.

Definition headers (pairs : list (string * string)) : Headers := list_to_map pairs.
Definition typed (ct : string) : option Headers := Some (headers [("content-type", ct)]).

Definition a_paid_grpc_stream_is_bounded_by_what_the_session_has_left : bool :=
  eqb_opt (grpc_timeout_for (MeterSession 10 100 42) (typed "application/grpc")) "42S".
Definition a_non_grpc_request_gets_no_timeout : bool :=
  negb (is_some_b (grpc_timeout_for (MeterSession 10 100 42) (typed "application/json"))).
Definition a_free_tier_stream_keeps_the_routes_own_timeout : bool :=
  negb (is_some_b (grpc_timeout_for (MeterFree 4 5 30) (typed "application/grpc"))).
Definition an_exhausted_session_still_yields_a_positive_timeout : bool :=
  eqb_opt (grpc_timeout_for (MeterSession 0 100 0) (typed "application/grpc")) "1S".

Definition resource_url_prefers_what_the_edge_proxy_saw : bool :=
  String.eqb (ext_resource_url
    (headers [(":authority", "127.0.0.1:10000"); (":scheme", "http");
              ("x-forwarded-host", "x402.suisonar.dev"); ("x-forwarded-proto", "https")]) "/graphql")
    "https://x402.suisonar.dev/graphql".
Definition resource_url_falls_back_to_authority_with_no_proxy_in_front : bool :=
  String.eqb (ext_resource_url (headers [(":authority", "localhost:10000"); (":scheme", "http")])
    "/graphql") "http://localhost:10000/graphql".
Definition resource_url_assumes_https_when_no_scheme_is_given : bool :=
  String.eqb (ext_resource_url (headers [(":authority", "example.com")]) "/x") "https://example.com/x".
Definition resource_url_degrades_to_a_path_rather_than_a_malformed_url : bool :=
  String.eqb (ext_resource_url ∅ "/graphql") "/graphql".

Definition identity_headers_overwrite_rather_than_append : bool :=
  match h_action (ExtProc.header HEADER_TIER "free") with
  | Some OverwriteIfExistsOrAdd => true
  | _ => false
  end.

Definition client_payment_headers_are_removed_before_the_upstream : bool :=
  match continue_with_removals [ExtProc.header HEADER_TIER "paid"]
          [HEADER_PAYMENT_SIGNATURE; HEADER_PAYMENT_SESSION] with
  | Some m => all [bool_decide (HEADER_PAYMENT_SIGNATURE ∈ remove_headers m);
                   bool_decide (HEADER_PAYMENT_SESSION ∈ remove_headers m)]
  | None => false
  end.

(** The text Envoy sends, with the policy in it. *)
Definition metadata_text (policy : string) : string :=
  "filter_metadata { key: " +:+ quoted "envoy.filters.http.ext_proc" +:+
  " value { fields { key: " +:+ quoted "x402_policy" +:+ " value { string_value: " +:+ quoted policy +:+
  " } } } } ".
Definition policy_is_parsed_out_of_envoy_text_format_metadata : bool :=
  all [eqb_opt (parse_policy_from_text_format (metadata_text "graphql")) "graphql";
       eqb_opt (parse_policy_from_text_format (metadata_text "grpc")) "grpc";
       negb (is_some_b (parse_policy_from_text_format ""));
       negb (is_some_b (parse_policy_from_text_format
              ("filter_metadata { key: " +:+ quoted "other" +:+ " }")));
       negb (is_some_b (parse_policy_from_text_format
              ("key: " +:+ quoted "x402_policy" +:+ " value { string_value: " +:+ quoted "" +:+ " }")))].

Definition only_2xx_justifies_charging : bool :=
  all ((is_success <$> ["200"; "204"; "299"]) ++
       (negb ∘ is_success <$> ["404"; "500"; "302"; ""; "not-a-status"])).

Definition attrs (address : string) : Attributes :=
  {[ "envoy.filters.http.ext_proc" := {[ "source.address" := PbString address ]} ]}.
Definition same_ip (a b : option IpAddr) : bool := is_some_b b && bool_decide (a = b).
Definition client_ip_is_read_from_the_source_address_attribute : bool :=
  all [same_ip (client_ip_from_attributes (attrs "10.0.0.1:54321")) (parse_ip "10.0.0.1");
       same_ip (client_ip_from_attributes (attrs "[::1]:54321")) (parse_ip "::1");
       negb (is_some_b (client_ip_from_attributes ∅));
       negb (is_some_b (client_ip_from_attributes (attrs "not-an-address")))].

Definition a_spoofed_x_forwarded_for_cannot_set_the_client_address : bool := from world
  (reply <-- handle_request_headers (app_state 100 10) StreamState_default
     (Some [(":path", "/graphql", ""); ("x-forwarded-for", "203.0.113.9", "")]) None None 0 ;;;
   ret match reply with Some (ImmediateReply _ _ _, _) => true | _ => false end).

Definition header_map_reads_raw_values_and_lowercases_keys : bool :=
  let parsed := header_map (Some [("X-Payment-Session", "", "tok"); (":status", "200", "")]) in
  all [eqb_opt (parsed !! "x-payment-session") "tok"; eqb_opt (parsed !! ":status") "200"].

Definition tests : list bool :=
  [a_paid_grpc_stream_is_bounded_by_what_the_session_has_left; a_non_grpc_request_gets_no_timeout;
   a_free_tier_stream_keeps_the_routes_own_timeout;
   an_exhausted_session_still_yields_a_positive_timeout; resource_url_prefers_what_the_edge_proxy_saw;
   resource_url_falls_back_to_authority_with_no_proxy_in_front;
   resource_url_assumes_https_when_no_scheme_is_given;
   resource_url_degrades_to_a_path_rather_than_a_malformed_url;
   identity_headers_overwrite_rather_than_append;
   client_payment_headers_are_removed_before_the_upstream;
   policy_is_parsed_out_of_envoy_text_format_metadata; only_2xx_justifies_charging;
   client_ip_is_read_from_the_source_address_attribute;
   a_spoofed_x_forwarded_for_cannot_set_the_client_address;
   header_map_reads_raw_values_and_lowercases_keys].
End ExtProcTests.

Lemma ext_proc_tests_pass : all ExtProcTests.tests = true.
Proof. vm_compute. reflexivity. Qed.

(** ** [facilitator_api.rs] *)

Module ApiTests.
Import Support.

Definition fresh : W := fresh_world (replicate 32 x07).

Definition test_config : Config :=
  config_with 9 77
    {[ "cheap" := {| ov_pay_to := None; ov_amount := Some "10"; ov_asset := None;
                     ov_asset_decimals := None; ov_description := None;
                     ov_free_tier := Some (mkFreeTier 5 60); ov_paid_tier := None |};
       "pricey" := {| ov_pay_to := Some ("0x" +:+ repeat_str "2" 64); ov_amount := Some "5000";
                      ov_asset := None; ov_asset_decimals := None; ov_description := None;
                      ov_free_tier := None; ov_paid_tier := Some (mkPaidTier 50 900) |} ]}
    ("0x" +:+ repeat_str "1" 64).

Definition requirements : PaymentRequirements := WireTests.requirements.
Definition payload_with (amount pay_to : string) : PaymentPayload :=
  {| pp_x402_version := X402_VERSION; pp_resource := None;
     pp_accepted := {| pr_scheme := "exact"; pr_network := "sui:testnet"; pr_amount := amount;
                       pr_asset := "0xa1::usdc::USDC"; pr_pay_to := pay_to;
                       pr_max_timeout_seconds := 60; pr_extra := None |};
     pp_payload := WireTests.signed "c2ln" "dHg="; pp_extensions := None |}.
Definition payload : PaymentPayload := payload_with "1000" "0xabc".

(** What the handler is given once axum has read the body. *)
Definition request_of_version (version : Z) (p : PaymentPayload) : FacilitatorRequest :=
  mkFacilitatorRequest version p requirements.
Definition request_body (p : PaymentPayload) : FacilitatorRequest := request_of_version X402_VERSION p.

Definition verify_with (f : Facilitator) (r : FacilitatorRequest) : M W (ApiResponse VerifyResponse) :=
  api_verify f r.
Definition settle_body (r : FacilitatorRequest) : M W (ApiResponse SettlementResponse) :=
  api_settle stub r.
Definition valid (a : ApiResponse VerifyResponse) : bool :=
  match a with ApiOk v => vr_is_valid v | BadRequest _ _ => false end.

Definition verify_accepts_a_conformant_payment : bool := from fresh
  (a <-- verify_with stub (request_body payload) ;;;
   ret match a with
       | ApiOk v => all [vr_is_valid v; is_some_b (vr_payer v); negb (is_some_b (vr_invalid_reason v))]
       | BadRequest _ _ => false
       end).

Definition verify_reports_invalid_with_a_spec_code_but_still_returns_200 : bool := from fresh
  (a <-- verify_with stub (request_body (payload_with "1" "0xabc")) ;;;
   ret match a with
       | ApiOk v => negb (vr_is_valid v) && eqb_opt (vr_invalid_reason v) "invalid_payment_requirements"
       | BadRequest _ _ => false
       end).

Definition settle_returns_a_receipt_on_success : bool := from fresh
  (a <-- settle_body (request_body payload) ;;;
   ret match a with
       | ApiOk s => all [sr_success s; String.eqb (sr_network s) "sui:testnet";
                         String.eqb (sr_transaction s) "stub-not-settled-on-chain"]
       | BadRequest _ _ => false
       end).

Definition failed_with (why : string) (a : ApiResponse SettlementResponse) : bool :=
  match a with ApiOk s => negb (sr_success s) && eqb_opt (sr_error_reason s) why | _ => false end.
Definition settle_failure_is_a_receipt_not_an_http_error : bool := from fresh
  (a <-- settle_body (request_body (payload_with "1000" "0xattacker")) ;;;
   ret (failed_with "invalid_payment_requirements" a &&
        match a with ApiOk s => String.eqb (sr_transaction s) "" | _ => false end)).

Definition a_mismatched_envelope_version_is_a_400 : bool := from fresh
  (a <-- verify_with stub (request_of_version 1 payload) ;;;
   ret match a with BadRequest reason _ => String.eqb reason "invalid_x402_version" | _ => false end).

Definition settle_refuses_to_spend_the_same_payment_twice : bool := from fresh
  (a <-- settle_body (request_body payload) ;;; b <-- settle_body (request_body payload) ;;;
   ret (match a with ApiOk s => sr_success s | _ => false end &&
        failed_with "invalid_transaction_state" b)).

Definition verify_does_not_burn_the_authorization : bool := from fresh
  (a <-- verify_with stub (request_body payload) ;;; b <-- verify_with stub (request_body payload) ;;;
   ret (valid a && valid b)).

Definition policies_reports_the_resolved_table_not_the_raw_overrides : bool :=
  match policies_view test_config with
  | [cheap; pricey] =>
      all [String.eqb (pv_name cheap) "cheap"; String.eqb (pv_name pricey) "pricey";
           String.eqb (pv_amount cheap) "10"; String.eqb (pv_pay_to cheap) ("0x" +:+ repeat_str "1" 64);
           pv_free_requests cheap =? 5; pv_session_quota cheap =? 77;
           String.eqb (pv_amount pricey) "5000";
           String.eqb (pv_pay_to pricey) ("0x" +:+ repeat_str "2" 64); pv_free_requests pricey =? 9;
           pv_session_quota pricey =? 50; pv_session_duration_secs pricey =? 900]
  | _ => false
  end.

(** The handler is a function of the configuration: it has no store to spend. *)
Definition policies_costs_no_free_tier_request_to_read : bool :=
  all [(length (policies_view test_config) =? 2)%nat; (live_sessions fresh =? 0)%nat].

Definition supported_lists_scheme_network_and_extensions : bool :=
  let s := api_supported stub in
  match su_kinds s, su_extensions s with
  | [k], [e] =>
      all [String.eqb (sk_scheme k) "exact"; String.eqb (sk_network k) "sui:testnet";
           sk_x402_version k =? 2; String.eqb e "sui-x402-verifier.session.v1";
           bool_decide (su_signers s = ∅)]
  | _, _ => false
  end.

Definition sui_grpc_mode_reports_invalid_rather_than_verifying : bool := from fresh
  (a <-- verify_with (mkFacilitator SuiGrpc "sui:testnet" true) (request_body payload) ;;;
   ret match a with ApiOk v => negb (vr_is_valid v) | BadRequest _ _ => false end).

Definition tests : list bool :=
  [verify_accepts_a_conformant_payment; verify_reports_invalid_with_a_spec_code_but_still_returns_200;
   settle_returns_a_receipt_on_success; settle_failure_is_a_receipt_not_an_http_error;
   a_mismatched_envelope_version_is_a_400; settle_refuses_to_spend_the_same_payment_twice;
   verify_does_not_burn_the_authorization;
   policies_reports_the_resolved_table_not_the_raw_overrides;
   policies_costs_no_free_tier_request_to_read; supported_lists_scheme_network_and_extensions;
   sui_grpc_mode_reports_invalid_rather_than_verifying].
End ApiTests.

Lemma api_tests_pass : all ApiTests.tests = true.
Proof. vm_compute. reflexivity. Qed.
