(* ===== verification/TestsClient.v ===== *)
(** * The tests of the clients and of the metrics

    [src/payclient.rs], [src/bin/x402-demo.rs] and [src/metrics.rs]. *)

From Stdlib Require Import Ascii SpecFloat.
From S2P Require Import Prelude RustStr FloatText Json Testing.
From S2P Require PayClient Demo World Metrics.
From stdpp Require Import options.
#[local] Open Scope Z_scope.

(** ** [payclient.rs] *)

Module PayClientTests.
Import PayClient.

Definition FLOOR : Z := GASLESS_MINIMUM.
Definition skips (p : PaymentPath) (amount : Z) (f : Funding) (station : option string)
    (why : option Skipped) : bool := bool_decide (check p amount f station = why).

Definition a_wallet_holding_only_coin_objects_does_not_get_routed_to_gasless : bool :=
  let f := mkFunding 0 1000000 in
  all [skips Gasless FLOOR f None (Some (AddressBalanceShort 0 FLOOR)); skips CoinObject FLOOR f None None].
Definition a_funded_address_balance_takes_the_gasless_path : bool :=
  skips Gasless FLOOR (mkFunding FLOOR 0) None None.
Definition a_sub_cent_price_skips_gasless_even_with_a_full_address_balance : bool :=
  skips Gasless 10 (mkFunding u64_max 0) None (Some (BelowGaslessFloor 10 FLOOR)).
Definition sponsorship_reports_whether_it_was_offered_or_merely_unimplemented : bool :=
  let f := mkFunding 0 0 in
  all [skips Sponsored FLOOR f None (Some NoGasStationAdvertised);
       skips Sponsored FLOOR f (Some "https://gas.example.com") (Some SponsorshipNotImplemented)].

Definition reasons (f : Funding) : list (PaymentPath * Skipped) :=
  omap (λ p, pair p <$> check p FLOOR f None) DEFAULT_PAYMENT_PATHS.
Definition exhausting_every_path_names_all_of_them_and_why : bool :=
  let f := mkFunding 0 5 in
  let msg := no_path_available "0x2::usdc::USDC" FLOOR f (reasons f) in
  all [(length (reasons f) =? 3)%nat; contains "gasless" msg; contains "sponsored" msg;
       contains "coin-object" msg; contains "send_funds" msg].
Definition an_address_holding_none_of_the_coin_is_told_to_fund_it : bool :=
  let f := mkFunding 0 0 in
  contains "faucet.circle.com" (no_path_available "0x2::usdc::USDC" FLOOR f (reasons f)).

Definition payment_paths_parse_from_the_cli_spelling : bool :=
  all [bool_decide (parse_list "gasless,sponsored,coin-object" = Ok DEFAULT_PAYMENT_PATHS);
       bool_decide (parse_list " coin-object " = Ok [CoinObject]); is_err (parse_list "gasless,teleport")].

Definition terms (extra : option Value) : wire.PaymentRequirements :=
  {| wire.scheme := "exact"; wire.network := "sui:testnet"; wire.amount := "10000";
     wire.asset := "0x2::usdc::USDC"; wire.pay_to := "0x1111"; wire.max_timeout_seconds := 60;
     wire.extra := extra |}.
Definition a_gas_station_is_read_from_extra_only_when_present : bool :=
  all [bool_decide (advertised_gas_station (terms None) = None);
       bool_decide (advertised_gas_station (terms (Some (Json.Object []))) = None);
       bool_decide (advertised_gas_station
         (terms (Some (Json.Object [("gasStation", Str "https://gas.example.com")])))
         = Some "https://gas.example.com")].

(** The phases read, each against the number it should be. *)
Definition phases_are (raw : string) (expected : list (string * string)) : bool :=
  let phases := parse_server_timing raw in
  (length phases =? length expected)%nat &&
  forallb (λ '((name, dur), (name', text)),
    String.eqb name name' && match parse_f64 text with Some x => SFeqb dur x | None => false end)
    (zip phases expected).

Definition server_timing_parses_the_gateways_phases : bool :=
  phases_are "x402-decide;dur=412.5, x402-settle;dur=1203.0"
    [("x402-decide", "412.5"); ("x402-settle", "1203.0")].
Definition server_timing_drops_metrics_it_cannot_read_rather_than_failing : bool :=
  phases_are ("cache;desc=" +:+ String "034" ("hit" +:+ String "034" ", x402-decide;dur=7, junk"))
    [("x402-decide", "7.0")].
Definition server_timing_of_an_empty_header_is_empty_not_an_error : bool := phases_are "" [].

Definition tests : list bool :=
  [a_wallet_holding_only_coin_objects_does_not_get_routed_to_gasless;
   a_funded_address_balance_takes_the_gasless_path;
   a_sub_cent_price_skips_gasless_even_with_a_full_address_balance;
   sponsorship_reports_whether_it_was_offered_or_merely_unimplemented;
   exhausting_every_path_names_all_of_them_and_why;
   an_address_holding_none_of_the_coin_is_told_to_fund_it; payment_paths_parse_from_the_cli_spelling;
   a_gas_station_is_read_from_extra_only_when_present; server_timing_parses_the_gateways_phases;
   server_timing_drops_metrics_it_cannot_read_rather_than_failing;
   server_timing_of_an_empty_header_is_empty_not_an_error].
End PayClientTests.

Lemma payclient_tests_pass : all PayClientTests.tests = true.
Proof. vm_compute. reflexivity. Qed.

(** ** [x402-demo.rs] *)

Module DemoTests.
Import Demo.

Fixpoint distinct (l : list string) : bool :=
  match l with [] => true | x :: l => negb (existsb (String.eqb x) l) && distinct l end.
Definition every_target_has_a_distinct_id_and_path : bool :=
  distinct (t_id <$> TARGETS) && distinct (t_path <$> TARGETS).
Definition exactly_one_target_is_free : bool := (length (List.filter t_free TARGETS) =? 1)%nat.

Definition grpc_targets_send_a_well_formed_empty_frame : bool :=
  match target "grpc" with
  | Some t => bool_decide (byte_of <$> schars (grpc_web_body t) = [0; 0; 0; 0; 0])
  | None => false
  end.
Definition json_targets_send_their_body_verbatim : bool :=
  match target "graphql" with
  | Some t => String.eqb (grpc_web_body t) (t_body t) && contains "checkpoint" (t_body t)
  | None => false
  end.

Definition binary_response_bodies_are_described_rather_than_rendered : bool :=
  let nul s := String "000" s in
  let described := trim_body (nul (nul (nul (nul (String "005" "hello"))))) in
  starts_with "<" described && contains "bytes" described.

(** The accented letter is two bytes, the ellipsis three. *)
Definition long_text_bodies_are_truncated_on_a_character_boundary : bool :=
  let long := repeat_str (String "195" (String "169" "")) 500 in
  let trimmed := trim_body long in
  starts_with (srev ELLIPSIS) (srev trimmed) && (slen trimmed <? slen long)%nat.
Definition short_text_bodies_are_left_alone : bool :=
  let body := "{" +:+ String "034" ("data" +:+ String "034" ":{}}") in String.eqb (trim_body body) body.

Definition tests : list bool :=
  [every_target_has_a_distinct_id_and_path; exactly_one_target_is_free;
   grpc_targets_send_a_well_formed_empty_frame; json_targets_send_their_body_verbatim;
   binary_response_bodies_are_described_rather_than_rendered;
   long_text_bodies_are_truncated_on_a_character_boundary; short_text_bodies_are_left_alone].
End DemoTests.

Lemma demo_tests_pass : all DemoTests.tests = true.
Proof. vm_compute. reflexivity. Qed.

(** ** [metrics.rs] *)

Module MetricsTests.
Import World Metrics.

Definition metric_names_follow_prometheus_conventions : bool :=
  forallb (λ c, ends_with "_total" c && starts_with "x402_" c)
    [REQUESTS; PAYMENTS; SESSIONS; SESSION_REJECTIONS; REPLAY_CLAIMS; RATE_LIMIT;
     SETTLEMENT_AFTER_SERVE_FAILURES; STORE_ERRORS] &&
  forallb (ends_with "_seconds") [VERIFICATION_SECONDS; SETTLEMENT_SECONDS].
End MetricsTests.

Lemma metrics_tests_pass : MetricsTests.metric_names_follow_prometheus_conventions = true.
Proof. vm_compute. reflexivity. Qed.
